(* ===== verification/_CoqProject ===== *)
-Q . S2P
Prelude.v
GoFloat.v
GoStrings.v
GoTime.v
GoNet.v
Types.v
Classify.v
Eligible.v
Select.v
Health.v
Path.v
Endpoint.v
Addrs.v
Effort.v
Billing.v
Ports.v
Codec.v
Monitor.v
Directory.v
DirectoryInv.v
DirectoryLaws.v
DirectoryView.v
TxnPins.v
StatsBook.v
Limiter.v
LimiterSound.v
LimiterLaws.v
Prog.v
Http.v
Proxy.v
Auth.v
RateConfig.v
Config.v
ConfigLaws.v
Bundle.v
AuthLaws.v
Forwarding.v
Serve.v
Router.v
Runs.v
Answers.v
AnswersServe.v
Discipline.v
Attempts.v
Inflight.v
RouterLaws.v
FanLaws.v
StatusFetch.v
Tokens.v
RouterWitness.v
RegistrySync.v
Agent.v
Passthrough.v
PassthroughLaws.v
RegistryAlgo.v
RegistryAlgoLaws.v
Files.v
RegistryFile.v
DataDir.v
Gossip.v
GossipLaws.v
Clock.v
AlgodHttp.v
FakeAlgod.v
AlgodLaws.v
LimiterRun.v
MonitorRun.v
Wire.v
Cli.v
DevFleet.v
