(* ===== verification/Prelude.v ===== *)
(** * algod-mesh: verification library

    algod-mesh is an agent that runs beside an Algorand node (algod).  It
    proxies the node's REST API for its clients and, when the node is behind,
    lacks the data or is down, sends a request to a peer that can serve it, or
    as a last resort to a configured external.  Agents know each other from a
    registry of sealed records and exchange signed heartbeats and probes.  This
    library models the Go code under src/internal and proves what makes its
    parts correct.  Names are the code's; each file's header names its source.

    ** The parts, and how they meet

    - The decision logic, pure functions (src/internal/domain): [Types],
      [Classify] (what a request needs), [Eligible] and [Select] (which
      upstream may, and which one does, serve it), [Health] (hysteresis),
      [Path] and [Endpoint] (which address of a peer), [Effort] and [Billing]
      (what a request costs), [Codec] (sealed records, signed gossip).
    - The services, state and its critical sections (src/internal/app):
      [Monitor] (the local node; its goroutines and those who follow it in
      [MonitorRun]), [Directory] (the fleet), [TxnPins],
      [StatsBook], [Limiter] (over its file and over time: [LimiterRun]),
      [RegistrySync].
    - The request path (router.go, pending.go, ratelimit.go,
      src/internal/adapters/proxy): [Http] and [Proxy], [Auth], [Forwarding],
      [Serve], [Router], [StatusFetch].
    - The start of the program (src/internal/config, src/internal/agent,
      src/cmd): [Addrs] (address lists), [RateConfig] and [Config] (Finish:
      defaults, checks, secrets; [ConfigLaws] has its theorems), [Bundle] (the
      registry bundle and the sync key), [Agent] (what New passes to each
      service, the record published, the pass-through's addresses), [Wire] (the
      adapters FromConfig chooses; Serve and Run), [Cli] (the registry commands
      and check-node).
    - The adapters (src/internal/adapters): [Passthrough] (the raw listeners,
      their goroutines over one shared server; [PassthroughLaws]),
      [RegistryAlgo] (the registry on chain: the client's transactions and the
      contract of src/contract they call, on one ledger; [RegistryAlgoLaws]),
      [RegistryFile] (the file registry and the record cache, over the
      file-system calls of [Files]), [DataDir] (what is read from algod's data
      directory), [AlgodHttp] (algod's REST client), [Gossip] (the UDP transport
      and the in-memory one; [GossipLaws]), [Clock] (the clock of the tests),
      and [Proxy].
    - What the program is tested on: [FakeAlgod] (src/internal/fakealgod), the
      node the development fleet simulates; [AlgodLaws] puts the client and the
      monitor's search against it; [DevFleet] (src/internal/devfleet), what that
      fleet gives each of its agents.
    - Below them: this prelude (machine integers, strings, stable sorting,
      lemmas on lists and maps), the pieces of Go's standard library the
      program uses ([GoFloat], [GoStrings], [GoTime], [GoNet]) and [Prog].

    The directory turns records, heartbeats, probes and the monitor's state
    into a snapshot of [Types.Upstream] rows; the router classifies a request,
    has the limiter bill it, selects among the rows and forwards; outcomes feed
    the statistics the next snapshot shows, and accepted transactions the pins
    the next pending lookup starts from.  [RegistrySync] feeds the directory.
    Before any of it, [Config.Finish] turns the file into options the services
    rely on: [Agent] composes it with the limiter, [Auth] and the records.

    ** How state and effects are modelled

    A service is a [Record] of its fields; each method that holds the mutex is
    one function on it, so that any interleaving of goroutines is a sequence of
    such steps: [DirectoryLaws.dstep] with [reachable], [LimiterSound]'s
    limiterStep, [StatsBook.bookStep], [TxnPins.pinStep],
    [StatusFetch.statusStep], [MonitorRun.sstep] (whose goroutines are programs
    with their loops).  Where the code shares mutable objects (a peer's
    link and its paths, a client's key and its tickets, a status fetch and its
    waiters), the state is a heap and references are numbers.

    A request handler is a program ([Prog.prog]) over the calls of [Http.Act]:
    the clock, the contexts, the directory, the limiter, the network and the
    ResponseWriter are the environment, whose answers no theorem constrains
    unless it says so.  A panic is a leaf of its own, defers are
    [Prog.finally], and [Runs] has the inversion tactics.  Contexts are the
    calls that read them ([AGone], [AQuota], [ACtxErr], [AUntil]): each read
    may see a new answer, as deadlines and cancellations are asynchronous.

    Integers keep their width: [wu64] and [wi64] are written where the code's
    arithmetic can wrap.  Floats are the class [GoFloat.Num], which binary64
    ([GoFloat.float64]) and exact rationals implement: the limiter's laws
    ([LimiterLaws.Admit_decides], [LimiterRun.restart_forgives_nothing]) hold in
    any arithmetic and are evaluated in binary64; what only exact arithmetic
    gives ([LimiterLaws.retry_after_honest], [LimiterRun.restart_exact]) says so.  Cryptography and JSON are records of
    operations with records of laws ([Codec.Crypto], [Codec.CryptoLaws], ...),
    the random source and SHA-256 are parameters.

    ** What the theorems show

    - Requests ([RouterLaws], [Answers], [Attempts], [Tokens], [FanLaws],
      [AuthLaws]):
      every request is answered at most once, and once if served unless its
      client left; the upstreams tried are the selection's, in order, each
      with the client's whole body, externals last; a refused request reaches
      nothing; a billed request's ticket is closed exactly once, panics
      included; every upstream is sent its own token, never a client's; a client
      cannot choose the allowance it is billed to; a broadcast or pending lookup
      relays the best of the answers that came, externals only when no node
      answered.
    - Selection ([Select], [Eligible], [Classify]): what is selected is exactly
      what is eligible, eligibility is a declarative specification, every class
      the router holds is well formed.
    - The fleet ([DirectoryInv], [DirectoryLaws], [DirectoryView]): an invariant
      of the heap over every interleaving, authenticity and isolation of
      gossip, waiters are never lost, the snapshot says what the state says.
    - Allowances ([Billing], [LimiterSound], [LimiterLaws], [LimiterRun]): the
      heap of keys and tickets stays consistent, a request is admitted exactly
      when its plan allows it and what is reserved and unsettled leaves room,
      and a restart leaves every named client what it had left, refilled for
      the time it took.
    - Configuration ([ConfigLaws], [Addrs], [Bundle], [Agent]): a finished
      configuration is well formed ([ConfigLaws.WellFormed], stated apart from
      the checks of the code) and finishing it again changes nothing but
      what a negative timeout breaks; a list of listen addresses is accepted
      exactly when no two of them collide; every client the limiter names has
      a plan, a listed token is billed to its own name; the pass-through binds
      no port of the agent's or of algod's; a bundle reads back as written.
    - The life of an agent ([Wire], [Cli]): nothing starts before every address
      is bound, whatever ends it every listener is closed, it drains in order,
      and Serve's save of the allowances and those of the limiter's goroutine,
      which nothing waits for, come in any order ([Wire.agentRun]); agents of a static mesh with one secret verify each other; the
      agent's own registry reads are let in and billed to nobody; a registry
      command sends nothing the sync key is not authorized for.
    - The local node ([MonitorRun]): under any interleaving of the monitor's
      goroutines, what it shows is what its node answered, and nobody who
      follows it sleeps through a change.
    - Adapters: the registry on chain is a map from node to record, a put pays
      exactly what its box lacks before the call that fills it, and the
      commands on the contract itself stop without the creator's key; the file
      registry changes atomically, wherever a write stops; the pass-through
      keeps no connection after its shutdown, which ends once it is cut; what
      algod's directory names is where the pass-through dials; a heartbeat
      leaves from a socket of the network it is routed over, and an answer to
      one goes back the way it came; the REST client reads from a node what the
      node holds, and the search for its oldest round finds it.
    - The rest: round trips of records and messages ([Codec]), the breaker and
      in-flight counts as functions of the history ([StatsBook]), the lifetime
      of a pin ([TxnPins]), the bisection for a node's oldest round terminates
      and is right ([Monitor]), status fetches are shared and never go back
      ([StatusFetch]), a node publishes its record once, in the refresh that read
      the registry without it ([RegistrySync]).
    - Defects the model brought out: an upstream's in-flight count leaks when
      the copy of its answer is cut off ([Inflight.aborted_copy_leaks]); a
      relayed informational answer ends the attempts and leaves the client
      without an answer ([Attempts.informational_ends_attempts]); a record
      whose endpoint does not parse panics every agent that fans out to its
      node ([FanLaws.bad_endpoint_panics]); a status below the round waited
      for is served ([RouterWitness.status_below_round_served]); a negative
      upstream_timeout passes the check and stops the start
      ([ConfigLaws.negative_timeout_fails_later]); `registry add` keeps the
      blanks of -endpoint ([Cli.add_keeps_blanks]); the check's summary calls a
      closed agent open ([Agent.summary_says_open]); see also
      [Monitor.measured_window_forgotten], [DirectoryView.stale_probe_trusted]
      and [TxnPins.pin_outlives_two_ttls].

    ** Bounds and fuel

    Recursion is structural but for [Monitor.bisect] and
    [GoNet.parse_groups], which take fuel.  65 halvings exhaust any interval of
    64-bit rounds, and [Monitor.oldest_round_measured] shows the result is
    reached; an IPv6 address has at most the 8 groups its parser has fuel for,
    and what is left over after them is an error in the library too.  Loops that
    only end with their context are given as their first n turns for every n
    ([RegistrySync.turns], the loops of [MonitorRun]) or as the events of their
    turns ([LimiterRun.runLoop]).  The nonce of the path pings is assumed not to wrap
    (2^64 pings).  A URL query is limited to the 10000 parameters net/url
    accepts.

    ** Not modelled, and why

    Metrics and log lines (no effect on behaviour); the system clock and the
    kernel's sockets (their answers are the environment's); the encodings of
    the Algorand SDK and its REST client (arguments of [RegistryAlgo]); the
    flushes, trailers and upgraded connections of httputil.ReverseProxy and
    what encoding/json prints (library behaviour); the fields of /mesh/status read
    from elsewhere; the two loops of the directory that only hand each message
    or tick to a modelled critical section; ToUpper and TrimSpace outside
    ASCII; the order of a sort among equals (proved unique where it matters).
    YAML decoding, base58 addresses and mnemonics are libraries the program
    calls (arguments).  Flag parsing, the files `config example` writes, key
    generation and the goroutines of the development fleet are input, output
    and composition. *)
From stdpp Require Export base option list strings gmap sorting.
From Stdlib Require Export ZArith Lia Bool ZifyBool ZifyNat.
From Stdlib Require Import Ascii.
From coqutil Require Export Datatypes.RecordSettersUsingExistingGetters.

Declare Scope mesh_scope.
Delimit Scope mesh_scope with mesh.
Create HintDb mesh.
Create Rewrite HintDb mesh.

(** ** Machine integers

    Go's [uint64], [int64] and [int] (64-bit on the supported platforms) are
    [Z] with the wrap-around written at each operation that can reach it. *)
Definition two64 : Z := 2 ^ 64.
Definition two63 : Z := 2 ^ 63.
Definition wu64 (z : Z) : Z := z `mod` two64.
Definition wi64 (z : Z) : Z := (z + two63) `mod` two64 - two63.
Definition MaxInt64 : Z := two63 - 1.
Definition MinInt64 : Z := - two63.
Definition MaxUint64 : Z := two64 - 1.

Definition is_u64 (z : Z) : Prop := (0 <= z < two64)%Z.
Definition is_i64 (z : Z) : Prop := (- two63 <= z < two63)%Z.

Lemma two64_eq : two64 = 18446744073709551616%Z.
Proof. reflexivity. Qed.
Lemma two63_eq : two63 = 9223372036854775808%Z.
Proof. reflexivity. Qed.

(** [lia] with the machine constants made visible. *)
Ltac mlia :=
  unfold is_u64, is_i64, MaxInt64, MinInt64, MaxUint64 in *;
  rewrite ?two64_eq, ?two63_eq in *; lia.

Lemma wu64_id z : is_u64 z → wu64 z = z.
Proof. intros H. apply Z.mod_small. mlia. Qed.
Lemma wu64_range z : is_u64 (wu64 z).
Proof. apply Z.mod_pos_bound. mlia. Qed.
Lemma wi64_id z : is_i64 z → wi64 z = z.
Proof. intros H. unfold wi64. rewrite Z.mod_small; mlia. Qed.
Lemma wi64_range z : is_i64 (wi64 z).
Proof.
  unfold wi64. pose proof (Z.mod_pos_bound (z + two63) two64 eq_refl). mlia.
Qed.
#[export] Hint Resolve wu64_range wi64_range : mesh.
#[export] Hint Rewrite wu64_id wi64_id using mlia : mesh.

(** ** Results of fallible Go code *)
Inductive result (E A : Type) :=
  | Ok (a : A)
  | Err (e : E).
Arguments Ok {E A} a.
Arguments Err {E A} e.

Definition is_ok {E A} (r : result E A) : bool :=
  match r with Ok _ => true | Err _ => false end.

#[export] Instance result_ret {E} : MRet (result E) := λ A a, Ok a.
#[export] Instance result_bind {E} : MBind (result E) := λ A B f r,
  match r with Ok a => f a | Err e => Err e end.

(** A pointer that is not nil. *)
Definition isSome {A} (o : option A) : bool := match o with Some _ => true | None => false end.
Definition isNone {A} (o : option A) : bool := negb (isSome o).

(** Membership of a string in a list of cases ([case "a", "b":]). *)
Definition elem (s : string) (l : list string) : bool := existsb (String.eqb s) l.

Lemma elem_In s l : elem s l = true ↔ s ∈ l.
Proof.
  unfold elem. rewrite existsb_exists. split.
  - intros (x & Hx & E). apply String.eqb_eq in E as ->. by apply list_elem_of_In.
  - intros H. exists s. rewrite String.eqb_eq. by rewrite <- list_elem_of_In.
Qed.

(** ** Tactics *)

(** Booleans of the code as propositions, in hypotheses and goal. *)
Ltac bprop :=
  repeat match goal with
  | H : context [andb _ _ = true] |- _ => rewrite andb_true_iff in H
  | H : context [orb _ _ = true] |- _ => rewrite orb_true_iff in H
  | H : context [andb _ _ = false] |- _ => rewrite andb_false_iff in H
  | H : context [orb _ _ = false] |- _ => rewrite orb_false_iff in H
  | H : context [negb _ = true] |- _ => rewrite negb_true_iff in H
  | H : context [negb _ = false] |- _ => rewrite negb_false_iff in H
  | H : context [String.eqb _ _ = true] |- _ => rewrite String.eqb_eq in H
  | H : context [String.eqb _ _ = false] |- _ => rewrite String.eqb_neq in H
  | |- context [andb _ _ = true] => rewrite andb_true_iff
  | |- context [orb _ _ = true] => rewrite orb_true_iff
  | |- context [andb _ _ = false] => rewrite andb_false_iff
  | |- context [orb _ _ = false] => rewrite orb_false_iff
  | |- context [negb _ = true] => rewrite negb_true_iff
  | |- context [negb _ = false] => rewrite negb_false_iff
  | |- context [String.eqb _ _ = true] => rewrite String.eqb_eq
  | |- context [String.eqb _ _ = false] => rewrite String.eqb_neq
  end; destruct_and?.

(** Case analysis on the next condition the goal (or a hypothesis) branches on. *)
Ltac dmatch :=
  match goal with
  | |- context [match ?x with _ => _ end] => let E := fresh "E" in destruct x eqn:E
  end.
Ltac dmatch_in H :=
  match type of H with
  | context [match ?x with _ => _ end] => let E := fresh "E" in destruct x eqn:E
  end.
Ltac dmatches := repeat dmatch.
Ltac dmatches_in H := repeat dmatch_in H.

(** ** Lists *)

(** A fold of steps that each keep a property keeps it. *)
Lemma foldl_keeps {A B} (P : A → Prop) (f : A → B → A) l a :
  P a → (∀ a b, P a → P (f a b)) → P (foldl f a l).
Proof. intros Ha Hf. revert a Ha. induction l as [|b l IH]; intros a Ha; simpl; auto. Qed.

Lemma NoDup_fmap_eq {A B} (f : A → B) l x y : NoDup (f <$> l) → x ∈ l → y ∈ l → f x = f y → x = y.
Proof.
  induction l as [|z l IH]; [by intros _ ?%elem_of_nil |]. rewrite fmap_cons. intros [Hz Hl]%NoDup_cons Hx Hy E.
  apply elem_of_cons in Hx as [->|Hx], Hy as [->|Hy]; [done | | | by apply IH]; destruct Hz; [rewrite E | rewrite <- E]; by apply list_elem_of_fmap_2.
Qed.

(** ** Strings as the code compares them *)
Notation "a =s b" := (String.eqb a b) (at level 70) : mesh_scope.
Notation "a <>s b" := (negb (String.eqb a b)) (at level 70) : mesh_scope.
Open Scope mesh_scope.

Lemma seqb_refl s : (s =s s) = true.
Proof. apply String.eqb_refl. Qed.
#[export] Hint Rewrite seqb_refl : mesh.

(** Go's order on strings: lexicographic on bytes. *)
Definition sltb (a b : string) : bool :=
  match String.compare a b with Lt => true | _ => false end.

Lemma scompare_refl a : String.compare a a = Eq.
Proof.
  pose proof (String.compare_antisym a a) as H. by destruct (String.compare a a).
Qed.

Lemma ascii_compare_trans c a b d :
  Ascii.compare a b = c → Ascii.compare b d = c → Ascii.compare a d = c.
Proof.
  unfold Ascii.compare. destruct c; rewrite ?N.compare_eq_iff, ?N.compare_lt_iff, ?N.compare_gt_iff; lia.
Qed.

Lemma ascii_compare_eq a b : Ascii.compare a b = Eq ↔ a = b.
Proof.
  split; [apply Ascii.compare_eq_iff |]. intros ->. unfold Ascii.compare. apply N.compare_refl.
Qed.

Lemma sltb_trans a b c : sltb a b = true → sltb b c = true → sltb a c = true.
Proof.
  unfold sltb. revert b c. induction a as [|x a IH]; intros [|y b] [|z c]; simpl; try done.
  destruct (Ascii.compare x y) eqn:E1; try done;
  destruct (Ascii.compare y z) eqn:E2; try done; intros H1 H2.
  - apply ascii_compare_eq in E1 as ->. rewrite E2. eauto.
  - apply ascii_compare_eq in E1 as ->. by rewrite E2.
  - apply ascii_compare_eq in E2 as ->. by rewrite E1.
  - by rewrite (ascii_compare_trans Lt _ _ _ E1 E2).
Qed.

Lemma sltb_irrefl a : sltb a a = false.
Proof. unfold sltb. by rewrite scompare_refl. Qed.

Lemma sltb_total a b : sltb a b = false → sltb b a = false → a = b.
Proof.
  unfold sltb. rewrite (String.compare_antisym a b).
  destruct (String.compare b a) eqn:E; simpl; try done.
  intros _ _. symmetry. by apply String.compare_eq_iff.
Qed.
#[export] Hint Rewrite sltb_irrefl : mesh.

(** ** The standard library's stable sort

    [sort.SliceStable], [sort.Strings] and the router's hand-written sort all
    insert each element into the sorted prefix, moving it left while it is
    less than its neighbour.  (For the strict weak orders proved below the
    result of a stable sort is unique, so the block merging the library adds
    for long slices does not show.)  The prefix is kept reversed. *)
(** A strict weak order on the elements that satisfy P. *)
Record StrictWeak {A} (P : A → Prop) (less : A → A → bool) : Prop := {
  sw_asym a b : P a → P b → less a b = true → less b a = false;
  sw_cotrans a b c : P a → P b → P c → less a c = true → less a b = true ∨ less b c = true
}.

Section StableSort.
Context {A : Type} (less : A → A → bool).

Fixpoint sort_insert (x : A) (r : list A) : list A :=
  match r with
  | [] => [x]
  | y :: r' => if less x y then y :: sort_insert x r' else x :: y :: r'
  end.

Definition insertion_sort (l : list A) : list A :=
  reverse (foldl (λ r x, sort_insert x r) [] l).

Lemma sort_insert_perm x r : sort_insert x r ≡ₚ x :: r.
Proof.
  induction r as [|y r IH]; simpl; [done |].
  destruct (less x y); [| done]. rewrite IH. apply Permutation_swap.
Qed.

Lemma sort_fold_perm l r : foldl (λ r x, sort_insert x r) r l ≡ₚ l ++ r.
Proof.
  revert r. induction l as [|x l IH]; intros r; simpl; [done |].
  rewrite IH, sort_insert_perm. by rewrite Permutation_middle.
Qed.

Lemma insertion_sort_perm l : insertion_sort l ≡ₚ l.
Proof.
  unfold insertion_sort. by rewrite reverse_Permutation, sort_fold_perm, app_nil_r.
Qed.

Lemma reverse_rev {B} (l : list B) : reverse l = rev l.
Proof. by rewrite rev_alt. Qed.

(** The sort is stable: elements that do not compare keep their order. *)
Lemma sort_insert_stable (f : A → bool) x r :
  (∀ y, f x = true → f y = true → less x y = false) →
  List.filter f (sort_insert x r) = List.filter f (x :: r).
Proof.
  intros H. induction r as [|y r IH]; simpl; [done |]. destruct (less x y) eqn:E; [| done]. simpl in *. rewrite IH.
  destruct (f x) eqn:Ex, (f y) eqn:Ey; try done. by rewrite (H y) in E.
Qed.

Lemma insertion_sort_stable (f : A → bool) l :
  (∀ x y, f x = true → f y = true → less x y = false) → List.filter f (insertion_sort l) = List.filter f l.
Proof.
  intros H. assert (∀ r, List.filter f (foldl (λ r x, sort_insert x r) r l) = reverse (List.filter f l) ++ List.filter f r) as Hf.
  { induction l as [|x l IH]; intros r; [done |]. cbn [foldl]. rewrite IH, sort_insert_stable by auto. simpl.
    destruct (f x); [| done]. by rewrite reverse_cons, <- app_assoc. }
  unfold insertion_sort. rewrite reverse_rev, List.filter_rev, Hf. simpl. by rewrite app_nil_r, reverse_rev, rev_involutive.
Qed.

(** [sort_le a b] is "b is not less than a": what a sort by [less] guarantees. *)
Definition sort_le (a b : A) : Prop := less b a = false.

Context (P : A → Prop) (HSW : StrictWeak P less).

Lemma sort_le_trans a b c : P a → P b → P c → sort_le a b → sort_le b c → sort_le a c.
Proof.
  unfold sort_le. intros Ha Hb Hc H1 H2. apply not_true_is_false. intros H.
  destruct (sw_cotrans _ _ HSW c b a Hc Hb Ha H); congruence.
Qed.

Lemma sort_insert_sorted x r :
  P x → Forall P r →
  StronglySorted (flip sort_le) r → StronglySorted (flip sort_le) (sort_insert x r).
Proof.
  intros Hx HP. induction r as [|y r IH]; simpl; intros Hr; [by repeat constructor |].
  inversion Hr as [|? ? Hr' Hy]; subst. apply Forall_cons in HP as [HPy HP].
  destruct (less x y) eqn:E.
  - constructor; [by apply IH |].
    rewrite sort_insert_perm. constructor; [| done].
    unfold flip, sort_le. by apply (sw_asym _ _ HSW).
  - constructor; [done |]. constructor; [done |].
    rewrite Forall_forall in *. intros z Hz. specialize (Hy z Hz). unfold flip in *.
    by apply (sort_le_trans z y x); auto.
Qed.

Lemma StronglySorted_reverse {B} (R : B → B → Prop) l :
  StronglySorted (flip R) l → StronglySorted R (reverse l).
Proof.
  induction l as [|x l IH]; intros H; [constructor |].
  inversion H as [|? ? Hl Hx]; subst. rewrite reverse_cons.
  apply StronglySorted_app_2; [| by apply IH | apply SSorted_cons; constructor].
  intros a b Ha Hb. apply list_elem_of_singleton in Hb as ->.
  rewrite elem_of_reverse in Ha. rewrite Forall_forall in Hx. by apply Hx.
Qed.

Lemma insertion_sort_sorted l : Forall P l → StronglySorted sort_le (insertion_sort l).
Proof.
  intros HP. apply StronglySorted_reverse.
  assert (∀ r, Forall P r → StronglySorted (flip sort_le) r →
    StronglySorted (flip sort_le) (foldl (λ r x, sort_insert x r) r l)) as H;
    [| apply H; constructor].
  induction l as [|x l IH]; intros r HPr Hr; simpl; [done |]. apply Forall_cons in HP as [HPx HP].
  apply IH; [done | | by apply sort_insert_sorted].
  rewrite sort_insert_perm. by constructor.
Qed.
End StableSort.

(** Comparing by an integer key first. *)
Definition by_key {A} (k : A → Z) (next : A → A → bool) (a b : A) : bool :=
  if negb (k a =? k b)%Z then (k a <? k b)%Z else next a b.

Lemma by_key_strict {A} P (k : A → Z) next : StrictWeak P next → StrictWeak P (by_key k next).
Proof.
  unfold by_key. intros [Ha Hc]. constructor; intros a b.
  - intros Pa Pb. destruct (Z.eqb_spec (k a) (k b)), (Z.eqb_spec (k b) (k a)); simpl; try lia; auto.
  - intros c Pa Pb Pc. specialize (Hc a b c Pa Pb Pc).
    destruct (Z.eqb_spec (k a) (k b)), (Z.eqb_spec (k b) (k c)), (Z.eqb_spec (k a) (k c)); simpl; try lia; auto.
Qed.

Lemma StrictWeak_ext {A} P (less less' : A → A → bool) :
  (∀ a b, less a b = less' a b) → StrictWeak P less → StrictWeak P less'.
Proof. intros H [Ha Hc]. constructor; intros a b; rewrite <- ?H; [auto |]. intros c. rewrite <- !H. auto. Qed.

(** The sorted order does not depend on the order of the input, when no two
    elements compare equal. *)
Lemma insertion_sort_unique {A} (less : A → A → bool) (P : A → Prop) l l' :
  StrictWeak P less → Forall P l → l ≡ₚ l' →
  (∀ a b, a ∈ l → b ∈ l → less a b = false → less b a = false → a = b) →
  insertion_sort less l = insertion_sort less l'.
Proof.
  intros Hs HP Hp Heq. assert (Forall P l') as HP' by by rewrite <- Hp.
  apply (StronglySorted_unique_strong (sort_le less)).
  - intros a b. rewrite !insertion_sort_perm, <- Hp. unfold sort_le. eauto.
  - by apply (insertion_sort_sorted less P Hs).
  - by apply (insertion_sort_sorted less P Hs).
  - by rewrite !insertion_sort_perm.
Qed.

(** The ids of a map in [sort.Strings] order. *)
Definition sort_strings (l : list string) : list string := insertion_sort sltb l.

Lemma sltb_asym a b : sltb a b = true → sltb b a = false.
Proof.
  intros H. destruct (sltb b a) eqn:E; [| done].
  pose proof (sltb_trans _ _ _ H E) as H'. by rewrite sltb_irrefl in H'.
Qed.

Lemma sltb_strict {A} P (f : A → string) : StrictWeak P (λ a b, sltb (f a) (f b)).
Proof.
  constructor; [intros; by apply sltb_asym |]. intros a b c _ _ _ H.
  destruct (sltb (f a) (f b)) eqn:E1; [by left | right].
  destruct (sltb (f b) (f c)) eqn:E2; [done |].
  destruct (sltb (f b) (f a)) eqn:E3.
  - by rewrite (sltb_trans _ _ _ E3 H) in E2.
  - pose proof (sltb_total _ _ E1 E3) as Hab. by rewrite <- Hab, H in E2.
Qed.
