(* ===== verification/GoFloat.v ===== *)
(** * GoFloat: Go's [float64]

    The code's floating-point arithmetic, twice behind one interface.
    [Num F] lists the operations the program uses; [float64] is IEEE 754
    binary64 with round-to-nearest-even (the standard library's [SpecFloat]
    with 53 bits of precision), which is what the definitions of the other
    files compute with, and [Q] is exact arithmetic, in which the billing
    laws that rounding would blur are stated.  [NumLaws F] is what both
    promise about comparison, [min] and [max].

    Go may fuse a multiplication and an addition on some architectures; the
    model is the unfused evaluation, as on amd64. *)
From S2P Require Import Prelude.
From Stdlib Require Import QArith Qround SpecFloat Lqa.
Open Scope Z_scope.

Class Num (F : Type) := {
  nadd : F → F → F;
  nsub : F → F → F;
  nmul : F → F → F;
  ndiv : F → F → F;
  nltb : F → F → bool;
  nleb : F → F → bool;
  neqb : F → F → bool;
  nmin : F → F → F;
  nmax : F → F → F;
  nisnan : F → bool;
  nofZ : Z → F;                (* float64(i) of an integer *)
  nfloor : F → option Z;       (* math.Floor, as an integer; None: not finite *)
  nceil : F → option Z;        (* math.Ceil *)
  ntrunc : F → option Z        (* truncation, as a conversion does *)
}.

Declare Scope num_scope.
Delimit Scope num_scope with num.
Infix "+" := nadd : num_scope.
Infix "-" := nsub : num_scope.
Infix "*" := nmul : num_scope.
Infix "/" := ndiv : num_scope.
Infix "<?" := nltb : num_scope.
Infix "<=?" := nleb : num_scope.
Infix "=?" := neqb : num_scope.

(** A literal with a fractional part: the float64 nearest to n/d. *)
Definition nlit {F} `{Num F} (n d : Z) : F := ndiv (nofZ n) (nofZ d).
Definition nzero {F} `{Num F} : F := nofZ 0.

(** int64(x): what an amd64 conversion leaves for a value out of range. *)
Definition to_i64 (o : option Z) : Z :=
  match o with
  | Some z => if (MinInt64 <=? z) && (z <=? MaxInt64) then z else MinInt64
  | None => MinInt64
  end.

Lemma to_i64_range o : is_i64 (to_i64 o).
Proof. unfold to_i64. destruct o as [z|]; [case_match |]; mlia. Qed.

Lemma to_i64_id z : is_i64 z → to_i64 (Some z) = z.
Proof. unfold to_i64. case_match; mlia. Qed.

(** ** binary64 *)
Definition float64 : Type := spec_float.
Definition f64_prec : Z := 53.
Definition f64_emax : Z := 1024.

Definition f64_isnan (x : float64) : bool :=
  match x with S754_nan => true | _ => false end.

Definition f64_of_Z (z : Z) : float64 := binary_normalize f64_prec f64_emax z 0 false.

(** The integer part of a finite value in the direction [div] rounds to. *)
Definition f64_int (div : Z → Z → Z) (x : float64) : option Z :=
  match x with
  | S754_zero _ => Some 0
  | S754_finite s m e =>
      let v := cond_Zopp s (Zpos m) in
      Some (if 0 <=? e then v * 2 ^ e else div v (2 ^ (- e)))
  | _ => None
  end.

Definition f64_min (a b : float64) : float64 :=
  match a, b with
  | S754_nan, _ | _, S754_nan => S754_nan
  | S754_zero s1, S754_zero s2 => S754_zero (s1 || s2)
  | _, _ => if SFltb b a then b else a
  end.

Definition f64_max (a b : float64) : float64 :=
  match a, b with
  | S754_nan, _ | _, S754_nan => S754_nan
  | S754_zero s1, S754_zero s2 => S754_zero (s1 && s2)
  | _, _ => if SFltb a b then b else a
  end.

#[export] Instance Num_float64 : Num float64 := {|
  nadd := SFadd f64_prec f64_emax;
  nsub := SFsub f64_prec f64_emax;
  nmul := SFmul f64_prec f64_emax;
  ndiv := SFdiv f64_prec f64_emax;
  nltb := SFltb;
  nleb := SFleb;
  neqb := SFeqb;
  nmin := f64_min;
  nmax := f64_max;
  nisnan := f64_isnan;
  nofZ := f64_of_Z;
  nfloor := f64_int Z.div;
  nceil := f64_int (λ a b, - ((- a) / b));
  ntrunc := f64_int Z.quot
|}.

(** ** Exact arithmetic *)
Definition Q_ltb (a b : Q) : bool := negb (Qle_bool b a).

#[export] Instance Num_Q : Num Q := {|
  nadd := Qplus;
  nsub := Qminus;
  nmul := Qmult;
  ndiv := Qdiv;
  nltb := Q_ltb;
  nleb := Qle_bool;
  neqb := Qeq_bool;
  nmin := λ a b, if Q_ltb b a then b else a;
  nmax := λ a b, if Q_ltb a b then b else a;
  nisnan := λ _, false;
  nofZ := inject_Z;
  nfloor := λ x, Some (Qfloor x);
  nceil := λ x, Some (Qceiling x);
  ntrunc := λ x, Some (Z.quot (Qnum x) (Zpos (Qden x)))
|}.

(** ** What both promise about order *)
Class NumLaws (F : Type) `{Num F} := {
  nltb_irrefl x : nltb x x = false;
  nltb_trans x y z : nltb x y = true → nltb y z = true → nltb x z = true;
  nltb_cotrans x y z : nisnan y = false →
    nltb x z = true → nltb x y = true ∨ nltb y z = true;
  nleb_ltb x y : nisnan x = false → nisnan y = false → nleb x y = negb (nltb y x);
  neqb_ltb x y : nisnan x = false → nisnan y = false →
    neqb x y = negb (nltb x y) && negb (nltb y x);
  nltb_nan x y : nltb x y = true → nisnan x = false ∧ nisnan y = false;
  nofZ_nan z : nisnan (nofZ z) = false;
  nmin_nan x y : nisnan x = false → nisnan y = false → nisnan (nmin x y) = false;
  nmin_le_l x y : nisnan x = false → nisnan y = false → nltb x (nmin x y) = false;
  nmin_le_r x y : nisnan x = false → nisnan y = false → nltb y (nmin x y) = false;
  nmin_glb x y z : nisnan x = false → nisnan y = false →
    nltb x z = false → nltb y z = false → nltb (nmin x y) z = false
}.

(** Comparison of binary64 values is lexicographic on this key. *)
Definition f64_key (x : float64) : Z * Z * Z :=
  match x with
  | S754_infinity true => (-2, 0, 0)
  | S754_finite true m e => (-1, -e, Zneg m)
  | S754_zero _ => (0, 0, 0)
  | S754_finite false m e => (1, e, Zpos m)
  | S754_infinity false => (2, 0, 0)
  | S754_nan => (0, 0, 0)
  end.

Definition key_lt (a b : Z * Z * Z) : Prop :=
  a.1.1 < b.1.1 ∨ a.1.1 = b.1.1 ∧ (a.1.2 < b.1.2 ∨ a.1.2 = b.1.2 ∧ a.2 < b.2).

Lemma SFltb_key x y :
  SFltb x y = true ↔ f64_isnan x = false ∧ f64_isnan y = false ∧ key_lt (f64_key x) (f64_key y).
Proof.
  unfold SFltb, SFcompare, key_lt.
  destruct x as [s1|[]| |[] m1 e1]; destruct y as [s2|[]| |[] m2 e2]; simpl;
    try (split; [by intros ? | intros (?&?&?); first [done | lia]]);
    try (split; [intros _; repeat split; lia | done]).
  - destruct (Z.compare_spec e1 e2); [| split; [done|lia] | split; [intros _; repeat split; lia|done]].
    subst. fold (Pos.compare m1 m2). rewrite <- Pos.compare_antisym.
    destruct (Pos.compare_spec m2 m1); simpl; (split; [try done; intros _; repeat split; lia | intros; try done; lia]).
  - destruct (Z.compare_spec e1 e2); [| split; [intros _; repeat split; lia|done] | split; [done|lia]].
    subst. fold (Pos.compare m1 m2).
    destruct (Pos.compare_spec m1 m2); simpl; (split; [try done; intros _; repeat split; lia | intros; try done; lia]).
Qed.

Lemma SFleb_ltb x y : f64_isnan x = false → f64_isnan y = false → SFleb x y = negb (SFltb y x).
Proof.
  unfold SFleb, SFltb, SFcompare. intros Hx Hy.
  destruct x as [s1|[]| |[] m1 e1]; destruct y as [s2|[]| |[] m2 e2]; try done;
    rewrite (Z.compare_antisym e2 e1); destruct (Z.compare e2 e1); try done;
    fold (Pos.compare m1 m2); fold (Pos.compare m2 m1);
    rewrite (Pos.compare_antisym m2 m1); by destruct (Pos.compare m2 m1).
Qed.

Lemma SFeqb_ltb x y : f64_isnan x = false → f64_isnan y = false → SFeqb x y = negb (SFltb x y) && negb (SFltb y x).
Proof.
  unfold SFeqb, SFltb, SFcompare. intros Hx Hy.
  destruct x as [s1|[]| |[] m1 e1]; destruct y as [s2|[]| |[] m2 e2]; try done;
    rewrite (Z.compare_antisym e2 e1); destruct (Z.compare e2 e1); try done;
    fold (Pos.compare m1 m2); fold (Pos.compare m2 m1);
    rewrite (Pos.compare_antisym m2 m1); by destruct (Pos.compare m2 m1).
Qed.

Lemma SFltb_false x y :
  f64_isnan x = false → f64_isnan y = false →
  SFltb x y = false ↔ ¬ key_lt (f64_key x) (f64_key y).
Proof.
  intros Hx Hy. rewrite <- not_true_iff_false, SFltb_key. naive_solver.
Qed.

Lemma f64_min_cases x y :
  f64_isnan x = false → f64_isnan y = false →
  f64_isnan (f64_min x y) = false ∧
  (f64_key (f64_min x y) = f64_key x ∧ SFltb y x = false ∨
   f64_key (f64_min x y) = f64_key y ∧ SFltb x y = false).
Proof.
  intros Hx Hy. destruct (SFltb y x) eqn:E.
  - pose proof E as E'. apply SFltb_key in E' as (_ & _ & E').
    assert (f64_min x y = y) as ->
      by (destruct x, y; try done; unfold f64_min; by rewrite E).
    split; [done |]. right. split; [done |].
    apply SFltb_false; [done .. |]. unfold key_lt in *. lia.
  - assert (f64_key (f64_min x y) = f64_key x ∧ f64_isnan (f64_min x y) = false) as [? ?]
      by (destruct x, y; try done; unfold f64_min; by rewrite E).
    auto.
Qed.

(** Rounding a non-negative significand never yields NaN. *)
Lemma shr_1_nonneg r : 0 <= shr_m r → 0 <= shr_m (shr_1 r).
Proof. destruct r as [[|[]|[]] rb sb]; simpl; lia. Qed.

Lemma iter_pos_nonneg n r : 0 <= shr_m r → 0 <= shr_m (iter_pos shr_1 n r).
Proof.
  revert r. induction n as [n IH|n IH|]; intros r Hr; simpl; auto using shr_1_nonneg.
Qed.

Lemma shr_fexp_nonneg m e l : 0 <= m → 0 <= shr_m (shr_fexp f64_prec f64_emax m e l).1.
Proof.
  intros Hm. unfold shr_fexp, shr.
  assert (0 <= shr_m (shr_record_of_loc m l)) by (destruct l as [|[]]; done).
  case_match; simpl; auto using iter_pos_nonneg.
Qed.

Lemma round_even_nonneg m l : 0 <= m → 0 <= round_nearest_even m l.
Proof. unfold round_nearest_even. intros. repeat case_match; lia. Qed.

Lemma binary_round_aux_nan s m e l :
  0 <= m → f64_isnan (binary_round_aux f64_prec f64_emax s m e l) = false.
Proof.
  intros Hm. unfold binary_round_aux.
  pose proof (shr_fexp_nonneg m e l Hm) as H1.
  destruct (shr_fexp f64_prec f64_emax m e l) as [r1 e1]. simpl in H1.
  pose proof (shr_fexp_nonneg (round_nearest_even (shr_m r1) (loc_of_shr_record r1)) e1 loc_Exact) as H2.
  destruct (shr_fexp f64_prec f64_emax _ e1 loc_Exact) as [r2 e2]. simpl in H2.
  specialize (H2 (round_even_nonneg _ _ H1)).
  destruct (shr_m r2); [done | by case_match | lia].
Qed.

Lemma f64_of_Z_nan z : f64_isnan (f64_of_Z z) = false.
Proof.
  unfold f64_of_Z, binary_normalize, binary_round.
  destruct z; [done | |]; destruct (shl_align _ _ _); by apply binary_round_aux_nan.
Qed.

#[export] Instance NumLaws_float64 : NumLaws float64.
Proof.
  constructor; simpl.
  - intros x. apply not_true_iff_false. rewrite SFltb_key. unfold key_lt. lia.
  - intros x y z. rewrite !SFltb_key. unfold key_lt. intros (?&?&?) (?&?&?). repeat split; [done .. | lia].
  - intros x y z Hy. rewrite !SFltb_key. unfold key_lt. intros (?&?&?).
    destruct (decide (key_lt (f64_key x) (f64_key y))) as [Hd|Hd]; unfold key_lt in Hd; [left | right]; (split; [done | split; [done | lia]]).
  - apply SFleb_ltb.
  - apply SFeqb_ltb.
  - intros x y. rewrite SFltb_key. naive_solver.
  - apply f64_of_Z_nan.
  - intros x y Hx Hy. by destruct (f64_min_cases x y Hx Hy).
  - intros x y Hx Hy. destruct (f64_min_cases x y Hx Hy) as [Hn [[Hk Hl]|[Hk Hl]]];
      rewrite SFltb_false in *; rewrite ?Hk; unfold key_lt in *; try done; lia.
  - intros x y Hx Hy. destruct (f64_min_cases x y Hx Hy) as [Hn [[Hk Hl]|[Hk Hl]]];
      rewrite SFltb_false in *; rewrite ?Hk; unfold key_lt in *; try done; lia.
  - intros x y z Hx Hy Hxz Hyz. apply not_true_iff_false. rewrite SFltb_key. intros (Hm & Hz & Hlt).
    rewrite SFltb_false in Hxz, Hyz by done.
    destruct (f64_min_cases x y Hx Hy) as [_ [[Hk _]|[Hk _]]]; rewrite Hk in Hlt; done.
Qed.

(** Booleans of exact arithmetic, for [lra]. *)
Lemma Q_ltb_lt a b : Q_ltb a b = true ↔ (a < b)%Q.
Proof.
  unfold Q_ltb. rewrite negb_true_iff, <- not_true_iff_false, Qle_bool_iff. split; [apply Qnot_le_lt | apply Qlt_not_le].
Qed.

Lemma Q_ltb_ge a b : Q_ltb a b = false ↔ (b <= a)%Q.
Proof. unfold Q_ltb. by rewrite negb_false_iff, Qle_bool_iff. Qed.

Lemma Q_leb_nle a b : Qle_bool a b = false ↔ (b < a)%Q.
Proof. rewrite <- not_true_iff_false, Qle_bool_iff. split; [apply Qnot_le_lt | apply Qlt_not_le]. Qed.

Ltac qprop :=
  repeat match goal with
  | H : Q_ltb _ _ = true |- _ => apply Q_ltb_lt in H
  | H : Q_ltb _ _ = false |- _ => apply Q_ltb_ge in H
  | H : Qle_bool _ _ = true |- _ => apply Qle_bool_iff in H
  | H : Qle_bool _ _ = false |- _ => apply Q_leb_nle in H
  | |- Q_ltb _ _ = true => apply Q_ltb_lt
  | |- Q_ltb _ _ = false => apply Q_ltb_ge
  | |- Qle_bool _ _ = true => apply Qle_bool_iff
  | |- Qle_bool _ _ = false => apply Q_leb_nle
  end.

#[export] Instance NumLaws_Q : NumLaws Q.
Proof.
  constructor; simpl; intros; try done.
  - qprop. lra.
  - qprop. lra.
  - destruct (Q_ltb x y) eqn:E; [by left | right]. qprop. lra.
  - unfold Q_ltb. by rewrite negb_involutive.
  - destruct (Qeq_bool x y) eqn:E, (Q_ltb x y) eqn:E1, (Q_ltb y x) eqn:E2; try done; exfalso; qprop;
      first [apply Qeq_bool_iff in E | apply Qeq_bool_neq in E]; first [lra | apply E; lra].
  - case_match; qprop; lra.
  - case_match; qprop; lra.
  - case_match; qprop; lra.
Qed.
