(* ===== verification/GoStrings.v ===== *)
(** * GoStrings: the standard library's string handling

    What the program uses of [strings], [strconv] and [net/url]: [Split],
    [TrimPrefix], [TrimSuffix], [Join], [Cut], [TrimSpace], [ToUpper],
    [ParseUint] and [url.ParseQuery].  A Go string is a Rocq [string], byte
    for byte.  [ToUpper] and [TrimSpace] are the ASCII case: an HTTP method
    and the header members they are applied to are ASCII tokens. *)
From S2P Require Import Prelude.
From Stdlib Require Import Ascii.
Open Scope Z_scope.

(** ** Splitting and trimming *)

(** strings.Split(s, c) for a one-byte separator: never empty. *)
Fixpoint split_on (c : ascii) (s : string) : list string :=
  match s with
  | EmptyString => [""]
  | String a s' =>
      if Ascii.eqb a c then "" :: split_on c s'
      else match split_on c s' with
           | w :: ws => String a w :: ws
           | [] => [String a ""]
           end
  end.

(** strings.Join(l, sep). *)
Fixpoint join (sep : string) (l : list string) : string :=
  match l with
  | [] => ""
  | [w] => w
  | w :: l' => w +:+ sep +:+ join sep l'
  end.

(** strings.Cut(s, c): the text before and after the first c. *)
Fixpoint cut (c : ascii) (s : string) : string * string * bool :=
  match s with
  | EmptyString => ("", "", false)
  | String a s' =>
      if Ascii.eqb a c then ("", s', true)
      else let '(b, e, ok) := cut c s' in (String a b, e, ok)
  end.

Fixpoint contains (c : ascii) (s : string) : bool :=
  match s with
  | EmptyString => false
  | String a s' => Ascii.eqb a c || contains c s'
  end.

(** strings.TrimPrefix(s, c) and strings.TrimSuffix(s, c). *)
Definition trim_prefix (c : ascii) (s : string) : string :=
  match s with
  | String a s' => if Ascii.eqb a c then s' else s
  | EmptyString => s
  end.

Fixpoint trim_suffix (c : ascii) (s : string) : string :=
  match s with
  | EmptyString => ""
  | String a EmptyString => if Ascii.eqb a c then "" else s
  | String a s' => String a (trim_suffix c s')
  end.

Definition has_prefix (p s : string) : bool := String.prefix p s.

Definition is_space (a : ascii) : bool :=
  let n := N_of_ascii a in
  ((9 <=? n)%N && (n <=? 13)%N) || (n =? 32)%N.

Fixpoint trim_left (s : string) : string :=
  match s with
  | String a s' => if is_space a then trim_left s' else s
  | EmptyString => ""
  end.

Fixpoint trim_right (s : string) : string :=
  match s with
  | EmptyString => ""
  | String a s' =>
      match trim_right s' with
      | EmptyString => if is_space a then "" else String a ""
      | r => String a r
      end
  end.

Definition trim_space (s : string) : string := trim_right (trim_left s).

Definition upper (a : ascii) : ascii :=
  let n := N_of_ascii a in
  if ((97 <=? n)%N && (n <=? 122)%N) then ascii_of_N (n - 32) else a.

Fixpoint to_upper (s : string) : string :=
  match s with
  | EmptyString => ""
  | String a s' => String (upper a) (to_upper s')
  end.

(** ** strconv.ParseUint(s, 10, 64) *)
Definition digit (a : ascii) : option Z :=
  let n := Z.of_N (N_of_ascii a) in
  if (48 <=? n) && (n <=? 57) then Some (n - 48) else None.

Fixpoint parse_digits (acc : Z) (s : string) : option Z :=
  match s with
  | EmptyString => Some acc
  | String a s' =>
      match digit a with
      | Some d =>
          let n := acc * 10 + d in
          if n <=? MaxUint64 then parse_digits n s' else None
      | None => None
      end
  end.

Definition parse_uint (s : string) : option Z :=
  match s with
  | EmptyString => None
  | _ => parse_digits 0 s
  end.

Lemma digit_range a d : digit a = Some d → 0 <= d <= 9.
Proof. unfold digit. case_match; intros; simplify_eq; lia. Qed.

Lemma parse_digits_range acc s n :
  is_u64 acc → parse_digits acc s = Some n → is_u64 n.
Proof.
  revert acc. induction s as [|a s IH]; intros acc Hacc; simpl; [congruence |].
  destruct (digit a) as [d|] eqn:Hd; [| done]. apply digit_range in Hd.
  case_match; [| done]. apply IH. mlia.
Qed.

Lemma parse_uint_range s n : parse_uint s = Some n → is_u64 n.
Proof. unfold parse_uint. destruct s; [done |]. apply parse_digits_range. mlia. Qed.

(** ** net/url *)
Definition hex_digit (a : ascii) : option N :=
  let n := N_of_ascii a in
  if ((48 <=? n)%N && (n <=? 57)%N) then Some (n - 48)%N
  else if ((97 <=? n)%N && (n <=? 102)%N) then Some (n - 87)%N
  else if ((65 <=? n)%N && (n <=? 70)%N) then Some (n - 55)%N
  else None.

(** url.QueryUnescape: None for a malformed escape. *)
Fixpoint query_unescape (s : string) : option string :=
  match s with
  | EmptyString => Some ""
  | String a s' =>
      if Ascii.eqb a "%" then
        match s' with
        | String h (String l s'') =>
            match hex_digit h, hex_digit l with
            | Some x, Some y => String (ascii_of_N (16 * x + y)) <$> query_unescape s''
            | _, _ => None
            end
        | _ => None
        end
      else String (if Ascii.eqb a "+" then " " else a)%char <$> query_unescape s'
  end.

(** url.Values, in the order the pairs were added. *)
Abbreviation values := (list (string * string)).

(** One [key=value] member of a query: what it adds to the values.  A member
    holding a semicolon, an empty one and one that does not unescape are
    skipped (ParseQuery reports an error for the first and last, which
    [queryValues] ignores). *)
Definition query_pair (m : string) : option (string * string) :=
  if contains ";" m then None
  else if m =s "" then None
  else
    let '(k, v, _) := cut "=" m in
    match query_unescape k, query_unescape v with
    | Some k, Some v => Some (k, v)
    | _, _ => None
    end.

(** The library's limit on the members of one query (its default): beyond
    it ParseQuery returns an error and no values. *)
Definition max_query_params : Z := 10000.

(** What url.ParseQuery returns next to the error. *)
Definition parse_query (q : string) : values :=
  let ms := split_on "&" q in
  if Z.of_nat (length ms) <=? max_query_params then omap query_pair ms else [].

(** url.Values.Get: the first value of the key, "" when there is none. *)
Fixpoint values_get (v : values) (k : string) : string :=
  match v with
  | [] => ""
  | (k', x) :: v' => if k' =s k then x else values_get v' k
  end.

Lemma values_get_app v1 v2 k :
  Forall (λ p, p.1 ≠ k) v1 → values_get (v1 ++ v2) k = values_get v2 k.
Proof.
  induction 1 as [|[k' x] v1 Hk _ IH]; simpl in *; [done |].
  by rewrite (proj2 (String.eqb_neq _ _) Hk).
Qed.

Lemma split_on_cons c s : ∃ w ws, split_on c s = w :: ws.
Proof.
  destruct s as [|a s]; simpl; [eauto |].
  destruct (Ascii.eqb a c); [eauto |]. destruct (split_on c s); eauto.
Qed.

(** Splitting a text that has no separator gives it back, and splitting
    distributes over the separator. *)
Lemma split_on_none c s : contains c s = false → split_on c s = [s].
Proof.
  induction s as [|a s IH]; simpl; [done |]. intros H. bprop.
  destruct (Ascii.eqb a c); [done |]. by rewrite IH.
Qed.

Lemma split_on_app c s t : split_on c (s +:+ String c t) = split_on c s ++ split_on c t.
Proof.
  induction s as [|a s IH]; simpl; [by rewrite Ascii.eqb_refl |].
  destruct (Ascii.eqb a c); rewrite IH; [done |].
  destruct (split_on_cons c s) as (w & ws & ->). done.
Qed.

Lemma join_split c s : join (String c "") (split_on c s) = s.
Proof.
  induction s as [|a s IH]; simpl; [done |].
  destruct (split_on_cons c s) as (w & ws & E). rewrite E in *.
  destruct (Ascii.eqb_spec a c) as [->|]; [by rewrite <- IH |].
  destruct ws; simpl in *; by rewrite <- IH.
Qed.

Lemma split_join c l :
  l ≠ [] → Forall (λ w, contains c w = false) l → split_on c (join (String c "") l) = l.
Proof.
  intros Hne H. induction H as [|w l Hw Hl IH]; [done |].
  destruct l as [|w' l]; [by apply split_on_none |].
  assert (join (String c "") (w :: w' :: l) = w +:+ String c (join (String c "") (w' :: l))) as ->
    by done.
  rewrite split_on_app, split_on_none, IH by done. done.
Qed.

(** Decimal digits pass through the query decoder unchanged. *)
Fixpoint all_digits (s : string) : bool :=
  match s with
  | EmptyString => true
  | String a s' => isSome (digit a) && all_digits s'
  end.

Lemma digit_plain a :
  isSome (digit a) = true → Ascii.eqb a "%" = false ∧ Ascii.eqb a "+" = false ∧ Ascii.eqb a ";" = false.
Proof. destruct a as [[] [] [] [] [] [] [] []]; vm_compute; done. Qed.

Lemma digits_unescape s : all_digits s = true → query_unescape s = Some s.
Proof.
  induction s as [|a s IH]; [done |]. simpl. intros H. bprop.
  destruct (digit_plain a) as (-> & -> & _); [done |]. by rewrite IH.
Qed.

Lemma digits_no_semicolon s : all_digits s = true → contains ";" s = false.
Proof.
  induction s as [|a s IH]; [done |]. simpl. intros H. bprop.
  destruct (digit_plain a) as (_ & _ & ->); [done |]. by rewrite IH.
Qed.

(** Trimming twice is trimming once. *)
Lemma trim_right_nonspace a s : is_space a = false → trim_right (String a s) = String a (trim_right s).
Proof. intros H. simpl. rewrite H. by destruct (trim_right s). Qed.

Lemma trim_right_idem s : trim_right (trim_right s) = trim_right s.
Proof.
  induction s as [|a s IH]; [done |]. simpl. destruct (trim_right s) as [|b t] eqn:E.
  - destruct (is_space a) eqn:Ea; [done |]. simpl. by rewrite Ea.
  - cbn [trim_right] in IH |- *. by rewrite IH.
Qed.

Lemma trim_left_cases s : trim_left s = "" ∨ ∃ a t, trim_left s = String a t ∧ is_space a = false.
Proof. induction s as [|a s IH]; [by left |]. simpl. destruct (is_space a) eqn:E; eauto. Qed.

Lemma trim_space_cases s : trim_space s = "" ∨ ∃ a t, trim_space s = String a (trim_right t) ∧ is_space a = false.
Proof.
  unfold trim_space. destruct (trim_left_cases s) as [->|(a & t & -> & Ha)]; [by left | right].
  rewrite trim_right_nonspace by done. eauto.
Qed.

Lemma trim_space_idem s : trim_space (trim_space s) = trim_space s.
Proof.
  destruct (trim_space_cases s) as [->|(a & t & -> & Ha)]; [done |].
  unfold trim_space. cbn [trim_left]. rewrite Ha, trim_right_nonspace by done. by rewrite trim_right_idem.
Qed.

(** A prefix byte by byte. *)
Lemma has_prefix_cons a p b s : has_prefix (String a p) (String b s) = Ascii.eqb a b && has_prefix p s.
Proof.
  unfold has_prefix. cbn [String.prefix]. destruct (ascii_dec a b) as [-> | Hn]; [by rewrite Ascii.eqb_refl |].
  by rewrite (proj2 (Ascii.eqb_neq a b) Hn).
Qed.

Lemma has_prefix_app p s : has_prefix p (p +:+ s) = true.
Proof.
  induction p as [|a p IH]; [by destruct s |].
  change (String a p +:+ s) with (String a (p +:+ s)). by rewrite has_prefix_cons, Ascii.eqb_refl, IH.
Qed.

(** Appending. *)
Lemma str_app_assoc (s t u : string) : (s +:+ t) +:+ u = s +:+ t +:+ u.
Proof. induction s as [| a s IH]; [done |]. change (String a ((s +:+ t) +:+ u) = String a (s +:+ t +:+ u)). by rewrite IH. Qed.
Lemma str_length_app s t : String.length (s +:+ t) = (String.length s + String.length t)%nat.
Proof. induction s as [| a s IH]; [done |]. change (S (String.length (s +:+ t)) = S (String.length s + String.length t)). by rewrite IH. Qed.

Lemma substring_whole s : String.substring 0 (String.length s) s = s.
Proof. induction s as [| a s IH]; [done |]. cbn [String.length String.substring]. by rewrite IH. Qed.
