(* ===== verification/GoTime.v ===== *)
(** * GoTime: instants and durations

    A [time.Time] is its offset in nanoseconds from Go's zero time
    (January 1, year 1, UTC), so [IsZero] is a comparison with 0; a
    [time.Duration] is an [int64] of nanoseconds.  [Time.Sub] saturates, as
    the library's does, which the code relies on when it subtracts a zero
    time: the result is the longest duration there is. *)
From S2P Require Import Prelude GoFloat.
Open Scope Z_scope.

Definition Time : Type := Z.
Definition Duration : Type := Z.

Definition Nanosecond : Duration := 1.
Definition Microsecond : Duration := 1000.
Definition Millisecond : Duration := 1000000.
Definition Second : Duration := 1000000000.
Definition Minute : Duration := 60 * Second.
Definition Hour : Duration := 60 * Minute.

Definition zero_time : Time := 0.
Definition IsZero (t : Time) : bool := t =? zero_time.

(** t.Sub(u), saturating at the ends of int64. *)
Definition time_sub (t u : Time) : Duration := Z.max MinInt64 (Z.min MaxInt64 (t - u)).
Definition time_add (t : Time) (d : Duration) : Time := t + d.
Definition Before (t u : Time) : bool := t <? u.
Definition After (t u : Time) : bool := u <? t.

Lemma time_sub_exact t u : is_i64 (t - u) → time_sub t u = t - u.
Proof. unfold time_sub. mlia. Qed.
Lemma time_sub_range t u : is_i64 (time_sub t u).
Proof. unfold time_sub. mlia. Qed.
Lemma time_sub_mono t t' u : t <= t' → time_sub t u <= time_sub t' u.
Proof. unfold time_sub. mlia. Qed.
Lemma time_sub_diag t : time_sub t t = 0.
Proof. unfold time_sub. mlia. Qed.
#[export] Hint Rewrite time_sub_diag : mesh.

(** d.Seconds(): whole seconds and nanoseconds converted separately. *)
Definition Seconds {F} `{Num F} (d : Duration) : F :=
  (nofZ (Z.quot d Second) + nofZ (Z.rem d Second) / nofZ 1000000000)%num.

Definition Milliseconds (d : Duration) : Z := Z.quot d Millisecond.
Definition Microseconds (d : Duration) : Z := Z.quot d Microsecond.
