(* ===== verification/GoNet.v ===== *)
(** * GoNet: the standard library's addresses

    What the program uses of [net], [net/netip] and [net/url]: splitting and
    joining host and port, parsing and printing IP addresses, and the host of
    a URL.  Callers only ask whether a call failed, so an error is [None].

    An address is its sixteen bytes, as [net.ParseIP] returns it. *)
From S2P Require Import Prelude GoStrings.
From stdpp Require Import pretty.
From Stdlib Require Import Ascii.
Open Scope Z_scope.

(** ** Positions in a string *)
Fixpoint index_byte (c : ascii) (s : string) : option nat :=
  match s with
  | EmptyString => None
  | String a s' => if Ascii.eqb a c then Some O else S <$> index_byte c s'
  end.

Fixpoint last_index_byte (c : ascii) (s : string) : option nat :=
  match s with
  | EmptyString => None
  | String a s' =>
      match last_index_byte c s' with
      | Some i => Some (S i)
      | None => if Ascii.eqb a c then Some O else None
      end
  end.

(** s[:n] and s[n:]. *)
Definition str_take (n : nat) (s : string) : string := String.substring 0 n s.
Fixpoint str_drop (n : nat) (s : string) : string :=
  match n, s with
  | S n', String _ s' => str_drop n' s'
  | O, _ => s
  | _, EmptyString => ""
  end.
Lemma str_drop_app s t : str_drop (String.length s) (s +:+ t) = t.
Proof. induction s as [| a s IH]; [by destruct t | done]. Qed.

Definition str_slice (i j : nat) (s : string) : string := str_take (j - i) (str_drop i s).

(** ** net.SplitHostPort and net.JoinHostPort *)
Definition SplitHostPort (hostport : string) : option (string * string) :=
  match last_index_byte ":" hostport with
  | None => None
  | Some i =>
      let port := str_drop (S i) hostport in
      if has_prefix "[" hostport then
        match index_byte "]" hostport with
        | None => None
        | Some e =>
            if negb (S e =? i)%nat then None
            else if contains "[" (str_drop 1 hostport) || contains "]" (str_drop (S e) hostport) then None
            else Some (str_slice 1 e hostport, port)
        end
      else
        let host := str_take i hostport in
        if contains ":" host then None
        else if contains "[" hostport || contains "]" hostport then None
        else Some (host, port)
  end.

Definition JoinHostPort (host port : string) : string :=
  if contains ":" host then "[" +:+ host +:+ "]:" +:+ port else host +:+ ":" +:+ port.

(** ** netip.ParseAddr, for addresses without a zone *)
Definition IP : Type := list Z.

(** The loop of parseIPv4Fields: the fields so far (reversed), the current
    field and its digits, and whether the previous byte was a dot. *)
Fixpoint parse_fields (s : string) (fields : list Z) (val : Z) (digLen : nat) (prevDot : bool) : option (list Z) :=
  match s with
  | EmptyString => if (length fields =? 3)%nat then Some (reverse (val :: fields)) else None
  | String a s' =>
      match digit a with
      | Some d =>
          if (digLen =? 1)%nat && (val =? 0) then None
          else
            let val := val * 10 + d in
            if 255 <? val then None else parse_fields s' fields val (S digLen) false
      | None =>
          if Ascii.eqb a "." then
            if prevDot || match s' with EmptyString => true | _ => false end then None
            else if (length fields =? 3)%nat then None
            else parse_fields s' (val :: fields) 0 O true
          else None
      end
  end.

Definition parse_ipv4 (s : string) : option (list Z) :=
  match s with EmptyString => None | _ => parse_fields s [] 0 O true end.

(** A group of hex digits: its value, how many there are, and the rest; None
    for more than four digits. *)
Fixpoint hex_group (s : string) (acc : Z) (off : nat) : option (Z * nat * string) :=
  match s with
  | EmptyString => Some (acc, off, s)
  | String a s' =>
      match hex_digit a with
      | Some d => if (3 <? off)%nat then None else hex_group s' (acc * 16 + Z.of_N d) (S off)
      | None => Some (acc, off, s)
      end
  end.

(** The loop of parseIPv6: the bytes so far and where the ellipsis was; fuel
    bounds the groups. *)
Fixpoint parse_groups (fuel : nat) (s : string) (ip : list Z) (ellipsis : option nat) : option (list Z * option nat * string) :=
  match fuel with
  | O => Some (ip, ellipsis, s)
  | S fuel =>
      match hex_group s 0 O with
      | None => None
      | Some (acc, off, rest) =>
          if (off =? 0)%nat then None
          else if has_prefix "." rest then
            if isNone ellipsis && negb (length ip =? 12)%nat then None
            else if (16 <? length ip + 4)%nat then None
            else match parse_ipv4 s with
                 | Some b => Some (ip ++ b, ellipsis, ""%string)
                 | None => None
                 end
          else
            let ip := ip ++ [Z.shiftr acc 8; acc `mod` 256] in
            match rest with
            | EmptyString => Some (ip, ellipsis, ""%string)
            | String a s1 =>
                if negb (Ascii.eqb a ":") then None
                else match s1 with
                     | EmptyString => None
                     | String b s2 =>
                         if Ascii.eqb b ":" then
                           if isSome ellipsis then None
                           else match s2 with
                                | EmptyString => Some (ip, Some (length ip), s2)
                                | _ => parse_groups fuel s2 ip (Some (length ip))
                                end
                         else parse_groups fuel s1 ip ellipsis
                     end
            end
      end
  end.

Definition parse_ipv6 (s : string) : option IP :=
  let '(s, ellipsis) := if has_prefix "::" s then (str_drop 2 s, Some O) else (s, None) in
  if match ellipsis, s with Some _, EmptyString => true | _, _ => false end then Some (replicate 16 0)
  else
    match parse_groups 8 s [] ellipsis with
    | None => None
    | Some (ip, ellipsis, rest) =>
        if rest <>s "" then None
        else if (length ip <? 16)%nat then
          match ellipsis with
          | None => None
          | Some e => Some (take e ip ++ replicate (16 - length ip) 0 ++ drop e ip)
          end
        else if isSome ellipsis then None
        else Some ip
    end.

(** The first byte of s that decides the family. *)
Fixpoint addr_kind (s : string) : option ascii :=
  match s with
  | EmptyString => None
  | String a s' => if Ascii.eqb a "." || Ascii.eqb a ":" || Ascii.eqb a "%" then Some a else addr_kind s'
  end.

Definition v4_prefix : list Z := replicate 10 0 ++ [255; 255].

(** net.ParseIP: an address with a zone is not an IP. *)
Definition ParseIP (s : string) : option IP :=
  match addr_kind s with
  | Some a =>
      if Ascii.eqb a "." then (λ b, v4_prefix ++ b) <$> parse_ipv4 s
      else if Ascii.eqb a ":" && negb (contains "%" s) then parse_ipv6 s
      else None
  | None => None
  end.

Definition To4 (ip : IP) : option (list Z) :=
  if bool_decide (take 12 ip = v4_prefix) then Some (drop 12 ip) else None.

(** ip[i], and the kinds of address the library tells apart. *)
Definition ip_at (ip : list Z) (i : nat) : Z := nth i ip 0.

Definition IsUnspecified (ip : IP) : bool :=
  bool_decide (ip = v4_prefix ++ [0; 0; 0; 0]) || bool_decide (ip = replicate 16 0).

Definition IsLoopback (ip : IP) : bool :=
  match To4 ip with
  | Some b => ip_at b 0 =? 127
  | None => bool_decide (ip = replicate 15 0 ++ [1])
  end.

Definition IsPrivate (ip : IP) : bool :=
  match To4 ip with
  | Some b =>
      (ip_at b 0 =? 10) || (ip_at b 0 =? 172) && (Z.land (ip_at b 1) 240 =? 16) ||
      (ip_at b 0 =? 192) && (ip_at b 1 =? 168)
  | None => (length ip =? 16)%nat && (Z.land (ip_at ip 0) 254 =? 252)
  end.

Definition IsLinkLocalUnicast (ip : IP) : bool :=
  match To4 ip with
  | Some b => (ip_at b 0 =? 169) && (ip_at b 1 =? 254)
  | None => (length ip =? 16)%nat && (ip_at ip 0 =? 254) && (Z.land (ip_at ip 1) 192 =? 128)
  end.

Definition IsLinkLocalMulticast (ip : IP) : bool :=
  match To4 ip with
  | Some b => (ip_at b 0 =? 224) && (ip_at b 1 =? 0) && (ip_at b 2 =? 0)
  | None => (length ip =? 16)%nat && (ip_at ip 0 =? 255) && (Z.land (ip_at ip 1) 15 =? 2)
  end.

(** ** Printing *)
Definition ipv4_string (b : list Z) : string := GoStrings.join "." (map pretty b).

Definition hex_char (n : Z) : ascii := ascii_of_N (Z.to_N (if n <? 10 then 48 + n else 87 + n)).

(** A 16-bit group in hex, without leading zeros. *)
Definition hex16 (n : Z) : string :=
  let d3 := Z.shiftr n 12 `mod` 16 in
  let d2 := Z.shiftr n 8 `mod` 16 in
  let d1 := Z.shiftr n 4 `mod` 16 in
  let d0 := n `mod` 16 in
  let s0 := String (hex_char d0) "" in
  let s1 := String (hex_char d1) s0 in
  let s2 := String (hex_char d2) s1 in
  if 0 <? d3 then String (hex_char d3) s2 else if 0 <? d2 then s2 else if 0 <? d1 then s1 else s0.

Fixpoint groups16 (b : list Z) : list Z :=
  match b with
  | h :: l :: b => (h * 256 + l) :: groups16 b
  | _ => []
  end.

(** How many zero groups start here. *)
Fixpoint zero_run (g : list Z) : nat :=
  match g with x :: g => if x =? 0 then S (zero_run g) else O | [] => O end.

(** The longest run of at least two zero groups, the first of equals: its
    start and its length. *)
Fixpoint longest_zeros (i : nat) (g : list Z) (best : nat * nat) : nat * nat :=
  match g with
  | [] => best
  | _ :: g' =>
      let l := zero_run g in
      longest_zeros (S i) g' (if (2 <=? l)%nat && (best.2 <? l)%nat then (i, l) else best)
  end.

Definition ipv6_string (ip : IP) : string :=
  let g := groups16 ip in
  let '(start, len) := longest_zeros 0 g (O, O) in
  if (len =? 0)%nat then GoStrings.join ":" (map hex16 g)
  else GoStrings.join ":" (map hex16 (take start g)) +:+ "::" +:+ GoStrings.join ":" (map hex16 (drop (start + len) g)).

(** ip.String(), of an address or of its To4. *)
Definition ip_string (ip : IP) : string :=
  match To4 ip with Some b => ipv4_string b | None => ipv6_string ip end.

(** ** The host of a URL: url.Parse and Hostname *)

(** A percent escape is two hex digits. *)
Fixpoint escapes_ok (s : string) : bool :=
  match s with
  | EmptyString => true
  | String a s' =>
      if Ascii.eqb a "%" then
        match s' with
        | String b (String c s'') => isSome (hex_digit b) && isSome (hex_digit c) && escapes_ok s''
        | _ => false
        end
      else escapes_ok s'
  end.

Fixpoint all_bytes (f : ascii → bool) (s : string) : bool :=
  match s with EmptyString => true | String a s' => f a && all_bytes f s' end.

Definition is_alpha (a : ascii) : bool :=
  let n := N_of_ascii a in ((97 <=? n)%N && (n <=? 122)%N) || ((65 <=? n)%N && (n <=? 90)%N).

Definition ctl_byte (a : ascii) : bool := let n := N_of_ascii a in (n <? 32)%N || (n =? 127)%N.

(** getScheme: the scheme ("" when none) and the rest; None: it is missing. *)
Fixpoint get_scheme (i : nat) (s whole : string) : option (string * string) :=
  match s with
  | EmptyString => Some (""%string, whole)
  | String a s' =>
      if is_alpha a then get_scheme (S i) s' whole
      else if isSome (digit a) || elem (String a "") ["+"; "-"; "."]%string then
        if (i =? 0)%nat then Some (""%string, whole) else get_scheme (S i) s' whole
      else if Ascii.eqb a ":" then if (i =? 0)%nat then None else Some (str_take i whole, s')
      else Some (""%string, whole)
  end.

(** validUserinfo. *)
Definition userinfo_byte (a : ascii) : bool :=
  is_alpha a || isSome (digit a) ||
  elem (String a "") ["-"; "."; "_"; ":"; "~"; "!"; "$"; "&"; "'"; "("; ")"; "*"; "+"; ","; ";"; "="; "%"; "@"]%string.

(** validOptionalPort: "" or a colon and digits. *)
Definition optional_port (s : string) : bool :=
  match s with
  | EmptyString => true
  | String a s' => Ascii.eqb a ":" && all_bytes (λ c, isSome (digit c)) s'
  end.

(** parseHost.  A host with a percent sign is unescaped by the library, which
    fails or leaves a byte no IP address has; it counts as a failure here. *)
Definition parse_host (host : string) : option string :=
  if contains "%" host then None
  else if has_prefix "[" host then
    match last_index_byte "]" host with
    | None => None
    | Some i => if optional_port (str_drop (S i) host) then Some host else None
    end
  else match last_index_byte ":" host with
       | Some i => if optional_port (str_drop i host) then Some host else None
       | None => Some host
       end.

Definition parse_authority (authority : string) : option string :=
  match last_index_byte "@" authority with
  | None => parse_host authority
  | Some i =>
      host ← parse_host (str_drop (S i) authority);
      let userinfo := str_take i authority in
      if all_bytes userinfo_byte userinfo && escapes_ok userinfo then Some host else None
  end.

(** url.Parse(e).Host; None: the URL does not parse. *)
Definition url_host (e : string) : option string :=
  let '(u, frag, _) := cut "#" e in
  if negb (escapes_ok frag) then None
  else if negb (all_bytes (λ a, negb (ctl_byte a)) u) then None
  else if u =s "*" then Some ""%string
  else
    '(scheme, rest) ← get_scheme 0 u u;
    let '(rest, _, _) := cut "?" rest in
    if negb (has_prefix "/" rest) && (scheme <>s "") then Some ""%string
    else if negb (has_prefix "/" rest) && contains ":" (cut "/" rest).1.1 then None
    else
      let has_authority := ((scheme <>s "") || negb (has_prefix "///" rest)) && has_prefix "//" rest in
      if has_authority then
        let '(authority, path, slash) := cut "/" (str_drop 2 rest) in
        host ← parse_authority authority;
        if escapes_ok path then Some host else None
      else if escapes_ok rest then Some ""%string else None.

(** u.Hostname(). *)
Definition strip_port (host : string) : string :=
  match index_byte ":" host with
  | None => host
  | Some i =>
      match index_byte "]" host with
      | Some j => trim_prefix "[" (str_take j host)
      | None => str_take i host
      end
  end.

Definition url_hostname (e : string) : option string := strip_port <$> url_host e.
