(* ===== verification/Types.v ===== *)
(** * Types: the value types of the mesh (internal/domain/types.go)

    Node records, capabilities, health and upstream snapshots, with the
    functions types.go defines on them: how far back a node serves
    ([OldestRoundFor]), manual capability corrections ([Apply]), the clamping
    of simulate limits, record validation and the comparison that decides
    whether a node must publish its record again. *)
From S2P Require Import Prelude GoFloat GoStrings.
Open Scope Z_scope.

(** ** Archival modes *)
Definition ArchivalFull : string := "full".
Definition ArchivalTrailing : string := "trailing".
Definition ArchivalSince : string := "since".
Definition ArchivalNone : string := "none".

Record Archival := mkArchival { ar_Kind : string; ar_N : Z }.

Definition DefaultNonArchivalWindow : Z := 1000.

Definition OldestRoundFor (a : Archival) (lastRound : Z) : Z :=
  if ar_Kind a =s ArchivalFull then 0
  else if ar_Kind a =s ArchivalTrailing then
    if lastRound <=? ar_N a then 0 else wu64 (lastRound - ar_N a)
  else if ar_Kind a =s ArchivalSince then ar_N a
  else
    if lastRound <=? DefaultNonArchivalWindow then 0
    else wu64 (lastRound - DefaultNonArchivalWindow).

(** ** Simulate limits *)
Record SimulateLimits := mkSimulateLimits {
  sl_MaxTxnGroups : Z;
  sl_MaxRounds : Z;
  sl_MaxExtraOpcodeBudget : Z;
  sl_ResourceLimitMultiplier : Z;
  sl_MaxExecTraceBytes : Z;
  sl_TimeLimitSeconds : Z
}.

Definition StockMaxExtraOpcodeBudget : Z := 320000.

Definition StockSimulateLimits : SimulateLimits :=
  mkSimulateLimits 1 0 StockMaxExtraOpcodeBudget 1 0 0.

Definition maxSimulateGroups : Z := 256.
Definition maxSimulateRounds : Z := 256.
Definition maxExtraOpcodeBudget : Z := 1000 * StockMaxExtraOpcodeBudget.
Definition maxResourceLimitMultiplier : Z := 1024.

(** ** Capabilities *)
Record Capabilities := mkCapabilities {
  cap_OldestRound : Z;
  cap_Archival : Archival;
  cap_DeveloperAPI : bool;
  cap_FollowMode : bool;
  cap_ExperimentalAPI : bool;
  cap_TimeTravel : bool;
  cap_Simulate : option SimulateLimits;
  cap_AlgodVersion : string;
  cap_GenesisID : string;
  cap_StorageEngine : string;
  cap_MaxAcctLookback : Z
}.

(** Capabilities{}: Go's zero value. *)
Definition zeroCapabilities : Capabilities :=
  mkCapabilities 0 (mkArchival "" 0) false false false false None "" "" "" 0.

Record CapabilityOverrides := mkOverrides {
  ov_Archival : option Archival;
  ov_DeveloperAPI : option bool;
  ov_FollowMode : option bool;
  ov_TimeTravel : option bool;
  ov_Simulate : option SimulateLimits
}.

(** A correction [o] of a field with value [x]; nil means "no opinion". *)
Definition override {A} (o : option A) (x : A) : A :=
  match o with Some y => y | None => x end.

Definition Apply (o : option CapabilityOverrides) (c : Capabilities) (lastRound : Z) : Capabilities :=
  match o with
  | None => c
  | Some o =>
      let c := match ov_Archival o with
               | Some a => c <| cap_Archival := a |> <| cap_OldestRound := OldestRoundFor a lastRound |>
               | None => c
               end in
      let c := c <| cap_DeveloperAPI ::= override (ov_DeveloperAPI o) |> in
      let c := c <| cap_FollowMode ::= override (ov_FollowMode o) |> in
      let c := c <| cap_TimeTravel ::= override (ov_TimeTravel o) |> in
      match ov_Simulate o with
      | Some l => c <| cap_Simulate := Some l |>
      | None => c
      end
  end.

(** What the node allows in a simulate request, as dtalgorand reads its own
    config: a floor of one group and a multiplier of one, the stock budget for
    zero, and the fork's ceilings. *)
Definition CapSimulateLimits (c : Capabilities) : SimulateLimits :=
  match cap_Simulate c with
  | None => StockSimulateLimits
  | Some l =>
      let budget := if sl_MaxExtraOpcodeBudget l =? 0 then StockMaxExtraOpcodeBudget
                    else sl_MaxExtraOpcodeBudget l in
      mkSimulateLimits
        (Z.min (Z.max (sl_MaxTxnGroups l) 1) maxSimulateGroups)
        (Z.min (sl_MaxRounds l) maxSimulateRounds)
        (Z.min budget maxExtraOpcodeBudget)
        (Z.min (Z.max (sl_ResourceLimitMultiplier l) 1) maxResourceLimitMultiplier)
        (sl_MaxExecTraceBytes l) (sl_TimeLimitSeconds l)
  end.

(** ** Records *)
Record AgentInfo := mkAgentInfo {
  ai_Addrs : list string;
  ai_Addr : string;
  ai_PubKey : string
}.

(** Every address peers may send to: the list, then the legacy single
    address when it is not already in it. *)
Definition GossipAddrs (a : AgentInfo) : list string :=
  if ai_Addr a =s "" then ai_Addrs a
  else if existsb (String.eqb (ai_Addr a)) (ai_Addrs a) then ai_Addrs a
  else ai_Addrs a ++ [ai_Addr a].

Definition RoleNode : string := "node".
Definition RoleBalancer : string := "balancer".

Definition ParseRole (s : string) : result string string :=
  if (s =s "") || (s =s RoleNode) then Ok RoleNode
  else if s =s RoleBalancer then Ok RoleBalancer
  else Err "unknown role (want node or balancer)".

Record NodeRecord := mkNodeRecord {
  nr_ID : string;
  nr_Role : string;
  nr_Network : string;
  nr_Endpoints : list string;
  nr_Token : string;
  nr_Agent : AgentInfo;
  nr_Tier : Z;
  nr_Tags : list string;
  nr_Declared : option CapabilityOverrides;
  nr_Version : Z;
  nr_UpdatedAt : Z
}.

(** The first failing check, in the code's order. *)
Definition Validate (r : NodeRecord) : result string unit :=
  if nr_ID r =s "" then Err "node record: empty id"
  else if 48 <? Z.of_nat (String.length (nr_ID r)) then Err "node record: id longer than 48 bytes"
  else if nr_Network r =s "" then Err "node record: empty network"
  else
    match ParseRole (nr_Role r) with
    | Err e => Err e
    | Ok role =>
        if (role =s RoleNode) && (Z.of_nat (length (nr_Endpoints r)) =? 0)
        then Err "node record: no endpoints"
        else if (role =s RoleBalancer) && (Z.of_nat (length (GossipAddrs (nr_Agent r))) =? 0)
        then Err "balancer record: no agent address to send heartbeats to"
        else if nr_Tier r <? 0 then Err "node record: negative tier"
        else Ok tt
    end.

Definition IsBalancer (r : NodeRecord) : bool := nr_Role r =s RoleBalancer.

(** equalStrings: length first, then position by position. *)
Fixpoint equal_at (a b : list string) : bool :=
  match a, b with
  | x :: a, y :: b => (x =s y) && equal_at a b
  | _, _ => true
  end.
Definition equalStrings (a b : list string) : bool :=
  (length a =? length b)%nat && equal_at a b.

Definition eqb_Archival (a b : Archival) : bool := (ar_Kind a =s ar_Kind b) && (ar_N a =? ar_N b).
Definition eqb_SimulateLimits (a b : SimulateLimits) : bool :=
  (sl_MaxTxnGroups a =? sl_MaxTxnGroups b) && (sl_MaxRounds a =? sl_MaxRounds b) &&
  (sl_MaxExtraOpcodeBudget a =? sl_MaxExtraOpcodeBudget b) &&
  (sl_ResourceLimitMultiplier a =? sl_ResourceLimitMultiplier b) &&
  (sl_MaxExecTraceBytes a =? sl_MaxExecTraceBytes b) &&
  (sl_TimeLimitSeconds a =? sl_TimeLimitSeconds b).

(** Both nil, or both set and equal. *)
Definition equal_ptr {A} (eqb : A → A → bool) (a b : option A) : bool :=
  match a, b with
  | None, None => true
  | Some x, Some y => eqb x y
  | _, _ => false
  end.

Definition equalOverrides (a b : option CapabilityOverrides) : bool :=
  match a, b with
  | Some a, Some b =>
      let eqA := equal_ptr eqb_Archival (ov_Archival a) (ov_Archival b) in
      let eqD := equal_ptr Bool.eqb (ov_DeveloperAPI a) (ov_DeveloperAPI b) in
      let eqF := equal_ptr Bool.eqb (ov_FollowMode a) (ov_FollowMode b) in
      let eqT := equal_ptr Bool.eqb (ov_TimeTravel a) (ov_TimeTravel b) in
      let eqS := equal_ptr eqb_SimulateLimits (ov_Simulate a) (ov_Simulate b) in
      eqA && eqD && eqF && eqT && eqS
  | None, None => true
  | _, _ => false
  end.

Definition StaticEqual (r o : NodeRecord) : bool :=
  if (nr_ID r <>s nr_ID o) || negb (Bool.eqb (IsBalancer r) (IsBalancer o)) ||
     (nr_Network r <>s nr_Network o) || (nr_Token r <>s nr_Token o) || negb (nr_Tier r =? nr_Tier o)
  then false
  else if negb (equalStrings (GossipAddrs (nr_Agent r)) (GossipAddrs (nr_Agent o))) ||
          (ai_PubKey (nr_Agent r) <>s ai_PubKey (nr_Agent o))
  then false
  else if negb (equalStrings (nr_Endpoints r) (nr_Endpoints o)) ||
          negb (equalStrings (nr_Tags r) (nr_Tags o))
  then false
  else equalOverrides (nr_Declared r) (nr_Declared o).

(** ** Health *)
Inductive Health := HealthStarting | HealthOffline | HealthOnline | HealthLagging | HealthSynced.

#[export] Instance Health_eq_dec : EqDecision Health.
Proof. solve_decision. Defined.

Definition Health_String (h : Health) : string :=
  match h with
  | HealthStarting => "starting"
  | HealthOffline => "offline"
  | HealthOnline => "online"
  | HealthLagging => "lagging"
  | HealthSynced => "synced"
  end.

Definition Reachable (h : Health) : bool :=
  match h with HealthOnline | HealthLagging | HealthSynced => true | _ => false end.

(** UnmarshalText: the first health whose text it is. *)
Definition Health_UnmarshalText (b : string) : option Health :=
  find (λ c, Health_String c =s b)
    [HealthStarting; HealthOffline; HealthOnline; HealthLagging; HealthSynced].

(** ** Heartbeats *)
Record Heartbeat := mkHeartbeat {
  hb_NodeID : string;
  hb_Seq : Z;
  hb_LastRound : Z;
  hb_Online : bool;
  hb_Caps : Capabilities;
  hb_Draining : bool
}.

(** Heartbeat{}: Go's zero value. *)
Definition zeroHeartbeat : Heartbeat := mkHeartbeat "" 0 0 false zeroCapabilities false.

(** ** Upstreams *)
Inductive UpstreamKind := KindLocal | KindPeer | KindExternal.

#[export] Instance UpstreamKind_eq_dec : EqDecision UpstreamKind.
Proof. solve_decision. Defined.

Definition UpstreamKind_String (k : UpstreamKind) : string :=
  match k with KindLocal => "local" | KindPeer => "peer" | KindExternal => "external" end.

Definition UpstreamKind_UnmarshalText (b : string) : option UpstreamKind :=
  find (λ c, UpstreamKind_String c =s b) [KindLocal; KindPeer; KindExternal].

Record Stats := mkStats {
  st_LatencyMS : gmap string float64;
  st_ErrorRate : float64;
  st_Inflight : Z;
  st_BreakerOpen : bool;
  st_Throttled : bool;
  st_Busy : bool
}.

(** Stats{}: Go's zero value. *)
Definition zeroStats : Stats := mkStats ∅ nzero 0 false false false.

Record Upstream := mkUpstream {
  up_ID : string;
  up_Kind : UpstreamKind;
  up_Tier : Z;
  up_BaseURL : string;
  up_Token : string;
  up_Health : Health;
  up_LastRound : Z;
  up_Caps : Capabilities;
  up_Draining : bool;
  up_Excluded : bool;
  up_Stats : Stats;
  up_Source : string;
  up_Score : float64
}.

(** ** Modes *)
Definition ModeFallback : string := "fallback".
Definition ModeLoadBalancer : string := "loadbalancer".

Definition ParseMode (s : string) : result string string :=
  if (s =s ModeFallback) || (s =s ModeLoadBalancer) then Ok s
  else if s =s "" then Ok ModeFallback
  else Err "unknown mode (want fallback or loadbalancer)".

(** ** Lemmas *)

Lemma override_twice {A} (o : option A) x : override o (override o x) = override o x.
Proof. by destruct o. Qed.

Lemma equal_at_eq a b : length a = length b → equal_at a b = true ↔ a = b.
Proof.
  revert b. induction a as [|x a IH]; intros [|y b] Hl; simplify_eq/=; [done |].
  rewrite andb_true_iff, String.eqb_eq, IH by done. split; [by intros [-> ->] | by intros [= -> ->]].
Qed.

Lemma equalStrings_eq a b : equalStrings a b = true ↔ a = b.
Proof.
  unfold equalStrings. rewrite andb_true_iff, Nat.eqb_eq. split.
  - intros [Hl H]. by apply equal_at_eq.
  - intros ->. split; [done |]. by apply equal_at_eq.
Qed.

Lemma eqb_Archival_eq a b : eqb_Archival a b = true ↔ a = b.
Proof.
  unfold eqb_Archival. rewrite andb_true_iff, String.eqb_eq, Z.eqb_eq.
  destruct a, b; simpl. naive_solver.
Qed.

Lemma eqb_SimulateLimits_eq a b : eqb_SimulateLimits a b = true ↔ a = b.
Proof.
  unfold eqb_SimulateLimits. rewrite !andb_true_iff, !Z.eqb_eq.
  destruct a, b; simpl. naive_solver.
Qed.

Lemma equal_ptr_eq {A} (eqb : A → A → bool) a b :
  (∀ x y, eqb x y = true ↔ x = y) → equal_ptr eqb a b = true ↔ a = b.
Proof. intros H. destruct a, b; simpl; rewrite ?H; naive_solver. Qed.

Lemma equalOverrides_eq a b : equalOverrides a b = true ↔ a = b.
Proof.
  destruct a as [[a1 a2 a3 a4 a5]|], b as [[b1 b2 b3 b4 b5]|]; simpl; try naive_solver.
  rewrite !andb_true_iff, !equal_ptr_eq by
    first [apply eqb_Archival_eq | apply eqb_SimulateLimits_eq | apply eqb_true_iff].
  naive_solver.
Qed.

#[export] Hint Rewrite equalStrings_eq equalOverrides_eq : mesh.

(** ** Properties *)

(** the earliest servable round is a 64-bit round computed without
    wrapping.  Outside [since] it never passes the last round; a trailing
    node serves exactly the last N rounds behind its tip (all of them while
    the chain is shorter), a non-archival node the last 1000; and as the
    chain grows the edge only moves forward. *)
Theorem OldestRoundFor_window a last last' :
  is_u64 (ar_N a) → is_u64 last → is_u64 last' → last <= last' →
  is_u64 (OldestRoundFor a last) ∧
  (ar_Kind a ≠ ArchivalSince → OldestRoundFor a last <= last) ∧
  (ar_Kind a = ArchivalTrailing → last - OldestRoundFor a last = Z.min last (ar_N a)) ∧
  (ar_Kind a ∉ [ArchivalFull; ArchivalTrailing; ArchivalSince] →
    last - OldestRoundFor a last = Z.min last DefaultNonArchivalWindow) ∧
  OldestRoundFor a last <= OldestRoundFor a last'.
Proof.
  intros HN Hl Hl' Hle. unfold OldestRoundFor, DefaultNonArchivalWindow.
  destruct (String.eqb_spec (ar_Kind a) ArchivalFull) as [->|H1];
    [| destruct (String.eqb_spec (ar_Kind a) ArchivalTrailing) as [->|H2];
       [| destruct (String.eqb_spec (ar_Kind a) ArchivalSince) as [->|H3]]];
    repeat case_match; rewrite ?wu64_id by mlia;
    (split; [mlia |]); (split; [intros; try done; mlia |]);
    (split; [intros; try done; mlia |]); (split; [intros; try set_solver; mlia | mlia]).
Qed.

(** what a node is taken to allow in a simulate request lies between the
    floor (one group, a multiplier of one) and the fork's ceilings whatever it
    reports, is the stock limits when it reports none, and reading the clamped
    limits again changes nothing. *)
Theorem SimulateLimits_clamped c :
  (∀ l, cap_Simulate c = Some l → 0 <= sl_MaxRounds l ∧ 0 <= sl_MaxExtraOpcodeBudget l) →
  let l := CapSimulateLimits c in
  1 <= sl_MaxTxnGroups l <= maxSimulateGroups ∧
  0 <= sl_MaxRounds l <= maxSimulateRounds ∧
  0 < sl_MaxExtraOpcodeBudget l <= maxExtraOpcodeBudget ∧
  1 <= sl_ResourceLimitMultiplier l <= maxResourceLimitMultiplier ∧
  (cap_Simulate c = None → l = StockSimulateLimits) ∧
  CapSimulateLimits (c <| cap_Simulate := Some l |>) = l.
Proof.
  intros H. unfold CapSimulateLimits. destruct (cap_Simulate c) as [l|]; simpl.
  - specialize (H l eq_refl).
    unfold maxSimulateGroups, maxSimulateRounds, maxExtraOpcodeBudget, maxResourceLimitMultiplier,
      StockMaxExtraOpcodeBudget in *.
    split_and!; try done; try lia.
    + case_match; lia.
    + f_equal; try lia. repeat case_match; lia.
  - by split_and!.
Qed.

Lemma SimulateLimits_clamped_witness :
  let c := zeroCapabilities <| cap_Simulate := Some (mkSimulateLimits 0 1000 0 9999 0 5) |> in
  (∀ l, cap_Simulate c = Some l → 0 <= sl_MaxRounds l ∧ 0 <= sl_MaxExtraOpcodeBudget l) ∧
  CapSimulateLimits c = mkSimulateLimits 1 256 320000 1024 0 5 ∧
  1 <= sl_MaxTxnGroups (CapSimulateLimits c) <= maxSimulateGroups.
Proof.
  intros c.
  assert (∀ l, cap_Simulate c = Some l → 0 <= sl_MaxRounds l ∧ 0 <= sl_MaxExtraOpcodeBudget l)
    as H by (intros l [= <-]; simpl; lia).
  split; [exact H |]. split; [reflexivity |]. apply (SimulateLimits_clamped c H).
Defined.

Lemma OldestRoundFor_window_witness :
  OldestRoundFor (mkArchival ArchivalTrailing 500) 2000 = 1500 ∧
  2000 - OldestRoundFor (mkArchival ArchivalTrailing 500) 2000 = Z.min 2000 500.
Proof.
  split; [reflexivity |].
  apply (OldestRoundFor_window (mkArchival ArchivalTrailing 500) 2000 2001);
    simpl; first [reflexivity | mlia].
Defined.

(** What a record says, apart from its version and when it was written. *)
Definition static_view (r : NodeRecord) :=
  (nr_ID r, IsBalancer r, nr_Network r, nr_Token r, nr_Tier r,
   GossipAddrs (nr_Agent r), ai_PubKey (nr_Agent r), nr_Endpoints r, nr_Tags r, nr_Declared r).

(** the comparison that decides whether a node publishes its record
    again is equality of the static facts: it ignores the version, the write
    round and how the gossip addresses are split between the old and the new
    field, and misses no other difference. *)
Theorem StaticEqual_iff r o : StaticEqual r o = true ↔ static_view r = static_view o.
Proof.
  unfold StaticEqual, static_view.
  assert (∀ b c : bool, (if b then false else c) = negb b && c) as Hif by by intros [] [].
  rewrite !Hif, !negb_orb, !negb_involutive, !andb_true_iff, !String.eqb_eq, !eqb_true_iff,
    Z.eqb_eq, !equalStrings_eq, equalOverrides_eq.
  split; [intros; destruct_and?; congruence | intros [=]; by split_and!].
Qed.

(** a record passes validation exactly when its id is 1 to 48 bytes, its
    network is named, its role is one of the two (or empty, meaning node), its
    tier is not negative, a node has an endpoint to send requests to and a
    balancer an address to send heartbeats to. *)
Theorem Validate_iff r :
  Validate r = Ok tt ↔
  nr_ID r ≠ "" ∧ Z.of_nat (String.length (nr_ID r)) <= 48 ∧ nr_Network r ≠ "" ∧ 0 <= nr_Tier r ∧
  (nr_Role r ∈ [""; RoleNode] ∧ nr_Endpoints r ≠ [] ∨
   nr_Role r = RoleBalancer ∧ GossipAddrs (nr_Agent r) ≠ []).
Proof.
  unfold Validate, ParseRole.
  destruct (String.eqb_spec (nr_ID r) ""); [split; [done | tauto] |].
  case_match; [split; [done | lia] |].
  destruct (String.eqb_spec (nr_Network r) ""); [split; [done | tauto] |].
  assert (∀ l : list string, (Z.of_nat (length l) =? 0) = bool_decide (l = [])) as Hlen.
  { intros [|? ?]; [done |]. rewrite (bool_decide_eq_false_2 (_ :: _ = [])) by done. simpl. lia. }
  rewrite !Hlen, !elem_of_cons, elem_of_nil.
  destruct (String.eqb_spec (nr_Role r) "") as [->|]; [| destruct (String.eqb_spec (nr_Role r) RoleNode) as [->|];
    [| destruct (String.eqb_spec (nr_Role r) RoleBalancer) as [->|]]]; simpl;
    repeat case_bool_decide; simpl; try case_match;
    (split; [intros; try done; split_and!; try done; try lia; auto |
             intros (?&?&?&?&[[Hr ?]|[Hr ?]]); try done; try lia; destruct Hr as [|[|]]; done]).
Qed.

(** applying a node's manual corrections twice is applying them once, a
    corrected archival mode always comes with the oldest round it implies at
    the given tip, and a field no correction names keeps its value. *)
Theorem Apply_idempotent o c last :
  Apply o (Apply o c last) last = Apply o c last ∧
  (∀ ov a, o = Some ov → ov_Archival ov = Some a →
    cap_Archival (Apply o c last) = a ∧
    cap_OldestRound (Apply o c last) = OldestRoundFor (cap_Archival (Apply o c last)) last) ∧
  (∀ ov, o = Some ov →
    (ov_Archival ov = None → cap_OldestRound (Apply o c last) = cap_OldestRound c) ∧
    cap_TimeTravel (Apply o c last) = default (cap_TimeTravel c) (ov_TimeTravel ov) ∧
    cap_DeveloperAPI (Apply o c last) = default (cap_DeveloperAPI c) (ov_DeveloperAPI ov) ∧
    cap_FollowMode (Apply o c last) = default (cap_FollowMode c) (ov_FollowMode ov) ∧
    cap_Simulate (Apply o c last) = from_option Some (cap_Simulate c) (ov_Simulate ov)).
Proof.
  destruct o as [[oa od of_ ot os]|]; [| by split_and!].
  split_and!; [by destruct c, oa, od, of_, ot, os | |]; intros ov; intros; simplify_eq/=.
  - by destruct od, of_, ot, os.
  - by destruct oa, od, of_, ot, os.
Qed.
