(* ===== verification/Classify.v ===== *)
(** * Classify: request classification (internal/domain/classify.go)

    [Classify] derives from method, path and raw query everything routing
    needs to know about a request; [ApplySimulate] refines the class of a
    simulation with its body, and [Relaxed] lists what selection falls back
    to.  A slice expression can panic in Go, so [Classify] returns an option:
    None is the panic, and [Classify_total] shows there is none. *)
From S2P Require Import Prelude GoFloat GoStrings Types.
From Stdlib Require Import Ascii.
Open Scope Z_scope.

(** ** The class of a request *)
Inductive RoundWindow := WindowBlock | WindowState | WindowDelta.

#[export] Instance RoundWindow_eq_dec : EqDecision RoundWindow.
Proof. solve_decision. Defined.

Record Reply := mkReply { rp_Status : Z; rp_Message : string }.
Definition zeroReply : Reply := mkReply 0 "".

Record SimulateNeeds := mkSimulateNeeds {
  sn_Groups : Z;
  sn_Rounds : Z;
  sn_ExtraOpcodeBudget : Z;
  sn_Fork : bool;
  sn_DeveloperAPI : bool;
  sn_RoundsSpan : bool;
  sn_Latest : bool;
  sn_ExecTrace : bool;
  sn_UnnamedResources : bool
}.

Record RequestClass := mkRequestClass {
  rc_Round : option Z;
  rc_Ahead : Reply;
  rc_NeedsDev : bool;
  rc_Broadcast : bool;
  rc_PendingID : string;
  rc_WaitAfter : option Z;
  rc_LocalOnly : bool;
  rc_Agent : bool;
  rc_Idempotent : bool;
  rc_TimeTravel : bool;
  rc_RoundWindow : RoundWindow;
  rc_HistoryAnyRound : bool;
  rc_Simulate : bool;
  rc_SimNeeds : option SimulateNeeds;
  rc_RoundHigh : Z;
  rc_SimulateLimits : bool;
  rc_Versions : bool;
  rc_Deltas : bool
}.

(** RequestClass{}: Go's zero value. *)
Definition zeroClass : RequestClass :=
  mkRequestClass None zeroReply false false "" None false false false false
    WindowBlock false false None 0 false false false.

Definition Heavy (c : RequestClass) : bool := rc_Simulate c || rc_Deltas c.

Definition Fits (n : SimulateNeeds) (c : Capabilities) : bool :=
  if sn_Fork n && isNone (cap_Simulate c) then false
  else if sn_DeveloperAPI n && negb (cap_DeveloperAPI c) then false
  else
    let l := CapSimulateLimits c in
    (wu64 (sn_Groups n) <=? sl_MaxTxnGroups l) && (wu64 (sn_Rounds n) <=? sl_MaxRounds l) &&
    (sn_ExtraOpcodeBudget n <=? sl_MaxExtraOpcodeBudget l).

(** ** Simulate bodies *)
Record SimulateBody := mkSimulateBody {
  sb_TxnGroups : Z;               (* how many: the groups themselves are skipped *)
  sb_Round : Z;
  sb_Rounds : list Z;
  sb_ExtraOpcodeBudget : Z;
  sb_ExecTraceEnable : bool;
  sb_AllowUnnamedResources : bool;
  sb_ParallelGroups : bool;
  sb_SkipValidityWindow : bool;
  sb_RewriteValidityWindow : bool;
  sb_Protocol : string
}.

Definition protocolFuture : string := "future".

(** The closure [setRound] of ApplySimulate. *)
Definition setRound (r : Z) (c : RequestClass) : RequestClass :=
  c <| rc_Round := Some r |> <| rc_RoundWindow := WindowState |> <| rc_HistoryAnyRound := true |>.

(** One iteration of the loop over the rounds list: the least and greatest
    round other than 0 so far (0: none yet), and whether 0 was listed. *)
Definition rounds_step (acc : Z * Z * bool) (r : Z) : Z * Z * bool :=
  let '(lo, hi, latest) := acc in
  if r =? 0 then (lo, hi, true)
  else (if (lo =? 0) || (r <? lo) then r else lo, Z.max hi r, latest).

Definition ApplySimulate (c : RequestClass) (b : SimulateBody) : RequestClass :=
  let n := mkSimulateNeeds (sb_TxnGroups b) (Z.of_nat (length (sb_Rounds b))) 0
             (sb_ParallelGroups b || sb_SkipValidityWindow b || sb_RewriteValidityWindow b ||
              (sb_Protocol b <>s ""))
             (sb_ExecTraceEnable b || (sb_Protocol b =s protocolFuture))
             false false (sb_ExecTraceEnable b) (sb_AllowUnnamedResources b) in
  let n := if 0 <? sb_ExtraOpcodeBudget b
           then n <| sn_ExtraOpcodeBudget := sb_ExtraOpcodeBudget b |> else n in
  let '(c, n) :=
    if negb (sb_Round b =? 0) then (setRound (sb_Round b) c, n)
    else if (0 <? length (sb_Rounds b))%nat then
      let '(lo, hi, latest) := foldl rounds_step (0, 0, false) (sb_Rounds b) in
      let n := n <| sn_Latest := latest |> in
      if 0 <? hi then
        (setRound lo c <| rc_RoundHigh := hi |>, n <| sn_RoundsSpan := true |>)
      else (c, n)
    else (c, n) in
  c <| rc_SimNeeds := Some n |>.

Definition Relaxed (c : RequestClass) : list RequestClass :=
  match rc_SimNeeds c with
  | None => []
  | Some n =>
      if sn_RoundsSpan n then
        let c := c <| rc_Round := None |> <| rc_RoundHigh := 0 |>
                   <| rc_RoundWindow := WindowBlock |> <| rc_HistoryAnyRound := false |> in
        [c; c <| rc_SimNeeds := None |>]
      else [c <| rc_SimNeeds := None |>]
  end.

(** The latency bucket of a request. *)
Definition StatKey (c : RequestClass) : string :=
  if rc_TimeTravel c then "timetravel"
  else if rc_Simulate c then "simulate"
  else if isSome (rc_Round c) then "round"
  else if rc_Broadcast c then "broadcast"
  else if rc_PendingID c <>s "" then "pending"
  else if isSome (rc_WaitAfter c) then "wait"
  else if rc_NeedsDev c then "teal"
  else "default".

(** ** Classify *)

Definition parseRound (s : string) : option Z := parse_uint s.

Definition queryValues (rawQuery : string) : values :=
  if rawQuery =s "" then [] else parse_query rawQuery.

(** The closure [roundParam]. *)
Definition roundParam (q : values) : option Z :=
  let s := values_get q "round" in
  if s =s "" then None else parseRound s.

(** The closure [seg]: "" past the end. *)
Definition seg (segs : list string) (i : nat) : string := default "" (segs !! i).

(** segs[n:], which panics beyond the length. *)
Definition slice_from {A} (n : nat) (l : list A) : option (list A) :=
  if (n <=? length l)%nat then Some (drop n l) else None.

Definition ledgerMessage : string := "failed to retrieve information from the ledger".
Definition aheadMessage : string := "given round is greater than the latest round".

(** algod's own reply for a round past its latest, by route. *)
Definition aheadReply (method : string) (segs : list string) (sub : string) : Reply :=
  let s1 := seg segs 1 in
  if method <>s "GET" then zeroReply
  else if (s1 =s "stateproofs") && (sub =s "") || (s1 =s "blocks") && (sub =s "lightheader/proof")
  then mkReply 500 aheadMessage
  else if (s1 =s "blocks") && (length segs =? 6)%nat && (seg segs 3 =s "transactions") && (seg segs 5 =s "proof")
  then mkReply 500 ledgerMessage
  else if (s1 =s "blocks") && ((sub =s "") || (sub =s "hash") || (sub =s "txids") || (sub =s "logs")) ||
          (s1 =s "deltas") && (sub =s "")
  then mkReply 404 ledgerMessage
  else zeroReply.

(** case "blocks", "deltas", "stateproofs". *)
Definition classifyLedger (method : string) (segs : list string) (q : values) (c : RequestClass)
    : option RequestClass :=
  let s1 := seg segs 1 in
  c ← match parseRound (seg segs 2) with
      | Some r =>
          rest ← slice_from 3 segs;
          let sub := join "/" rest in
          let c := c <| rc_Round := Some r |> <| rc_Ahead := aheadReply method segs sub |> in
          Some (if (s1 =s "deltas") && (sub =s "")
                then c <| rc_RoundWindow := WindowDelta |> <| rc_Deltas := method =s "GET" |>
                else c)
      | None => Some c
      end;
  let c := if (s1 =s "blocks") && (values_get q "header-only" =s "true")
           then c <| rc_HistoryAnyRound := true |> else c in
  let c := if (s1 =s "deltas") && (seg segs 2 =s "txn") then c <| rc_Round := None |> else c in
  Some c.

(** case "accounts", "assets", "applications", "ledger". *)
Definition classifyState (segs : list string) (q : values) (c : RequestClass) : RequestClass :=
  let s1 := seg segs 1 in
  if (s1 =s "ledger") && (seg segs 2 <>s "supply") then c <| rc_LocalOnly := true |>
  else
    let ro := roundParam q in
    let c :=
      match ro with
      | None => c
      | Some r =>
          let c := c <| rc_Round := Some r |> <| rc_RoundWindow := WindowState |>
                     <| rc_HistoryAnyRound := true |> in
          if (s1 =s "applications") && (seg segs 3 =s "boxes") then c
          else if (s1 =s "applications") && (seg segs 3 =s "box") then c <| rc_TimeTravel := true |>
          else c <| rc_TimeTravel := true |>
      end in
    if (s1 =s "ledger") && isNone ro then c <| rc_LocalOnly := true |> else c.

(** case "transactions". *)
Definition classifyTxn (method : string) (segs : list string) (c : RequestClass) : RequestClass :=
  let s2 := seg segs 2 in
  let s3 := seg segs 3 in
  if (s2 =s "") && (method =s "POST") then c <| rc_Broadcast := true |> <| rc_Idempotent := false |>
  else if (s2 =s "pending") && (s3 <>s "") then c <| rc_PendingID := s3 |>
  else if s2 =s "pending" then c <| rc_LocalOnly := true |>
  else if (s2 =s "simulate") && (s3 =s "limits") then c <| rc_SimulateLimits := method =s "GET" |>
  else if s2 =s "simulate" then c <| rc_Idempotent := true |> <| rc_Simulate := true |>
  else c.

Definition Classify (method path rawQuery : string) : option RequestClass :=
  let method := to_upper method in
  let c := zeroClass <| rc_Idempotent := (method =s "GET") || (method =s "HEAD") |> in
  let p := trim_suffix "/" path in
  let segs := split_on "/" (trim_prefix "/" p) in
  if seg segs 0 =s "mesh" then Some (c <| rc_Agent := true |> <| rc_LocalOnly := true |>)
  else if elem p ["/health"; "/ready"; "/metrics"; "/swagger.json"; "/versions"; "/genesis"]
  then Some (c <| rc_LocalOnly := true |>)
  else if seg segs 0 <>s "v2" then Some (c <| rc_LocalOnly := true |>)
  else
    let q := queryValues rawQuery in
    if seg segs (length segs - 1) =s "versions"
    then Some (c <| rc_TimeTravel := true |> <| rc_Versions := true |>)
    else
      let s1 := seg segs 1 in
      if elem s1 ["blocks"; "deltas"; "stateproofs"] then classifyLedger method segs q c
      else if elem s1 ["accounts"; "assets"; "applications"; "ledger"] then Some (classifyState segs q c)
      else if s1 =s "status" then
        Some (if seg segs 2 =s "wait-for-block-after"
              then match parseRound (seg segs 3) with
                   | Some r => c <| rc_WaitAfter := Some r |>
                   | None => c
                   end
              else c)
      else if s1 =s "teal" then Some (c <| rc_NeedsDev := true |> <| rc_Idempotent := true |>)
      else if s1 =s "transactions" then Some (classifyTxn method segs c)
      else if elem s1 ["participation"; "shutdown"; "catchup"; "devmode"]
      then Some (c <| rc_LocalOnly := true |>)
      else Some c.

(** ** What a class promises its users

    The router dereferences [Round] when [Ahead] is set, treats agent requests
    as local, and picks one handler by the fields below: these are the facts
    it relies on, for every class it can hold. *)
Record class_wf (c : RequestClass) : Prop := {
  wf_ahead : rp_Status (rc_Ahead c) ≠ 0 → isSome (rc_Round c) = true;
  wf_agent : rc_Agent c = true → rc_LocalOnly c = true;
  wf_broadcast : rc_Broadcast c = true → rc_Idempotent c = false ∧ rc_Simulate c = false ∧ rc_PendingID c = "";
  wf_pending : rc_PendingID c ≠ "" → rc_Simulate c = false;
  wf_wait : rc_WaitAfter c ≠ None →
    rc_Round c = None ∧ rc_Broadcast c = false ∧ rc_PendingID c = "" ∧ rc_Simulate c = false ∧ rc_TimeTravel c = false;
  wf_versions : rc_Versions c = true → rc_TimeTravel c = true ∧ rc_Round c = None;
  wf_needs : isSome (rc_SimNeeds c) = true → rc_Simulate c = true;
  wf_simulate : rc_Simulate c = true → rp_Status (rc_Ahead c) = 0 ∧ rc_TimeTravel c = false ∧ rc_LocalOnly c = false;
  wf_high : rc_RoundHigh c ≠ 0 → rc_Simulate c = true ∧ ∃ r, rc_Round c = Some r ∧ 0 < r <= rc_RoundHigh c;
  wf_limits : rc_SimulateLimits c = true → rc_Simulate c = false ∧ rc_WaitAfter c = None;
  wf_round : ∀ r, rc_Round c = Some r → is_u64 r;
  wf_waitr : ∀ r, rc_WaitAfter c = Some r → is_u64 r;
  wf_final : rp_Status (rc_Ahead c) = 0 ∨ 200 <= rp_Status (rc_Ahead c)
}.

(** A class the router holds: from the request line, refined by a simulate
    body whose integers decode to their types, then possibly relaxed. *)
Definition body_ok (b : SimulateBody) : Prop :=
  0 <= sb_TxnGroups b ∧ is_u64 (sb_Round b) ∧ Forall is_u64 (sb_Rounds b).

Inductive routed : RequestClass → Prop :=
  | routed_line method path query c : Classify method path query = Some c → routed c
  | routed_body method path query c b :
      Classify method path query = Some c → rc_Simulate c = true → body_ok b → routed (ApplySimulate c b)
  | routed_relaxed c c' : routed c → c' ∈ Relaxed c → routed c'.

(** *** Classify *)

Lemma seg_nonempty segs i : seg segs i ≠ "" → (i < length segs)%nat.
Proof.
  unfold seg. destruct (segs !! i) eqn:E; [| done]. intros _. by eapply lookup_lt_Some.
Qed.

Lemma parseRound_seg segs i r : parseRound (seg segs i) = Some r → (i < length segs)%nat ∧ is_u64 r.
Proof.
  intros H. split; [| by eapply parse_uint_range].
  apply seg_nonempty. intros E. by rewrite E in H.
Qed.

Lemma roundParam_u64 q r : roundParam q = Some r → is_u64 r.
Proof. unfold roundParam. case_match; [done |]. apply parse_uint_range. Qed.

Lemma classifyLedger_total method segs q c : isSome (classifyLedger method segs q c) = true.
Proof.
  unfold classifyLedger, slice_from.
  destruct (parseRound (seg segs 2)) eqn:E; [| done].
  apply parseRound_seg in E as [E _].
  rewrite (proj2 (Nat.leb_le 3 _)) by lia. done.
Qed.

(** classification never panics: the one slice expression is reached only
    with three path segments or more. *)
Theorem Classify_total method path query : ∃ c, Classify method path query = Some c.
Proof.
  unfold Classify.
  pose proof (classifyLedger_total (to_upper method)) as H.
  repeat case_match; eauto.
  match goal with |- ∃ c, classifyLedger ?m ?s ?q ?c0 = _ => specialize (H s q c0) end.
  destruct (classifyLedger _ _ _ _); [eauto | done].
Qed.

(** A class straight from the request line also names no round for a
    simulation, whose body has not been read. *)
Definition line_wf (c : RequestClass) : Prop :=
  class_wf c ∧ (rc_Simulate c = true → rc_Round c = None ∧ rc_RoundHigh c = 0 ∧ rc_SimNeeds c = None).

(** Flags, a round or a wait set on an otherwise empty class. *)
Ltac solve_wf :=
  split; [constructor |]; simpl in *; unfold const in *; intros; simplify_eq/=; try done;
  try (split_and!; done); try congruence; try (by left).

Lemma aheadReply_final method segs sub :
  rp_Status (aheadReply method segs sub) = 0 ∨ 200 <= rp_Status (aheadReply method segs sub).
Proof. unfold aheadReply. repeat case_match; simpl; lia. Qed.

Lemma classifyLedger_wf method segs q b c :
  classifyLedger method segs q (zeroClass <| rc_Idempotent := b |>) = Some c → line_wf c.
Proof.
  unfold classifyLedger. simpl.
  destruct (parseRound (seg segs 2)) as [r|] eqn:E.
  - pose proof E as E'. apply parseRound_seg in E' as [_ Hr].
    destruct (slice_from 3 segs) as [rest|]; simpl; [| done].
    assert ((seg segs 2 =s "txn") = false) as ->.
    { apply String.eqb_neq. intros Ht. rewrite Ht in E. by vm_compute in E. }
    rewrite andb_false_r. intros [= <-]. repeat case_match; solve_wf; try apply aheadReply_final.
  - simpl. intros [= <-]. repeat case_match; solve_wf.
Qed.

Lemma Classify_line_wf method path query c : Classify method path query = Some c → line_wf c.
Proof.
  unfold Classify. generalize ((to_upper method =s "GET") || (to_upper method =s "HEAD")). intros b.
  repeat match goal with
  | |- (if ?x then _ else _) = _ → _ => destruct x
  | |- context [classifyLedger] => apply classifyLedger_wf
  end; intros [= <-]; try solve [solve_wf].
  - unfold classifyState. destruct (roundParam _) eqn:E; [apply roundParam_u64 in E |];
      repeat case_match; simplify_eq/=; solve_wf.
  - destruct (seg _ 2 =s _); [| solve_wf]. destruct (parseRound _) eqn:E; [apply parseRound_seg in E as [_ ?] |]; solve_wf.
  - unfold classifyTxn. repeat case_match; bprop; solve_wf.
Qed.

(** *** Simulate bodies *)

(** The least and greatest round other than 0 in a list; [None] for none. *)
Definition nonzero (rs : list Z) : list Z := filter (λ r, r ≠ 0) rs.
Definition least (rs : list Z) : Z := match nonzero rs with [] => 0 | r :: rs => foldr Z.min r rs end.
Definition greatest (rs : list Z) : Z := foldr Z.max 0 (nonzero rs).

(** The loop over the rounds list, from its left: what it has seen so far. *)
Lemma rounds_step_spec rs lo hi latest :
  Forall (λ r, 0 <= r) rs → 0 <= lo → 0 <= hi → (lo = 0 ↔ hi = 0) →
  let '(lo', hi', latest') := foldl rounds_step (lo, hi, latest) rs in
  latest' = latest || bool_decide (0 ∈ rs) ∧
  hi' = foldr Z.max hi (nonzero rs) ∧
  lo' = (if lo =? 0 then least rs else foldr Z.min lo (nonzero rs)).
Proof.
  revert lo hi latest. induction rs as [|r rs IH]; intros lo hi latest Hrs Hlo Hhi Hz; simpl.
  { unfold least. simpl. rewrite orb_false_r. split_and!; [done | done | case_match; lia]. }
  inversion Hrs as [|? ? Hr Hrs']; subst. unfold least, nonzero in *. rewrite filter_cons.
  destruct (Z.eqb_spec r 0) as [->|Hr0].
  - rewrite decide_False by auto. specialize (IH lo hi true Hrs' Hlo Hhi Hz).
    destruct (foldl _ _ _) as [[lo' hi'] latest']. destruct IH as (-> & -> & ->).
    rewrite (bool_decide_eq_true_2 (0 ∈ 0 :: rs)) by set_solver. by rewrite orb_true_r.
  - rewrite decide_True by auto.
    assert (∀ x y l, foldr Z.max (Z.max x y) l = Z.max y (foldr Z.max x l)) as Hmax
      by (intros x y l; induction l; simpl; lia).
    assert (∀ x y l, foldr Z.min (Z.min x y) l = Z.min y (foldr Z.min x l)) as Hmin
      by (intros x y l; induction l; simpl; lia).
    specialize (IH (if (lo =? 0) || (r <? lo) then r else lo) (Z.max hi r) latest Hrs').
    destruct (foldl _ _ _) as [[lo' hi'] latest'].
    destruct IH as (-> & -> & ->); [case_match; lia | lia | case_match; lia |].
    split_and!.
    + f_equal. apply bool_decide_ext. set_solver.
    + by rewrite Hmax.
    + destruct (Z.eqb_spec lo 0) as [->|]; simpl; [by rewrite (proj2 (Z.eqb_neq r 0)) by done |].
      assert ((if r <? lo then r else lo) = Z.min lo r) as -> by (case_match; lia).
      rewrite (proj2 (Z.eqb_neq (Z.min lo r) 0)) by lia. by rewrite Hmin.
Qed.

Lemma foldr_min_le r rs x : x ∈ rs → foldr Z.min r rs <= x.
Proof. induction rs; simpl; [set_solver |]. intros [->|?]%elem_of_cons; [lia |]. specialize (IHrs H). lia. Qed.
Lemma foldr_min_le_base r rs : foldr Z.min r rs <= r.
Proof. induction rs; simpl; lia. Qed.
Lemma foldr_min_in r rs : foldr Z.min r rs ∈ r :: rs.
Proof.
  induction rs as [|x rs IH]; simpl; [set_solver |].
  destruct (Z.min_dec x (foldr Z.min r rs)) as [->| ->]; set_solver.
Qed.
Lemma foldr_max_ge r rs x : x ∈ r :: rs → x <= foldr Z.max r rs.
Proof.
  induction rs as [|y rs IH]; simpl; [set_solver by lia |].
  rewrite !elem_of_cons in *. intros [->|[->|?]]; [| lia |]; (etransitivity; [apply IH; auto | lia]).
Qed.
Lemma foldr_max_in r rs : foldr Z.max r rs ∈ r :: rs.
Proof.
  induction rs as [|x rs IH]; simpl; [set_solver |].
  destruct (Z.max_dec x (foldr Z.max r rs)) as [->| ->]; set_solver.
Qed.

(** [least] and [greatest] are what their names say. *)
Lemma least_spec rs :
  nonzero rs ≠ [] → least rs ∈ rs ∧ least rs ≠ 0 ∧ ∀ r, r ∈ rs → r ≠ 0 → least rs <= r.
Proof.
  unfold least. intros Hne.
  assert (∀ r, r ∈ nonzero rs ↔ r ≠ 0 ∧ r ∈ rs) as Hin by (intros; unfold nonzero; by rewrite list_elem_of_filter).
  destruct (nonzero rs) as [|r0 rs0]; [done |].
  split_and!; [apply Hin, foldr_min_in | apply (Hin (foldr Z.min r0 rs0)), foldr_min_in |].
  intros r Hr Hr0. assert (r ∈ r0 :: rs0) as [->|?]%elem_of_cons by by apply Hin.
  - apply foldr_min_le_base.
  - by apply foldr_min_le.
Qed.

Lemma greatest_spec rs :
  Forall (λ r, 0 <= r) rs → nonzero rs ≠ [] → greatest rs ∈ rs ∧ 0 < greatest rs ∧ ∀ r, r ∈ rs → r <= greatest rs.
Proof.
  unfold greatest. intros Hp Hne. rewrite Forall_forall in Hp.
  assert (∀ r, r ∈ nonzero rs ↔ r ≠ 0 ∧ r ∈ rs) as Hin by (intros; unfold nonzero; by rewrite list_elem_of_filter).
  destruct (nonzero rs) as [|r0 rs0] eqn:E; [done |].
  assert (r0 ≠ 0 ∧ r0 ∈ rs) as [Hr0 Hr0'] by (apply Hin; set_solver).
  pose proof (foldr_max_ge 0 (r0 :: rs0) r0 ltac:(set_solver)) as Hge. specialize (Hp _ Hr0') as Hr0p.
  split_and!; [| lia |].
  - pose proof (foldr_max_in 0 (r0 :: rs0)) as [?|?]%elem_of_cons; [lia | by apply Hin].
  - intros r Hr. destruct (decide (r = 0)) as [->|]; [lia |].
    apply foldr_max_ge. rewrite elem_of_cons. right. by apply Hin.
Qed.

Lemma nonzero_nil rs : Forall (λ r, 0 <= r) rs → greatest rs = 0 ↔ nonzero rs = [].
Proof.
  intros Hp. split; [| by unfold greatest; intros ->].
  intros H. destruct (decide (nonzero rs = [])) as [|Hne]; [done |].
  pose proof (greatest_spec rs Hp Hne). lia.
Qed.

Ltac solve_needs :=
  eexists; split; [reflexivity |]; simpl; unfold const; rewrite ?bool_decide_eq_true;
  split; [done | split; [done | split; [lia | split; (split; [intros; try done; split; try done; try lia; try tauto; try set_solver
                                                       | intros [? ?]; try done; try lia; try tauto; try set_solver])]]].

(** What ApplySimulate computes, as one expression per case. *)
Lemma ApplySimulate_eq c b :
  Forall is_u64 (sb_Rounds b) →
  let c' := ApplySimulate c b in
  (sb_Round b ≠ 0 →
    rc_Round c' = Some (sb_Round b) ∧ rc_RoundHigh c' = rc_RoundHigh c ∧
    rc_RoundWindow c' = WindowState ∧ rc_HistoryAnyRound c' = true) ∧
  (sb_Round b = 0 → nonzero (sb_Rounds b) ≠ [] →
    rc_Round c' = Some (least (sb_Rounds b)) ∧ rc_RoundHigh c' = greatest (sb_Rounds b) ∧
    rc_RoundWindow c' = WindowState ∧ rc_HistoryAnyRound c' = true) ∧
  (sb_Round b = 0 → nonzero (sb_Rounds b) = [] →
    rc_Round c' = rc_Round c ∧ rc_RoundHigh c' = rc_RoundHigh c ∧
    rc_RoundWindow c' = rc_RoundWindow c ∧ rc_HistoryAnyRound c' = rc_HistoryAnyRound c) ∧
  (∃ n, rc_SimNeeds c' = Some n ∧ sn_Groups n = sb_TxnGroups b ∧
    sn_Rounds n = Z.of_nat (length (sb_Rounds b)) ∧
    sn_ExtraOpcodeBudget n = Z.max 0 (sb_ExtraOpcodeBudget b) ∧
    (sn_Latest n = true ↔ sb_Round b = 0 ∧ 0 ∈ sb_Rounds b) ∧
    (sn_RoundsSpan n = true ↔ sb_Round b = 0 ∧ nonzero (sb_Rounds b) ≠ [])).
Proof.
  intros Hu. assert (Forall (λ r, 0 <= r) (sb_Rounds b)) as Hp
    by (eapply Forall_impl; [exact Hu | intros r Hr; apply Hr]).
  pose proof (rounds_step_spec (sb_Rounds b) 0 0 false Hp ltac:(lia) ltac:(lia) ltac:(done)) as Hs.
  pose proof (nonzero_nil (sb_Rounds b) Hp) as Hz. unfold greatest in *.
  unfold ApplySimulate. destruct (foldl rounds_step _ _) as [[lo hi] latest].
  destruct Hs as (-> & -> & ->). cbn [orb].
  set (g := foldr Z.max 0 (nonzero (sb_Rounds b))) in *.
  assert ((0 <? length (sb_Rounds b))%nat = negb (bool_decide (sb_Rounds b = []))) as ->.
  { destruct (sb_Rounds b); [done |]. by rewrite (bool_decide_eq_false_2 (_ :: _ = [])). }
  assert (0 <= g) as Hg.
  { destruct (decide (nonzero (sb_Rounds b) = [])) as [E|E]; [unfold g; by rewrite E |].
    pose proof (greatest_spec _ Hp E) as Hgs. unfold greatest in Hgs. fold g in Hgs. lia. }
  destruct (Z.eqb_spec (sb_Round b) 0) as [E0|E0]; simpl.
  - destruct (decide (sb_Rounds b = [])) as [E|E].
    + rewrite E in *. simpl. unfold const. split_and!; try done.
      destruct (0 <? sb_ExtraOpcodeBudget b) eqn:Eb; solve_needs.
    + rewrite bool_decide_eq_false_2 by done. simpl.
      destruct (Z.ltb_spec 0 g) as [Hlt|Hge]; simpl; unfold const.
      * assert (nonzero (sb_Rounds b) ≠ []) as Hne by (rewrite <- Hz; lia).
        split_and!; [done | intros; by split_and! | done |].
        destruct (0 <? sb_ExtraOpcodeBudget b) eqn:Eb; solve_needs.
      * assert (nonzero (sb_Rounds b) = []) as Hne by (apply Hz; lia).
        split_and!; [done | done | intros; by split_and! |].
        destruct (0 <? sb_ExtraOpcodeBudget b) eqn:Eb; solve_needs.
  - unfold const. split_and!; try done.
    destruct (0 <? sb_ExtraOpcodeBudget b) eqn:Eb; solve_needs.
Qed.

(** The fields a simulate body does not touch. *)
Definition line_fields (c : RequestClass) :=
  (rc_Ahead c, rc_NeedsDev c, rc_Broadcast c, rc_PendingID c, rc_WaitAfter c, rc_LocalOnly c,
   rc_Agent c, rc_Idempotent c, rc_TimeTravel c, rc_Simulate c, rc_SimulateLimits c,
   rc_Versions c, rc_Deltas c).

Lemma ApplySimulate_frame c b : line_fields (ApplySimulate c b) = line_fields c.
Proof.
  unfold ApplySimulate, line_fields. destruct (foldl rounds_step _ _) as [[lo hi] latest].
  destruct (negb (sb_Round b =? 0)); [reflexivity |].
  destruct (0 <? length (sb_Rounds b))%nat; [| reflexivity]. destruct (0 <? hi); reflexivity.
Qed.

Lemma u64_nonneg rs : Forall is_u64 rs → Forall (λ r, 0 <= r) rs.
Proof. intros H. eapply Forall_impl; [exact H |]. by intros r [? _]. Qed.

Lemma ApplySimulate_round_u64 c b r :
  rc_Round c = None → body_ok b → rc_Round (ApplySimulate c b) = Some r → is_u64 r.
Proof.
  intros Hc (_ & Hr & Hrs). destruct (ApplySimulate_eq c b Hrs) as (H1 & H2 & H3 & _).
  destruct (decide (sb_Round b = 0)) as [E0|E0]; [| destruct (H1 E0) as (-> & _); by intros [= <-]].
  destruct (decide (nonzero (sb_Rounds b) = [])) as [E|E].
  - destruct (H3 E0 E) as (-> & _). by rewrite Hc.
  - destruct (H2 E0 E) as (-> & _). intros [= <-]. rewrite Forall_forall in Hrs.
    apply Hrs, (least_spec _ E).
Qed.

Lemma ApplySimulate_high c b :
  rc_RoundHigh c = 0 → body_ok b → rc_RoundHigh (ApplySimulate c b) ≠ 0 →
  ∃ r, rc_Round (ApplySimulate c b) = Some r ∧ 0 < r <= rc_RoundHigh (ApplySimulate c b).
Proof.
  intros Hc (_ & Hr & Hrs) Hh. destruct (ApplySimulate_eq c b Hrs) as (H1 & H2 & H3 & _).
  apply u64_nonneg in Hrs.
  destruct (decide (sb_Round b = 0)) as [E0|E0]; [| destruct (H1 E0) as (_ & E & _); congruence].
  destruct (decide (nonzero (sb_Rounds b) = [])) as [E|E]; [destruct (H3 E0 E) as (_ & E' & _); congruence |].
  destruct (H2 E0 E) as (-> & -> & _). eexists; split; [done |].
  destruct (least_spec _ E) as (Hl1 & Hl2 & Hl3), (greatest_spec _ Hrs E) as (Hg1 & Hg2 & Hg3).
  rewrite Forall_forall in Hrs. specialize (Hrs _ Hl1). specialize (Hg3 _ Hl1). simpl in Hrs. lia.
Qed.

Lemma ApplySimulate_wf c b :
  line_wf c → rc_Simulate c = true → body_ok b → class_wf (ApplySimulate c b).
Proof.
  intros [W L] Hs Hb. destruct (L Hs) as (Lr & Lh & _).
  pose proof (ApplySimulate_frame c b) as F.
  unfold line_fields in F. injection F as Fah Fnd Fbc Fpe Fwa Flo Fag Fid Ftt Fsi Fsl Fve Fde.
  destruct (wf_simulate c W Hs) as (Ha & Htt & Hlo).
  constructor; rewrite ?Fah, ?Fnd, ?Fbc, ?Fpe, ?Fwa, ?Flo, ?Fag, ?Fid, ?Ftt, ?Fsi, ?Fsl, ?Fve, ?Fde;
    try apply W; try done.
  - intros Hc. destruct (wf_wait c W Hc) as (_ & _ & _ & ? & _). congruence.
  - intros Hc. destruct (wf_versions c W Hc). congruence.
  - intros Hc. split; [done |]. by apply ApplySimulate_high.
  - intros r. by apply ApplySimulate_round_u64.
Qed.

Lemma Relaxed_wf c c' : class_wf c → c' ∈ Relaxed c → class_wf c'.
Proof.
  unfold Relaxed. intros W. destruct (rc_SimNeeds c) as [n|] eqn:E; [| set_solver].
  pose proof (wf_needs c W) as Hn. rewrite E in Hn. specialize (Hn eq_refl).
  destruct (wf_simulate c W Hn) as (Ha & Htt & Hlo).
  destruct W as [w1 w2 w3 w4 w5 w6 w7 w8 w9 w10 w11 w12 w13].
  destruct (sn_RoundsSpan n); rewrite ?elem_of_cons, ?elem_of_nil;
    [intros [->|[->|[]]] | intros [->|[]]];
    constructor; simpl; unfold const; auto; try done; intros H; try done; try (by destruct (w5 H));
    try (by destruct (w6 H)).
  all: try (destruct (w5 H) as (?&?&?&?&?); by split_and!).
  all: try (destruct (w6 H) as (?&?); by split_and!).
Qed.

(** C3: every class the router holds, from the request line, a simulate body
    or a relaxation, is well formed: a canned reply for a round ahead has a
    final status and comes with the round the router dereferences, agent requests are local, the
    broadcast, pending, wait and simulate handlers exclude one another, an
    object history needs a time-travel node, a rounds list's earliest round is
    positive and at most its latest, and rounds are 64-bit. *)
Theorem routed_class_wf c : routed c → class_wf c.
Proof.
  induction 1 as [m p q c Hc | m p q c b Hc Hs Hb | c c' Hc IH Hin].
  - apply (Classify_line_wf _ _ _ _ Hc).
  - apply ApplySimulate_wf; [by eapply Classify_line_wf | done | done].
  - by eapply Relaxed_wf.
Qed.

(** A simulation of three rounds, one of them the latest, relaxed. *)
Definition sampleBody : SimulateBody :=
  mkSimulateBody 2 0 [50; 0; 40] 0 false false false false false "".

Definition sampleClass : RequestClass :=
  Eval vm_compute in default zeroClass (Classify "POST" "/v2/transactions/simulate" "").

Lemma sampleBody_ok : body_ok sampleBody.
Proof.
  split; [simpl; lia |]. split; [simpl; mlia |]. simpl. repeat (constructor; [mlia |]). constructor.
Qed.

Lemma routed_class_wf_witness :
  let c := ApplySimulate sampleClass sampleBody in
  routed c ∧ rc_Round c = Some 40 ∧ rc_RoundHigh c = 50 ∧ class_wf c.
Proof.
  intros c.
  assert (routed c) as R.
  { apply (routed_body "POST" "/v2/transactions/simulate" "" sampleClass sampleBody);
      [vm_compute; reflexivity | reflexivity | exact sampleBody_ok]. }
  split; [exact R |]. split; [reflexivity |]. split; [reflexivity |].
  apply (routed_class_wf _ R).
Defined.

(** a rounds list (with no single round) is routed by its own extremes:
    the class's round is the earliest round listed other than 0 and its high
    round the latest, whatever their order and repetitions; a 0 entry only
    asks for a node in sync, and a list of zeros names no round. *)
Theorem ApplySimulate_rounds c b :
  rc_Round c = None → rc_RoundHigh c = 0 → body_ok b → sb_Round b = 0 →
  let c' := ApplySimulate c b in
  (∀ r, r ∈ sb_Rounds b → r ≠ 0 →
    ∃ lo, rc_Round c' = Some lo ∧ lo ≠ 0 ∧ lo ∈ sb_Rounds b ∧ rc_RoundHigh c' ∈ sb_Rounds b ∧
      lo <= r <= rc_RoundHigh c' ∧ rc_RoundWindow c' = WindowState ∧ rc_HistoryAnyRound c' = true) ∧
  ((∀ r, r ∈ sb_Rounds b → r = 0) → rc_Round c' = None ∧ rc_RoundHigh c' = 0) ∧
  (∃ n, rc_SimNeeds c' = Some n ∧ (sn_Latest n = true ↔ 0 ∈ sb_Rounds b) ∧
    (sn_RoundsSpan n = true ↔ isSome (rc_Round c') = true)).
Proof.
  intros Hr Hh (Hg & _ & Hrs) H0. cbv zeta. destruct (ApplySimulate_eq c b Hrs) as (_ & H2 & H3 & n & Hn & _ & _ & _ & HL & HS).
  apply u64_nonneg in Hrs.
  assert (∀ r, r ∈ nonzero (sb_Rounds b) ↔ r ≠ 0 ∧ r ∈ sb_Rounds b) as Hin
    by (intros; unfold nonzero; by rewrite list_elem_of_filter).
  destruct (decide (nonzero (sb_Rounds b) = [])) as [E|E].
  - destruct (H3 H0 E) as (-> & -> & _). rewrite E in Hin. split; [| split; [done |]].
    + intros r Hr1 Hr2. exfalso. by apply (not_elem_of_nil r), Hin.
    + exists n. rewrite HL, HS, Hr. naive_solver.
  - destruct (H2 H0 E) as (-> & -> & -> & ->). split; [| split].
    + intros r Hr1 Hr2. exists (least (sb_Rounds b)).
      destruct (least_spec _ E) as (Hl1 & Hl2 & Hl3), (greatest_spec _ Hrs E) as (Hg1 & Hg2 & Hg3).
      split_and!; auto.
    + intros Hall. exfalso. apply E. destruct (nonzero (sb_Rounds b)) as [|r rs]; [done |].
      destruct (proj1 (Hin r)) as [Hr1 Hr2]; [set_solver |]. by apply Hall in Hr2.
    + exists n. rewrite HL, HS. naive_solver.
Qed.

Lemma ApplySimulate_rounds_witness :
  let c := ApplySimulate zeroClass sampleBody in
  rc_Round c = Some 40 ∧ rc_RoundHigh c = 50 ∧
  ∃ n, rc_SimNeeds c = Some n ∧ (sn_Latest n = true ↔ 0 ∈ sb_Rounds sampleBody) ∧
    (sn_RoundsSpan n = true ↔ isSome (rc_Round c) = true).
Proof.
  intros c. split; [reflexivity |]. split; [reflexivity |].
  apply (ApplySimulate_rounds zeroClass sampleBody); [reflexivity | reflexivity | exact sampleBody_ok | reflexivity].
Defined.

(** *** Queries and state reads *)

Lemma round_pair d : all_digits d = true → query_pair ("round=" +:+ d) = Some ("round", d).
Proof.
  intros Hd. unfold query_pair. simpl. change ("" +:+ d) with d.
  rewrite (digits_no_semicolon _ Hd).
  by rewrite (digits_unescape _ Hd).
Qed.

(** a round in the query survives whatever else the query holds: members
    that are empty, hold a semicolon, do not unescape or name other keys, in
    any number up to the library's limit, never hide a well-formed round (which
    would let a read of past state reach a plain node). *)
Theorem round_survives_malformed_query ms1 ms2 d :
  all_digits d = true → d ≠ "" →
  Forall (λ m, contains "&" m = false) (ms1 ++ ms2) →
  Forall (λ m, ∀ k v, query_pair m = Some (k, v) → k ≠ "round") ms1 →
  Z.of_nat (length (ms1 ++ ms2)) < max_query_params →
  let q := queryValues (join "&" (ms1 ++ ("round=" +:+ d) :: ms2)) in
  values_get q "round" = d ∧ roundParam q = parseRound d.
Proof.
  intros Hd Hne Hamp Hkeys Hlen. cbv zeta.
  assert (contains "&" ("round=" +:+ d) = false) as Hrd.
  { simpl. change ("" +:+ d) with d. clear - Hd.
    induction d as [|a d IH]; [done |]. simpl in *. bprop.
    assert (Ascii.eqb a "&" = false) as -> by (destruct a as [[] [] [] [] [] [] [] []]; vm_compute in H; done).
    split; [done | by apply IH]. }
  assert (queryValues (join "&" (ms1 ++ ("round=" +:+ d) :: ms2)) =
          omap query_pair ms1 ++ ("round", d) :: omap query_pair ms2) as ->.
  { unfold queryValues. apply Forall_app in Hamp as [Ha1 Ha2].
    destruct (String.eqb_spec (join "&" (ms1 ++ ("round=" +:+ d) :: ms2)) "") as [E|_].
    { exfalso. apply (f_equal (split_on "&")) in E. rewrite split_join in E; [| by destruct ms1 |].
      - destruct ms1 as [|? [|? ?]]; simplify_eq/=.
      - apply Forall_app; split; [done |]. by constructor. }
    unfold parse_query. rewrite split_join; [| by destruct ms1 | apply Forall_app; split; [done | by constructor]].
    rewrite length_app in *. simpl. rewrite (proj2 (Z.leb_le _ _)) by lia.
    rewrite omap_app. simpl. by rewrite (round_pair d Hd). }
  unfold roundParam. rewrite values_get_app.
  - simpl. by rewrite (proj2 (String.eqb_neq _ _) Hne).
  - clear - Hkeys. induction Hkeys as [|m ms Hm _ IH]; simpl; [done |].
    destruct (query_pair m) as [[k v]|]; [| done]. constructor; [| done]. by eapply Hm.
Qed.

Lemma round_survives_malformed_query_witness :
  let q := queryValues (join "&" (["x=%zz"; ""; "a;b"] ++ "round=12" :: ["round=7"])) in
  values_get q "round" = "12" ∧ roundParam q = parseRound "12".
Proof.
  apply (round_survives_malformed_query ["x=%zz"; ""; "a;b"] ["round=7"] "12");
    [reflexivity | discriminate | | | vm_compute; reflexivity].
  - repeat (constructor; [reflexivity |]). constructor.
  - repeat (constructor; [vm_compute; discriminate |]). constructor.
Defined.

(** The segments of a path under /v2/<s1>/. *)
Lemma state_segs s1 rest :
  s1 ∈ ["accounts"; "assets"; "applications"] → rest ≠ "" →
  split_on "/" (trim_prefix "/" (trim_suffix "/" ("/v2/" +:+ s1 +:+ "/" +:+ rest))) =
  "v2" :: s1 :: split_on "/" (trim_suffix "/" rest).
Proof.
  rewrite !elem_of_cons. intros [->|[->|[->|Hs]]] Hr; [| | | by apply elem_of_nil in Hs];
    (destruct rest as [|a rest]; [done |]); reflexivity.
Qed.

(** a read of an account, asset or application at a given round is
    classified as needing the time-travel history, at that round; only a box
    listing, which stock algod answers within its state window, is not. *)
Theorem state_read_class method s1 rest query r c :
  s1 ∈ ["accounts"; "assets"; "applications"] → rest ≠ "" →
  roundParam (queryValues query) = Some r →
  Classify method ("/v2/" +:+ s1 +:+ "/" +:+ rest) query = Some c →
  rc_Versions c = true ∧ rc_TimeTravel c = true ∨
  rc_Round c = Some r ∧ rc_HistoryAnyRound c = true ∧ rc_RoundWindow c = WindowState ∧
    rc_LocalOnly c = false ∧
    (rc_TimeTravel c = true ∨ s1 = "applications" ∧ seg (split_on "/" (trim_suffix "/" rest)) 1 = "boxes").
Proof.
  intros Hs Hr Hq. unfold Classify. rewrite (state_segs s1 rest Hs Hr).
  set (p := trim_suffix "/" ("/v2/" +:+ s1 +:+ "/" +:+ rest)).
  assert (elem p ["/health"; "/ready"; "/metrics"; "/swagger.json"; "/versions"; "/genesis"] = false) as ->.
  { unfold p. rewrite !elem_of_cons in Hs. destruct Hs as [->|[->|[->|Hs]]]; [| | | by apply elem_of_nil in Hs];
      (destruct rest; [done |]); reflexivity. }
  set (segs := split_on "/" (trim_suffix "/" rest)).
  assert (seg ("v2" :: s1 :: segs) 0 = "v2") as -> by done.
  assert (seg ("v2" :: s1 :: segs) 1 = s1) as -> by done.
  assert (elem s1 ["blocks"; "deltas"; "stateproofs"] = false) as ->
    by (rewrite !elem_of_cons in Hs; destruct Hs as [->|[->|[->|Hs]]]; [done .. | by apply elem_of_nil in Hs]).
  assert (elem s1 ["accounts"; "assets"; "applications"; "ledger"] = true) as ->
    by (apply elem_In; set_solver).
  change ("v2" =s "mesh") with false. change ("v2" <>s "v2") with false. cbv iota.
  case_match; [intros [= <-]; by left |].
  intros [= <-]. right. unfold classifyState. rewrite Hq.
  assert (seg ("v2" :: s1 :: segs) 1 = s1) as -> by done.
  assert (seg ("v2" :: s1 :: segs) 3 = seg segs 1) as -> by done.
  assert ((s1 =s "ledger") = false) as ->
    by (rewrite !elem_of_cons in Hs; destruct Hs as [->|[->|[->|Hs]]]; [done .. | by apply elem_of_nil in Hs]).
  simpl. destruct (String.eqb_spec s1 "applications"); simpl; [| split_and!; auto].
  destruct (String.eqb_spec (seg segs 1) "boxes"); simpl; [split_and!; auto |].
  by destruct (seg segs 1 =s "box"); split_and!; auto.
Qed.

Lemma state_read_class_witness :
  ∃ c, Classify "GET" "/v2/accounts/ABC" "round=12" = Some c ∧
    (rc_Versions c = true ∧ rc_TimeTravel c = true ∨
     rc_Round c = Some 12 ∧ rc_HistoryAnyRound c = true ∧ rc_RoundWindow c = WindowState ∧
     rc_LocalOnly c = false ∧
     (rc_TimeTravel c = true ∨ "accounts" = "applications" ∧ seg (split_on "/" (trim_suffix "/" "ABC")) 1 = "boxes")).
Proof.
  eexists. split; [vm_compute; reflexivity |].
  apply (state_read_class "GET" "accounts" "ABC" "round=12" 12);
    [set_solver | discriminate | vm_compute; reflexivity | vm_compute; reflexivity].
Defined.
