(* ===== verification/Eligible.v ===== *)
(** * Eligible: which upstream may serve a request (internal/domain/eligible.go)

    [Eligible] decides whether one upstream may serve a request of a class,
    [CouldServe] whether some upstream has what the class needs whatever its
    state, and [FleetSimulateLimits] what a simulate request sent to the mesh
    may ask for. *)
From S2P Require Import Prelude GoFloat GoStrings Types Classify.
Open Scope Z_scope.

(** ** Rounds and synchronisation *)

Definition synced (round best tol : Z) : bool := best <=? wu64 (round + tol).

Definition inSync (u : Upstream) (best tol : Z) : bool :=
  match up_Health u with
  | HealthSynced => true
  | HealthLagging => false
  | _ => synced (up_LastRound u) best tol
  end.

Definition SyncHealth (h : Health) (round best tol : Z) : Health :=
  if negb (Reachable h) then h
  else if synced round best tol then HealthSynced
  else HealthLagging.

(** The oldest round a plain node answers in state window w; None when its
    lookback is unknown (zero). *)
Definition stateOldest (u : Upstream) (w : RoundWindow) : option Z :=
  let lb := cap_MaxAcctLookback (up_Caps u) in
  if lb =? 0 then None
  else
    let oldest := if lb <? up_LastRound u then wu64 (up_LastRound u - lb) else 0 in
    Some (match w with WindowDelta => wu64 (oldest + 1) | _ => oldest end).

Definition stateWindowCovers (u : Upstream) (r : Z) (w : RoundWindow) : bool :=
  match stateOldest u w with
  | None => cap_OldestRound (up_Caps u) <=? r
  | Some oldest => oldest <=? r
  end.

(** The switch on the window a request for round r must fall in. *)
Definition windowCovers (u : Upstream) (c : RequestClass) (r : Z) : bool :=
  if cap_TimeTravel (up_Caps u) && rc_HistoryAnyRound c then true
  else if cap_TimeTravel (up_Caps u) then negb (r <? cap_OldestRound (up_Caps u))
  else if bool_decide (rc_RoundWindow c ≠ WindowBlock) then stateWindowCovers u r (rc_RoundWindow c)
  else negb (r <? cap_OldestRound (up_Caps u)).

Definition Eligible (u : Upstream) (c : RequestClass) (bestRound tolerance : Z) : bool :=
  if up_Excluded u || negb (Reachable (up_Health u)) || up_Draining u then false
  else if st_BreakerOpen (up_Stats u) || st_Throttled (up_Stats u) || st_Busy (up_Stats u) && Heavy c then false
  else if rc_LocalOnly c && bool_decide (up_Kind u ≠ KindLocal) then false
  else if rc_TimeTravel c && negb (cap_TimeTravel (up_Caps u)) then false
  else if match rc_Round c with
          | Some r =>
              (up_LastRound u <? r) || (up_LastRound u <? rc_RoundHigh c) ||
              negb (windowCovers u c r) ||
              match rc_SimNeeds c with
              | Some n => sn_Latest n && negb (inSync u bestRound tolerance)
              | None => false
              end
          | None => negb (rc_LocalOnly c) && negb (inSync u bestRound tolerance)
          end then false
  else if match rc_WaitAfter c with
          | Some w => wu64 (up_LastRound u + 1) <? w
          | None => false
          end then false
  else if rc_NeedsDev c && negb (cap_DeveloperAPI (up_Caps u)) then false
  else if match rc_SimNeeds c with Some n => negb (Fits n (up_Caps u)) | None => false end then false
  else if rc_Broadcast c && cap_FollowMode (up_Caps u) then false
  else true.

Definition BestRound (us : list Upstream) : Z :=
  foldl (λ best u, if Reachable (up_Health u) && negb (up_Excluded u) && (best <? up_LastRound u)
                   then up_LastRound u else best) 0 us.

(** The snapshot with its state made ideal, as CouldServe judges it. *)
Definition idealised (u : Upstream) : Upstream :=
  u <| up_Health := HealthSynced |> <| up_Draining := false |> <| up_Stats := zeroStats |>.

Definition CouldServe (us : list Upstream) (c : RequestClass) : bool :=
  existsb (λ u, Eligible (idealised u) c (up_LastRound u) 0) us.

(** ** Fleet limits *)
Record FleetSimulateLimitsReply := mkFleetReply {
  fl_DeveloperAPI : bool;
  fl_MaxExtraOpcodeBudget : Z;
  fl_MaxRounds : Z;
  fl_MaxTxnGroups : Z;
  fl_ResourceLimitMultiplier : Z;
  fl_TimeTravel : bool;
  fl_MaxExecTraceBytes : Z;
  fl_TimeLimitSeconds : Z
}.

(** Whether a's limits come before b's. *)
Definition simulateLimitsAbove (a b : Upstream) : bool :=
  let la := CapSimulateLimits (up_Caps a) in
  let lb := CapSimulateLimits (up_Caps b) in
  if negb (sl_MaxTxnGroups la =? sl_MaxTxnGroups lb) then sl_MaxTxnGroups lb <? sl_MaxTxnGroups la
  else if negb (sl_MaxRounds la =? sl_MaxRounds lb) then sl_MaxRounds lb <? sl_MaxRounds la
  else if negb (sl_MaxExtraOpcodeBudget la =? sl_MaxExtraOpcodeBudget lb)
  then sl_MaxExtraOpcodeBudget lb <? sl_MaxExtraOpcodeBudget la
  else if negb (Bool.eqb (cap_TimeTravel (up_Caps a)) (cap_TimeTravel (up_Caps b))) then cap_TimeTravel (up_Caps a)
  else if negb (Bool.eqb (cap_DeveloperAPI (up_Caps a)) (cap_DeveloperAPI (up_Caps b))) then cap_DeveloperAPI (up_Caps a)
  else sltb (up_ID a) (up_ID b).

Definition plainSimulate : RequestClass := zeroClass <| rc_Simulate := true |> <| rc_Idempotent := true |>.

(** One iteration: the best node that reports limits so far, and the least
    multiplier of every eligible node (0: none yet). *)
Definition fleet_step (bestRound tolerance : Z) (acc : option Upstream * Z) (u : Upstream) : option Upstream * Z :=
  let '(best, multiplier) := acc in
  if negb (Eligible u plainSimulate bestRound tolerance) then acc
  else
    let m := sl_ResourceLimitMultiplier (CapSimulateLimits (up_Caps u)) in
    let multiplier := if (multiplier =? 0) || (m <? multiplier) then m else multiplier in
    let best := if isSome (cap_Simulate (up_Caps u)) &&
                   (match best with None => true | Some b => simulateLimitsAbove u b end)
                then Some u else best in
    (best, multiplier).

Definition FleetSimulateLimits (us : list Upstream) (bestRound tolerance : Z) : option FleetSimulateLimitsReply :=
  let '(best, multiplier) := foldl (fleet_step bestRound tolerance) (None, 0) us in
  match best with
  | None => None
  | Some b =>
      let l := CapSimulateLimits (up_Caps b) in
      Some (mkFleetReply (cap_DeveloperAPI (up_Caps b)) (sl_MaxExtraOpcodeBudget l) (sl_MaxRounds l)
              (sl_MaxTxnGroups l) multiplier (cap_TimeTravel (up_Caps b))
              (sl_MaxExecTraceBytes l) (sl_TimeLimitSeconds l))
  end.

(** ** The rules, as the documentation states them *)

(** A snapshot whose rounds are 64-bit, below the last two. *)
Record upstream_ok (u : Upstream) : Prop := {
  uok_last : 0 <= up_LastRound u < two64 - 1;
  uok_oldest : is_u64 (cap_OldestRound (up_Caps u));
  uok_lookback : is_u64 (cap_MaxAcctLookback (up_Caps u))
}.

(** The earliest round the node answers for the class. *)
Definition earliest (u : Upstream) (c : RequestClass) : Z :=
  let caps := up_Caps u in
  if cap_TimeTravel caps then (if rc_HistoryAnyRound c then 0 else cap_OldestRound caps)
  else
    match rc_RoundWindow c with
    | WindowBlock => cap_OldestRound caps
    | w =>
        if cap_MaxAcctLookback caps =? 0 then cap_OldestRound caps
        else Z.max 0 (up_LastRound u - cap_MaxAcctLookback caps) +
             (if bool_decide (w = WindowDelta) then 1 else 0)
    end.

(** The node is at the tip: judged so, or, before any judgement, within the
    tolerance of the best round. *)
Definition at_tip (u : Upstream) (best tol : Z) : Prop :=
  up_Health u = HealthSynced ∨
  (up_Health u ≠ HealthLagging ∧ best <= up_LastRound u + tol).

Record Serves (u : Upstream) (c : RequestClass) (best tol : Z) : Prop := {
  sv_usable : up_Excluded u = false ∧ Reachable (up_Health u) = true ∧ up_Draining u = false;
  sv_stats : st_BreakerOpen (up_Stats u) = false ∧ st_Throttled (up_Stats u) = false ∧
             (Heavy c = true → st_Busy (up_Stats u) = false);
  sv_local : rc_LocalOnly c = true → up_Kind u = KindLocal;
  sv_history : rc_TimeTravel c = true → cap_TimeTravel (up_Caps u) = true;
  sv_round : ∀ r, rc_Round c = Some r → earliest u c <= r <= up_LastRound u ∧ rc_RoundHigh c <= up_LastRound u;
  sv_tip : (rc_Round c = None ∧ rc_LocalOnly c = false) ∨
           (isSome (rc_Round c) = true ∧ from_option sn_Latest false (rc_SimNeeds c) = true) →
           at_tip u best tol;
  sv_wait : ∀ w, rc_WaitAfter c = Some w → w <= up_LastRound u + 1;
  sv_dev : rc_NeedsDev c = true → cap_DeveloperAPI (up_Caps u) = true;
  sv_sim : ∀ n, rc_SimNeeds c = Some n → Fits n (up_Caps u) = true;
  sv_follow : rc_Broadcast c = true → cap_FollowMode (up_Caps u) = false
}.

(** *** Lemmas *)

Lemma windowCovers_earliest u c r :
  upstream_ok u → 0 <= r → windowCovers u c r = true ↔ earliest u c <= r.
Proof.
  intros [[Hl Hl'] Ho Hb] Hr. unfold windowCovers, earliest, stateWindowCovers, stateOldest.
  destruct (cap_TimeTravel (up_Caps u)), (rc_HistoryAnyRound c); simpl; try lia;
    (destruct (rc_RoundWindow c); simpl; try lia;
     destruct (cap_MaxAcctLookback (up_Caps u) =? 0); try lia;
     destruct (Z.ltb_spec (cap_MaxAcctLookback (up_Caps u)) (up_LastRound u));
       try rewrite (wu64_id (up_LastRound u - _)) by mlia; rewrite ?wu64_id by mlia; lia).
Qed.

Lemma inSync_at_tip u best tol :
  is_u64 (up_LastRound u + tol) → inSync u best tol = true ↔ at_tip u best tol.
Proof.
  intros Hu. unfold inSync, at_tip, synced. rewrite wu64_id by done.
  destruct (up_Health u); rewrite ?Z.leb_le; naive_solver.
Qed.

(** One guard of the code: "if b then false else rest". *)
Lemma guard_true (b rest : bool) : (if b then false else rest) = true ↔ b = false ∧ rest = true.
Proof. destruct b; naive_solver. Qed.

(** The round guard of the code. *)
Definition round_guard (u : Upstream) (c : RequestClass) (best tol : Z) : bool :=
  match rc_Round c with
  | Some r =>
      (up_LastRound u <? r) || (up_LastRound u <? rc_RoundHigh c) ||
      negb (windowCovers u c r) ||
      match rc_SimNeeds c with
      | Some n => sn_Latest n && negb (inSync u best tol)
      | None => false
      end
  | None => negb (rc_LocalOnly c) && negb (inSync u best tol)
  end.

Definition wants_tip (c : RequestClass) : Prop :=
  (rc_Round c = None ∧ rc_LocalOnly c = false) ∨
  (isSome (rc_Round c) = true ∧ from_option sn_Latest false (rc_SimNeeds c) = true).

Lemma round_guard_iff u c best tol :
  upstream_ok u → is_u64 (up_LastRound u + tol) → (∀ r, rc_Round c = Some r → 0 <= r) →
  round_guard u c best tol = false ↔
  (∀ r, rc_Round c = Some r → earliest u c <= r <= up_LastRound u ∧ rc_RoundHigh c <= up_LastRound u) ∧
  (wants_tip c → at_tip u best tol).
Proof.
  intros Hu Ht Hr. rewrite <- (inSync_at_tip u best tol Ht). unfold round_guard, wants_tip.
  destruct (rc_Round c) as [r|]; simpl.
  - specialize (Hr r eq_refl). pose proof (windowCovers_earliest u c r Hu Hr) as Hw. clear Ht Hu.
    rewrite !orb_false_iff, !Z.ltb_ge, negb_false_iff, Hw. clear Hw Hr.
    destruct (rc_SimNeeds c) as [n|]; simpl; [destruct (sn_Latest n), (inSync u best tol) |]; simpl;
      (split; [intros H | intros [H1 H2]; specialize (H1 r eq_refl)]);
      split_and?; try lia; try naive_solver lia.
  - clear. destruct (rc_LocalOnly c), (inSync u best tol); simpl; naive_solver.
Qed.

Lemma implb_off (a b : bool) : a && negb b = false ↔ (a = true → b = true).
Proof. destruct a, b; naive_solver. Qed.
Lemma implb_off' (a b : bool) : a && b = false ↔ (a = true → b = false).
Proof. destruct a, b; naive_solver. Qed.
Lemma kind_off (a : bool) (k : UpstreamKind) :
  a && bool_decide (k ≠ KindLocal) = false ↔ (a = true → k = KindLocal).
Proof. destruct a, k; naive_solver. Qed.

(** ** Properties *)

(** C2: an upstream is eligible exactly when it serves the request by the
    documented rules: it is usable, local and time-travelling where the class
    asks, holds every round the class names (from the earliest round of the
    window the class needs to its last), is at the tip for a request about no
    specific round or a simulation that also asks for the latest, is not behind
    a waiter, and offers the developer API, simulate limits and transaction
    acceptance the class needs. *)
Theorem Eligible_iff_Serves u c best tol :
  upstream_ok u → is_u64 (up_LastRound u + tol) → (∀ r, rc_Round c = Some r → 0 <= r) →
  Eligible u c best tol = true ↔ Serves u c best tol.
Proof.
  intros Hu Ht Hr. pose proof (round_guard_iff u c best tol Hu Ht Hr) as Hg.
  assert (wu64 (up_LastRound u + 1) = up_LastRound u + 1) as Hw by (apply wu64_id; destruct Hu; mlia).
  unfold Eligible. fold (round_guard u c best tol).
  rewrite Hw, !guard_true, !implb_off, kind_off, Hg, !orb_false_iff, !implb_off', negb_false_iff.
  clear Hu Ht Hr Hw Hg. unfold wants_tip. split.
  - intros ([[? ?] ?] & [[? ?] ?] & ? & ? & [? ?] & Hwa & ? & Hsi & ? & _). constructor; try done.
    + split_and!; [done | done |]. intros Hh. apply not_true_is_false. intros Hb. naive_solver congruence.
    + intros w Ew. rewrite Ew in Hwa. by apply Z.ltb_ge in Hwa.
    + intros n En. rewrite En in Hsi. by apply negb_false_iff in Hsi.
  - intros [(? & ? & ?) (? & ? & ?) ? ? ? ? Hwa ? Hsi ?]. split_and!; try done.
    + intros Hb. apply not_true_is_false. intros Hh. naive_solver congruence.
    + destruct (rc_WaitAfter c) as [w|]; [| done]. by apply Z.ltb_ge, Hwa.
    + destruct (rc_SimNeeds c) as [n|]; [| done]. by rewrite Hsi.
Qed.

(** A local archival node, three rounds behind a synced peer. *)
Definition stockCaps : Capabilities :=
  mkCapabilities 0 (mkArchival ArchivalFull 0) false false false false None "4.0.1" "mainnet-v1.0" "" 4.

Definition sampleLocal : Upstream :=
  mkUpstream "local" KindLocal 0 "" "" HealthSynced 97 stockCaps false false zeroStats "local" nzero.

Lemma Eligible_iff_Serves_witness :
  let c := zeroClass <| rc_Round := Some 95 |> <| rc_RoundWindow := WindowState |> in
  Serves sampleLocal c 100 4.
Proof.
  intros c. apply (Eligible_iff_Serves sampleLocal c 100 4).
  - by split; vm_compute.
  - by vm_compute.
  - intros r Er. injection Er as <-. lia.
  - vm_compute. reflexivity.
Defined.

(** A snapshot of the same node in another state. *)
Definition in_state (u : Upstream) (h : Health) (draining : bool) (s : Stats) : Upstream :=
  u <| up_Health := h |> <| up_Draining := draining |> <| up_Stats := s |>.

(** CouldServe is true exactly when some upstream, in some health, drain
    state, statistics and fleet position, is eligible: so a request it refuses
    (answered with a client error) is one no recovery of any node would serve,
    and while any node is eligible it never refuses. *)
Theorem CouldServe_iff us c :
  CouldServe us c = true ↔
  ∃ u h d s best tol, u ∈ us ∧ Eligible (in_state u h d s) c best tol = true.
Proof.
  unfold CouldServe. rewrite existsb_exists. split.
  - intros (u & Hu & E). exists u, HealthSynced, false, zeroStats, (up_LastRound u), 0.
    split; [by apply list_elem_of_In | done].
  - intros (u & h & d & s & best & tol & Hu & E). exists u. split; [by apply list_elem_of_In |].
    revert E. unfold Eligible. rewrite !guard_true, !orb_false_iff.
    intros ([[? ?] ?] & _ & ? & ? & Hr & ? & ? & ? & ? & _).
    split_and!; try done. revert Hr. clear. unfold windowCovers, stateWindowCovers, stateOldest, inSync.
    unfold in_state, idealised, set, const. simpl.
    destruct (rc_Round c) as [r|]; [| by rewrite andb_false_r].
    rewrite !orb_false_iff. intros [[[? ?] ?] ?]. split_and!; try done.
    destruct (rc_SimNeeds c); [by rewrite andb_false_r | done].
Qed.

(** *** The order of nodes by limits *)

(** a's limits come before b's, as a lexicographic order. *)
Definition limitsKey (u : Upstream) : list Z :=
  let l := CapSimulateLimits (up_Caps u) in
  [sl_MaxTxnGroups l; sl_MaxRounds l; sl_MaxExtraOpcodeBudget l;
   Z.b2z (cap_TimeTravel (up_Caps u)); Z.b2z (cap_DeveloperAPI (up_Caps u))].

Fixpoint lex_above (a b : list Z) (tie : bool) : bool :=
  match a, b with
  | x :: a', y :: b' => if negb (x =? y) then y <? x else lex_above a' b' tie
  | _, _ => tie
  end.

Lemma simulateLimitsAbove_lex a b :
  simulateLimitsAbove a b = lex_above (limitsKey a) (limitsKey b) (sltb (up_ID a) (up_ID b)).
Proof.
  unfold simulateLimitsAbove, limitsKey. simpl. repeat (case_match; [done |]).
  by destruct (cap_TimeTravel (up_Caps a)), (cap_TimeTravel (up_Caps b)),
    (cap_DeveloperAPI (up_Caps a)), (cap_DeveloperAPI (up_Caps b)).
Qed.

Lemma lex_above_trans a b c t1 t2 t3 :
  length a = length b → length b = length c → (t1 = true → t2 = true → t3 = true) →
  lex_above a b t1 = true → lex_above b c t2 = true → lex_above a c t3 = true.
Proof.
  intros Hab Hbc Ht. revert b c Hab Hbc.
  induction a as [|x a IH]; intros [|y b] [|z c]; simpl; try done.
  intros [= Hab] [= Hbc]. specialize (IH b c Hab Hbc).
  destruct (Z.eqb_spec x y) as [->|], (Z.eqb_spec y z) as [->|]; simpl; auto;
    try (destruct (Z.eqb_spec x z); simpl; lia); try (destruct (Z.eqb_spec y z); simpl; lia).
Qed.

Lemma simulateLimitsAbove_trans a b c :
  simulateLimitsAbove a b = true → simulateLimitsAbove b c = true → simulateLimitsAbove a c = true.
Proof.
  rewrite !simulateLimitsAbove_lex. intros H1 H2.
  refine (lex_above_trans _ _ _ _ _ _ _ _ _ H1 H2); [done | done | apply sltb_trans].
Qed.

Lemma simulateLimitsAbove_irrefl a : simulateLimitsAbove a a = false.
Proof.
  rewrite simulateLimitsAbove_lex, sltb_irrefl. unfold limitsKey. simpl. by rewrite !Z.eqb_refl.
Qed.

Definition reporter (best tol : Z) (u : Upstream) : Prop :=
  Eligible u plainSimulate best tol = true ∧ isSome (cap_Simulate (up_Caps u)) = true.

Definition multiplierOf (u : Upstream) : Z := sl_ResourceLimitMultiplier (CapSimulateLimits (up_Caps u)).

Lemma multiplierOf_pos u : 1 <= multiplierOf u.
Proof.
  unfold multiplierOf, CapSimulateLimits, maxResourceLimitMultiplier.
  destruct (cap_Simulate (up_Caps u)); simpl; lia.
Qed.

(** What the loop has established after the nodes of seen. *)
Record fleet_inv (best tol : Z) (seen : list Upstream) (acc : option Upstream * Z) : Prop := {
  fi_best : ∀ u, acc.1 = Some u → u ∈ seen ∧ reporter best tol u;
  fi_max : ∀ v, v ∈ seen → reporter best tol v →
           ∃ u, acc.1 = Some u ∧ simulateLimitsAbove v u = false;
  fi_mult : ∀ v, v ∈ seen → Eligible v plainSimulate best tol = true → 1 <= acc.2 <= multiplierOf v;
  fi_none : (∀ v, v ∈ seen → Eligible v plainSimulate best tol = false) → acc.2 = 0;
  fi_attained : acc.2 = 0 ∨ ∃ v, v ∈ seen ∧ Eligible v plainSimulate best tol = true ∧ acc.2 = multiplierOf v
}.

Lemma fleet_step_inv best tol seen acc u :
  fleet_inv best tol seen acc → fleet_inv best tol (seen ++ [u]) (fleet_step best tol acc u).
Proof.
  intros [Hb Hm Hmu Hn Ha]. destruct acc as [b m]. simpl in *. unfold fleet_step.
  destruct (Eligible u plainSimulate best tol) eqn:E; simpl.
  2:{ constructor; simpl.
      - intros v Ev. destruct (Hb v Ev) as [? ?]. split; [set_solver | done].
      - intros v Hv [Hv1 Hv2]. apply elem_of_app in Hv as [Hv|Hv%list_elem_of_singleton]; [by apply Hm | congruence].
      - intros v Hv Hv1. apply elem_of_app in Hv as [Hv|Hv%list_elem_of_singleton]; [by apply Hmu | congruence].
      - intros H. apply Hn. intros v Hv. apply H. set_solver.
      - destruct Ha as [|(v & ? & ?)]; [by left | right; exists v; set_solver]. }
  fold (multiplierOf u). pose proof (multiplierOf_pos u) as Hp.
  constructor; simpl.
  - intros v. case_match eqn:Ei; [intros [= <-]; bprop; by split; [set_solver | split] |].
    intros Ev. destruct (Hb v Ev). split; [set_solver | done].
  - intros v Hv Hrep. case_match eqn:Ei.
    + apply andb_true_iff in Ei as [Hu Ei]. exists u. split; [done |].
      apply elem_of_app in Hv as [Hv|Hv%list_elem_of_singleton]; [| subst; apply simulateLimitsAbove_irrefl].
      destruct (Hm v Hv Hrep) as (w & -> & Hw). apply not_true_is_false. intros Hvu.
      by rewrite (simulateLimitsAbove_trans v u w Hvu Ei) in Hw.
    + apply elem_of_app in Hv as [Hv|Hv%list_elem_of_singleton]; [by apply Hm |]. subst v.
      destruct Hrep as [_ Hr]. rewrite Hr in Ei. destruct b as [w|]; [by exists w | done].
  - intros v Hv Hv1.
    assert (1 <= (if (m =? 0) || (multiplierOf u <? m) then multiplierOf u else m) <= multiplierOf u) as Hle.
    { destruct Ha as [->|(w & ? & ? & ->)]; [simpl; lia |]. pose proof (multiplierOf_pos w). case_match; lia. }
    apply elem_of_app in Hv as [Hv|Hv%list_elem_of_singleton]; [| by subst].
    specialize (Hmu v Hv Hv1). case_match; lia.
  - intros H. rewrite H in E; [done | set_solver].
  - right. case_match eqn:Ei; [exists u; set_solver |].
    destruct Ha as [->|(v & ? & ? & ?)]; [done | exists v; set_solver].
Qed.

Lemma fleet_fold_inv best tol us seen acc :
  fleet_inv best tol seen acc → fleet_inv best tol (seen ++ us) (foldl (fleet_step best tol) acc us).
Proof.
  revert seen acc. induction us as [|u us IH]; intros seen acc H; simpl; [by rewrite app_nil_r |].
  replace (seen ++ u :: us) with ((seen ++ [u]) ++ us) by by rewrite <- app_assoc.
  apply IH. by apply fleet_step_inv.
Qed.

Lemma fleet_inv_all us best tol : fleet_inv best tol us (foldl (fleet_step best tol) (None, 0) us).
Proof.
  apply (fleet_fold_inv best tol us []). constructor; simpl; set_solver.
Qed.

Lemma Fits_within b n r :
  sl_MaxTxnGroups (CapSimulateLimits (up_Caps b)) = fl_MaxTxnGroups r →
  sl_MaxRounds (CapSimulateLimits (up_Caps b)) = fl_MaxRounds r →
  sl_MaxExtraOpcodeBudget (CapSimulateLimits (up_Caps b)) = fl_MaxExtraOpcodeBudget r →
  cap_DeveloperAPI (up_Caps b) = fl_DeveloperAPI r →
  isSome (cap_Simulate (up_Caps b)) = true →
  (sn_DeveloperAPI n = true → fl_DeveloperAPI r = true) →
  wu64 (sn_Groups n) <= fl_MaxTxnGroups r → wu64 (sn_Rounds n) <= fl_MaxRounds r →
  sn_ExtraOpcodeBudget n <= fl_MaxExtraOpcodeBudget r →
  Fits n (up_Caps b) = true.
Proof.
  intros Eg Er Eo Ed Es Hd Hg Hr Ho. unfold Fits, isNone. rewrite Es, Ed, Eg, Er, Eo, andb_false_r.
  destruct (sn_DeveloperAPI n); simpl; [rewrite Hd by done; simpl |]; lia.
Qed.

(** A class that names no round may ask for whatever the node fits. *)
Lemma Eligible_with_needs u c n best tol :
  rc_Round c = None → Eligible u c best tol = true → Fits n (up_Caps u) = true →
  Eligible u (c <| rc_SimNeeds := Some n |>) best tol = true.
Proof.
  intros Er He Hf. revert He. unfold Eligible, set, const. destruct c; simpl in *. subst. simpl.
  rewrite !guard_true. intros (? & ? & ? & ? & ? & ? & ? & _ & ? & _). split_and!; try done. by rewrite Hf.
Qed.

(** the fleet's simulate limits are an honest promise: one eligible node
    that reports limits runs, by itself, every simulation of the latest state
    within them (groups, rounds, extra budget and developer API together),
    no other such node has larger limits, and the resource multiplier is the
    least of every eligible node's, and some eligible node's own. *)
Theorem FleetSimulateLimits_honest us best tol r :
  FleetSimulateLimits us best tol = Some r →
  ∃ b, b ∈ us ∧ reporter best tol b ∧ cap_TimeTravel (up_Caps b) = fl_TimeTravel r ∧
    (∀ n, (sn_DeveloperAPI n = true → fl_DeveloperAPI r = true) →
          wu64 (sn_Groups n) <= fl_MaxTxnGroups r → wu64 (sn_Rounds n) <= fl_MaxRounds r →
          sn_ExtraOpcodeBudget n <= fl_MaxExtraOpcodeBudget r →
          Eligible b (plainSimulate <| rc_SimNeeds := Some n |>) best tol = true) ∧
    (∀ v, v ∈ us → reporter best tol v → simulateLimitsAbove v b = false) ∧
    (∀ v, v ∈ us → Eligible v plainSimulate best tol = true →
          1 <= fl_ResourceLimitMultiplier r <= multiplierOf v) ∧
    ∃ v, v ∈ us ∧ Eligible v plainSimulate best tol = true ∧ fl_ResourceLimitMultiplier r = multiplierOf v.
Proof.
  unfold FleetSimulateLimits. pose proof (fleet_inv_all us best tol) as [Hb Hm Hmu _ Ha].
  destruct (foldl _ _ us) as [[b|] m]; [| done]. intros [= <-]. simpl in *.
  destruct (Hb b eq_refl) as [Hbu Hrep]. exists b. split_and!; try done.
  - intros n Hd Hg Hr Ho. destruct Hrep as [He Hs]. apply Eligible_with_needs; [done | done |].
    by eapply (Fits_within b n (mkFleetReply _ _ _ _ m false 0 0)); try done; simpl.
  - intros v Hv Hr. destruct (Hm v Hv Hr) as (u & [= <-] & ?). done.
  - destruct Ha as [->|(v & ? & ? & ->)]; [| by exists v].
    destruct Hrep as [He _]. specialize (Hmu b Hbu He). lia.
Qed.

(** A node of a fleet of one that reports limits. *)
Definition sampleDev : Upstream :=
  sampleLocal <| up_ID := "dev" |>
    <| up_Caps := stockCaps <| cap_Simulate := Some (mkSimulateLimits 16 4 0 2 0 0) |> |>.

Lemma FleetSimulateLimits_honest_witness :
  ∃ r, FleetSimulateLimits [sampleLocal; sampleDev] 100 4 = Some r ∧
  ∃ b, b ∈ [sampleLocal; sampleDev] ∧ reporter 100 4 b ∧ cap_TimeTravel (up_Caps b) = fl_TimeTravel r ∧
    (∀ n, (sn_DeveloperAPI n = true → fl_DeveloperAPI r = true) →
          wu64 (sn_Groups n) <= fl_MaxTxnGroups r → wu64 (sn_Rounds n) <= fl_MaxRounds r →
          sn_ExtraOpcodeBudget n <= fl_MaxExtraOpcodeBudget r →
          Eligible b (plainSimulate <| rc_SimNeeds := Some n |>) 100 4 = true) ∧
    (∀ v, v ∈ [sampleLocal; sampleDev] → reporter 100 4 v → simulateLimitsAbove v b = false) ∧
    (∀ v, v ∈ [sampleLocal; sampleDev] → Eligible v plainSimulate 100 4 = true →
          1 <= fl_ResourceLimitMultiplier r <= multiplierOf v) ∧
    ∃ v, v ∈ [sampleLocal; sampleDev] ∧ Eligible v plainSimulate 100 4 = true ∧ fl_ResourceLimitMultiplier r = multiplierOf v.
Proof.
  eexists. split; [vm_compute; reflexivity |].
  apply (FleetSimulateLimits_honest [sampleLocal; sampleDev] 100 4). vm_compute. reflexivity.
Defined.
