(* ===== verification/Select.v ===== *)
(** * Select: which eligible upstream gets the request (internal/domain/select.go)

    [Score] weighs a snapshot in float64 milliseconds; [Select] orders the
    eligible upstreams by tier, window edge, score and id, picks one (the
    first in fallback mode, the better of two random draws from the top tier
    in loadbalancer mode) and returns the rest as alternates.  The random
    source is a parameter: its state is threaded through the draws. *)
From S2P Require Import Prelude GoFloat Types Classify Eligible.
Open Scope Z_scope.

(** ** Weights and score *)
Record Weights := mkWeights {
  w_ErrorPenaltyMS : float64;
  w_LagPenaltyMS : float64;
  w_InflightMS : float64;
  w_LocalBonusMS : float64;
  w_UnknownLatMS : float64;
  w_ExternalPenalty : float64
}.

Definition DefaultWeights : Weights :=
  mkWeights (nofZ 2000) (nofZ 50) (nofZ 5) (nofZ 2) (nofZ 20) (nofZ 100).

(** w == (Weights{}). *)
Definition Weights_zero (w : Weights) : bool :=
  neqb (w_ErrorPenaltyMS w) nzero && neqb (w_LagPenaltyMS w) nzero && neqb (w_InflightMS w) nzero &&
  neqb (w_LocalBonusMS w) nzero && neqb (w_UnknownLatMS w) nzero && neqb (w_ExternalPenalty w) nzero.

Definition Score (u : Upstream) (c : RequestClass) (bestRound : Z) (w : Weights) : float64 :=
  let w := if Weights_zero w then DefaultWeights else w in
  let lat :=
    match st_LatencyMS (up_Stats u) !! StatKey c with
    | Some l => l
    | None => match st_LatencyMS (up_Stats u) !! "default"%string with
              | Some l => l
              | None => w_UnknownLatMS w
              end
    end in
  let s := (lat + w_ErrorPenaltyMS w * st_ErrorRate (up_Stats u))%num in
  let s := if up_LastRound u <? bestRound
           then (s + w_LagPenaltyMS w * nofZ (bestRound - up_LastRound u))%num else s in
  let s := (s + w_InflightMS w * nofZ (st_Inflight (up_Stats u)))%num in
  let s := if bool_decide (up_Kind u = KindLocal) then (s - w_LocalBonusMS w)%num else s in
  if bool_decide (up_Kind u = KindExternal) then (s + w_ExternalPenalty w)%num else s.

(** ** Tiers and edges *)
Definition MinInt32 : Z := - 2 ^ 31.
Definition MaxInt32 : Z := 2 ^ 31 - 1.

Definition effectiveTier (mode : string) (u : Upstream) : Z :=
  match up_Kind u with
  | KindLocal => if mode =s ModeFallback then MinInt32 else up_Tier u
  | KindExternal => wi64 (Z.quot MaxInt32 2 + up_Tier u)
  | _ => up_Tier u
  end.

Definition stateWindowEdge (u : Upstream) (c : RequestClass) : bool :=
  match rc_Round c with
  | None => false
  | Some r =>
      if bool_decide (rc_RoundWindow c = WindowBlock) || cap_TimeTravel (up_Caps u) ||
         bool_decide (up_Kind u = KindLocal) then false
      else if up_LastRound u <? cap_MaxAcctLookback (up_Caps u) then false
      else match stateOldest u (rc_RoundWindow c) with
           | Some oldest => r =? oldest
           | None => false
           end
  end.

(** ** Selection *)
Record Selection := mkSelection {
  sel_Chosen : Upstream;
  sel_Alternates : list Upstream;
  sel_Tier : Z
}.

(** The eligible upstreams, each with its score. *)
Definition scored (cands : list Upstream) (c : RequestClass) (bestRound tolerance : Z) (w : Weights) : list Upstream :=
  omap (λ u, if Eligible u c bestRound tolerance
             then Some (u <| up_Score := Score u c bestRound w |>) else None) cands.

(** The comparison the eligible upstreams are ordered by. *)
Definition selectLess (mode : string) (c : RequestClass) (hasTT : bool) (a b : Upstream) : bool :=
  let ta := effectiveTier mode a in
  let tb := effectiveTier mode b in
  if negb (ta =? tb) then ta <? tb
  else if hasTT && negb (Bool.eqb (stateWindowEdge a c) (stateWindowEdge b c)) then stateWindowEdge b c
  else if negb (neqb (up_Score a) (up_Score b)) then nltb (up_Score a) (up_Score b)
  else sltb (up_ID a) (up_ID b).

(** How many of the ordered list share the tier top. *)
Fixpoint topCount (mode : string) (top : Z) (elig : list Upstream) : nat :=
  match elig with
  | u :: elig' => if effectiveTier mode u =? top then S (topCount mode top elig') else O
  | [] => O
  end.

(** The indices two draws are made from. *)
Definition randomPool (c : RequestClass) (hasTT : bool) (elig : list Upstream) (n : nat) : list nat :=
  let pool := List.filter (λ i, match elig !! i with
                                | Some u => negb (hasTT && stateWindowEdge u c)
                                | None => true
                                end) (seq 0 n) in
  match pool with [] => seq 0 n | _ => pool end.

Section WithRand.
(** math/rand's state and IntN. *)
Context {R : Type} (IntN : Z → R → Z * R).

(** pool[rnd.IntN(len(pool))]; None is an index out of range. *)
Definition draw (pool : list nat) (r : R) : option (nat * R) :=
  let '(k, r') := IntN (Z.of_nat (length pool)) r in
  if k <? 0 then None else (λ i, (i, r')) <$> pool !! Z.to_nat k.

(** The index of the chosen upstream in the ordered list. *)
Definition pick (mode : string) (c : RequestClass) (hasTT : bool) (elig : list Upstream) (n : nat) (rnd : option R)
    : option (nat * option R) :=
  match rnd with
  | Some r =>
      if (mode =s ModeLoadBalancer) && (1 <? n)%nat then
        let pool := randomPool c hasTT elig n in
        '(a, r) ← draw pool r;
        '(b, r) ← draw pool r;
        ub ← elig !! b;
        ua ← elig !! a;
        Some (if nltb (up_Score ub) (up_Score ua) then b else a, Some r)
      else Some (O, rnd)
  | None => Some (O, None)
  end.

(** None: the code panics. *)
Definition Select (mode : string) (cands : list Upstream) (c : RequestClass) (bestRound tolerance : Z)
    (w : Weights) (rnd : option R) : option (option Selection * option R) :=
  let elig := scored cands c bestRound tolerance w in
  let hasTT := existsb (λ u, cap_TimeTravel (up_Caps u)) elig in
  let elig := insertion_sort (selectLess mode c hasTT) elig in
  match elig with
  | [] => Some (None, rnd)
  | first :: _ =>
      let n := topCount mode (effectiveTier mode first) elig in
      '(idx, rnd) ← pick mode c hasTT elig n rnd;
      chosen ← elig !! idx;
      Some (Some (mkSelection chosen (take idx elig ++ drop (S idx) elig) (up_Tier chosen)), rnd)
  end.
End WithRand.

(** ** Lemmas *)

Definition rescored (c : RequestClass) (best : Z) (w : Weights) (u : Upstream) : Upstream :=
  u <| up_Score := Score u c best w |>.

Lemma elem_scored cands c best tol w u :
  u ∈ scored cands c best tol w ↔ ∃ v, v ∈ cands ∧ Eligible v c best tol = true ∧ u = rescored c best w v.
Proof.
  unfold scored. rewrite list_elem_of_omap. split; intros (v & Hv & E); exists v.
  - destruct (Eligible v c best tol); [by injection E as <- | done].
  - destruct E as [-> ->]. done.
Qed.

Lemma scored_nil cands c best tol w :
  scored cands c best tol w = [] ↔ ∀ u, u ∈ cands → Eligible u c best tol = false.
Proof.
  split.
  - intros E u Hu. apply not_true_is_false. intros He.
    assert (rescored c best w u ∈ scored cands c best tol w) as H by (apply elem_scored; eauto).
    rewrite E in H. by apply elem_of_nil in H.
  - intros H. apply elem_of_nil_inv. intros u. rewrite elem_scored. intros (v & Hv & E & _).
    by rewrite H in E.
Qed.

(** A score that compares: not NaN. *)
Definition comparable (u : Upstream) : Prop := nisnan (up_Score u) = false.

Definition by_score (next : Upstream → Upstream → bool) (a b : Upstream) : bool :=
  if negb (neqb (up_Score a) (up_Score b)) then nltb (up_Score a) (up_Score b) else next a b.

Lemma by_score_eq next a b : comparable a → comparable b →
  by_score next a b = nltb (up_Score a) (up_Score b) || negb (nltb (up_Score b) (up_Score a)) && next a b.
Proof.
  unfold comparable, by_score. intros Pa Pb. rewrite !neqb_ltb by done.
  by destruct (nltb (up_Score a) (up_Score b)), (nltb (up_Score b) (up_Score a)).
Qed.

Lemma score_strict next : StrictWeak comparable next → StrictWeak comparable (by_score next).
Proof.
  intros [Ha Hc]. constructor.
  - intros a b Pa Pb. rewrite !by_score_eq by done.
    destruct (nltb (up_Score a) (up_Score b)) eqn:E1, (nltb (up_Score b) (up_Score a)) eqn:E2; simpl; auto.
    pose proof (nltb_trans _ _ _ E1 E2) as H. by rewrite nltb_irrefl in H.
  - intros a b c Pa Pb Pc. rewrite !by_score_eq by done.
    destruct (nltb (up_Score a) (up_Score b)) eqn:Eab; [by left |].
    destruct (nltb (up_Score b) (up_Score c)) eqn:Ebc; [by right |].
    destruct (nltb (up_Score a) (up_Score c)) eqn:Eac.
    { destruct (nltb_cotrans _ (up_Score b) _ Pb Eac); congruence. }
    destruct (nltb (up_Score c) (up_Score a)) eqn:Eca; [done |].
    destruct (nltb (up_Score b) (up_Score a)) eqn:Eba.
    { destruct (nltb_cotrans _ (up_Score c) _ Pc Eba); congruence. }
    destruct (nltb (up_Score c) (up_Score b)) eqn:Ecb.
    { destruct (nltb_cotrans _ (up_Score a) _ Pa Ecb); congruence. }
    simpl. auto.
Qed.

Lemma selectLess_strict mode c hasTT : StrictWeak comparable (selectLess mode c hasTT).
Proof.
  eapply (StrictWeak_ext _ (by_key (effectiveTier mode) (by_key (λ u, Z.b2z (hasTT && stateWindowEdge u c))
    (by_score (λ a b, sltb (up_ID a) (up_ID b)))))).
  - intros a b. unfold by_key, by_score, selectLess. destruct (_ =? _); simpl; [| done].
    by destruct hasTT, (stateWindowEdge a c), (stateWindowEdge b c).
  - apply by_key_strict, by_key_strict, score_strict, sltb_strict.
Qed.

(** What the order means for tiers and edges. *)
Lemma selectLess_tier mode c hasTT a b :
  selectLess mode c hasTT b a = false → effectiveTier mode a <= effectiveTier mode b.
Proof. unfold selectLess. destruct (Z.eqb_spec (effectiveTier mode b) (effectiveTier mode a)); simpl; lia. Qed.

Lemma selectLess_edge mode c a b :
  selectLess mode c true b a = false → effectiveTier mode a = effectiveTier mode b →
  stateWindowEdge a c = true → stateWindowEdge b c = true.
Proof.
  unfold selectLess. intros H E. rewrite E, Z.eqb_refl in H. simpl in H. intros Ha. rewrite Ha in H.
  destruct (stateWindowEdge b c); [done |]. simpl in H. done.
Qed.

(** Two upstreams no comparison separates have the same id. *)
Lemma selectLess_tie mode c hasTT a b :
  selectLess mode c hasTT a b = false → comparable a → comparable b →
  selectLess mode c hasTT b a = false → up_ID a = up_ID b.
Proof.
  unfold selectLess, comparable. intros H1 Ha Hb H2. rewrite !neqb_ltb in * by done.
  rewrite (Z.eqb_sym (effectiveTier mode b)) in H2.
  destruct (nltb (up_Score a) (up_Score b)), (nltb (up_Score b) (up_Score a)),
    (Z.eqb_spec (effectiveTier mode a) (effectiveTier mode b)); simpl in *; try lia;
    apply sltb_total; destruct hasTT, (stateWindowEdge a c), (stateWindowEdge b c); simpl in *; congruence.
Qed.

Lemma topCount_le mode top l : (topCount mode top l <= length l)%nat.
Proof. induction l; simpl; [lia |]. case_match; lia. Qed.

Lemma topCount_spec mode top l i u :
  (i < topCount mode top l)%nat → l !! i = Some u → effectiveTier mode u = top.
Proof.
  revert i. induction l as [|v l IH]; intros i; simpl; [lia |].
  destruct (Z.eqb_spec (effectiveTier mode v) top); [| lia].
  destruct i; simpl; [congruence | intros; apply (IH i); [lia | done]].
Qed.

(** In an ordered list everyone of the first one's tier is counted. *)
Lemma topCount_all mode c hasTT l first u i :
  StronglySorted (sort_le (selectLess mode c hasTT)) (first :: l) → (first :: l) !! i = Some u →
  effectiveTier mode u = effectiveTier mode first →
  (i < topCount mode (effectiveTier mode first) (first :: l))%nat.
Proof.
  intros Hs. set (t := effectiveTier mode first).
  assert (∀ l j, StronglySorted (sort_le (selectLess mode c hasTT)) l → Forall (λ v, t <= effectiveTier mode v) l →
    l !! j = Some u → effectiveTier mode u = t → (j < topCount mode t l)%nat) as H.
  { clear. induction l as [|v l IH]; intros j Hs Hf Hj Hu; [done |].
    apply Forall_cons in Hf as [Hv Hf]. apply StronglySorted_inv in Hs as [Hs Hvl]. simpl.
    destruct (Z.eqb_spec (effectiveTier mode v) t).
    - destruct j; [lia |]. specialize (IH j Hs Hf Hj Hu). lia.
    - exfalso. destruct j; simpl in Hj; [congruence |].
      rewrite Forall_forall in Hvl. specialize (Hvl u (list_elem_of_lookup_2 _ _ _ Hj)).
      apply selectLess_tier in Hvl. lia. }
  intros. apply H; [done | | done | done].
  apply StronglySorted_inv in Hs as [_ Hs]. constructor; [lia |].
  eapply Forall_impl; [exact Hs |]. simpl. intros v Hv. by apply selectLess_tier in Hv.
Qed.

Lemma randomPool_spec c hasTT elig n :
  (0 < n)%nat → (n <= length elig)%nat →
  randomPool c hasTT elig n ≠ [] ∧
  ∀ i, i ∈ randomPool c hasTT elig n → (i < n)%nat ∧
    ∀ u, elig !! i = Some u → hasTT = true → stateWindowEdge u c = true →
    ∀ j v, (j < n)%nat → elig !! j = Some v → stateWindowEdge v c = true.
Proof.
  intros Hn Hl. unfold randomPool. set (f := λ i : nat, _). destruct (List.filter f (seq 0 n)) as [|k pool] eqn:E.
  - split; [destruct n; [lia | done] |]. intros i Hi. apply elem_of_seq in Hi. split; [lia |].
    intros u _ Htt _ j v Hj Hv. destruct (stateWindowEdge v c) eqn:Ev; [done |]. exfalso.
    assert (In j (List.filter f (seq 0 n))) as Hin; [| by rewrite E in Hin].
    apply filter_In. split; [apply in_seq; lia |]. unfold f. by rewrite Hv, Ev, andb_false_r.
  - split; [done |]. intros i Hi. rewrite <- E in Hi. apply list_elem_of_In, filter_In in Hi as [Hi Hf].
    apply in_seq in Hi. split; [lia |]. intros u Hu -> Hedge. unfold f in Hf. rewrite Hu, Hedge in Hf. done.
Qed.

Section WithRandLemmas.
Context {R : Type} (IntN : Z → R → Z * R).
(** IntN returns an integer of [0, n) when n is positive. *)
Hypothesis IntN_range : ∀ n r, 0 < n → 0 <= (IntN n r).1 < n.

Lemma draw_spec pool r : pool ≠ [] → ∃ i r', draw IntN pool r = Some (i, r') ∧ i ∈ pool.
Proof.
  intros Hp. unfold draw. pose proof (IntN_range (Z.of_nat (length pool)) r) as H.
  destruct (IntN (Z.of_nat (length pool)) r) as [k r']. simpl in H.
  destruct pool as [|x pool]; [done |]. specialize (H ltac:(simpl; lia)).
  destruct (Z.ltb_spec k 0); [lia |].
  destruct (lookup_lt_is_Some_2 (x :: pool) (Z.to_nat k)) as [i Hi]; [simpl in *; lia |].
  exists i, r'. rewrite Hi. split; [done |]. by eapply list_elem_of_lookup_2.
Qed.

(** A successful pick of the ordered list: an index of the top tier, the
    first unless the two draws were made. *)
Definition good_pick (mode : string) (c : RequestClass) (hasTT : bool) (elig : list Upstream) (n idx : nat) (rnd : option R) : Prop :=
  (idx < n)%nat ∧
  (idx = O ∨ idx ∈ randomPool c hasTT elig n) ∧
  (mode ≠ ModeLoadBalancer ∨ rnd = None → idx = O).

Lemma pick_spec mode c hasTT elig n rnd :
  (0 < n)%nat → (n <= length elig)%nat →
  ∃ idx rnd', pick IntN mode c hasTT elig n rnd = Some (idx, rnd') ∧ good_pick mode c hasTT elig n idx rnd.
Proof.
  intros Hn Hl. unfold pick, good_pick. destruct rnd as [r|]; [| by exists O, None; auto].
  destruct (_ && _) eqn:E; [| by eexists O, _; auto].
  apply andb_true_iff in E as [E%String.eqb_eq _]. rewrite E.
  destruct (randomPool_spec c hasTT elig n Hn Hl) as [Hne Hp].
  destruct (draw_spec _ r Hne) as (a & r1 & -> & Ha). simpl.
  destruct (draw_spec _ r1 Hne) as (b & r2 & -> & Hb). simpl.
  destruct (lookup_lt_is_Some_2 elig b) as [ub ->]; [destruct (Hp b Hb); lia |]. simpl.
  destruct (lookup_lt_is_Some_2 elig a) as [ua ->]; [destruct (Hp a Ha); lia |]. simpl.
  exists (if nltb (up_Score ub) (up_Score ua) then b else a), (Some r2). split; [done |].
  assert (∀ i, i ∈ randomPool c hasTT elig n → (i < n)%nat) as Hlt by (intros i Hi; by apply Hp).
  case_match; (split_and!; [by auto | by auto | intros [?|?]; congruence]).
Qed.

(** What [Select] returns, in one statement. *)
Lemma Select_cases mode cands c best tol w rnd :
  let elig0 := scored cands c best tol w in
  let hasTT := existsb (λ u, cap_TimeTravel (up_Caps u)) elig0 in
  let elig := insertion_sort (selectLess mode c hasTT) elig0 in
  (elig0 = [] ∧ Select IntN mode cands c best tol w rnd = Some (None, rnd)) ∨
  ∃ first rest idx u rnd',
    elig = first :: rest ∧ elig !! idx = Some u ∧
    good_pick mode c hasTT elig (topCount mode (effectiveTier mode first) elig) idx rnd ∧
    Select IntN mode cands c best tol w rnd =
      Some (Some (mkSelection u (take idx elig ++ drop (S idx) elig) (up_Tier u)), rnd').
Proof.
  intros elig0 hasTT elig. unfold Select. fold elig0. fold hasTT. fold elig.
  assert (elig ≡ₚ elig0) as Hp by apply insertion_sort_perm.
  destruct elig as [|first rest] eqn:E.
  - left. split; [| done]. by apply Permutation_nil.
  - right. set (n := topCount _ _ _). rewrite <- E.
    assert (n <= length elig)%nat as Hn by (rewrite E; apply topCount_le).
    assert (0 < n)%nat as Hpos by (unfold n; simpl; rewrite Z.eqb_refl; lia).
    destruct (pick_spec mode c hasTT elig n rnd Hpos Hn) as (idx & rnd' & -> & Hg). simpl.
    destruct (lookup_lt_is_Some_2 elig idx) as [u Hu]; [destruct Hg; lia |].
    exists first, rest, idx, u, rnd'. split_and!; [done | done | by rewrite E at 2 | by rewrite Hu].
Qed.
End WithRandLemmas.

(** ** Properties *)

Lemma take_drop_perm {A} (l : list A) i u : l !! i = Some u → u :: take i l ++ drop (S i) l ≡ₚ l.
Proof. intros H. rewrite <- (take_drop_middle l i u H) at 3. by rewrite Permutation_middle. Qed.

(** Whatever the random source, a selection is made of eligible candidates. *)
Lemma Select_members {R} (IntN : Z → R → Z * R) mode cands c best tol w rnd s rnd' u :
  Select IntN mode cands c best tol w rnd = Some (Some s, rnd') → u ∈ sel_Chosen s :: sel_Alternates s →
  ∃ v, v ∈ cands ∧ Eligible v c best tol = true ∧ u = rescored c best w v.
Proof.
  unfold Select. intros H Hu. apply elem_scored.
  rewrite <- (insertion_sort_perm (selectLess mode c (existsb (λ u, cap_TimeTravel (up_Caps u)) (scored cands c best tol w)))).
  destruct (insertion_sort _ _) as [|first rest] eqn:E; [by simplify_eq/= |]. rewrite <- E in *. clear E.
  destruct (pick _ _ _ _ _ _ _) as [[idx r]|]; [| done]. cbn in H.
  destruct (_ !! idx) as [ch|] eqn:Ei; [| done]. cbn in H. injection H as <- _.
  by rewrite (take_drop_perm _ _ _ Ei) in Hu.
Qed.

Lemma Forall_scored P cands c best tol w :
  (∀ u, u ∈ cands → Eligible u c best tol = true → P (rescored c best w u)) → Forall P (scored cands c best tol w).
Proof. intros H. apply Forall_forall. intros u (v & Hv & He & ->)%elem_scored. auto. Qed.

(** The scores of the eligible upstreams compare: none is NaN. *)
Definition scores_compare (cands : list Upstream) (c : RequestClass) (best tol : Z) (w : Weights) : Prop :=
  ∀ u, u ∈ cands → Eligible u c best tol = true → nisnan (Score u c best w) = false.

Lemma sorted_scored mode c hasTT cands best tol w :
  scores_compare cands c best tol w →
  StronglySorted (sort_le (selectLess mode c hasTT)) (insertion_sort (selectLess mode c hasTT) (scored cands c best tol w)).
Proof.
  intros H. apply (insertion_sort_sorted _ comparable (selectLess_strict mode c hasTT)).
  apply Forall_scored. exact H.
Qed.

Lemma sorted_head {A} (R : A → A → Prop) x l i u :
  StronglySorted R (x :: l) → (x :: l) !! i = Some u → i = O ∧ u = x ∨ R x u.
Proof.
  intros Hs Hi. apply StronglySorted_inv in Hs as [_ Hf]. destruct i; simpl in Hi.
  - left. by injection Hi as ->.
  - right. rewrite Forall_forall in Hf. apply Hf. by eapply list_elem_of_lookup_2.
Qed.

Section Properties.
Context {R : Type} (IntN : Z → R → Z * R).
Hypothesis IntN_range : ∀ n r, 0 < n → 0 <= (IntN n r).1 < n.

(** Select never panics (no index it draws or keeps is out of range), and
    it finds nothing exactly when no candidate is eligible. *)
Theorem Select_total mode cands c best tol w rnd :
  ∃ sel rnd', Select IntN mode cands c best tol w rnd = Some (sel, rnd') ∧
    (sel = None ↔ ∀ u, u ∈ cands → Eligible u c best tol = false).
Proof.
  destruct (Select_cases IntN IntN_range mode cands c best tol w rnd) as [[E ->]|(f & r & idx & u & rnd' & E & _ & _ & ->)].
  - eexists None, rnd. split; [done |]. split; [| done]. intros _. by apply (scored_nil _ _ _ _ w).
  - eexists (Some _), rnd'. split; [done |]. split; [done |]. intros H. exfalso.
    apply (scored_nil _ _ _ _ w) in H. rewrite H in E. done.
Qed.

(** C1: a selection is a choice among the eligible upstreams and nothing else:
    the chosen one and its alternates together are exactly the eligible
    candidates (each once, with its score), the reported tier is the chosen
    one's own, and no alternate is of a better effective tier. *)
Theorem Select_sound mode cands c best tol w rnd s rnd' :
  scores_compare cands c best tol w →
  Select IntN mode cands c best tol w rnd = Some (Some s, rnd') →
  sel_Chosen s :: sel_Alternates s ≡ₚ scored cands c best tol w ∧
  sel_Tier s = up_Tier (sel_Chosen s) ∧
  ∀ a, a ∈ sel_Alternates s → effectiveTier mode (sel_Chosen s) <= effectiveTier mode a.
Proof.
  intros Hc. destruct (Select_cases IntN IntN_range mode cands c best tol w rnd)
    as [[_ ->]|(f & r & idx & u & rnd'' & E & Hu & Hg & ->)]; [done |].
  intros [= <- _]. simpl. set (hasTT := existsb _ _) in *.
  pose proof (sorted_scored mode c hasTT cands best tol w Hc) as Hs.
  set (elig := insertion_sort _ _) in *.
  split; [rewrite take_drop_perm by done; apply insertion_sort_perm |]. split; [done |].
  intros a Ha. destruct Hg as [Hidx _]. rewrite (topCount_spec _ _ _ _ _ Hidx Hu).
  assert (a ∈ elig) as Hin by (rewrite <- (take_drop_perm elig idx u Hu); by right).
  apply list_elem_of_lookup_1 in Hin as [i Hi]. rewrite E in Hs, Hi.
  destruct (sorted_head _ _ _ _ _ Hs Hi) as [[_ ->]|H]; [done |]. by apply selectLess_tier in H.
Qed.

(** with ordinary tiers, external providers are the last resort in both
    modes (one is chosen only when every eligible upstream is external), and
    in fallback mode an eligible local node is always the one chosen. *)
Theorem Select_preference mode cands c best tol w rnd s rnd' :
  scores_compare cands c best tol w →
  (∀ u, u ∈ cands → 0 <= up_Tier u < 2 ^ 30 - 1) →
  Select IntN mode cands c best tol w rnd = Some (Some s, rnd') →
  (up_Kind (sel_Chosen s) = KindExternal →
     ∀ u, u ∈ cands → Eligible u c best tol = true → up_Kind u = KindExternal) ∧
  (mode = ModeFallback →
     (∃ u, u ∈ cands ∧ Eligible u c best tol = true ∧ up_Kind u = KindLocal) →
     up_Kind (sel_Chosen s) = KindLocal).
Proof.
  intros Hc Ht. destruct (Select_cases IntN IntN_range mode cands c best tol w rnd)
    as [[_ ->]|(f & r & idx & u & rnd'' & E & Hu & Hg & ->)]; [done |].
  intros [= <- _]. simpl. set (hasTT := existsb _ _) in *.
  pose proof (sorted_scored mode c hasTT cands best tol w Hc) as Hs.
  set (elig := insertion_sort _ _) in *. destruct Hg as [Hidx _].
  assert (∀ v, v ∈ cands → Eligible v c best tol = true → effectiveTier mode u <= effectiveTier mode (rescored c best w v)) as Hmin.
  { intros v Hv He. rewrite (topCount_spec _ _ _ _ _ Hidx Hu).
    assert (rescored c best w v ∈ elig) as Hin by (unfold elig; rewrite insertion_sort_perm; apply elem_scored; eauto).
    apply list_elem_of_lookup_1 in Hin as [i Hi]. rewrite E in Hs, Hi.
    destruct (sorted_head _ _ _ _ _ Hs Hi) as [[_ ->]|H]; [done |]. by apply selectLess_tier in H. }
  assert (u ∈ scored cands c best tol w) as Hus
    by (rewrite <- (insertion_sort_perm (selectLess mode c hasTT)); by eapply list_elem_of_lookup_2).
  apply elem_scored in Hus as (v0 & Hv0 & He0 & ->). clear -Ht Hmin Hv0 He0.
  unfold effectiveTier, rescored, MinInt32 in Hmin. pose proof (Ht v0 Hv0) as Ht0.
  change (Z.quot MaxInt32 2) with (2 ^ 30 - 1) in Hmin. simpl in *. split.
  - intros Hk v Hv He. specialize (Hmin v Hv He). specialize (Ht v Hv).
    rewrite Hk, (wi64_id (_ + up_Tier v0)) in Hmin by mlia.
    destruct (up_Kind v); [| | done]; repeat case_match; lia.
  - intros -> (v & Hv & He & Hk). specialize (Hmin v Hv He). rewrite Hk, seqb_refl in Hmin.
    destruct (up_Kind v0); [done | lia |]. rewrite wi64_id in Hmin by mlia. lia.
Qed.

(** when a time-travel node is eligible, the request is never sent to a
    peer sitting exactly on the edge of its state window while the tier holds
    any node that is not on the edge, in either mode. *)
Theorem Select_avoids_edge mode cands c best tol w rnd s rnd' :
  scores_compare cands c best tol w →
  Select IntN mode cands c best tol w rnd = Some (Some s, rnd') →
  (∃ t, t ∈ cands ∧ Eligible t c best tol = true ∧ cap_TimeTravel (up_Caps t) = true) →
  stateWindowEdge (sel_Chosen s) c = true →
  ∀ v, v ∈ cands → Eligible v c best tol = true →
    effectiveTier mode v = effectiveTier mode (sel_Chosen s) → stateWindowEdge v c = true.
Proof.
  intros Hc. destruct (Select_cases IntN IntN_range mode cands c best tol w rnd)
    as [[_ ->]|(f & r & idx & u & rnd'' & E & Hu & Hg & ->)]; [done |].
  intros [= <- _] (t & Ht & Hte & Htt). simpl.
  assert (existsb (λ u, cap_TimeTravel (up_Caps u)) (scored cands c best tol w) = true) as Hh.
  { apply existsb_exists. exists (rescored c best w t). split; [| done].
    apply list_elem_of_In, elem_scored. eauto. }
  rewrite Hh in *. pose proof (sorted_scored mode c true cands best tol w Hc) as Hs.
  set (elig := insertion_sort _ _) in *. intros Hedge v Hv He Hvt.
  change (stateWindowEdge v c) with (stateWindowEdge (rescored c best w v) c).
  change (effectiveTier mode v) with (effectiveTier mode (rescored c best w v)) in Hvt.
  assert (rescored c best w v ∈ elig) as Hin by (unfold elig; rewrite insertion_sort_perm; apply elem_scored; eauto).
  apply list_elem_of_lookup_1 in Hin as [i Hi]. destruct Hg as (Hidx & Hpos & _).
  rewrite (topCount_spec _ _ _ _ _ Hidx Hu) in Hvt.
  assert (i < topCount mode (effectiveTier mode f) elig)%nat as Hin
    by (rewrite E in *; by eapply topCount_all).
  destruct Hpos as [->|Hpos].
  - rewrite E in *. simpl in Hu. injection Hu as <-.
    destruct (sorted_head _ _ _ _ _ Hs Hi) as [[_ ->]|H]; [done |].
    by apply (selectLess_edge mode c f).
  - assert (0 < topCount mode (effectiveTier mode f) elig)%nat as Hn by lia.
    destruct (randomPool_spec c true elig _ Hn (topCount_le mode (effectiveTier mode f) elig)) as [_ Hp].
    destruct (Hp _ Hpos) as [_ Hp']. exact (Hp' u Hu eq_refl Hedge i _ Hin Hi).
Qed.

(** fallback mode (and a caller with no random source) is deterministic:
    with distinct ids the choice, the alternates and their order do not depend
    on the order the candidates arrive in. *)
Theorem Select_fallback_deterministic mode cands cands' c best tol w rnd :
  scores_compare cands c best tol w →
  (∀ a b, a ∈ cands → b ∈ cands → up_ID a = up_ID b → a = b) →
  mode ≠ ModeLoadBalancer ∨ rnd = None →
  cands ≡ₚ cands' →
  Select IntN mode cands c best tol w rnd = Select IntN mode cands' c best tol w rnd.
Proof.
  intros Hc Hid Hm Hp. assert (scored cands c best tol w ≡ₚ scored cands' c best tol w) as Hsp
    by (unfold scored; by apply omap_Permutation).
  unfold Select. set (tt := existsb _ (scored cands' _ _ _ _)).
  assert (existsb (λ u, cap_TimeTravel (up_Caps u)) (scored cands c best tol w) = tt) as ->.
  { apply eq_true_iff_eq. unfold tt. rewrite !existsb_exists. setoid_rewrite <- list_elem_of_In. by setoid_rewrite Hsp. }
  rewrite (insertion_sort_unique (selectLess mode c tt) comparable (scored cands c best tol w)
            (scored cands' c best tol w) (selectLess_strict mode c tt) (Forall_scored _ _ _ _ _ _ Hc) Hsp).
  2:{ intros a b Ha Hb Hab Hba.
      apply elem_scored in Ha as (a' & Ha & Hea & ->), Hb as (b' & Hb & Heb & ->).
      pose proof (selectLess_tie mode c tt _ _ Hab (Hc a' Ha Hea) (Hc b' Hb Heb) Hba) as E.
      by rewrite (Hid a' b' Ha Hb E). }
  case_match; [done |]. unfold pick. destruct rnd as [r|]; [| done].
  destruct Hm as [Hm|Hm]; [| done]. apply String.eqb_neq in Hm. by rewrite Hm.
Qed.
End Properties.

(** *** A concrete fleet *)

(** A counter standing in for the random source. *)
Definition counterIntN (n : Z) (r : Z) : Z * Z := (r `mod` n, r + 1).

Lemma counterIntN_range n r : 0 < n → 0 <= (counterIntN n r).1 < n.
Proof. intros H. simpl. lia. Qed.

Definition samplePeer (id : string) (last : Z) (caps : Capabilities) : Upstream :=
  mkUpstream id KindPeer 0 "" "" HealthSynced last caps false false zeroStats "gossip" nzero.

Definition sampleExternal : Upstream := (samplePeer "ext" 100 stockCaps) <| up_Kind := KindExternal |>.

Definition sampleFleet : list Upstream :=
  [sampleExternal; samplePeer "edge" 99 stockCaps; samplePeer "tt" 100 (stockCaps <| cap_TimeTravel := true |>); sampleLocal].

(** A state read at round 95. *)
Definition stateRead : RequestClass := zeroClass <| rc_Round := Some 95 |> <| rc_RoundWindow := WindowState |>.

Lemma sample_compare : scores_compare sampleFleet stateRead 100 4 DefaultWeights.
Proof.
  intros u Hu _. unfold sampleFleet in Hu. rewrite !elem_of_cons in Hu.
  destruct Hu as [->|[->|[->|[->|Hu]]]]; [vm_compute; reflexivity .. | by apply elem_of_nil in Hu].
Qed.

Lemma Select_total_witness :
  ∃ sel rnd', Select counterIntN ModeLoadBalancer sampleFleet stateRead 100 4 DefaultWeights (Some 0) = Some (sel, rnd') ∧
    (sel = None ↔ ∀ u, u ∈ sampleFleet → Eligible u stateRead 100 4 = false).
Proof. apply (Select_total counterIntN counterIntN_range). Defined.

Lemma Select_sound_witness :
  ∃ s, sel_Chosen s :: sel_Alternates s ≡ₚ scored sampleFleet stateRead 100 4 DefaultWeights ∧
  sel_Tier s = up_Tier (sel_Chosen s) ∧
  ∀ a, a ∈ sel_Alternates s → effectiveTier ModeLoadBalancer (sel_Chosen s) <= effectiveTier ModeLoadBalancer a.
Proof.
  eexists. eapply (Select_sound counterIntN counterIntN_range ModeLoadBalancer sampleFleet stateRead 100 4 DefaultWeights (Some 0)).
  - exact sample_compare.
  - vm_compute. reflexivity.
Defined.

Lemma Select_preference_witness :
  ∃ s, (up_Kind (sel_Chosen s) = KindExternal →
     ∀ u, u ∈ sampleFleet → Eligible u stateRead 100 4 = true → up_Kind u = KindExternal) ∧
  (ModeFallback = ModeFallback →
     (∃ u, u ∈ sampleFleet ∧ Eligible u stateRead 100 4 = true ∧ up_Kind u = KindLocal) →
     up_Kind (sel_Chosen s) = KindLocal).
Proof.
  eexists. eapply (Select_preference counterIntN counterIntN_range ModeFallback sampleFleet stateRead 100 4 DefaultWeights None).
  - exact sample_compare.
  - intros u Hu. unfold sampleFleet in Hu. rewrite !elem_of_cons in Hu.
    destruct Hu as [->|[->|[->|[->|Hu]]]]; [vm_compute; split; congruence .. | by apply elem_of_nil in Hu].
  - vm_compute. reflexivity.
Defined.

(** Two peers on the edge of their window and an external time-travel node. *)
Definition edgeFleet : list Upstream :=
  [sampleExternal <| up_Caps := stockCaps <| cap_TimeTravel := true |> |>;
   samplePeer "e1" 99 stockCaps; samplePeer "e2" 99 stockCaps].

Definition edgeSelection : Selection :=
  match Select counterIntN ModeLoadBalancer edgeFleet stateRead 100 4 DefaultWeights (Some 0) with
  | Some (Some s, _) => s
  | _ => mkSelection sampleLocal [] 0
  end.

Lemma Select_avoids_edge_witness :
  stateWindowEdge (sel_Chosen edgeSelection) stateRead = true ∧
  ∀ v, v ∈ edgeFleet → Eligible v stateRead 100 4 = true →
    effectiveTier ModeLoadBalancer v = effectiveTier ModeLoadBalancer (sel_Chosen edgeSelection) →
    stateWindowEdge v stateRead = true.
Proof.
  split; [by vm_compute |].
  eapply (Select_avoids_edge counterIntN counterIntN_range ModeLoadBalancer edgeFleet stateRead 100 4 DefaultWeights (Some 0)).
  - intros u Hu _. unfold edgeFleet in Hu. rewrite !elem_of_cons in Hu.
    destruct Hu as [->|[->|[->|Hu]]]; [vm_compute; reflexivity .. | by apply elem_of_nil in Hu].
  - vm_compute. reflexivity.
  - eexists. split; [by left | split; vm_compute; reflexivity].
  - by vm_compute.
Defined.

Lemma Select_fallback_deterministic_witness :
  Select counterIntN ModeFallback sampleFleet stateRead 100 4 DefaultWeights (Some 0) =
  Select counterIntN ModeFallback (reverse sampleFleet) stateRead 100 4 DefaultWeights (Some 0).
Proof.
  apply (Select_fallback_deterministic counterIntN).
  - exact sample_compare.
  - intros a b Ha Hb. unfold sampleFleet in Ha, Hb. rewrite !elem_of_cons in Ha, Hb.
    destruct Ha as [->|[->|[->|[->|Ha]]]], Hb as [->|[->|[->|[->|Hb]]]];
      try (by apply elem_of_nil in Ha); try (by apply elem_of_nil in Hb); simpl; try done; congruence.
  - left. discriminate.
  - symmetry. apply reverse_Permutation.
Defined.
