(* ===== verification/Health.v ===== *)
(** * Health: when an upstream counts as synced (internal/domain/health.go)

    [ReturnHysteresis] makes an upstream that was out earn its way back by
    consecutive synced judgements; [SyncJudge] turns rounds and times into
    judgements, tolerating a short one-round gap and counting recovery once
    per new round. *)
From S2P Require Import Prelude GoTime Types.
Open Scope Z_scope.

(** ** ReturnHysteresis *)
Record ReturnHysteresis := mkHyst {
  hy_Required : Z;
  hy_streak : Z;
  hy_trusted : bool
}.

Definition NewReturnHysteresis (required : Z) : ReturnHysteresis := mkHyst required 0 true.

Definition Observe (h : ReturnHysteresis) (judged : Health) : ReturnHysteresis * Health :=
  if bool_decide (judged ≠ HealthSynced) then
    (h <| hy_streak := 0 |> <| hy_trusted := false |>, judged)
  else if hy_trusted h then (h, HealthSynced)
  else
    let h := h <| hy_streak := wi64 (hy_streak h + 1) |> in
    if hy_Required h <=? hy_streak h then (h <| hy_trusted := true |>, HealthSynced)
    else (h, HealthLagging).

Definition Streak (h : ReturnHysteresis) : Z * bool := (hy_streak h, hy_trusted h).

Definition Current (h : ReturnHysteresis) : Health :=
  if hy_trusted h then HealthSynced else HealthLagging.

(** ** SyncJudge *)
Record SyncJudge := mkJudge {
  sj_Tolerance : Z;
  sj_Grace : Duration;
  sj_hyst : ReturnHysteresis;
  sj_behind : Time;
  sj_lastRound : Z;
  sj_seen : bool
}.

Definition NewSyncJudge (tolerance : Z) (grace : Duration) (hysteresisRounds : Z) : SyncJudge :=
  mkJudge tolerance grace (NewReturnHysteresis hysteresisRounds) zero_time 0 false.

(** j.hyst.Observe(judged) on the judge. *)
Definition observe (j : SyncJudge) (judged : Health) : SyncJudge * Health :=
  let '(h, p) := Observe (sj_hyst j) judged in (j <| sj_hyst := h |>, p).

(** The judge with behind brought up to date, and whether it is lagging. *)
Definition gap (j : SyncJudge) (now : Time) (round best : Z) : SyncJudge * bool :=
  if wu64 (round + sj_Tolerance j) <? best then
    let j := if IsZero (sj_behind j) then j <| sj_behind := now |> else j in
    (j, (wu64 (wu64 (round + sj_Tolerance j) + 1) <? best) || (sj_Grace j <=? time_sub now (sj_behind j)))
  else (j <| sj_behind := zero_time |>, false).

Definition Judge (j : SyncJudge) (now : Time) (reachable : bool) (round best : Z) : SyncJudge * Health :=
  if negb reachable then
    let j := j <| sj_behind := zero_time |> in
    if negb (sj_seen j) then (j, HealthOffline) else observe j HealthOffline
  else
    let '(j, lagging) := gap j now round best in
    if lagging then observe j HealthLagging
    else if negb (sj_seen j) || negb (round =? sj_lastRound j) then
      observe (j <| sj_seen := true |> <| sj_lastRound := round |>) HealthSynced
    else (j, Current (sj_hyst j)).

Definition judgeStreak (j : SyncJudge) : Z * bool := Streak (sj_hyst j).

(** ** Traces *)

Fixpoint observes (h : ReturnHysteresis) (l : list Health) : ReturnHysteresis * list Health :=
  match l with
  | [] => (h, [])
  | x :: l => let '(h, p) := Observe h x in let '(h, ps) := observes h l in (h, p :: ps)
  end.

Record Observation := mkObs { ob_now : Time; ob_reachable : bool; ob_round : Z; ob_best : Z }.

Fixpoint judges (j : SyncJudge) (l : list Observation) : SyncJudge * list Health :=
  match l with
  | [] => (j, [])
  | o :: l =>
      let '(j, p) := Judge j (ob_now o) (ob_reachable o) (ob_round o) (ob_best o) in
      let '(j, ps) := judges j l in (j, p :: ps)
  end.

(** What the hysteresis publishes for each judgement, from the history alone:
    run is the number of synced judgements since the last other one, clean
    that there was no other one. *)
Fixpoint published (required : Z) (clean : bool) (run : Z) (l : list Health) : list Health :=
  match l with
  | [] => []
  | HealthSynced :: l =>
      (if clean || (required <=? run + 1) then HealthSynced else HealthLagging) ::
      published required clean (run + 1) l
  | x :: l => x :: published required false 0 l
  end.

(** The state the hysteresis is in after such a history. *)
Definition hyst_at (required : Z) (clean : bool) (run : Z) (h : ReturnHysteresis) : Prop :=
  hy_Required h = required ∧ 0 <= run ∧
  hy_trusted h = clean || ((0 <? run) && (required <=? run)) ∧
  (hy_trusted h = false → hy_streak h = run).

Lemma Observe_at required clean run h x :
  is_i64 required → hyst_at required clean run h →
  let run' := match x with HealthSynced => run + 1 | _ => 0 end in
  let clean' := match x with HealthSynced => clean | _ => false end in
  hyst_at required clean' run' (Observe h x).1 ∧
  published required clean run [x] = [(Observe h x).2].
Proof.
  intros Hr (Hq & Hrun & Ht & Hs). unfold Observe, hyst_at. destruct x; simpl; try (split; [by split_and! | done]).
  rewrite Ht. destruct clean; simpl in *; [by split_and!; try lia; rewrite ?Ht |].
  destruct (0 <? run) eqn:E1, (required <=? run) eqn:E2; simpl in *;
    try (rewrite (proj2 (Z.ltb_lt 0 (run + 1))) by lia);
    try (rewrite (proj2 (Z.leb_le required (run + 1))) by lia; split; [split_and!; simpl; try lia; by rewrite ?Ht | done]).
  all: rewrite (Hs Ht), wi64_id by mlia; unfold set, const; simpl; rewrite Hq.
  all: destruct (Z.leb_spec required (run + 1)); simpl; (split; [split_and!; simpl; try lia; try done; congruence | done]).
Qed.

(** ** Properties *)

(** over any sequence of judgements, the hysteresis publishes every
    non-synced one unchanged, and publishes synced exactly when there has been
    no outage yet or the current run of synced judgements has reached the
    required length. *)
Theorem observes_published required l :
  is_i64 required → (observes (NewReturnHysteresis required) l).2 = published required true 0 l.
Proof.
  intros Hr. assert (hyst_at required true 0 (NewReturnHysteresis required)) as H by done.
  revert H. generalize true, 0, (NewReturnHysteresis required).
  induction l as [|x l IH]; intros clean run h H; [done |]. simpl.
  destruct (Observe_at required clean run h x Hr H) as [H' Hp].
  destruct (Observe h x) as [h' p]. simpl in *. specialize (IH _ _ h' H').
  destruct (observes h' l) as [h'' ps]. simpl in *. subst ps.
  destruct x; simpl in *; by injection Hp as <-.
Qed.

Lemma observes_published_witness :
  (observes (NewReturnHysteresis 2) [HealthSynced; HealthLagging; HealthSynced; HealthSynced]).2 =
  [HealthSynced; HealthLagging; HealthLagging; HealthSynced].
Proof. exact (observes_published 2 [HealthSynced; HealthLagging; HealthSynced; HealthSynced] ltac:(by vm_compute)). Defined.

(** *** Short gaps *)

Definition roundsBehind (j : SyncJudge) (o : Observation) : Z := ob_best o - (ob_round o + sj_Tolerance j).

(** A trace of a reachable node, never more than one round behind what is
    tolerated, and each time only for less than the grace: since is when the
    current gap began. *)
Fixpoint short_gaps (j : SyncJudge) (since : option Time) (l : list Observation) : Prop :=
  match l with
  | [] => True
  | o :: l =>
      ob_reachable o = true ∧ 0 < ob_now o ∧ 0 <= ob_round o ∧ ob_round o + sj_Tolerance j + 1 < two64 ∧
      if 0 <? roundsBehind j o then
        let start := default (ob_now o) since in
        roundsBehind j o <= 1 ∧ start <= ob_now o < start + sj_Grace j ∧ short_gaps j (Some start) l
      else short_gaps j None l
  end.

Lemma short_gaps_same j j' since l :
  sj_Tolerance j = sj_Tolerance j' → sj_Grace j = sj_Grace j' → short_gaps j since l → short_gaps j' since l.
Proof.
  intros Et Eg. revert since. unfold roundsBehind. induction l as [|o l IH]; intros since; [done |].
  simpl. unfold roundsBehind. rewrite <- Et, <- Eg. intros (? & ? & ? & ? & H). split_and!; try done.
  case_match; [destruct H as (? & [? ?] & ?); split_and!; auto | auto].
Qed.

Definition judging (j : SyncJudge) (since : option Time) : Prop :=
  0 <= sj_Tolerance j ∧ hy_trusted (sj_hyst j) = true ∧
  match since with None => sj_behind j = zero_time | Some t => sj_behind j = t ∧ 0 < t end.

(** A trusted judge publishes synced on any observation that does not lag. *)
Lemma Judge_trusted j now round best :
  hy_trusted (sj_hyst j) = true → (gap j now round best).2 = false →
  ∃ j', Judge j now true round best = (j', HealthSynced) ∧ sj_hyst j' = sj_hyst j ∧
    sj_Tolerance j' = sj_Tolerance j ∧ sj_Grace j' = sj_Grace j ∧
    sj_behind j' = sj_behind (gap j now round best).1.
Proof.
  intros Ht. unfold Judge. simpl. destruct (gap j now round best) as [j' lag] eqn:E. simpl. intros ->.
  assert (sj_hyst j' = sj_hyst j ∧ sj_Tolerance j' = sj_Tolerance j ∧ sj_Grace j' = sj_Grace j) as (Eh & ? & ?).
  { apply (f_equal fst) in E. simpl in E. subst. unfold gap. by repeat case_match. }
  unfold observe, Observe, Current. case_match; simpl; rewrite Eh, Ht; eexists; (split; [reflexivity |]); simpl; by rewrite ?Eh.
Qed.

(** When the gap the observation is in began. *)
Definition gapStart (j : SyncJudge) (now : Time) : Time := if IsZero (sj_behind j) then now else sj_behind j.

Lemma gap_eq j now round best :
  0 <= sj_Tolerance j → 0 <= round → round + sj_Tolerance j + 1 < two64 →
  gap j now round best =
  if round + sj_Tolerance j <? best then
    (j <| sj_behind := gapStart j now |>,
     (round + sj_Tolerance j + 1 <? best) || (sj_Grace j <=? time_sub now (gapStart j now)))
  else (j <| sj_behind := zero_time |>, false).
Proof.
  intros H1 H2 H3. unfold gap, gapStart. destruct j as [tol grace h behind lr seen]. simpl in *.
  rewrite (wu64_id (round + tol)) by mlia. case_match; [| done].
  destruct (IsZero behind); simpl; rewrite (wu64_id (round + tol)), wu64_id by mlia; done.
Qed.

Lemma gap_short j since o l :
  is_i64 (sj_Grace j) → judging j since → short_gaps j since (o :: l) →
  ∃ since', (gap j (ob_now o) (ob_round o) (ob_best o)).2 = false ∧
    match since' with
    | None => sj_behind (gap j (ob_now o) (ob_round o) (ob_best o)).1 = zero_time
    | Some t => sj_behind (gap j (ob_now o) (ob_round o) (ob_best o)).1 = t ∧ 0 < t
    end ∧ short_gaps j since' l.
Proof.
  intros Hg (Ht & _ & Hs) (_ & Hnow & Hr0 & Hr & H). rewrite gap_eq by done. unfold roundsBehind in H.
  destruct (Z.ltb_spec 0 (ob_best o - (ob_round o + sj_Tolerance j))).
  - destruct H as (Hone & Hst & H). rewrite (proj2 (Z.ltb_lt _ (ob_best o))) by lia.
    exists (Some (default (ob_now o) since)).
    assert (gapStart j (ob_now o) = default (ob_now o) since) as ->.
    { unfold gapStart, IsZero. destruct since as [t|]; simpl in *; [| by rewrite Hs].
      destruct Hs as [-> ?]. by rewrite (proj2 (Z.eqb_neq t zero_time)) by (unfold zero_time; lia). }
    simpl. split_and!; [| done | destruct since; simpl in *; lia | done].
    rewrite time_sub_exact by mlia. apply orb_false_iff. split; lia.
  - exists None. by rewrite (proj2 (Z.ltb_ge _ (ob_best o))) by lia.
Qed.

(** a short gap costs nothing: a trusted node that stays reachable, is
    never more than one round behind the tolerated distance, and never that
    far behind for the whole grace at a stretch, is published synced at every
    observation. *)
Theorem short_gaps_stay_synced j l :
  is_i64 (sj_Grace j) → 0 <= sj_Tolerance j →
  hy_trusted (sj_hyst j) = true → sj_behind j = zero_time →
  short_gaps j None l →
  Forall (λ p, p = HealthSynced) (judges j l).2.
Proof.
  intros Hg Htol Htr Hb. assert (judging j None) as Hj by done. clear Hb Htr Htol.
  revert Hg Hj. generalize (@None Time). revert j.
  induction l as [|o l IH]; intros j since Hg Hj Hl; simpl; [constructor |].
  destruct (gap_short j since o l Hg Hj Hl) as (since' & Hlag & Hb & Hl').
  destruct Hj as (Htol & Htr & _). destruct Hl as (-> & _).
  destruct (Judge_trusted j _ _ _ Htr Hlag) as (j' & -> & Eh & Et & Eg & Eb).
  specialize (IH j' since'). destruct (judges j' l) as [j'' ps] eqn:E. simpl in *.
  constructor; [done |]. apply IH.
  - by rewrite Eg.
  - unfold judging. by rewrite Et, Eh, Eb.
  - by eapply short_gaps_same.
Qed.

Lemma short_gaps_stay_synced_witness :
  Forall (λ p, p = HealthSynced)
    (judges (NewSyncJudge 0 (2 * Second) 3)
       [mkObs 10 true 100 100; mkObs 20 true 100 101; mkObs (20 + Second) true 101 102; mkObs (20 + 3 * Second) true 103 103]).2.
Proof.
  apply short_gaps_stay_synced; done.
Defined.

(** *** Recovery *)

(** How often the round of a trace changes, from the round prev. *)
Fixpoint changes (prev : option Z) (rs : list Z) : Z :=
  match rs with
  | [] => 0
  | r :: rs => (if bool_decide (prev = Some r) then 0 else 1) + changes (Some r) rs
  end.

Lemma changes_nonneg prev rs : 0 <= changes prev rs.
Proof.
  revert prev. induction rs as [|r rs IH]; intros prev; simpl; [lia |].
  specialize (IH (Some r)). case_bool_decide; lia.
Qed.

Definition reachable_rounds (l : list Observation) : list Z := ob_round <$> filter (λ o, ob_reachable o = true) l.

Definition counted (j : SyncJudge) : option Z := if sj_seen j then Some (sj_lastRound j) else None.

Definition owes (j : SyncJudge) : Prop :=
  hy_trusted (sj_hyst j) = false ∧ 0 <= hy_streak (sj_hyst j) < hy_Required (sj_hyst j) ∧
  is_i64 (hy_Required (sj_hyst j)).

(** What one observation does to an untrusted judge. *)
Lemma Judge_owes j o p :
  owes j →
  ∃ j' h, Judge j (ob_now o) (ob_reachable o) (ob_round o) (ob_best o) = (j', h) ∧
  let prev' := if ob_reachable o then Some (ob_round o) else p in
  let cost (a b : option Z) := if bool_decide (a = b) then 0 else 1 in
  let step := if ob_reachable o then cost p (Some (ob_round o)) else 0 in
  hy_Required (sj_hyst j') = hy_Required (sj_hyst j) ∧
  (h = HealthSynced → hy_Required (sj_hyst j) <= hy_streak (sj_hyst j) + cost p (counted j) + step) ∧
  (h ≠ HealthSynced → owes j' ∧
    hy_streak (sj_hyst j') + cost prev' (counted j') <= hy_streak (sj_hyst j) + cost p (counted j) + step).
Proof.
  intros (Ht & Hs & Hr). unfold Judge. destruct (ob_reachable o); simpl.
  2:{ destruct (sj_seen j) eqn:Es; simpl; eexists _, _; (split; [reflexivity |]); unfold owes, counted; simpl;
        rewrite Es; unfold const; split_and!; try done; try lia; intros _; split_and!; try done; lia. }
  destruct (gap j (ob_now o) (ob_round o) (ob_best o)) as [j1 lag] eqn:E.
  assert (sj_hyst j1 = sj_hyst j ∧ sj_seen j1 = sj_seen j ∧ sj_lastRound j1 = sj_lastRound j) as (Eh & Es & El).
  { apply (f_equal fst) in E. simpl in E. subst. unfold gap. by repeat case_match. }
  assert (counted j1 = counted j) as Ec by (unfold counted; by rewrite Es, El).
  destruct lag.
  { unfold observe, Observe. simpl. eexists _, _. split; [reflexivity |]. simpl. rewrite Eh. split; [done |].
    split; [done |]. intros _. split; [unfold owes; unfold const; simpl; split_and!; try done; lia |].
    change (counted (j1 <| sj_hyst := _ |>)) with (counted j1). rewrite Ec.
    unfold const. repeat case_bool_decide; first [lia | congruence]. }
  case_match eqn:Ecnt.
  - assert (counted j ≠ Some (ob_round o)) as Hne.
    { unfold counted. rewrite <- Es, <- El. destruct (sj_seen j1); [| done]. intros [= Hx].
      rewrite Hx, Z.eqb_refl in Ecnt. done. }
    assert (1 <= (if bool_decide (p = counted j) then 0 else 1) + (if bool_decide (p = Some (ob_round o)) then 0 else 1))
      as Hc by (repeat case_bool_decide; try lia; congruence).
    unfold observe, Observe. simpl. rewrite Eh, Ht. unfold set, const. simpl. rewrite wi64_id by mlia.
    destruct (Z.leb_spec (hy_Required (sj_hyst j)) (hy_streak (sj_hyst j) + 1)); simpl;
      eexists _, _; (split; [reflexivity |]); simpl; split_and!; try done; try lia.
    intros _. unfold owes, counted. simpl. split_and!; try done; try lia.
    fold (counted j). rewrite (bool_decide_true (Some _ = Some _)) by done. lia.
  - assert (counted j = Some (ob_round o)) as Hc.
    { unfold counted. rewrite <- Es, <- El. destruct (sj_seen j1); [| done]. simpl in Ecnt. f_equal. lia. }
    eexists _, _. split; [reflexivity |]. rewrite Eh. unfold Current. rewrite Ht. split_and!; try done.
    intros _. unfold owes. rewrite Eh, Ec, Hc. split_and!; try done; try lia.
    rewrite (bool_decide_true (Some (ob_round o) = Some (ob_round o))) by done. repeat case_bool_decide; lia.
Qed.

(** recovery is counted in rounds, not observations: a node that has just
    fallen out of trust is not published synced again before its round has
    changed at least the required number of times, however often and however
    it is observed meanwhile. *)
Theorem recovery_counts_rounds j l :
  hy_trusted (sj_hyst j) = false → hy_streak (sj_hyst j) = 0 →
  1 <= hy_Required (sj_hyst j) <= MaxInt64 →
  HealthSynced ∈ (judges j l).2 →
  hy_Required (sj_hyst j) <= changes (counted j) (reachable_rounds l).
Proof.
  intros Ht Hs Hr. assert (owes j) as Ho by (unfold owes; split_and!; first [done | lia | mlia]).
  cut (∀ p, HealthSynced ∈ (judges j l).2 → hy_Required (sj_hyst j) <=
         hy_streak (sj_hyst j) + (if bool_decide (p = counted j) then 0 else 1) + changes p (reachable_rounds l)).
  { intros H Hin. specialize (H (counted j) Hin). rewrite bool_decide_true in H by done. lia. }
  clear Hs Hr Ht. revert j Ho. induction l as [|o l IH]; intros j Ho p; simpl; [by intros H%elem_of_nil |].
  destruct (Judge_owes j o p Ho) as (j' & h & -> & Eq & Hsy & Hno).
  specialize (IH j'). destruct (judges j' l) as [j'' ps]. simpl in *. intros Hin.
  assert (changes p (reachable_rounds (o :: l)) =
    (if ob_reachable o then (if bool_decide (p = Some (ob_round o)) then 0 else 1) else 0) +
    changes (if ob_reachable o then Some (ob_round o) else p) (reachable_rounds l)) as ->.
  { unfold reachable_rounds. destruct (ob_reachable o) eqn:E; [rewrite filter_cons_True by done | rewrite filter_cons_False by congruence]; done. }
  destruct (decide (h = HealthSynced)) as [E|E].
  - specialize (Hsy E). pose proof (changes_nonneg (if ob_reachable o then Some (ob_round o) else p) (reachable_rounds l)). lia.
  - destruct (Hno E) as [Ho' Hle]. apply elem_of_cons in Hin as [Hin|Hin]; [congruence |].
    specialize (IH Ho' (if ob_reachable o then Some (ob_round o) else p) Hin). rewrite Eq in IH. lia.
Qed.

Lemma recovery_counts_rounds_witness :
  let j := (judges (NewSyncJudge 0 Second 2) [mkObs 10 true 100 100; mkObs 20 true 100 105]).1 in
  2 <= changes (counted j) (reachable_rounds [mkObs 30 true 105 105; mkObs 40 true 105 105; mkObs 50 true 106 106]).
Proof.
  intros j. apply (recovery_counts_rounds j); [reflexivity | reflexivity | vm_compute; split; congruence |].
  vm_compute. right. right. left.
Defined.
