(* ===== verification/Path.v ===== *)
(** * Path: which address of a link carries the heartbeats (internal/domain/path.go)

    [Choose] keeps, leaves or picks the current path of a link from what the
    pings measured.  A Go index is a [Z], -1 standing for no path. *)
From S2P Require Import Prelude GoFloat GoTime.
Open Scope Z_scope.

Record PathStat := mkPathStat {
  ps_Addr : string;
  ps_RTT : Duration;
  ps_Alive : bool;
  ps_Deaf : bool
}.

Definition PathFailures : Z := 3.

(** 1 - pathSwitchMargin, a constant the compiler computes exactly. *)
Definition pathSwitchKeep : float64 := nlit 3 4.

Record PathPolicy := mkPathPolicy { pp_ProbeInterval : Duration }.

Definition better (a b : PathStat) : bool :=
  if (0 <? ps_RTT a) && (0 <? ps_RTT b) then ps_RTT a <? ps_RTT b
  else 0 <? ps_RTT a.

(** The loop over the paths: the index and the path best so far. *)
Fixpoint bestAlive (i : Z) (stats : list PathStat) (best : option (Z * PathStat)) : option (Z * PathStat) :=
  match stats with
  | [] => best
  | s :: stats =>
      bestAlive (i + 1) stats
        (if ps_Alive s && (match best with None => true | Some (_, b) => better s b end) then Some (i, s) else best)
  end.

Definition Choose (p : PathPolicy) (now : Time) (stats : list PathStat) (cur : Z) (since : Time) : Z * string :=
  let best := bestAlive 0 stats None in
  let besti := match best with None => -1 | Some (i, _) => i end in
  match (if cur <? 0 then None else stats !! Z.to_nat cur) with
  | None => match best with None => (-1, "none"%string) | Some _ => (besti, "initial"%string) end
  | Some c =>
      if negb (ps_Alive c) then (besti, if ps_Deaf c then "deaf"%string else "dead"%string)
      else match best with
           | None => (cur, "keep"%string)
           | Some (i, b) =>
               if i =? cur then (cur, "keep"%string)
               else if (0 <? ps_RTT c) && (0 <? ps_RTT b) &&
                       nltb (nofZ (ps_RTT b)) (nmul (nofZ (ps_RTT c)) pathSwitchKeep) &&
                       (wi64 (2 * pp_ProbeInterval p) <=? time_sub now since)
                    then (i, "faster"%string)
                    else (cur, "keep"%string)
           end
  end.

(** ** Lemmas *)

(** The path at a Go index. *)
Definition path_at (stats : list PathStat) (i : Z) : option PathStat :=
  if i <? 0 then None else stats !! Z.to_nat i.

(** Nothing alive is better than b. *)
Definition unbeaten (stats : list PathStat) (b : PathStat) : Prop :=
  ∀ s, s ∈ stats → ps_Alive s = true → better s b = false.

Lemma better_trans a b c : better b a = false → better c b = false → better c a = false.
Proof. unfold better. repeat case_match; lia. Qed.

Lemma better_asym a b : better a b = true → better b a = false.
Proof. unfold better. repeat case_match; lia. Qed.

Lemma better_irrefl a : better a a = false.
Proof. unfold better. repeat case_match; lia. Qed.

Lemma better_step a b c : better b a = true → better c a = false → better c b = false.
Proof. unfold better. repeat case_match; lia. Qed.

(** The loop's result after the paths of seen. *)
Definition best_of (seen : list PathStat) (best : option (Z * PathStat)) : Prop :=
  match best with
  | None => ∀ s, s ∈ seen → ps_Alive s = false
  | Some (i, b) => path_at seen i = Some b ∧ ps_Alive b = true ∧ unbeaten seen b
  end.

Lemma path_at_app seen s i b : path_at seen i = Some b → path_at (seen ++ s) i = Some b.
Proof. unfold path_at. case_match; [done |]. intros H'. by rewrite lookup_app, H'. Qed.

Lemma path_at_last seen s : path_at (seen ++ [s]) (Z.of_nat (length seen)) = Some s.
Proof.
  unfold path_at. rewrite (proj2 (Z.ltb_ge _ _)) by lia. rewrite Nat2Z.id, lookup_app_r by lia.
  by rewrite Nat.sub_diag.
Qed.

Lemma bestAlive_spec seen stats best :
  best_of seen best → best_of (seen ++ stats) (bestAlive (Z.of_nat (length seen)) stats best).
Proof.
  revert seen best. induction stats as [|s stats IH]; intros seen best H; simpl; [by rewrite app_nil_r |].
  replace (seen ++ s :: stats) with ((seen ++ [s]) ++ stats) by by rewrite <- app_assoc.
  replace (Z.of_nat (length seen) + 1) with (Z.of_nat (length (seen ++ [s]))) by (rewrite length_app; simpl; lia).
  apply IH. unfold best_of, unbeaten in *. destruct (ps_Alive s) eqn:Es; simpl.
  - destruct best as [[i b]|]; simpl.
    + destruct H as (Hi & Hb & Hu). destruct (better s b) eqn:E.
      * split_and!; [apply path_at_last | done |].
        intros t [Ht|Ht%list_elem_of_singleton]%elem_of_app Ha; [| subst; apply better_irrefl].
        by apply (better_step b s t E), Hu.
      * split_and!; [by apply path_at_app | done |].
        intros t [Ht|Ht%list_elem_of_singleton]%elem_of_app Ha; [by apply Hu | by subst].
    + split_and!; [apply path_at_last | done |].
      intros t [Ht|Ht%list_elem_of_singleton]%elem_of_app Ha; [by rewrite H in Ha | subst; apply better_irrefl].
  - destruct best as [[i b]|].
    + destruct H as (Hi & Hb & Hu). split_and!; [by apply path_at_app | done |].
      intros t [Ht|Ht%list_elem_of_singleton]%elem_of_app Ha; [by apply Hu | congruence].
    + intros t [Ht|Ht%list_elem_of_singleton]%elem_of_app; [by apply H | by subst].
Qed.

Lemma bestAlive_best stats : best_of stats (bestAlive 0 stats None).
Proof. apply (bestAlive_spec []). intros s H. by apply elem_of_nil in H. Qed.

Lemma Choose_cases p now stats cur since i why :
  Choose p now stats cur since = (i, why) →
  (i = -1 ∧ (∀ s, s ∈ stats → ps_Alive s = false)) ∨
  (∃ b, path_at stats i = Some b ∧ ps_Alive b = true ∧
     (why = "keep"%string ∧ i = cur ∨ why ≠ "keep"%string ∧ unbeaten stats b)).
Proof.
  unfold Choose. pose proof (bestAlive_best stats) as Hb. fold (path_at stats cur).
  destruct (bestAlive 0 stats None) as [[j b]|]; simpl in Hb.
  - destruct Hb as (Hj & Hb & Hu). destruct (path_at stats cur) as [c|] eqn:Ec.
    + destruct (ps_Alive c) eqn:Ea; simpl; repeat case_match; intros [= <- <-]; right;
        first [by exists b; split_and!; try done; right | by exists c; split_and!; try done; left].
    + intros [= <- <-]. right. exists b. split_and!; try done. by right.
  - destruct (path_at stats cur) as [c|] eqn:Ec.
    + destruct (ps_Alive c) eqn:Ea; simpl.
      * exfalso. unfold path_at in Ec. destruct (cur <? 0); [done |].
        apply list_elem_of_lookup_2 in Ec. by rewrite Hb in Ea.
      * case_match; intros [= <- <-]; by left.
    + intros [= <- <-]. by left.
Qed.

(** ** Properties *)

(** the policy always names a usable path when there is one and -1 only
    when there is none: the chosen index is an alive path, and unless a working
    path is kept, no alive path is better (measured before unmeasured, then by
    round-trip time). *)
Theorem Choose_usable p now stats cur since i why :
  Choose p now stats cur since = (i, why) →
  (i = -1 ∧ (∀ s, s ∈ stats → ps_Alive s = false)) ∨
  (∃ b, path_at stats i = Some b ∧ ps_Alive b = true ∧
     (why = "keep"%string ∧ i = cur ∨ why ≠ "keep"%string ∧ unbeaten stats b)).
Proof. apply Choose_cases. Qed.

(** no flapping: a working path is left only for another measured path
    that beats the margin, and not before two probe intervals have passed
    since the last switch; any other reason means the path was gone, dead or
    deaf. *)
Theorem Choose_leaves p now stats cur since i why c :
  Choose p now stats cur since = (i, why) → path_at stats cur = Some c → ps_Alive c = true → i ≠ cur →
  why = "faster"%string ∧ wi64 (2 * pp_ProbeInterval p) <= time_sub now since ∧
  ∃ b, path_at stats i = Some b ∧ 0 < ps_RTT b <= ps_RTT c ∧
       nltb (nofZ (ps_RTT b)) (nmul (nofZ (ps_RTT c)) pathSwitchKeep) = true.
Proof.
  unfold Choose. pose proof (bestAlive_best stats) as Hb. fold (path_at stats cur). intros H Hc Ha Hi.
  rewrite Hc, Ha in H. simpl in H. destruct (bestAlive 0 stats None) as [[j b]|]; [| congruence].
  destruct Hb as (Hj & Hb & Hu). destruct (j =? cur) eqn:Ej; [congruence |].
  destruct (_ && _) eqn:E; [| congruence]. injection H as <- <-. bprop.
  split; [done |]. split; [by apply Z.leb_le |]. exists b.
  assert (c ∈ stats) as Hin by (unfold path_at in Hc; destruct (cur <? 0); [done | by eapply list_elem_of_lookup_2]).
  specialize (Hu c Hin Ha). unfold better in Hu. split_and!; try done; try lia.
  case_match; lia.
Qed.

(** a decision settles: after a switch, the same measurements keep the new
    path, whenever they are looked at again. *)
Theorem Choose_settles p now stats cur since i why now' since' :
  Choose p now stats cur since = (i, why) → why ≠ "keep"%string → i ≠ -1 →
  Choose p now' stats i since' = (i, "keep"%string).
Proof.
  unfold Choose. pose proof (bestAlive_best stats) as Hb. fold (path_at stats cur) (path_at stats i).
  destruct (bestAlive 0 stats None) as [[j b]|]; simpl in Hb; intros H Hw Hi.
  - destruct Hb as (Hj & Ha & _).
    assert (i = j) as -> by (revert H; repeat case_match; congruence).
    by rewrite Hj, Ha, Z.eqb_refl.
  - exfalso. revert H. repeat case_match; congruence.
Qed.

(** *** Two measured paths, the second much faster *)
Definition samplePaths : list PathStat :=
  [mkPathStat "10.0.0.1:9" (40 * Millisecond) true false; mkPathStat "10.0.0.2:9" (10 * Millisecond) true false].

Definition samplePolicy : PathPolicy := mkPathPolicy Second.

Lemma Choose_usable_witness :
  (1 = -1 ∧ (∀ s, s ∈ samplePaths → ps_Alive s = false)) ∨
  (∃ b, path_at samplePaths 1 = Some b ∧ ps_Alive b = true ∧
     ("faster"%string = "keep"%string ∧ 1 = 0 ∨ "faster"%string ≠ "keep"%string ∧ unbeaten samplePaths b)).
Proof. apply (Choose_usable samplePolicy (10 * Second) samplePaths 0 Second). vm_compute. reflexivity. Defined.

Lemma Choose_leaves_witness :
  "faster"%string = "faster"%string ∧ wi64 (2 * Second) <= time_sub (10 * Second) Second ∧
  ∃ b, path_at samplePaths 1 = Some b ∧ 0 < ps_RTT b <= 40 * Millisecond ∧
       nltb (nofZ (ps_RTT b)) (nmul (nofZ (40 * Millisecond)) pathSwitchKeep) = true.
Proof.
  apply (Choose_leaves samplePolicy (10 * Second) samplePaths 0 Second 1 "faster" (mkPathStat "10.0.0.1:9" (40 * Millisecond) true false));
    [vm_compute; reflexivity | reflexivity | reflexivity | discriminate].
Defined.

Lemma Choose_settles_witness : Choose samplePolicy (90 * Second) samplePaths 1 (10 * Second) = (1, "keep"%string).
Proof.
  apply (Choose_settles samplePolicy (10 * Second) samplePaths 0 Second 1 "faster");
    [vm_compute; reflexivity | discriminate | discriminate].
Defined.
