(* ===== verification/Endpoint.v ===== *)
(** * Endpoint: which of a node's endpoints to use (internal/domain/endpoint.go,
    and NormalizeAddr of internal/domain/path.go) *)
From S2P Require Import Prelude GoStrings GoNet.
Open Scope Z_scope.

Definition NormalizeAddr (addr : string) : string :=
  match SplitHostPort addr with
  | None => addr
  | Some (host, port) =>
      match ParseIP host with
      | None => addr
      | Some ip => JoinHostPort (ip_string ip) port
      end
  end.

Definition EndpointHosts (endpoints : list string) : list string :=
  map (λ e, match url_hostname e with
            | None => ""%string
            | Some h => match ParseIP h with None => ""%string | Some ip => ip_string ip end
            end) endpoints.

(** The endpoint of the first host that is h. *)
Fixpoint endpointOf (endpoints hosts : list string) (host : string) : option string :=
  match hosts, endpoints with
  | h :: hosts, e :: endpoints => if h =s host then Some e else endpointOf endpoints hosts host
  | _, _ => None
  end.

Definition EndpointFor (endpoints hosts : list string) (pathAddr : string) : string :=
  match endpoints with
  | [] => ""
  | first :: _ =>
      match SplitHostPort pathAddr with
      | Some (host, _) => if host <>s "" then default first (endpointOf endpoints hosts host) else first
      | None => first
      end
  end.

Definition AlgodCovers (algodNet addr : string) : bool :=
  match SplitHostPort algodNet with
  | None => false
  | Some (ah, ap) =>
      match SplitHostPort addr with
      | None => false
      | Some (h, p) =>
          if p <>s ap then false
          else
            let ip := ParseIP h in
            if (ah =s "") || (ah =s "::") then true
            else if ah =s "0.0.0.0" then match ip with None => true | Some ip => isSome (To4 ip) end
            else match ParseIP ah, ip with
                 | Some aip, Some ip => bool_decide (aip = ip)
                 | _, _ => ah =s h
                 end
      end
  end.

Example normalize_v4 : NormalizeAddr "[::ffff:10.1.2.3]:4190" = "10.1.2.3:4190".
Proof. vm_compute. reflexivity. Qed.
Example normalize_v6 : NormalizeAddr "[2001:0db8:0:0:1:0:0:1]:9" = "[2001:db8::1:0:0:1]:9".
Proof. vm_compute. reflexivity. Qed.
Example endpoint_hosts : EndpointHosts ["http://10.0.0.1:4001/x"; "mem:a"; "http://[fe80::1]:80"; "https://u@h.example:1"] = ["10.0.0.1"; ""; "fe80::1"; ""]%string.
Proof. vm_compute. reflexivity. Qed.

(** ** Properties *)

Lemma endpointOf_spec endpoints hosts host i :
  length hosts = length endpoints →
  hosts !! i = Some host → (∀ j h, (j < i)%nat → hosts !! j = Some h → h ≠ host) →
  endpointOf endpoints hosts host = endpoints !! i.
Proof.
  revert endpoints i. induction hosts as [|h hosts IH]; intros [|e endpoints] i; simpl; try done.
  intros [= Hl] Hi Hfirst. destruct i as [|i]; simpl in *.
  - injection Hi as ->. by rewrite seqb_refl.
  - assert (h ≠ host) as Hne by (apply (Hfirst 0%nat); [lia | done]). apply String.eqb_neq in Hne. rewrite Hne.
    apply IH; [done | done |]. intros j h' Hj Hh'. apply (Hfirst (S j)); [lia | done].
Qed.

Lemma endpointOf_none endpoints hosts host : host ∉ hosts → endpointOf endpoints hosts host = None.
Proof.
  revert endpoints. induction hosts as [|h hosts IH]; intros [|e endpoints]; simpl; try done.
  intros [Hne Hn]%not_elem_of_cons. assert (h ≠ host) as E by done. apply String.eqb_neq in E. rewrite E. by apply IH.
Qed.

Lemma endpointOf_elem endpoints hosts host e : endpointOf endpoints hosts host = Some e → e ∈ endpoints.
Proof.
  revert endpoints. induction hosts as [|h hosts IH]; intros [|e' endpoints]; simpl; try done.
  case_match; [intros [= ->]; by left | intros E; right; by apply IH].
Qed.

Lemma EndpointHosts_length endpoints : length (EndpointHosts endpoints) = length endpoints.
Proof. apply length_map. Qed.

(** traffic follows the heartbeat path: of a node's endpoints the one used
    is the first whose host is the host of the current path, the first of all
    when no endpoint is on that host or there is no path, and it is always one
    of the node's endpoints. *)
Theorem EndpointFor_follows endpoints path :
  (endpoints = [] → EndpointFor endpoints (EndpointHosts endpoints) path = ""%string) ∧
  (endpoints ≠ [] → EndpointFor endpoints (EndpointHosts endpoints) path ∈ endpoints) ∧
  (∀ host port i e, SplitHostPort path = Some (host, port) → host ≠ ""%string →
     EndpointHosts endpoints !! i = Some host →
     (∀ j h, (j < i)%nat → EndpointHosts endpoints !! j = Some h → h ≠ host) →
     endpoints !! i = Some e → EndpointFor endpoints (EndpointHosts endpoints) path = e) ∧
  (∀ host port first rest, endpoints = first :: rest → SplitHostPort path = Some (host, port) →
     host ∉ EndpointHosts endpoints → EndpointFor endpoints (EndpointHosts endpoints) path = first).
Proof.
  split_and!.
  - by intros ->.
  - destruct endpoints as [|first rest]; [done |]. intros _. unfold EndpointFor.
    destruct (SplitHostPort path) as [[host port]|]; [| by left]. destruct (host <>s ""); [| by left].
    destruct (endpointOf _ _ host) as [e|] eqn:E; simpl; [by eapply endpointOf_elem | by left].
  - intros host port i e Hs Hne Hi Hfirst He. unfold EndpointFor. destruct endpoints as [|first rest]; [done |].
    rewrite Hs. apply String.eqb_neq in Hne. rewrite Hne. simpl negb. cbv iota.
    rewrite (endpointOf_spec _ _ host i (EndpointHosts_length _) Hi Hfirst), He. done.
  - intros host port first rest -> Hs Hn. unfold EndpointFor. rewrite Hs. rewrite endpointOf_none by done.
    by destruct (host <>s "").
Qed.
