(* ===== verification/Addrs.v ===== *)
(** * Addrs: the address lists of a configuration
    (type Addrs and withScheme of internal/config/config.go)

    [resolve] is what the agent binds, [resolveSpecific] what others send to.
    An error is the text of the code's error without the values it quotes.
    [resolve_iff] and [resolveSpecific_iff] say when a list is accepted and
    what it becomes; both are stated on the list's [entries], the trimmed
    members that are not empty. *)
From S2P Require Import Prelude GoStrings GoNet Endpoint.
From Stdlib Require Import Ascii.
Open Scope Z_scope.

Definition Addrs : Type := list string.

(** UnmarshalYAML, of a node as the YAML library decodes it: a scalar is one
    comma-separated string, anything else a sequence. *)
Inductive yamlNode :=
  | ScalarNode (decoded : result string string)
  | OtherNode (decoded : result string (list string)).

Definition UnmarshalYAML (n : yamlNode) : result string Addrs :=
  match n with
  | ScalarNode d => s ← d; Ok (split_on "," s)
  | OtherNode d => d
  end.

Definition Addrs_String (a : Addrs) : string := GoStrings.join ", " a.

(** Whether a listen host means every interface. *)
Definition wildcardHost (h : string) : bool := (h =s "") || (h =s "0.0.0.0") || (h =s "::").

(** net.SplitHostPort with its error dropped. *)
Definition splitOrEmpty (s : string) : string * string := default ("", "")%string (SplitHostPort s).

Definition wildcardCovers (wild host : string) : bool :=
  let '(wh, _) := splitOrEmpty wild in
  if wh <>s "0.0.0.0" then true
  else match ParseIP host with
       | None => true
       | Some ip => isSome (To4 ip)
       end.

(** ** resolve *)

(** The first loop: the list so far, what was seen, and the wildcard address
    on each port. *)
Fixpoint resolveLoop (what : string) (a out : Addrs) (seen : gset string) (wild : gmap string string) :
    result string (Addrs * gmap string string) :=
  match a with
  | [] => Ok (out, wild)
  | s :: a =>
      let s := trim_space s in
      if s =s "" then resolveLoop what a out seen wild
      else match SplitHostPort s with
           | None => Err (what +:+ ": want host:port, [::1]:port for IPv6")
           | Some (host, port) =>
               if port =s "" then Err (what +:+ ": no port")
               else if bool_decide (s ∈ seen) then resolveLoop what a out seen wild
               else
                 let seen := {[s]} ∪ seen in
                 if wildcardHost host then
                   if isSome (wild !! port) then Err (what +:+ ": already listens on port of every interface")
                   else resolveLoop what a (out ++ [s]) seen (<[port := s]> wild)
                 else resolveLoop what a (out ++ [s]) seen wild
           end
  end.

(** The second loop's condition on one address. *)
Definition coveredBy (wild : gmap string string) (s : string) : bool :=
  let '(host, port) := splitOrEmpty s in
  match wild !! port with
  | Some prev => negb (wildcardHost host) && wildcardCovers prev host
  | None => false
  end.

Definition resolve (a : Addrs) (what def : string) : result string Addrs :=
  '(out, wild) ← resolveLoop what a [] ∅ ∅;
  if Z.of_nat (length out) =? 0 then Ok [def]
  else if existsb (coveredBy wild) out then Err (what +:+ ": already listens on port of every interface")
  else Ok out.

(** ** resolveSpecific and resolvePeers *)
Fixpoint specificLoop (what noWildcard : string) (a out : Addrs) (seen : gset string) : result string Addrs :=
  match a with
  | [] => Ok out
  | s :: a =>
      let s := trim_space s in
      if s =s "" then specificLoop what noWildcard a out seen
      else match SplitHostPort s with
           | None => Err (what +:+ ": want host:port, [::1]:port for IPv6")
           | Some (host, port) =>
               if port =s "" then Err (what +:+ ": no port")
               else if wildcardHost host then Err (what +:+ ": " +:+ noWildcard)
               else if bool_decide (s ∈ seen) then specificLoop what noWildcard a out seen
               else specificLoop what noWildcard a (out ++ [s]) ({[s]} ∪ seen)
           end
  end.

Definition resolveSpecific (a : Addrs) (what noWildcard : string) : result string Addrs :=
  specificLoop what noWildcard a [] ∅.

Definition resolvePeers (a : Addrs) (what : string) : result string Addrs :=
  resolveSpecific a what "peers cannot send to a wildcard address".

(** ** Views of a list *)
Definition publicAddr (s : string) : bool :=
  match SplitHostPort s with
  | None => false
  | Some (host, _) =>
      match ParseIP host with
      | None => false
      | Some ip => negb (IsUnspecified ip || IsPrivate ip || IsLoopback ip || IsLinkLocalUnicast ip || IsLinkLocalMulticast ip)
      end
  end.

Definition Public (a : Addrs) : Addrs := List.filter publicAddr a.

Definition Wildcard (a : Addrs) : Addrs :=
  List.filter (λ s, match SplitHostPort s with Some (host, _) => wildcardHost host | None => false end) a.

(** strings.Contains(s, sub). *)
Fixpoint contains_str (sub s : string) : bool :=
  has_prefix sub s || match s with String _ s' => contains_str sub s' | EmptyString => false end.

Definition withScheme (u : string) : string :=
  let u := trim_space u in
  if (u =s "") || contains_str "://" u then u else "http://" +:+ u.

(** The host:port an endpoint URL carries, normalised. *)
Definition carried (e : string) : option string :=
  match url_host (withScheme e) with
  | Some h => if h <>s "" then Some (NormalizeAddr h) else None
  | None => None
  end.

Definition notIn (a : Addrs) (endpoints : list string) : Addrs :=
  let have : gset string := list_to_set (omap carried endpoints) in
  List.filter (λ s, negb (bool_decide (NormalizeAddr s ∈ have))) a.

(** ** What a resolved list is *)

(** The members that count: trimmed, the empty ones dropped. *)
Definition entries (a : Addrs) : list string := List.filter (λ s, s <>s "") (trim_space <$> a).

(** Each string once, where it first occurs. *)
Fixpoint firsts (seen : gset string) (l : list string) : list string :=
  match l with
  | [] => []
  | s :: l => if bool_decide (s ∈ seen) then firsts seen l else s :: firsts ({[s]} ∪ seen) l
  end.

(** The entries of a list to bind, each once; the default for none. *)
Definition resolved (def : string) (l : list string) : Addrs :=
  match l with [] => [def] | _ => firsts ∅ l end.

Definition bindable (s : string) : bool :=
  match SplitHostPort s with Some (_, port) => port <>s "" | None => false end.

(** The port a wildcard address takes. *)
Definition wildOn (s : string) : option string :=
  '(host, port) ← SplitHostPort s; if wildcardHost host then Some port else None.

(** Binding w takes the port away from s. *)
Definition takes (w s : string) : bool :=
  match SplitHostPort w, SplitHostPort s with
  | Some (wh, wp), Some (h, p) => (w <>s s) && wildcardHost wh && (wp =s p) && (wildcardHost h || wildcardCovers w h)
  | _, _ => false
  end.

Lemma entries_cons s a : entries (s :: a) = if trim_space s =s "" then entries a else trim_space s :: entries a.
Proof. unfold entries. simpl. by destruct (trim_space s =s ""). Qed.

Lemma elem_of_entries s a : s ∈ entries a → trim_space s = s ∧ s ≠ "".
Proof.
  unfold entries. rewrite list_elem_of_In, filter_In, <- list_elem_of_In, list_elem_of_fmap.
  intros [(x & -> & _) H]. split; [apply trim_space_idem | by bprop].
Qed.

Lemma entries_id l : Forall (λ s, trim_space s = s ∧ s ≠ "") l → entries l = l.
Proof.
  induction 1 as [|s l [Ht Hs] _ IH]; [done |]. rewrite entries_cons, Ht, IH.
  by destruct (String.eqb_spec s "").
Qed.

Lemma elem_of_firsts s seen l : s ∈ firsts seen l ↔ s ∈ l ∧ s ∉ seen.
Proof.
  revert seen. induction l as [|x l IH]; intros seen; simpl; [set_solver |].
  case_bool_decide; [rewrite IH; set_solver |]. rewrite !elem_of_cons, IH.
  destruct (decide (s = x)); set_solver.
Qed.

Lemma firsts_NoDup seen l : NoDup (firsts seen l).
Proof.
  revert seen. induction l as [|x l IH]; intros seen; simpl; [constructor |].
  case_bool_decide; [done |]. constructor; [| done]. rewrite elem_of_firsts. set_solver.
Qed.

Lemma firsts_id seen l : NoDup l → (∀ s, s ∈ l → s ∉ seen) → firsts seen l = l.
Proof.
  intros H. revert seen. induction H as [|x l Hx _ IH]; intros seen Hs; simpl; [done |].
  rewrite bool_decide_false by (apply Hs; left). f_equal. apply IH. set_solver.
Qed.

Lemma firsts_nil l : firsts ∅ l = [] → l = [].
Proof. destruct l; [done |]. simpl. by rewrite bool_decide_false by set_solver. Qed.

(** The map of wildcards is that of the list so far. *)
Record wilds (out : Addrs) (wild : gmap string string) : Prop := {
  wilds_one : NoDup (omap wildOn out);
  wilds_spec p w : wild !! p = Some w ↔ w ∈ out ∧ wildOn w = Some p
}.

Lemma wilds_unique out m m' : wilds out m → wilds out m' → m = m'.
Proof.
  intros H H'. apply map_eq. intros p. apply option_eq. intros w.
  by rewrite (wilds_spec _ _ H), (wilds_spec _ _ H').
Qed.

Lemma wilds_nil : wilds [] ∅.
Proof. split; [constructor |]. intros p w. rewrite lookup_empty. split; [done |]. by intros [?%elem_of_nil _]. Qed.

Lemma wilds_snoc_specific out m s : wilds out m → wildOn s = None → wilds (out ++ [s]) m.
Proof.
  intros [H1 H2] Hs. split; [rewrite omap_app; simpl; by rewrite Hs, app_nil_r |].
  intros p w. rewrite H2. split; [set_solver |]. intros [[?| ->%list_elem_of_singleton]%elem_of_app E]; [done | congruence].
Qed.

Lemma wilds_snoc_wild out m s p : wilds out m → wildOn s = Some p → m !! p = None → wilds (out ++ [s]) (<[p := s]> m).
Proof.
  intros [H1 H2] Hs Hp. split.
  - rewrite omap_app. simpl. rewrite Hs. apply NoDup_app. split; [done |]. split; [| by apply NoDup_singleton].
    intros x (w & Hw & Ew)%list_elem_of_omap ->%list_elem_of_singleton.
    assert (m !! p = Some w) by (by apply H2). congruence.
  - intros q w. rewrite lookup_insert_Some, H2. split; [set_solver |].
    intros [[Hin| ->%list_elem_of_singleton]%elem_of_app E]; [| left; by simplify_eq].
    right. split; [| done]. intros ->. assert (m !! q = Some w) by (by apply H2). congruence.
Qed.

Lemma wilds_clash out m s p l :
  wilds (out ++ s :: l) m → wildOn s = Some p → ∀ w, w ∈ out → wildOn w ≠ Some p.
Proof.
  intros [H _] Hs w Hw Ew. rewrite omap_app in H. apply NoDup_app in H as (_ & H & _).
  apply (H p); [by apply list_elem_of_omap; eauto |]. simpl. rewrite Hs. left.
Qed.

(** What the first loop returns, and that it fails on nothing else. *)
Lemma resolveLoop_iff what a out seen wild r :
  wilds out wild →
  resolveLoop what a out seen wild = Ok r ↔
  forallb bindable (entries a) = true ∧ r.1 = out ++ firsts seen (entries a) ∧ wilds r.1 r.2.
Proof.
  revert out seen wild. induction a as [|s a IH]; intros out seen wild W.
  { simpl. rewrite app_nil_r. split; [by intros [= <-] |]. destruct r as [o m]. simpl. intros (_ & -> & W').
    by rewrite (wilds_unique _ _ _ W W'). }
  rewrite entries_cons. cbn [resolveLoop]. set (t := trim_space s) in *. destruct (t =s "") eqn:Et; [by apply IH |].
  cbn [forallb firsts]. assert (bindable t = match SplitHostPort t with Some (_, p) => p <>s "" | None => false end) as -> by done.
  destruct (SplitHostPort t) as [[h p]|] eqn:Es; [| split; [done | by intros [? _]]].
  destruct (p =s "") eqn:Ep; [split; [done | by intros [? _]] |]. simpl.
  case_bool_decide as Hs; [by apply IH |].
  assert (wildOn t = if wildcardHost h then Some p else None) as Ew by (unfold wildOn; by rewrite Es).
  assert (∀ l, (out ++ [t]) ++ l = out ++ t :: l) as Happ by (intros; by rewrite <- app_assoc).
  destruct (wildcardHost h).
  - destruct (wild !! p) as [w|] eqn:Ewp; simpl.
    + split; [done |]. intros (_ & E & W'). rewrite E in W'. apply (wilds_spec _ _ W) in Ewp as [Hw Hwp].
      by destruct (wilds_clash _ _ _ _ _ W' Ew w Hw).
    + rewrite IH, Happ; [done |]. by apply wilds_snoc_wild.
  - rewrite IH, Happ; [done |]. by apply wilds_snoc_specific.
Qed.

Lemma specificLoop_iff what why a out seen r :
  specificLoop what why a out seen = Ok r ↔
  forallb (λ s, bindable s && isNone (wildOn s)) (entries a) = true ∧ r = out ++ firsts seen (entries a).
Proof.
  revert out seen. induction a as [|s a IH]; intros out seen.
  { simpl. rewrite app_nil_r. split; [by intros [= <-] |]. by intros [_ ->]. }
  rewrite entries_cons. cbn [specificLoop]. set (t := trim_space s) in *. destruct (t =s "") eqn:Et; [by apply IH |].
  cbn [forallb firsts]. unfold bindable at 1, wildOn at 1. destruct (SplitHostPort t) as [[h p]|]; [| split; [done | by intros [? _]]].
  destruct (p =s ""); [split; [done | by intros [? _]] |]. simpl.
  destruct (wildcardHost h); simpl; [split; [done | by intros [? _]] |].
  case_bool_decide; [by apply IH |]. rewrite IH, <- app_assoc. done.
Qed.

Lemma bindable_split s : bindable s = true → ∃ h p, SplitHostPort s = Some (h, p) ∧ p ≠ ""%string.
Proof. unfold bindable. destruct (SplitHostPort s) as [[h p]|]; [| done]. intros H. bprop. eauto. Qed.

(** [takes] in terms of the wildcard's port. *)
Lemma takes_true w s :
  takes w s = true ↔
  ∃ h p, SplitHostPort s = Some (h, p) ∧ wildOn w = Some p ∧ w ≠ s ∧ (wildcardHost h = true ∨ wildcardCovers w h = true).
Proof.
  unfold takes, wildOn. destruct (SplitHostPort w) as [[wh wp]|] eqn:Ew; [| split; [done |]; by intros (? & ? & _ & ? & _)].
  destruct (SplitHostPort s) as [[h p]|] eqn:Es; [| split; [done |]; by intros (? & ? & ? & _)].
  simpl. split.
  - intros H. bprop. subst. exists h, p. by destruct (wildcardHost wh).
  - intros (h' & p' & [= <- <-] & E & Hne & Hc). destruct (wildcardHost wh); [| done]. injection E as ->.
    rewrite !andb_true_iff, seqb_refl, orb_true_iff. bprop. auto.
Qed.

(** The second loop finds exactly the wildcards that cover an address. *)
Lemma coveredBy_iff out m :
  wilds out m → (∀ s, s ∈ out → bindable s = true) →
  existsb (coveredBy m) out = false ↔ ∀ w s, w ∈ out → s ∈ out → takes w s = false.
Proof.
  intros W Hb. rewrite <- not_true_iff_false, existsb_exists. unfold coveredBy, splitOrEmpty. split.
  - intros H w s Hw Hs. apply not_true_iff_false. intros (h & p & Es & Ew & Hne & Hc)%takes_true. apply H. exists s.
    split; [by apply list_elem_of_In |]. rewrite Es. simpl.
    assert (m !! p = Some w) as -> by (by apply (wilds_spec _ _ W)).
    destruct (wildcardHost h) eqn:Eh; simpl; [| by destruct Hc].
    assert (m !! p = Some w) as E1 by (by apply (wilds_spec _ _ W)).
    assert (m !! p = Some s) by (apply (wilds_spec _ _ W); split; [done |]; unfold wildOn; rewrite Es; simpl; by rewrite Eh). congruence.
  - intros H (s & Hs%list_elem_of_In & Hc). destruct (bindable_split s) as (h & p & Es & _); [by apply Hb |]. rewrite Es in Hc. simpl in Hc.
    destruct (m !! p) as [w|] eqn:Ew; [| done]. apply (wilds_spec _ _ W) in Ew as [Hw Ew]. bprop.
    assert (takes w s = true) as E; [| by rewrite H in E]. apply takes_true. exists h, p. split_and!; [done..| | by right].
    intros ->. unfold wildOn in Ew. rewrite Es in Ew. simpl in Ew. by rewrite H0 in Ew.
Qed.

(** Without two wildcards on a port there is a map of them. *)
Lemma wilds_exist out : NoDup out → (∀ w s, w ∈ out → s ∈ out → takes w s = false) → ∃ m, wilds out m.
Proof.
  induction out as [|s out IH] using rev_ind; [exists ∅; apply wilds_nil |].
  intros (Hn & Hs & _)%NoDup_app H. destruct IH as [m W]; [done | intros; apply H; set_solver |].
  destruct (wildOn s) as [p|] eqn:Es; [| exists m; by apply wilds_snoc_specific].
  exists (<[p := s]> m). apply wilds_snoc_wild; [done..|]. destruct (m !! p) as [w|] eqn:Ew; [| done].
  apply (wilds_spec _ _ W) in Ew as [Hw Ew]. assert (takes w s = true) as E; [| by rewrite (H w s) in E; set_solver].
  unfold wildOn in Es. destruct (SplitHostPort s) as [[h q]|] eqn:E; [| done]. simpl in Es. destruct (wildcardHost h) eqn:Eh; [| done].
  apply takes_true. exists h, q. split_and!; [done | congruence | | by left]. intros ->. by apply (Hs s Hw), list_elem_of_singleton.
Qed.

(** What the agent binds.  A list is accepted exactly when each of its
    entries has a port and no entry takes another's port (two wildcards on a
    port, or a wildcard that covers a specific address beside it), and it
    becomes its entries, each once and in order, or the default when it has
    none. *)
Lemma resolve_iff a what def out :
  resolve a what def = Ok out ↔
  forallb bindable (entries a) = true ∧
  (∀ w s, w ∈ entries a → s ∈ entries a → takes w s = false) ∧
  out = resolved def (entries a).
Proof.
  assert (∀ s, s ∈ firsts ∅ (entries a) ↔ s ∈ entries a) as Hin by (intros; rewrite elem_of_firsts; set_solver).
  assert (resolved def (entries a) = if Z.of_nat (length (firsts ∅ (entries a))) =? 0 then [def] else firsts ∅ (entries a)) as ->.
  { unfold resolved. destruct (firsts ∅ (entries a)) eqn:E; [by apply firsts_nil in E as -> |]. by destruct (entries a). }
  unfold resolve. pose proof (resolveLoop_iff what a [] ∅ ∅) as L. split.
  - destruct (resolveLoop what a [] ∅ ∅) as [[o m]|] eqn:E; [| done]. destruct (proj1 (L (o, m) wilds_nil) eq_refl) as (Hb & Ho & W).
    cbn in Ho. subst o. simpl. intros H. assert (existsb (coveredBy m) (firsts ∅ (entries a)) = false ∧ out = if Z.of_nat (length (firsts ∅ (entries a))) =? 0 then [def] else firsts ∅ (entries a)) as [Hc ->].
    { revert H. destruct (_ =? 0) eqn:Ez; [intros [= <-]; by destruct (firsts ∅ (entries a)) |]. by destruct (existsb _ _); intros [= <-]. }
    split_and!; [done | | done]. intros w s Hw Hs. apply (proj1 (coveredBy_iff _ _ W ltac:(intros x Hx; apply (proj1 (forallb_forall _ _) Hb), list_elem_of_In, Hin, Hx)) Hc); by apply Hin.
  - intros (Hb & Ht & ->). destruct (wilds_exist (firsts ∅ (entries a))) as [m W]; [apply firsts_NoDup | intros; apply Ht; by apply Hin |].
    rewrite (proj2 (L (_, m) wilds_nil)) by done. simpl. destruct (_ =? 0); [done |].
    rewrite (proj2 (coveredBy_iff _ _ W ltac:(intros x Hx; apply (proj1 (forallb_forall _ _) Hb), list_elem_of_In, Hin, Hx))); [done |].
    intros; apply Ht; by apply Hin.
Qed.

(** The lists others send to: accepted exactly when every entry has a port
    and none is a wildcard, and then the entries, each once and in order. *)
Lemma resolveSpecific_iff a what why out :
  resolveSpecific a what why = Ok out ↔
  forallb (λ s, bindable s && isNone (wildOn s)) (entries a) = true ∧ out = firsts ∅ (entries a).
Proof. apply specificLoop_iff. Qed.

(** ** A second pass changes nothing *)

Lemma entries_clean a : Forall (λ s, trim_space s = s ∧ s ≠ ""%string) (firsts ∅ (entries a)).
Proof. apply Forall_forall. intros s [Hs _]%elem_of_firsts. by apply elem_of_entries in Hs. Qed.

Lemma firsts_twice l : firsts ∅ (firsts ∅ l) = firsts ∅ l.
Proof. apply firsts_id; [apply firsts_NoDup | set_solver]. Qed.

Lemma forallb_firsts f l : forallb f l = true → forallb f (firsts ∅ l) = true.
Proof. rewrite !forallb_forall. intros H s Hs. apply H. by apply list_elem_of_In, elem_of_firsts in Hs as [?%list_elem_of_In _]. Qed.

Lemma resolve_twice a what def out :
  resolve [def] what def = Ok [def] → resolve a what def = Ok out → resolve out what def = Ok out.
Proof.
  rewrite (resolve_iff a). intros Hd (Hb & Ht & ->). unfold resolved. destruct (entries a) as [|s l] eqn:E; [done |].
  rewrite <- E in *. apply resolve_iff. rewrite (entries_id _ (entries_clean a)). split_and!.
  - by apply forallb_firsts.
  - intros w x [Hw _]%elem_of_firsts [Hx _]%elem_of_firsts. by apply Ht.
  - unfold resolved. destruct (firsts ∅ (entries a)) eqn:Ef; [by apply firsts_nil in Ef; rewrite Ef in E |]. by rewrite <- Ef, firsts_twice.
Qed.

Lemma resolveSpecific_twice a what why out :
  resolveSpecific a what why = Ok out → resolveSpecific out what why = Ok out.
Proof.
  rewrite (resolveSpecific_iff a). intros [Hb ->]. apply resolveSpecific_iff. rewrite (entries_id _ (entries_clean a)).
  split; [by apply forallb_firsts | by rewrite firsts_twice].
Qed.

Lemma trim_right_app s t : trim_right t ≠ ""%string → trim_right (s +:+ t) = s +:+ trim_right t.
Proof.
  intros H. induction s as [|a s IH]; [done |]. change (String a s +:+ t) with (String a (s +:+ t)). cbn [trim_right]. rewrite IH.
  change (String a s +:+ trim_right t) with (String a (s +:+ trim_right t)). by destruct s, (trim_right t).
Qed.

Lemma trim_space_right u : trim_right (trim_space u) = trim_space u.
Proof. apply trim_right_idem. Qed.

Lemma withScheme_twice u : withScheme (withScheme u) = withScheme u.
Proof.
  unfold withScheme at 2 3. set (t := trim_space u).
  destruct ((t =s "") || contains_str "://" t) eqn:E; unfold withScheme.
  - unfold t. rewrite trim_space_idem. fold t. by rewrite E.
  - assert (trim_space ("http://" +:+ t) = "http://" +:+ t) as ->; [| by destruct t]. bprop.
    unfold trim_space. change (trim_left ("http://" +:+ t)) with ("http://" +:+ t).
    rewrite trim_right_app; unfold t; rewrite trim_space_right; done.
Qed.

Lemma withScheme_map_twice (l : list string) : withScheme <$> (withScheme <$> l) = withScheme <$> l.
Proof. rewrite <- list_fmap_compose. apply list_fmap_ext. intros; apply withScheme_twice. Qed.

Lemma withScheme_nonempty u : withScheme u = ""%string ↔ trim_space u = ""%string.
Proof.
  unfold withScheme. destruct (String.eqb_spec (trim_space u) "") as [->|]; [done |]. simpl.
  by destruct (contains_str _ _).
Qed.

(** The all-zeros address in a form the code does not look for counts as a
    destination, though it is the unspecified address. *)
Example unspecified_accepted :
  resolvePeers ["[::0]:4001"] "mesh.advertise" = Ok ["[::0]:4001"%string] ∧
  IsUnspecified <$> ParseIP "::0" = Some true.
Proof. vm_compute. done. Qed.

Example wildcard_beside :
  resolve ["0.0.0.0:4000"; "[fd00::1]:4000"] "listen" "d" = Ok ["0.0.0.0:4000"; "[fd00::1]:4000"] ∧
  is_ok (resolve ["[::]:4000"; "[fd00::1]:4000"] "listen" "d") = false ∧
  is_ok (resolve ["10.112.0.44:4000"; "0.0.0.0:4000"] "listen" "d") = false.
Proof. vm_compute. done. Qed.

(** What the agent binds.  A list is accepted exactly when each of its
    entries has a port and no entry takes another's port (two wildcards on a
    port, or a wildcard that covers a specific address beside it).  What is
    bound are the entries, each once, or the default alone when there are
    none; among them, too, none takes another's port. *)
Theorem resolve_binds a what def :
  (is_ok (resolve a what def) = true ↔
   forallb bindable (entries a) = true ∧ ∀ w s, w ∈ entries a → s ∈ entries a → takes w s = false) ∧
  ∀ out, resolve a what def = Ok out →
    NoDup out ∧ (entries a = [] → out = [def]) ∧ (entries a ≠ [] → ∀ s, s ∈ out ↔ s ∈ entries a) ∧
    (entries a ≠ [] → ∀ w s, w ∈ out → s ∈ out → takes w s = false).
Proof.
  assert (∀ s, s ∈ firsts ∅ (entries a) ↔ s ∈ entries a) as Hin by (intros; rewrite elem_of_firsts; set_solver).
  split.
  - split.
    + destruct (resolve a what def) as [out|] eqn:E; [| done]. intros _. by apply resolve_iff in E as (? & ? & _).
    + intros [H1 H2]. by rewrite (proj2 (resolve_iff a what def _) (conj H1 (conj H2 eq_refl))).
  - intros out (_ & Ht & ->)%resolve_iff. unfold resolved. destruct (entries a) as [|x l] eqn:E.
    + split_and!; [apply NoDup_singleton | done | done..].
    + rewrite <- E in *. split_and!; [apply firsts_NoDup | by rewrite E | done |]. intros _ w s Hw Hs. apply Ht; by apply Hin.
Qed.

Lemma resolve_binds_witness : takes "0.0.0.0:4000" "10.112.0.44:4000" = true ∧ is_ok (resolve ["10.112.0.44:4000"; "0.0.0.0:4000"] "listen" "d") = false.
Proof.
  split; [reflexivity |]. apply not_true_iff_false. intros H.
  apply (proj1 (resolve_binds _ _ _)) in H as [_ H].
  discriminate (H "0.0.0.0:4000"%string "10.112.0.44:4000"%string ltac:(vm_compute; right; left) ltac:(vm_compute; left)).
Defined.
