(* ===== verification/Effort.v ===== *)
(** * Effort: the work a node reports (internal/domain/effort.go)

    [ParseEffort] reads the X-Algod-Effort header, [Add] sums attempts and
    [Credits] prices the work.  Prices are float64 in the program; the
    definition is over any [Num], so that its laws can be stated exactly. *)
From S2P Require Import Prelude GoFloat GoStrings.
From Stdlib Require Import Ascii QArith Lqa.
Open Scope Z_scope.

Record Effort := mkEffort {
  ef_Opcodes : Z;
  ef_Lookups : Z;
  ef_History : Z;
  ef_Scanned : Z;
  ef_TraceBytes : Z;
  ef_EvalUS : Z
}.

Definition zeroEffort : Effort := mkEffort 0 0 0 0 0 0.

(** The field of a key: how to write it; None for an unknown key. *)
Definition field (key : string) : option (Z → Effort → Effort) :=
  if key =s "opcodes" then Some (λ n e, e <| ef_Opcodes := n |>)
  else if key =s "lookups" then Some (λ n e, e <| ef_Lookups := n |>)
  else if key =s "history" then Some (λ n e, e <| ef_History := n |>)
  else if key =s "scanned" then Some (λ n e, e <| ef_Scanned := n |>)
  else if key =s "trace-bytes" then Some (λ n e, e <| ef_TraceBytes := n |>)
  else if key =s "eval-us" then Some (λ n e, e <| ef_EvalUS := n |>)
  else None.

Definition billedEffortKeys : list string := ["opcodes"; "lookups"; "history"; "scanned"; "trace-bytes"]%string.

(** One member of the dictionary: its key and its value when it has one. *)
Definition member (m : string) : string * option string :=
  let '(m, _, _) := cut ";"%char m in
  let '(key, val, ok) := cut "="%char (trim_space m) in
  (key, if ok then Some val else None).

(** The loop over the members; None: not an effort. *)
Fixpoint parseMembers (ms : list (string * option string)) (e : Effort) (seen : list string) : option (Effort * list string) :=
  match ms with
  | [] => Some (e, seen)
  | (key, val) :: ms =>
      match field key with
      | None => parseMembers ms e seen
      | Some f =>
          match val with
          | None => None
          | Some val =>
              if elem key seen then None
              else match parse_uint val with
                   | None => None
                   | Some n => parseMembers ms (f n e) (key :: seen)
                   end
          end
      end
  end.

Definition ParseEffort (v : string) : option Effort :=
  match parseMembers (member <$> split_on ","%char v) zeroEffort [] with
  | None => None
  | Some (e, seen) => if forallb (λ k, elem k seen) billedEffortKeys then Some e else None
  end.

Definition Add (e o : Effort) : Effort :=
  mkEffort (wu64 (ef_Opcodes e + ef_Opcodes o)) (wu64 (ef_Lookups e + ef_Lookups o)) (wu64 (ef_History e + ef_History o))
    (wu64 (ef_Scanned e + ef_Scanned o)) (wu64 (ef_TraceBytes e + ef_TraceBytes o)) (wu64 (ef_EvalUS e + ef_EvalUS o)).

Record EffortRates (F : Type) := mkRates {
  er_OpcodesPerCredit : F;
  er_LookupsPerCredit : F;
  er_HistoryPerCredit : F;
  er_ScannedPerCredit : F;
  er_TraceKBPerCredit : F
}.
Arguments mkRates {F} _ _ _ _ _.
Arguments er_OpcodesPerCredit {F} _.
Arguments er_LookupsPerCredit {F} _.
Arguments er_HistoryPerCredit {F} _.
Arguments er_ScannedPerCredit {F} _.
Arguments er_TraceKBPerCredit {F} _.

Definition DefaultEffortRates {F} `{Num F} : EffortRates F :=
  mkRates (nofZ 330000) (nofZ 10000) (nofZ 1000) (nofZ 10000) (nofZ 1024).

(** The closure per. *)
Definition per {F} `{Num F} (n : Z) (rate : F) : F :=
  if nleb rate nzero then nzero else (nofZ n / rate)%num.

Definition Credits {F} `{Num F} (r : EffortRates F) (e : Effort) : F :=
  (per (ef_Opcodes e) (er_OpcodesPerCredit r) + per (ef_Lookups e) (er_LookupsPerCredit r) +
   per (ef_History e) (er_HistoryPerCredit r) + per (ef_Scanned e) (er_ScannedPerCredit r) +
   per (ef_TraceBytes e) (er_TraceKBPerCredit r * nofZ 1024))%num.

(** ** Lemmas *)

Definition effortKeys : list string := billedEffortKeys ++ ["eval-us"%string].

Definition effort_get (key : string) (e : Effort) : Z :=
  if key =s "opcodes" then ef_Opcodes e
  else if key =s "lookups" then ef_Lookups e
  else if key =s "history" then ef_History e
  else if key =s "scanned" then ef_Scanned e
  else if key =s "trace-bytes" then ef_TraceBytes e
  else ef_EvalUS e.

Lemma field_known key : isSome (field key) = elem key effortKeys.
Proof. unfold field, effortKeys, elem. simpl. repeat case_match; simpl in *; congruence. Qed.

Lemma field_get_same key f n e : field key = Some f → effort_get key (f n e) = n.
Proof. unfold field, effort_get. repeat case_match; intros [= <-]; done. Qed.

Lemma field_get_other key key' f n e :
  field key = Some f → elem key' effortKeys = true → key' ≠ key → effort_get key' (f n e) = effort_get key' e.
Proof.
  intros Hf Hk Hne. apply String.eqb_neq in Hne. revert Hf. unfold field, effort_get.
  repeat (case_match; bprop; subst); intros [= <-]; simpl; try done; try congruence.
  apply elem_In in Hk. unfold effortKeys, billedEffortKeys in Hk. set_solver.
Qed.

Lemma effort_ext e e' : (∀ k, elem k effortKeys = true → effort_get k e = effort_get k e') → e = e'.
Proof.
  intros H. destruct e, e'. f_equal;
    [apply (H "opcodes"%string) | apply (H "lookups"%string) | apply (H "history"%string) |
     apply (H "scanned"%string) | apply (H "trace-bytes"%string) | apply (H "eval-us"%string)]; reflexivity.
Qed.

(** The members of a header that carry a known key. *)
Definition known (ms : list (string * option string)) : list (string * option string) :=
  filter (λ m, elem m.1 effortKeys = true) ms.

(** The value a member carries. *)
Definition value_of (m : string * option string) : option Z := m.2 ≫= parse_uint.

Lemma parseMembers_sound ms e seen e' seen' :
  parseMembers ms e seen = Some (e', seen') →
  NoDup (known ms).*1 ∧ (∀ k, k ∈ (known ms).*1 → k ∉ seen) ∧
  (∀ k, k ∈ seen' ↔ k ∈ (known ms).*1 ∨ k ∈ seen) ∧
  (∀ m, m ∈ known ms → value_of m = Some (effort_get m.1 e')) ∧
  (∀ k, elem k effortKeys = true → k ∉ (known ms).*1 → effort_get k e' = effort_get k e).
Proof.
  revert e seen. induction ms as [|[key val] ms IH]; intros e seen; simpl.
  - intros [= <- <-]. split_and!; [constructor | set_solver .. | done].
  - pose proof (field_known key) as Hk. destruct (field key) as [f|] eqn:Ef; simpl in Hk.
    2:{ intros H. unfold known. rewrite filter_cons_False by (simpl; congruence). by apply IH. }
    destruct val as [val|]; [| done]. destruct (elem key seen) eqn:Es; [done |].
    destruct (parse_uint val) as [n|] eqn:Ep; [| done]. intros (Hnd & Hdis & Hseen & Hval & Hoth)%IH.
    unfold known. rewrite filter_cons_True by (simpl; congruence). simpl. fold (known ms).
    assert (key ∉ seen) as Hns by (intros Hin%elem_In; congruence).
    assert (key ∉ (known ms).*1) as Hnk by (intros Hin%Hdis; set_solver).
    assert (effort_get key e' = n) as Hv by (rewrite Hoth by done; by apply field_get_same).
    split_and!.
    + by constructor.
    + intros k [->|Hin]%elem_of_cons; [done |]. apply Hdis in Hin. set_solver.
    + intros k. rewrite Hseen, !elem_of_cons. tauto.
    + intros m [->|Hm]%elem_of_cons; [unfold value_of; simpl; by rewrite Ep, Hv | by apply Hval].
    + intros k Hkk Hnin. apply not_elem_of_cons in Hnin as [Hne Hnin]. rewrite Hoth by done.
      by apply (field_get_other key).
Qed.

Lemma parseMembers_complete ms e seen :
  NoDup (known ms).*1 → (∀ k, k ∈ (known ms).*1 → k ∉ seen) →
  (∀ m, m ∈ known ms → value_of m ≠ None) → parseMembers ms e seen ≠ None.
Proof.
  revert e seen. induction ms as [|[key val] ms IH]; intros e seen; simpl; [done |].
  pose proof (field_known key) as Hk. destruct (field key) as [f|] eqn:Ef; simpl in Hk.
  2:{ unfold known. rewrite filter_cons_False by (simpl; congruence). apply IH. }
  unfold known. rewrite filter_cons_True by (simpl; congruence). simpl. fold (known ms).
  rewrite NoDup_cons. intros [Hnk Hnd] Hdis Hval.
  pose proof (Hval (key, val) ltac:(by left)) as Hv. unfold value_of in Hv. simpl in Hv.
  destruct val as [val|]; [| done]. simpl in Hv. destruct (parse_uint val) as [n|]; [| done].
  destruct (elem key seen) eqn:Es; [apply elem_In in Es; exfalso; eapply Hdis; [by left | done] |].
  apply IH; [done | | intros m Hm; apply Hval; by right].
  intros k Hin [->|Hin']%elem_of_cons; [done |]. eapply Hdis; [by right | done].
Qed.

(** ** Properties *)

(** a header is read as an effort exactly when every billed key appears,
    no known key appears twice and every known member carries an unsigned
    64-bit integer; the effort then holds those values, zero for the optional
    key when it is missing, whatever else the header carries. *)
Theorem ParseEffort_iff v e :
  let ms := known (member <$> split_on ","%char v) in
  ParseEffort v = Some e ↔
  NoDup ms.*1 ∧ (∀ k, k ∈ billedEffortKeys → k ∈ ms.*1) ∧
  (∀ m, m ∈ ms → value_of m = Some (effort_get m.1 e)) ∧
  ("eval-us"%string ∉ ms.*1 → ef_EvalUS e = 0).
Proof.
  intros ms. unfold ParseEffort. set (all := member <$> _) in *.
  assert (∀ seen, forallb (λ k, elem k seen) billedEffortKeys = true ↔ ∀ k, k ∈ billedEffortKeys → k ∈ seen) as Hall.
  { intros seen. rewrite forallb_forall. 
    split; intros H k Hk; apply elem_In, H; by apply list_elem_of_In. }
  split.
  - destruct (parseMembers all zeroEffort []) as [[e' seen]|] eqn:E; [| done].
    apply parseMembers_sound in E as (Hnd & _ & Hseen & Hval & Hoth).
    case_match eqn:Eb; [| done]. intros [= ->]. split_and!; try done.
    + intros k Hk. pose proof (proj1 (Hall seen) Eb k Hk) as Hin. apply Hseen in Hin as [?|?%elem_of_nil]; done.
    + intros Hn. by apply (Hoth "eval-us"%string).
  - intros (Hnd & Hb & Hval & Hz).
    destruct (parseMembers all zeroEffort []) as [[e' seen]|] eqn:E.
    2:{ exfalso. revert E. apply parseMembers_complete; [done | intros k _; apply not_elem_of_nil |].
        intros m Hm. by rewrite (Hval m Hm). }
    apply parseMembers_sound in E as (_ & _ & Hseen & Hval' & Hoth).
    rewrite (proj2 (Hall seen)) by (intros k Hk; apply Hseen; left; by apply Hb). f_equal.
    apply effort_ext. intros k Hk. destruct (decide (k ∈ ms.*1)) as [Hin|Hin].
    + apply list_elem_of_fmap in Hin as (m & -> & Hm). pose proof (Hval m Hm). pose proof (Hval' m Hm). congruence.
    + assert (k = "eval-us"%string) as ->.
      { apply elem_In in Hk. unfold effortKeys in Hk. rewrite elem_of_app, list_elem_of_singleton in Hk.
        destruct Hk as [Hk|Hk]; [by apply Hb in Hk | done]. }
      rewrite (Hoth _ Hk Hin). change (0 = ef_EvalUS e). by rewrite Hz.
Qed.

(** An effort small enough that adding it does not wrap. *)
Definition sums (e o : Effort) : Prop :=
  ∀ k, 0 <= effort_get k e ∧ 0 <= effort_get k o ∧ effort_get k e + effort_get k o < two64.

Lemma per_Q n rate : per (F := Q) n rate = (if Qle_bool rate 0 then 0 else inject_Z n / rate)%Q.
Proof. reflexivity. Qed.

Lemma per_add n m rate : (per (F := Q) (n + m) rate == per n rate + per m rate)%Q.
Proof.
  rewrite !per_Q. destruct (Qle_bool rate 0) eqn:E; [lra |]. qprop. rewrite inject_Z_plus. field. lra.
Qed.

Lemma per_mono n m rate : 0 <= n <= m → (0 <= per (F := Q) n rate <= per m rate)%Q.
Proof.
  intros [H0 H]. rewrite !per_Q. destruct (Qle_bool rate 0) eqn:E; [lra |]. qprop.
  rewrite Zle_Qle in H, H0. change (inject_Z 0) with 0%Q in H0. split.
  - apply Qle_shift_div_l; [done | lra].
  - apply Qle_shift_div_l; [done |]. assert (inject_Z n / rate * rate == inject_Z n)%Q as -> by (field; lra). done.
Qed.

(** the price of work is additive and never negative: several attempts
    cost together exactly what they cost apart (in exact arithmetic, whatever
    the rates), so a retried request is billed for each node's work once. *)
Theorem Credits_additive (r : EffortRates Q) e o :
  sums e o → (Credits r (Add e o) == Credits r e + Credits r o ∧ 0 <= Credits r e)%Q.
Proof.
  intros Hs.
  pose proof (Hs "opcodes"%string) as H1. pose proof (Hs "lookups"%string) as H2.
  pose proof (Hs "history"%string) as H3. pose proof (Hs "scanned"%string) as H4.
  pose proof (Hs "trace-bytes"%string) as H5. unfold effort_get in *. simpl in H1, H2, H3, H4, H5. split.
  - unfold Credits, Add. cbn [ef_Opcodes ef_Lookups ef_History ef_Scanned ef_TraceBytes nadd nmul Num_Q].
    rewrite !wu64_id by mlia. rewrite !per_add. ring.
  - unfold Credits. cbn [nadd nmul Num_Q].
    pose proof (per_mono (ef_Opcodes e) (ef_Opcodes e) (er_OpcodesPerCredit r) ltac:(lia)) as P1.
    pose proof (per_mono (ef_Lookups e) (ef_Lookups e) (er_LookupsPerCredit r) ltac:(lia)) as P2.
    pose proof (per_mono (ef_History e) (ef_History e) (er_HistoryPerCredit r) ltac:(lia)) as P3.
    pose proof (per_mono (ef_Scanned e) (ef_Scanned e) (er_ScannedPerCredit r) ltac:(lia)) as P4.
    pose proof (per_mono (ef_TraceBytes e) (ef_TraceBytes e) (er_TraceKBPerCredit r * nofZ 1024)%Q ltac:(lia)) as P5.
    cbn [nofZ Num_Q] in *. lra.
Qed.

Lemma Credits_additive_witness :
  let e := mkEffort 700 3 1 0 2048 9 in
  (Credits (DefaultEffortRates (F := Q)) (Add e e) == Credits DefaultEffortRates e + Credits DefaultEffortRates e ∧
   0 <= Credits (DefaultEffortRates (F := Q)) e)%Q.
Proof.
  intros e. apply (Credits_additive DefaultEffortRates e e). intros k.
  unfold effort_get. simpl. rewrite two64_eq. repeat case_match; lia.
Defined.
