(* ===== verification/Billing.v ===== *)
(** * Billing: allowances and prices (internal/domain/ratelimit.go)

    A plan's windows and the buckets that refill in them, the caps on one
    simulate request, and what a request costs before it runs.  The arithmetic
    is over any [Num]: float64 in the program, [Q] for the laws. *)
From S2P Require Import Prelude GoFloat GoTime Types Classify.
From stdpp Require Import pretty.
From Stdlib Require Import QArith Qround Lqa.
Open Scope Z_scope.

Section Billing.
Context {F : Type} `{Num F}.

(** ** Windows *)
Record Window := mkWindow { wi_Capacity : F; wi_Period : Duration }.

Definition Limited (w : Window) : bool := nltb nzero (wi_Capacity w) && (0 <? wi_Period w).

Definition rate (w : Window) : F := (wi_Capacity w / Seconds (wi_Period w))%num.

Record Bucket := mkBucket { bu_Level : F; bu_At : Time }.

Definition Refill (w : Window) (b : Bucket) (now : Time) : Bucket :=
  if negb (Limited w) then mkBucket nzero now
  else if IsZero (bu_At b) then mkBucket (wi_Capacity w) now
  else
    let dt := time_sub now (bu_At b) in
    let b := if 0 <? dt then mkBucket (bu_Level b + Seconds dt * rate w)%num now else b in
    mkBucket (nmin (bu_Level b) (wi_Capacity w)) (bu_At b).

Definition Wait (w : Window) (level cost : F) : Duration :=
  if negb (Limited w) || nleb cost level then 0
  else to_i64 (nceil ((cost - level) / rate w * nofZ Second)%num).

Definition UntilFull (w : Window) (level : F) : Duration := Wait w level (wi_Capacity w).

Definition Full (w : Window) (b : Bucket) : bool := negb (Limited w) || nleb (wi_Capacity w) (bu_Level b).

(** ** Plans *)
Record SimulateCaps := mkCaps {
  sc_MaxGroups : Z;
  sc_MaxRounds : Z;
  sc_MaxExtraOpcodeBudget : Z;
  sc_DenyUnnamedResources : bool;
  sc_DenyExecTrace : bool
}.

Record Plan := mkPlan {
  pl_Name : string;
  pl_Minute : Window;
  pl_Day : Window;
  pl_Simulate : SimulateCaps
}.

Definition CapsCheck (c : SimulateCaps) (n : SimulateNeeds) : string :=
  if (0 <? sc_MaxGroups c) && (sc_MaxGroups c <? sn_Groups n)
  then "this plan allows at most " +:+ pretty (sc_MaxGroups c) +:+ " transaction groups in one simulate request"
  else if (0 <? sc_MaxRounds c) && (sc_MaxRounds c <? sn_Rounds n)
  then "this plan allows at most " +:+ pretty (sc_MaxRounds c) +:+ " rounds in one simulate request"
  else if (0 <? sc_MaxExtraOpcodeBudget c) && (sc_MaxExtraOpcodeBudget c <? sn_ExtraOpcodeBudget n)
  then "this plan allows an extra-opcode-budget of at most " +:+ pretty (sc_MaxExtraOpcodeBudget c)
  else if sc_DenyUnnamedResources c && sn_UnnamedResources n
  then "this plan does not allow allow-unnamed-resources"
  else if sc_DenyExecTrace c && sn_ExecTrace n
  then "this plan does not allow exec-trace-config"
  else "".

(** ** Costs *)
Definition CostVersions : string := "versions".
Definition CostDeltasHistory : string := "deltas_history".

Definition CostKeys : list string :=
  ["default"; "round"; "timetravel"; "simulate"; "broadcast"; "pending"; "wait"; "teal"; CostVersions; CostDeltasHistory]%string.

Definition CostWeights : Type := gmap string F.

Definition DefaultCostWeights : CostWeights :=
  list_to_map [("default"%string, nofZ 1); ("round"%string, nofZ 1); ("timetravel"%string, nofZ 2);
    ("simulate"%string, nofZ 5); ("broadcast"%string, nofZ 1); ("pending"%string, nofZ 1);
    ("wait"%string, nofZ 1); ("teal"%string, nofZ 1); (CostVersions, nofZ 10); (CostDeltasHistory, nofZ 50)].

Definition recentDeltaRounds : Z := 8.

Definition CostKey (c : RequestClass) (best : Z) : string :=
  if rc_Versions c then CostVersions
  else if rc_Deltas c && (match rc_Round c with Some r => wu64 (r + recentDeltaRounds) <? best | None => false end)
  then CostDeltasHistory
  else StatKey c.

Definition Base (w : CostWeights) (c : RequestClass) (best : Z) : F :=
  let v := default nzero (w !! CostKey c best) in
  match rc_SimNeeds c with
  | Some n => if rc_Simulate c then (v * nofZ (wi64 (Z.max (sn_Groups n) 1 * Z.max (sn_Rounds n) 1)))%num else v
  | None => v
  end.
End Billing.
Arguments Window F : clear implicits.
Arguments Bucket F : clear implicits.
Arguments Plan F : clear implicits.
Arguments CostWeights F : clear implicits.

(** ** Lemmas in exact arithmetic *)

Lemma Seconds_Q d : (Seconds (F := Q) d == inject_Z d / inject_Z Second)%Q.
Proof.
  unfold Seconds. cbn [nadd ndiv nofZ Num_Q]. pose proof (Z.quot_rem d Second ltac:(done)) as E.
  rewrite E at 3. rewrite inject_Z_plus, inject_Z_mult. unfold Second. field. 
Qed.

(** Credits gained in d nanoseconds. *)
Definition gained (w : Window Q) (d : Z) : Q := (inject_Z d * wi_Capacity w / inject_Z (wi_Period w))%Q.

Lemma Limited_Q (w : Window Q) : Limited w = true ↔ (0 < wi_Capacity w)%Q ∧ 0 < wi_Period w.
Proof.
  unfold Limited. rewrite andb_true_iff, Z.ltb_lt. cbn [nltb nzero nofZ Num_Q]. by rewrite Q_ltb_lt.
Qed.

Lemma gained_eq (w : Window Q) d : 0 < wi_Period w → (Seconds d * rate w == gained w d)%Q.
Proof.
  intros Hp. unfold rate, gained. cbn [ndiv Num_Q]. rewrite !Seconds_Q.
  assert (0 < inject_Z (wi_Period w))%Q by (change 0%Q with (inject_Z 0); by rewrite <- Zlt_Qlt).
  assert (0 < inject_Z Second)%Q by done. field. lra.
Qed.

Lemma gained_pos (w : Window Q) d : Limited w = true → 0 < d → (0 < gained w d)%Q.
Proof.
  intros [Hc Hp]%Limited_Q Hd. unfold gained. rewrite Zlt_Qlt in Hp, Hd. change (inject_Z 0) with 0%Q in *.
  apply Qlt_shift_div_l; [done |]. rewrite Qmult_0_l. by apply Qmult_lt_0_compat.
Qed.

Lemma gained_plus (w : Window Q) d d' : 0 < wi_Period w → (gained w (d + d') == gained w d + gained w d')%Q.
Proof.
  intros Hp. unfold gained. rewrite inject_Z_plus. rewrite Zlt_Qlt in Hp. change (inject_Z 0) with 0%Q in *. field. lra.
Qed.

Lemma nmin_Q_cases (a b : Q) : (nmin a b == a ∧ a <= b ∨ nmin a b == b ∧ b <= a)%Q.
Proof. cbn. destruct (Q_ltb b a) eqn:E; qprop; [right | left]; split; lra. Qed.

Lemma nmin_Q_comp (a a' b : Q) : (a == a' → nmin a b == nmin a' b)%Q.
Proof.
  intros E. destruct (nmin_Q_cases a b) as [[-> ?]|[-> ?]], (nmin_Q_cases a' b) as [[-> ?]|[-> ?]]; lra.
Qed.

(** A refill in exact arithmetic. *)
Lemma Refill_Q (w : Window Q) b now :
  Limited w = true → bu_At b ≠ 0 → bu_At b <= now → is_i64 (now - bu_At b) →
  bu_At (Refill w b now) = now ∧
  (bu_Level (Refill w b now) == nmin (bu_Level b + gained w (now - bu_At b)) (wi_Capacity w))%Q.
Proof.
  intros Hl Hat Hle Hi. unfold Refill. rewrite Hl. simpl.
  assert (IsZero (bu_At b) = false) as -> by (unfold IsZero, zero_time; lia).
  rewrite time_sub_exact by done. pose proof Hl as [Hc Hp]%Limited_Q.
  destruct (Z.ltb_spec 0 (now - bu_At b)).
  - split; [done |]. cbn [bu_Level nadd nmul Num_Q]. apply nmin_Q_comp.
    exact (Qplus_comp _ _ (Qeq_refl _) _ _ (gained_eq w (now - bu_At b) Hp)).
  - assert (now = bu_At b) as -> by lia. split; [done |]. rewrite Z.sub_diag. apply nmin_Q_comp.
    assert (gained w 0 == 0)%Q by (unfold gained, Qdiv; ring). lra.
Qed.

(** ** Properties *)

(** refilling is a function of elapsed time alone: a bucket brought up to
    date at some moment and again later holds what it would hold brought up to
    date once, never more than the capacity and never less than it had
    (up to that capacity). *)
Theorem Refill_steps (w : Window Q) b t1 t2 :
  Limited w = true → bu_At b ≠ 0 → t1 ≠ 0 → bu_At b <= t1 <= t2 → is_i64 (t2 - bu_At b) →
  bu_At (Refill w (Refill w b t1) t2) = bu_At (Refill w b t2) ∧
  (bu_Level (Refill w (Refill w b t1) t2) == bu_Level (Refill w b t2))%Q ∧
  (bu_Level (Refill w b t2) <= wi_Capacity w)%Q ∧
  (bu_Level b <= wi_Capacity w → bu_Level b <= bu_Level (Refill w b t2))%Q.
Proof.
  intros Hl Hat Ht1 [H1 H2] Hi. pose proof Hl as [Hc Hp]%Limited_Q.
  destruct (Refill_Q w b t1 Hl Hat H1) as [A1 L1]; [mlia |].
  destruct (Refill_Q w b t2 Hl Hat) as [A2 L2]; [lia | done |].
  destruct (Refill_Q w (Refill w b t1) t2 Hl) as [A3 L3]; [by rewrite A1 | by rewrite A1 | rewrite A1; mlia |].
  rewrite A1 in L3. split; [congruence |].
  pose proof (gained_plus w (t1 - bu_At b) (t2 - t1) Hp) as G. replace (t1 - bu_At b + (t2 - t1)) with (t2 - bu_At b) in G by lia.
  assert (∀ d, 0 <= d → (0 <= gained w d)%Q) as Gpos.
  { intros d Hd. destruct (Z.eq_dec d 0) as [->|]; [unfold gained, Qdiv; rewrite !Qmult_0_l; lra |].
    pose proof (gained_pos w d Hl ltac:(lia)). lra. }
  pose proof (Gpos (t2 - t1) ltac:(lia)) as P1. pose proof (Gpos (t1 - bu_At b) ltac:(lia)) as P2.
  clear Gpos A1 A2 A3 Hc Hp.
  destruct (nmin_Q_cases (bu_Level b + gained w (t1 - bu_At b)) (wi_Capacity w)) as [[E1 ?]|[E1 ?]];
    destruct (nmin_Q_cases (bu_Level b + gained w (t2 - bu_At b)) (wi_Capacity w)) as [[E2 ?]|[E2 ?]];
    destruct (nmin_Q_cases (bu_Level (Refill w b t1) + gained w (t2 - t1)) (wi_Capacity w)) as [[E3 ?]|[E3 ?]];
    split_and!; intros; lra.
Qed.

(** The wait, before it is made a whole number of nanoseconds. *)
Definition exactWait (w : Window Q) (level cost : Q) : Q :=
  ((cost - level) * inject_Z (wi_Period w) / wi_Capacity w)%Q.

Lemma Wait_Q (w : Window Q) level cost :
  Limited w = true → (level < cost)%Q → is_i64 (Qceiling (exactWait w level cost)) →
  Wait w level cost = Qceiling (exactWait w level cost).
Proof.
  intros Hl Hlt Hi. pose proof Hl as [Hc Hp]%Limited_Q. unfold Wait. rewrite Hl. cbn [negb orb nleb Num_Q].
  assert (Qle_bool cost level = false) as -> by (qprop; done). cbn [nceil nsub ndiv nmul nofZ Num_Q].
  assert (((cost - level) / rate w * inject_Z Second == exactWait w level cost)%Q) as E.
  { unfold exactWait, rate. cbn [ndiv Num_Q]. rewrite Seconds_Q.
    rewrite Zlt_Qlt in Hp. change (inject_Z 0) with 0%Q in Hp.
    assert (0 < inject_Z Second)%Q by done. field. lra. }
  rewrite (Qceiling_comp _ _ E). by apply to_i64_id.
Qed.

Lemma gained_exactWait (w : Window Q) level cost d :
  Limited w = true → (exactWait w level cost <= inject_Z d)%Q ↔ (cost <= level + gained w d)%Q.
Proof.
  intros [Hc Hp]%Limited_Q. rewrite Zlt_Qlt in Hp. change (inject_Z 0) with 0%Q in Hp. unfold exactWait, gained.
  set (P := inject_Z (wi_Period w)) in *. set (C := wi_Capacity w) in *. set (D := inject_Z d) in *.
  assert (level + D * C / P == (level * P + D * C) / P)%Q as -> by (field; lra).
  split; intros H.
  - apply Qle_shift_div_l; [done |]. assert ((cost - level) * P <= D * C)%Q; [| lra].
    apply (Qmult_le_r _ _ C Hc) in H. assert ((cost - level) * P / C * C == (cost - level) * P)%Q as E by (field; lra). lra.
  - apply Qle_shift_div_r; [done |]. apply (Qmult_le_r _ _ P Hp) in H.
    assert ((level * P + D * C) / P * P == level * P + D * C)%Q as E by (field; lra). lra.
Qed.

(** A positive wait, and the exact moment the bucket holds the cost. *)
Lemma Wait_le (w : Window Q) level cost :
  Limited w = true → (level < cost)%Q → is_i64 (Qceiling (exactWait w level cost)) →
  0 < Wait w level cost ∧ ∀ d, Wait w level cost <= d ↔ (cost <= level + gained w d)%Q.
Proof.
  intros Hl Hlt Hi. rewrite (Wait_Q w level cost Hl Hlt Hi).
  assert (∀ d, Qceiling (exactWait w level cost) <= d ↔ (cost <= level + gained w d)%Q) as H.
  { intros d. rewrite <- gained_exactWait by done. split; intros Hd.
    - eapply Qle_trans; [apply Qle_ceiling | by rewrite <- Zle_Qle].
    - pose proof (Qceiling_resp_le _ _ Hd) as H. by rewrite Qceiling_Z in H. }
  split; [| done]. destruct (Z_lt_le_dec 0 (Qceiling (exactWait w level cost))) as [|Hle]; [done |].
  apply H in Hle. assert (gained w 0 == 0)%Q as E by (unfold gained, Qdiv; ring). lra.
Qed.

(** A bucket some time after it was last brought up to date. *)
Lemma Refill_after (w : Window Q) level t d :
  Limited w = true → 0 < t → is_i64 d → 0 <= d →
  (bu_Level (Refill w (mkBucket level t) (t + d)%Z) == nmin (level + gained w d) (wi_Capacity w))%Q.
Proof.
  intros Hl Ht Hi Hd. destruct (Refill_Q w (mkBucket level t) (t + d) Hl) as [_ E]; simpl; [lia .. | by replace (t + d - t) with d by lia |].
  rewrite E. simpl. by replace (t + d - t) with d by lia.
Qed.

(** the advertised wait is exact: a client whose bucket is short, told to
    wait d, holds the cost after d nanoseconds and not one nanosecond sooner
    (for a cost the window can ever hold, and a wait that fits a duration). *)
Theorem Wait_exact (w : Window Q) level cost t :
  Limited w = true → (level < cost)%Q → (cost <= wi_Capacity w)%Q → 0 < t →
  is_i64 (Qceiling (exactWait w level cost)) →
  let d := Wait w level cost in
  0 < d ∧ (cost <= bu_Level (Refill w (mkBucket level t) (t + d)%Z))%Q ∧
  ∀ d', 0 <= d' < d → (bu_Level (Refill w (mkBucket level t) (t + d')%Z) < cost)%Q.
Proof.
  intros Hl Hlt Hcap Ht Hi d. destruct (Wait_le w level cost Hl Hlt Hi) as [Hpos Hle]. fold d in Hpos, Hle.
  assert (is_i64 d) as Hd by (unfold d; rewrite (Wait_Q w level cost Hl Hlt Hi); done).
  split; [done |]. split.
  - rewrite Refill_after by (done || lia). pose proof (proj1 (Hle d) ltac:(lia)).
    destruct (nmin_Q_cases (level + gained w d) (wi_Capacity w)) as [[-> ?]|[-> ?]]; lra.
  - intros d' [Hd0 Hd']. rewrite Refill_after by (done || mlia).
    assert (level + gained w d' < cost)%Q by (apply Qnot_le_lt; rewrite <- Hle; lia).
    destruct (nmin_Q_cases (level + gained w d') (wi_Capacity w)) as [[-> ?]|[-> ?]]; lra.
Qed.

(** forgetting a full bucket loses nothing: a client who comes back to a
    new bucket holds exactly what the kept one would have refilled to. *)
Theorem Full_forget (w : Window Q) b t1 t2 :
  Limited w = true → bu_At b ≠ 0 → t1 ≠ 0 → bu_At b <= t1 <= t2 → is_i64 (t2 - bu_At b) →
  Full w (Refill w b t1) = true →
  (bu_Level (Refill w (Refill w b t1) t2) == bu_Level (Refill w (mkBucket 0%Q zero_time) t2))%Q.
Proof.
  intros Hl Hat Ht1 [H1 H2] Hi Hf. destruct (Refill_Q w b t1 Hl Hat H1) as [A1 L1]; [mlia |].
  destruct (Refill_Q w (Refill w b t1) t2 Hl) as [_ L3]; [by rewrite A1 | by rewrite A1 | rewrite A1; mlia |].
  unfold Full in Hf. rewrite Hl in Hf. cbn [negb orb nleb Num_Q] in Hf. qprop.
  assert (bu_Level (Refill w (mkBucket 0%Q zero_time) t2) = wi_Capacity w) as -> by (unfold Refill; by rewrite Hl).
  rewrite L3, A1. assert (0 <= gained w (t2 - t1))%Q.
  { destruct (Z.eq_dec (t2 - t1) 0) as [->|]; [unfold gained, Qdiv; rewrite !Qmult_0_l; lra |].
    pose proof (gained_pos w (t2 - t1) Hl ltac:(lia)). lra. }
  destruct (nmin_Q_cases (bu_Level (Refill w b t1) + gained w (t2 - t1)) (wi_Capacity w)) as [[-> ?]|[-> ?]]; lra.
Qed.

(** *** A plan of 60 credits a minute *)
Definition sampleWindow : Window Q := mkWindow 60%Q Minute.

Definition sampleBucket : Bucket Q := mkBucket 10%Q Second.

Lemma Refill_steps_witness :
  let r t := bu_Level (Refill sampleWindow sampleBucket t) in
  bu_At (Refill sampleWindow (Refill sampleWindow sampleBucket (3 * Second)%Z) (6 * Second)%Z) = bu_At (Refill sampleWindow sampleBucket (6 * Second)%Z) ∧
  (bu_Level (Refill sampleWindow (Refill sampleWindow sampleBucket (3 * Second)%Z) (6 * Second)%Z) == r (6 * Second)%Z)%Q ∧
  (r (6 * Second)%Z <= 60)%Q ∧ (10 <= 60 → 10 <= r (6 * Second)%Z)%Q.
Proof.
  intros r. apply (Refill_steps sampleWindow sampleBucket (3 * Second)%Z (6 * Second)%Z);
    [reflexivity | discriminate | discriminate | vm_compute; split; discriminate | vm_compute; split; [discriminate | reflexivity]].
Defined.

Lemma Wait_exact_witness :
  let d := Wait sampleWindow 10%Q 25%Q in
  d = 15 * Second ∧ 0 < d ∧ (25 <= bu_Level (Refill sampleWindow (mkBucket 10 Second) (Second + d)%Z))%Q ∧
  ∀ d', 0 <= d' < d → (bu_Level (Refill sampleWindow (mkBucket 10 Second) (Second + d')%Z) < 25)%Q.
Proof.
  intros d. split; [reflexivity |].
  apply (Wait_exact sampleWindow 10%Q 25%Q Second);
    [reflexivity | reflexivity | discriminate | reflexivity | vm_compute; split; [discriminate | reflexivity]].
Defined.

Lemma Full_forget_witness :
  (bu_Level (Refill sampleWindow (Refill sampleWindow sampleBucket (100 * Second)%Z) (130 * Second)%Z) ==
   bu_Level (Refill sampleWindow (mkBucket 0%Q zero_time) (130 * Second)%Z))%Q.
Proof.
  apply Full_forget; [reflexivity | discriminate | discriminate | vm_compute; split; discriminate |
    vm_compute; split; [discriminate | reflexivity] | reflexivity].
Defined.
