(* ===== verification/Ports.v ===== *)
(** * Ports: the values services exchange with adapters (internal/ports/ports.go)

    The outcome of forwarding one request.  An [error] is the text it prints;
    nil is [None]. *)
From S2P Require Import Prelude GoTime.
Open Scope Z_scope.

Definition error : Type := string.

(** The error of a request: what it prints, and whether it wraps
    [context.DeadlineExceeded] ([errors.Is]). *)
Record failure := mkFailure { fl_Text : string; fl_Deadline : bool }.

Record Outcome := mkOutcome {
  out_Status : Z;
  out_Err : option failure;
  out_HeadersSent : bool;
  out_Duration : Duration;
  out_RetryAfter : Duration
}.

Definition Failed (o : Outcome) : bool :=
  isSome (out_Err o) || (500 <=? out_Status o) || (out_Status o =? 429).

(** ** What an algod answers, and what its data directory says *)
Record Status := mkStatus {
  s_LastRound : Z;
  s_CatchupTime : Z;
  s_TimeSinceLastMS : Z;
  s_CatchpointRunning : bool;
  s_Raw : string
}.

Record Versions := mkVersions { v_GenesisID : string; v_Build : string }.

Record NodeConfig := mkNodeConfig {
  nc_Endpoint : string;
  nc_NetAddr : string;
  nc_Token : string;
  nc_GenesisID : string;
  nc_Archival : bool;
  nc_MaxBlockHistoryLookback : Z;
  nc_EnableDeveloperAPI : bool;
  nc_EnableFollowMode : bool;
  nc_EnableExperimentalAPI : bool;
  nc_EnableTimeTravel : bool;
  nc_MaxAcctLookback : Z;
  nc_StorageEngine : string;
  nc_RestWriteTimeoutSeconds : Z;
  nc_ModTime : Time
}.

Definition zeroConfig : NodeConfig :=
  mkNodeConfig "" "" "" "" false 0 false false false false 0 "" 0 zero_time.
