(* ===== verification/Codec.v ===== *)
(** * Codec: sealed registry records and signed gossip (internal/domain/codec.go)

    Byte slices are strings.  The primitives of crypto/* and encoding/json
    are arguments, gathered in two records of operations; what the code relies
    on of them are the records of laws next to them. *)
From Stdlib Require Import Ascii.
From S2P Require Import Prelude GoStrings Types Ports.
Open Scope Z_scope.

Definition recordVersion : ascii := ascii_of_nat 1.
Definition recordNonceLen : nat := 12.
Definition BoxKeyPrefix : string := "n".
Definition BoxTagLen : nat := 16.
Definition PublicKeySize : nat := 32.
Definition SignatureSize : nat := 64.
Definition heartbeatHeader : nat := PublicKeySize + SignatureSize.

(** s[:n] and s[n:] of slices at least n long. *)
Definition upto (n : nat) (s : string) : string := String.substring 0 n s.
Definition from (n : nat) (s : string) : string := String.substring n (String.length s - n) s.

Fixpoint zeros (n : nat) : string :=
  match n with O => "" | S n => String Ascii.zero (zeros n) end.

(** copy into a zeroed array of n bytes. *)
Definition array (n : nat) (s : string) : string := upto n s +:+ zeros (n - String.length s).

(** ** Primitives *)
Record AEAD := mkAEAD {
  Seal : string → string → string → string;               (* nonce, plaintext, additional data *)
  Open : string → string → string → result error string
}.

Record Crypto := mkCrypto {
  hkdfKey : string → string → string → Z → result error string;   (* secret, salt, info, length *)
  hmacSum : string → string → string;                              (* key, message *)
  newGCM : string → result error AEAD;                             (* aes.NewCipher, then cipher.NewGCM *)
  Public : string → string;
  Sign : string → string → string;
  Verify : string → string → string → bool                        (* key, message, signature *)
}.

Record Probe := mkProbe { pr_Type : string; pr_NodeID : string; pr_Nonce : Z; pr_HeardMS : Z }.

Record Json := mkJson {
  marshalRecord : NodeRecord → result error string;
  unmarshalRecord : string → result error NodeRecord;
  marshalHeartbeat : Heartbeat → result error string;
  unmarshalHeartbeat : string → result error Heartbeat;
  marshalProbe : Probe → result error string;
  unmarshalProbe : string → result error Probe;
  unmarshalKind : string → result error string            (* the field "t" alone *)
}.

(** The documented behaviour of the primitives. *)
Record CryptoLaws (c : Crypto) : Prop := {
  public_length priv : String.length (Public c priv) = PublicKeySize;
  sign_length priv m : String.length (Sign c priv m) = SignatureSize;
  verify_sign priv m : Verify c (Public c priv) m (Sign c priv m) = true;
  hmac_length k m : String.length (hmacSum c k m) = 32%nat;
  open_seal key a nonce plain ad : newGCM c key = Ok a → Open a nonce (Seal a nonce plain ad) ad = Ok plain
}.

(** A value JSON carries unchanged: its strings are valid UTF-8, its numbers
    in range. *)
Record JsonLaws (j : Json) (okRecord : NodeRecord → Prop) (okHeartbeat : Heartbeat → Prop) (okProbe : Probe → Prop) : Prop := {
  record_json r s : okRecord r → marshalRecord j r = Ok s → unmarshalRecord j s = Ok r;
  heartbeat_json h s : okHeartbeat h → marshalHeartbeat j h = Ok s →
    unmarshalHeartbeat j s = Ok h ∧ unmarshalKind j s = Ok ""%string ∧ (2 <= String.length s)%nat;
  probe_json p s : okProbe p → marshalProbe j p = Ok s →
    unmarshalProbe j s = Ok p ∧ unmarshalKind j s = Ok (pr_Type p) ∧ (2 <= String.length s)%nat
}.

Section Codec.
Context (c : Crypto) (j : Json).

(** ** Registry records *)
Definition DeriveSyncKey (seed : string) : result error string :=
  if (String.length seed <? 32)%nat then Err "sync key: seed shorter than 32 bytes"%string
  else out ← hkdfKey c (upto 32 seed) "algod-loadb-mesh" "registry-v1" 32; Ok (array 32 out).

(** None: the panic the code says cannot happen. *)
Definition BoxTag (key id : string) : option string :=
  match hkdfKey c key "algod-loadb-mesh" "registry-box-tag-v1" 32 with
  | Err _ => None
  | Ok tagKey => Some (array BoxTagLen (hmacSum c tagKey id))
  end.

Definition BoxName (key id : string) : option string :=
  tag ← BoxTag key id; Some (BoxKeyPrefix +:+ tag).

Definition IsRecordBox (name : string) : bool :=
  (String.length name =? String.length BoxKeyPrefix + BoxTagLen)%nat &&
  (upto (String.length BoxKeyPrefix) name =s BoxKeyPrefix).

Definition SealRecord (key : string) (rec : NodeRecord) (nonce : string) : option (result error string) :=
  match Validate rec with
  | Err e => Some (Err e)
  | Ok _ =>
      if negb (String.length nonce =? recordNonceLen)%nat then Some (Err "seal: nonce must be 12 bytes"%string)
      else match marshalRecord j rec with
           | Err e => Some (Err e)
           | Ok plain =>
               match newGCM c key with
               | Err e => Some (Err e)
               | Ok aead => name ← BoxName key (nr_ID rec);
                   Some (Ok (String recordVersion "" +:+ nonce +:+ Seal aead nonce plain name))
               end
           end
  end.

(** The record is meaningful only without an error, as every caller treats it. *)
Definition OpenRecord (key name blob : string) : option (result error NodeRecord) :=
  if (String.length blob <? 1 + recordNonceLen)%nat then Some (Err "open: blob too short"%string)
  else if upto 1 blob <>s String recordVersion "" then Some (Err "open: unsupported record version"%string)
  else match newGCM c key with
       | Err e => Some (Err e)
       | Ok aead =>
           match Open aead (String.substring 1 recordNonceLen blob) (from (1 + recordNonceLen) blob) name with
           | Err e => Some (Err e)
           | Ok plain =>
               match unmarshalRecord j plain with
               | Err e => Some (Err e)
               | Ok rec => own ← BoxName key (nr_ID rec);
                   Some (if own <>s name then Err "open: box holds a record which is not its id"%string
                         else match Validate rec with Err e => Err e | Ok _ => Ok rec end)
               end
           end
       end.

(** ** Gossip *)
Definition ProbePing : string := "ping".
Definition ProbePong : string := "pong".

Inductive body := HB (h : Heartbeat) | PR (p : Probe).

Record Envelope := mkEnvelope { en_PubKey : string; en_NodeID : string; en_body : body }.

Definition encodeSigned (priv body : string) : string := Public c priv +:+ Sign c priv body +:+ body.

Definition EncodeHeartbeat (priv : string) (hb : Heartbeat) : result error string :=
  body ← marshalHeartbeat j hb; Ok (encodeSigned priv body).

Definition badProbeType (t : string) : bool := (t <>s ProbePing) && (t <>s ProbePong).

Definition EncodeProbe (priv : string) (p : Probe) : result error string :=
  if badProbeType (pr_Type p) then Err "probe: bad type"%string
  else body ← marshalProbe j p; Ok (encodeSigned priv body).

Definition DecodeMessage (wire : string) : result error Envelope :=
  if (String.length wire <? heartbeatHeader + 2)%nat then Err "gossip: too short"%string
  else
    let pub := upto PublicKeySize wire in
    let sig := String.substring PublicKeySize SignatureSize wire in
    let body := from heartbeatHeader wire in
    if negb (Verify c pub body sig) then Err "gossip: bad signature"%string
    else
      kind ← unmarshalKind j body;
      if kind =s "" then
        hb ← unmarshalHeartbeat j body;
        if hb_NodeID hb =s "" then Err "heartbeat: empty node id"%string
        else Ok (mkEnvelope pub (hb_NodeID hb) (HB hb))
      else
        p ← unmarshalProbe j body;
        if badProbeType (pr_Type p) then Err "probe: bad type"%string
        else if pr_NodeID p =s "" then Err "probe: empty node id"%string
        else Ok (mkEnvelope pub (pr_NodeID p) (PR p)).

Definition DecodeHeartbeat (wire : string) : result error (Heartbeat * string) :=
  env ← DecodeMessage wire;
  match en_body env with
  | HB hb => Ok (hb, en_PubKey env)
  | PR _ => Err "heartbeat: message is a probe"%string
  end.
End Codec.

(** ** Slices of concatenations *)
Lemma substring_skip s t n m : String.length s = n → String.substring n m (s +:+ t) = String.substring 0 m t.
Proof.
  revert n. induction s as [|a s IH]; intros n <-; [done |]. simpl. by apply IH.
Qed.

Lemma substring_take s t n : String.length s = n → String.substring 0 n (s +:+ t) = s.
Proof. revert n. induction s as [|a s IH]; intros n <-; simpl; [by destruct t | by rewrite IH]. Qed.

Lemma from_app s t n : String.length s = n → from n (s +:+ t) = t.
Proof.
  intros H. unfold from. rewrite substring_skip, str_length_app by done.
  replace (String.length s + String.length t - n)%nat with (String.length t) by lia. apply substring_whole.
Qed.

Lemma substring_upto_from n s : (n <= String.length s)%nat → upto n s +:+ from n s = s.
Proof.
  unfold upto, from. revert s. induction n as [|n IH]; intros s Hn.
  - destruct s as [|a s]; [done |]. simpl. by rewrite substring_whole.
  - destruct s as [|a s]; simpl in *; [lia |].
    change (String a (String.substring 0 n s +:+ String.substring n (String.length s - n) s) = String a s).
    f_equal. apply IH. lia.
Qed.

Lemma slength_upto n s : (n <= String.length s)%nat → String.length (upto n s) = n.
Proof.
  unfold upto. revert s. induction n as [|n IH]; intros [|a s] Hn; simpl in *; try lia.
  f_equal. apply IH. lia.
Qed.

Lemma substring_from n m s : (n <= String.length s)%nat → String.substring n m s = upto m (from n s).
Proof.
  unfold upto, from. revert s. induction n as [|n IH]; intros s Hn.
  - by rewrite Nat.sub_0_r, substring_whole.
  - destruct s as [|a s]; simpl in *; [lia |]. apply IH. lia.
Qed.

Lemma slength_from n s : (n <= String.length s)%nat → String.length (from n s) = (String.length s - n)%nat.
Proof.
  intros H. pose proof (substring_upto_from n s H) as E. apply (f_equal String.length) in E.
  rewrite str_length_app, slength_upto in E by done. lia.
Qed.

Lemma substring_add s t n m : String.length s = n → String.substring 0 (n + m) (s +:+ t) = s +:+ String.substring 0 m t.
Proof.
  revert n. induction s as [|a s IH]; intros n <-; [done |].
  change (String a (String.substring 0 (String.length s + m) (s +:+ t)) = String a (s +:+ String.substring 0 m t)).
  f_equal. by apply IH.
Qed.

(** Two fields of fixed size and the rest. *)
Lemma wire_split n m s :
  (n + m <= String.length s)%nat →
  s = upto n s +:+ String.substring n m s +:+ from (n + m) s ∧ String.length (String.substring n m s) = m.
Proof.
  intros H. rewrite substring_from by lia. split; [| apply slength_upto; rewrite slength_from; lia].
  rewrite <- str_app_assoc. rewrite <- (substring_upto_from (n + m) s H) at 1. f_equal.
  rewrite <- (substring_upto_from n s) at 1 by lia. unfold upto at 1.
  rewrite substring_add by (apply slength_upto; lia). done.
Qed.

Lemma slength_zeros n : String.length (zeros n) = n.
Proof. induction n; simpl; auto. Qed.

Lemma slength_array n s : String.length (array n s) = n.
Proof.
  unfold array. rewrite str_length_app, slength_zeros. destruct (decide (n <= String.length s)%nat).
  - rewrite slength_upto by done. lia.
  - unfold upto. assert (∀ m, (String.length s <= m)%nat → String.substring 0 m s = s) as H; [| rewrite H by lia; lia].
    clear. induction s as [|a s IH]; intros [|m] Hm; simpl in *; try done; [lia |]. f_equal. apply IH. lia.
Qed.

(** ** Properties *)
(** What DecodeMessage reads of a signed message. *)
Lemma DecodeMessage_signed c j priv b :
  CryptoLaws c → (2 <= String.length b)%nat →
  DecodeMessage c j (encodeSigned c priv b) =
  (kind ← unmarshalKind j b;
   if kind =s "" then
     hb ← unmarshalHeartbeat j b;
     if hb_NodeID hb =s "" then Err "heartbeat: empty node id"%string
     else Ok (mkEnvelope (Public c priv) (hb_NodeID hb) (HB hb))
   else
     p ← unmarshalProbe j b;
     if badProbeType (pr_Type p) then Err "probe: bad type"%string
     else if pr_NodeID p =s "" then Err "probe: empty node id"%string
     else Ok (mkEnvelope (Public c priv) (pr_NodeID p) (PR p))).
Proof.
  intros L Hb. pose proof (public_length c L priv) as Hp. pose proof (sign_length c L priv b) as Hs.
  assert (String.length (Public c priv +:+ Sign c priv b) = heartbeatHeader) as Hh
    by (rewrite str_length_app, Hp, Hs; done).
  unfold DecodeMessage, encodeSigned.
  rewrite (proj2 (Nat.ltb_ge _ _)) by (rewrite !str_length_app, Hp, Hs; unfold heartbeatHeader; lia).
  unfold upto. rewrite (substring_take (Public c priv)), (substring_skip (Public c priv)) by done.
  rewrite (substring_take (Sign c priv b)) by done.
  rewrite <- str_app_assoc, (from_app _ b _ Hh), verify_sign by done. done.
Qed.

Lemma BoxName_shape c key id name : BoxName c key id = Some name → IsRecordBox name = true.
Proof.
  unfold BoxName, BoxTag. destruct (hkdfKey c _ _ _ _) as [k|]; [| done]. simpl. intros [= <-].
  unfold IsRecordBox. rewrite str_length_app, slength_array. simpl. unfold upto. simpl.
  by destruct (array BoxTagLen _).
Qed.

(** A heartbeat that was encoded decodes to itself. *)
Lemma heartbeat_decodes c j okR okH okP priv hb wire :
  CryptoLaws c → JsonLaws j okR okH okP → okH hb → hb_NodeID hb ≠ ""%string → EncodeHeartbeat c j priv hb = Ok wire →
  DecodeMessage c j wire = Ok (mkEnvelope (Public c priv) (hb_NodeID hb) (HB hb)) ∧ DecodeHeartbeat c j wire = Ok (hb, Public c priv).
Proof.
  intros L J Hh Hhi%String.eqb_neq. unfold EncodeHeartbeat. destruct (marshalHeartbeat j hb) as [b|] eqn:Eb; [| done]. intros [= <-].
  destruct (heartbeat_json j _ _ _ J hb b Hh Eb) as (Eu & Ek & El).
  assert (DecodeMessage c j (encodeSigned c priv b) = Ok (mkEnvelope (Public c priv) (hb_NodeID hb) (HB hb))) as E
    by (rewrite DecodeMessage_signed, Ek by done; simpl; rewrite Eu; simpl; by rewrite Hhi).
  split; [done |]. unfold DecodeHeartbeat. by rewrite E.
Qed.

(** C38: what an agent signs is what its peers read: a heartbeat or a probe
    that was encoded decodes to itself, with the key and the node id of its
    sender, and a probe never passes for a heartbeat. *)
Theorem messages_roundtrip c j okR okH okP priv hb p wire wire' :
  CryptoLaws c → JsonLaws j okR okH okP →
  okH hb → hb_NodeID hb ≠ ""%string → okP p → pr_NodeID p ≠ ""%string →
  EncodeHeartbeat c j priv hb = Ok wire → EncodeProbe c j priv p = Ok wire' →
  DecodeMessage c j wire = Ok (mkEnvelope (Public c priv) (hb_NodeID hb) (HB hb)) ∧
  DecodeHeartbeat c j wire = Ok (hb, Public c priv) ∧
  DecodeMessage c j wire' = Ok (mkEnvelope (Public c priv) (pr_NodeID p) (PR p)) ∧
  is_ok (DecodeHeartbeat c j wire') = false.
Proof.
  intros L J Hh Hhi Hp Hpi Ehb. destruct (heartbeat_decodes c j _ _ _ priv hb wire L J Hh Hhi Ehb) as [E Eh]. unfold EncodeProbe.
  destruct (badProbeType (pr_Type p)) eqn:Et; [done |].
  destruct (marshalProbe j p) as [b'|] eqn:Eb'; [| done]. intros [= <-].
  destruct (probe_json j _ _ _ J p b' Hp Eb') as (Eu' & Ek' & El'). apply String.eqb_neq in Hpi.
  assert (DecodeMessage c j (encodeSigned c priv b') = Ok (mkEnvelope (Public c priv) (pr_NodeID p) (PR p))) as E'.
  { rewrite DecodeMessage_signed, Ek' by done. simpl. destruct (pr_Type p =s "") eqn:E0.
    - apply String.eqb_eq in E0. rewrite E0 in Et. done.
    - rewrite Eu'. simpl. by rewrite Et, Hpi. }
  split_and!; [done | done | done |]. unfold DecodeHeartbeat. by rewrite E'.
Qed.

Lemma DecodeMessage_spec c j wire env :
  DecodeMessage c j wire = Ok env →
  ∃ sig b, wire = en_PubKey env +:+ sig +:+ b ∧
    String.length (en_PubKey env) = PublicKeySize ∧ String.length sig = SignatureSize ∧
    Verify c (en_PubKey env) b sig = true ∧ en_NodeID env ≠ ""%string ∧
    match en_body env with
    | HB hb => unmarshalHeartbeat j b = Ok hb ∧ hb_NodeID hb = en_NodeID env ∧ unmarshalKind j b = Ok ""%string
    | PR p => unmarshalProbe j b = Ok p ∧ pr_NodeID p = en_NodeID env ∧ (pr_Type p = ProbePing ∨ pr_Type p = ProbePong)
    end.
Proof.
  unfold DecodeMessage. destruct (Nat.ltb_spec (String.length wire) (heartbeatHeader + 2)) as [|Hl]; [done |].
  unfold heartbeatHeader in *. set (b := from (PublicKeySize + SignatureSize) wire).
  destruct (Verify c _ b _) eqn:Ev; [| done]. simpl. intros H.
  destruct (wire_split PublicKeySize SignatureSize wire) as [Ew Es]; [lia |].
  exists (String.substring PublicKeySize SignatureSize wire), b. fold b in Ew.
  assert (en_PubKey env = upto PublicKeySize wire ∧ en_NodeID env ≠ ""%string ∧
    match en_body env with
    | HB hb => unmarshalHeartbeat j b = Ok hb ∧ hb_NodeID hb = en_NodeID env ∧ unmarshalKind j b = Ok ""%string
    | PR p => unmarshalProbe j b = Ok p ∧ pr_NodeID p = en_NodeID env ∧ (pr_Type p = ProbePing ∨ pr_Type p = ProbePong)
    end) as (Ek & Hid & Hb).
  { destruct (unmarshalKind j b) as [kind|] eqn:Ekind; [| done]. simpl in H. destruct (kind =s "") eqn:E0.
    - apply String.eqb_eq in E0. destruct (unmarshalHeartbeat j b) as [hb|]; [| done]. simpl in H.
      destruct (String.eqb_spec (hb_NodeID hb) ""); [done |]. injection H as <-. subst kind. done.
    - destruct (unmarshalProbe j b) as [p|]; [| done]. simpl in H. destruct (badProbeType (pr_Type p)) eqn:Et; [done |].
      destruct (String.eqb_spec (pr_NodeID p) ""); [done |]. injection H as <-. simpl. split_and!; try done.
      unfold badProbeType in Et. bprop. tauto. }
  rewrite Ek. split_and!; try done. apply slength_upto. unfold PublicKeySize, SignatureSize in *. lia.
Qed.

(** a decoded message is authenticated: the datagram is a key, a
    signature and a body, the signature is that key's over that body, the body
    carries the node id and the heartbeat or probe the envelope shows, and
    the id is never empty. *)
Theorem DecodeMessage_sound c j wire env :
  DecodeMessage c j wire = Ok env →
  ∃ sig b, wire = en_PubKey env +:+ sig +:+ b ∧
    String.length (en_PubKey env) = PublicKeySize ∧ String.length sig = SignatureSize ∧
    Verify c (en_PubKey env) b sig = true ∧ en_NodeID env ≠ ""%string ∧
    match en_body env with
    | HB hb => unmarshalHeartbeat j b = Ok hb ∧ hb_NodeID hb = en_NodeID env ∧ unmarshalKind j b = Ok ""%string
    | PR p => unmarshalProbe j b = Ok p ∧ pr_NodeID p = en_NodeID env ∧ (pr_Type p = ProbePing ∨ pr_Type p = ProbePong)
    end.
Proof. apply DecodeMessage_spec. Qed.

Lemma seal_opens c j okR okH okP key rec nonce blob name :
  CryptoLaws c → JsonLaws j okR okH okP → okR rec →
  BoxName c key (nr_ID rec) = Some name →
  SealRecord c j key rec nonce = Some (Ok blob) →
  OpenRecord c j key name blob = Some (Ok rec) ∧ IsRecordBox name = true.
Proof.
  intros L J Hr Hn. split; [| by eapply BoxName_shape]. revert H. unfold SealRecord.
  destruct (Validate rec) as [[]|] eqn:Ev; [| done].
  destruct (Nat.eqb_spec (String.length nonce) recordNonceLen) as [Hl|]; [| done]. simpl negb. cbv iota.
  destruct (marshalRecord j rec) as [plain|] eqn:Em; [| done].
  destruct (newGCM c key) as [a|] eqn:Eg; [| done]. rewrite Hn. simpl. intros [= <-].
  unfold OpenRecord. rewrite (proj2 (Nat.ltb_ge _ _)) by (rewrite !str_length_app, Hl; change (String.length (String recordVersion "")) with 1%nat; lia).
  unfold upto. rewrite (substring_take (String recordVersion "")) by done.
  rewrite seqb_refl, Eg. simpl negb. cbv iota.
  rewrite (substring_skip (String recordVersion "")), (substring_take nonce), <- str_app_assoc by done.
  rewrite from_app by (rewrite str_length_app; simpl; lia).
  rewrite (open_seal c L key a) by done. rewrite (record_json j _ _ _ J rec plain Hr Em), Hn. simpl.
  by rewrite seqb_refl, Ev.
Qed.

(** a sealed record opens to itself under its own box's name. *)
Theorem record_roundtrip c j okR okH okP key rec nonce blob name :
  CryptoLaws c → JsonLaws j okR okH okP → okR rec →
  BoxName c key (nr_ID rec) = Some name →
  SealRecord c j key rec nonce = Some (Ok blob) →
  OpenRecord c j key name blob = Some (Ok rec) ∧ IsRecordBox name = true.
Proof. apply seal_opens. Qed.

(** a record that opens belongs to its box: it is valid, and the name it
    was opened under is the one derived from its own id, so a box copied under
    another node's name never opens. *)
Theorem OpenRecord_bound c j key name blob rec :
  OpenRecord c j key name blob = Some (Ok rec) →
  BoxName c key (nr_ID rec) = Some name ∧ IsRecordBox name = true ∧ Validate rec = Ok tt ∧
  upto 1 blob = String recordVersion "" ∧ (1 + recordNonceLen <= String.length blob)%nat.
Proof.
  unfold OpenRecord. destruct (Nat.ltb_spec (String.length blob) (1 + recordNonceLen)); [done |].
  destruct (String.eqb_spec (upto 1 blob) (String recordVersion "")) as [Eu|]; [| done]. simpl negb. cbv iota.
  destruct (newGCM c key) as [a|]; [| done]. destruct (Open a _ _ name) as [plain|]; [| done].
  destruct (unmarshalRecord j plain) as [r|]; [| done]. destruct (BoxName c key (nr_ID r)) as [own|] eqn:En; [| done].
  simpl. destruct (String.eqb_spec own name) as [->|]; [| done]. simpl. destruct (Validate r) as [[]|] eqn:Ev; [| done].
  intros [= ->]. split_and!; try done. by eapply BoxName_shape.
Qed.

(** ** Samples *)
Definition sampleHeartbeat : Heartbeat := mkHeartbeat "n1" 7 100 true zeroCapabilities false.
Definition sampleProbe : Probe := mkProbe ProbePing "n1" 3 (-1).
Definition sampleRecord : NodeRecord :=
  mkNodeRecord "n1" "" "net-v1" ["http://10.0.0.1:4001"%string] "tok" (mkAgentInfo ["10.0.0.1:4190"%string] "" (zeros 32)) 0 [] None 1 0.

(** A toy instance of the primitives, which keeps their laws. *)
Definition toyCrypto : Crypto := {|
  hkdfKey secret salt info n := Ok (array 32 (secret +:+ info));
  hmacSum k m := array 32 (m +:+ k);
  newGCM key := Ok {|
    Seal nonce plain ad := array 16 ad +:+ plain;
    Open nonce ct ad := if upto 16 ct =s array 16 ad then Ok (from 16 ct) else Err "message authentication failed"%string |};
  Public k := array PublicKeySize k;
  Sign k m := array SignatureSize (array PublicKeySize k +:+ m);
  Verify pub m sig := sig =s array SignatureSize (pub +:+ m)
|}.

(** An encoder of the samples. *)
Definition toyJson : Json := {|
  marshalRecord r := Ok "{record}"%string;
  unmarshalRecord s := if s =s "{record}" then Ok sampleRecord else Err "bad"%string;
  marshalHeartbeat h := Ok "{heartbeat}"%string;
  unmarshalHeartbeat s := if s =s "{heartbeat}" then Ok sampleHeartbeat else Err "bad"%string;
  marshalProbe p := Ok "{probe}"%string;
  unmarshalProbe s := if s =s "{probe}" then Ok sampleProbe else Err "bad"%string;
  unmarshalKind s := Ok (if s =s "{probe}" then ProbePing else ""%string)
|}.

Lemma toyCrypto_laws : CryptoLaws toyCrypto.
Proof.
  constructor; simpl; intros; try apply slength_array; [by rewrite seqb_refl |].
  injection H as <-. simpl. unfold upto. rewrite substring_take by apply slength_array.
  rewrite seqb_refl. by rewrite from_app by apply slength_array.
Qed.

Lemma toyJson_laws : JsonLaws toyJson (λ r, r = sampleRecord) (λ h, h = sampleHeartbeat) (λ p, p = sampleProbe).
Proof. constructor; simpl; intros ? ? -> [= <-]; split_and?; try done; simpl; lia. Qed.

Lemma messages_roundtrip_witness :
  ∃ wire wire',
    EncodeHeartbeat toyCrypto toyJson "k" sampleHeartbeat = Ok wire ∧ EncodeProbe toyCrypto toyJson "k" sampleProbe = Ok wire' ∧
    DecodeHeartbeat toyCrypto toyJson wire = Ok (sampleHeartbeat, Public toyCrypto "k") ∧
    is_ok (DecodeHeartbeat toyCrypto toyJson wire') = false.
Proof.
  eexists _, _. split; [reflexivity |]. split; [reflexivity |].
  assert (∀ A B C D : Prop, A ∧ B ∧ C ∧ D → B ∧ D) as H by tauto. eapply H.
  eapply (messages_roundtrip toyCrypto toyJson _ _ _ "k" sampleHeartbeat sampleProbe);
    [exact toyCrypto_laws | exact toyJson_laws | reflexivity | discriminate | reflexivity | discriminate | reflexivity | reflexivity].
Defined.

Lemma DecodeMessage_sound_witness :
  ∃ wire env sig b, EncodeProbe toyCrypto toyJson "k" sampleProbe = Ok wire ∧ DecodeMessage toyCrypto toyJson wire = Ok env ∧
    wire = en_PubKey env +:+ sig +:+ b.
Proof.
  eexists _, _.
  destruct (DecodeMessage_sound toyCrypto toyJson (encodeSigned toyCrypto "k" "{probe}")
    (mkEnvelope (array 32 "k") "n1" (PR sampleProbe))) as (sig & b & E & _); [vm_compute; reflexivity |].
  exists sig, b. split; [reflexivity |]. split; [vm_compute; reflexivity | exact E].
Defined.

Lemma record_roundtrip_witness :
  ∃ blob name, SealRecord toyCrypto toyJson "key" sampleRecord "123456789012" = Some (Ok blob) ∧
    OpenRecord toyCrypto toyJson "key" name blob = Some (Ok sampleRecord) ∧ IsRecordBox name = true.
Proof.
  eexists _, _. split; [vm_compute; reflexivity |].
  eapply (record_roundtrip toyCrypto toyJson _ _ _ "key" sampleRecord "123456789012");
    [exact toyCrypto_laws | exact toyJson_laws | reflexivity | vm_compute; reflexivity | vm_compute; reflexivity].
Defined.

Lemma OpenRecord_bound_witness :
  let name := default "" (BoxName toyCrypto "key" "n1") in
  let blob := match SealRecord toyCrypto toyJson "key" sampleRecord "123456789012" with Some (Ok b) => b | _ => "" end in
  OpenRecord toyCrypto toyJson "key" name blob = Some (Ok sampleRecord) ∧ BoxName toyCrypto "key" "n1" = Some name.
Proof.
  intros name blob. split; [vm_compute; reflexivity |].
  eapply (OpenRecord_bound toyCrypto toyJson "key" name blob sampleRecord). vm_compute. reflexivity.
Defined.
