(* ===== verification/Monitor.v ===== *)
(** * Monitor: what the agent knows of its own node (internal/app/monitor.go)

    [LocalState] is everything the monitor knows; each event of the node (a
    config read, a status, a new round, a verification) is one function on
    it, applied under the mutex by [update].  The node's answers are
    arguments: [HasBlock] is the algod client's, everything else a value.
    Loops that only wait and retry, and log lines, are not modelled. *)
From S2P Require Import Prelude GoTime Types Ports.
Open Scope Z_scope.

Record LocalState := mkLocalState {
  ls_Online : bool;
  ls_LastRound : Z;
  ls_Caps : Capabilities;
  ls_Config : NodeConfig;
  ls_ConfigOK : bool;
  ls_Verified : bool;
  ls_LastStatus : option string;   (* nil until a status was read *)
  ls_LastError : string;
  ls_Endpoint : string;
  ls_Seq : Z;
  ls_LimitsKnown : bool
}.

Definition zeroLocal : LocalState := mkLocalState false 0 zeroCapabilities zeroConfig false false None "" "" 0 false.

(** The monitor's mutable state: changed counts the channels closed so far,
    verify is whether a verification is requested. *)
Record Monitor := mkMonitor { mo_state : LocalState; mo_changed : nat; mo_verify : bool }.

Definition NewMonitor (absent : bool) (network : string) : Monitor :=
  mkMonitor
    (if absent
     then zeroLocal <| ls_Caps := zeroCapabilities <| cap_GenesisID := network |> |> <| ls_LastError := "no local node" |>
     else zeroLocal) 0 false.

Definition update (m : Monitor) (f : LocalState → LocalState) : Monitor :=
  m <| mo_state ::= λ s, let s := f s in s <| ls_Seq := wu64 (ls_Seq s + 1) |> |> <| mo_changed ::= S |>.

Definition requestVerify (m : Monitor) : Monitor := m <| mo_verify := true |>.

(** One pass of WaitForBlockAfter's loop: the status to replay, or None to
    wait for the next change. *)
Definition blockAfter (m : Monitor) (round : Z) : option string :=
  if round <? ls_LastRound (mo_state m) then ls_LastStatus (mo_state m) else None.

(** ** Configuration *)
Definition capsFromConfig (cfg : NodeConfig) (prev : Capabilities) (lastRound : Z) (ov : option CapabilityOverrides) : Capabilities :=
  let archival :=
    if nc_Archival cfg then mkArchival ArchivalFull 0
    else if 0 <? nc_MaxBlockHistoryLookback cfg then mkArchival ArchivalTrailing (nc_MaxBlockHistoryLookback cfg)
    else mkArchival ArchivalNone 0 in
  let c := mkCapabilities 0 archival (nc_EnableDeveloperAPI cfg) (nc_EnableFollowMode cfg) (nc_EnableExperimentalAPI cfg)
             (nc_EnableTimeTravel cfg) (cap_Simulate prev) (cap_AlgodVersion prev) (nc_GenesisID cfg) (nc_StorageEngine cfg)
             (nc_MaxAcctLookback cfg) in
  Apply ov (c <| cap_OldestRound := OldestRoundFor archival lastRound |>) lastRound.

Section WithOverrides.
Context (ov : option CapabilityOverrides).

Definition configState (r : result error NodeConfig) (s : LocalState) : LocalState :=
  match r with
  | Err e => s <| ls_ConfigOK := false |> <| ls_LastError := e |>
  | Ok cfg =>
      let changed := negb (nc_ModTime (ls_Config s) =? nc_ModTime cfg) || negb (ls_ConfigOK s) in
      let s := s <| ls_Config := cfg |> <| ls_ConfigOK := true |> <| ls_Endpoint := nc_Endpoint cfg |> in
      let s := s <| ls_Caps := capsFromConfig cfg (ls_Caps s) (ls_LastRound s) ov |> in
      if changed then s <| ls_Verified := false |> else s
  end.

Definition readConfig (m : Monitor) (r : result error NodeConfig) : Monitor := update m (configState r).

(** configLoop's test: what was read differs from what is known. *)
Definition configMoved (st : LocalState) (cfg : NodeConfig) : bool :=
  negb (ls_ConfigOK st) || negb (nc_ModTime cfg =? nc_ModTime (ls_Config st)) || (nc_Endpoint cfg <>s nc_Endpoint (ls_Config st)).

(** One tick of configLoop that read the config. *)
Definition configTick (m : Monitor) (r : result error NodeConfig) : Monitor :=
  match r with
  | Err _ => m
  | Ok cfg => if configMoved (mo_state m) cfg then requestVerify (readConfig m r) else m
  end.

(** The capabilities brought up to the last round. *)
Definition atLastRound (s : LocalState) : LocalState :=
  let s := s <| ls_Caps ::= λ c, c <| cap_OldestRound := OldestRoundFor (cap_Archival c) (ls_LastRound s) |> |> in
  s <| ls_Caps ::= λ c, Apply ov c (ls_LastRound s) |>.

(** ** Coming online *)

(** The node did not answer. *)
Definition offlineState (e : error) (s : LocalState) : LocalState := s <| ls_Online := false |> <| ls_LastError := e |>.

Definition onlineState (st : Status) (ver : result error Versions) (lim : result error (option SimulateLimits)) (s : LocalState) : LocalState :=
  let s := s <| ls_Online := true |> <| ls_LastRound := s_LastRound st |> <| ls_LastStatus := Some (s_Raw st) |> <| ls_LastError := "" |> in
  let s := match ver with
           | Ok v => s <| ls_Caps ::= λ c, c <| cap_AlgodVersion := v_Build v |>
                         <| cap_GenesisID ::= λ g, if g =s "" then v_GenesisID v else g |> |>
           | Err _ => s
           end in
  let s := s <| ls_LimitsKnown := is_ok lim |> in
  let s := match lim with Ok l => s <| ls_Caps ::= λ c, c <| cap_Simulate := l |> |> | Err _ => s end in
  atLastRound s.

(** A new round; known and lim are what the pass found of the limits. *)
Definition roundState (st : Status) (known : bool) (lim : option SimulateLimits) (s : LocalState) : LocalState :=
  let s := if known && negb (ls_LimitsKnown s)
           then s <| ls_LimitsKnown := true |> <| ls_Caps ::= λ c, c <| cap_Simulate := lim |> |>
           else s in
  atLastRound (s <| ls_Online := true |> <| ls_LastRound := s_LastRound st |> <| ls_LastStatus := Some (s_Raw st) |> <| ls_LastError := "" |>).

(** The limits read again. *)
Definition limitsState (l : option SimulateLimits) (s : LocalState) : LocalState :=
  let s := s <| ls_LimitsKnown := true |> <| ls_Caps ::= λ c, c <| cap_Simulate := l |> |> in
  s <| ls_Caps ::= λ c, Apply ov c (ls_LastRound s) |>.

(** One attempt of awaitOnline; whether the node is online now. *)
Definition tryOnline (m : Monitor) (st : result error Status) (ver : result error Versions)
    (lim : result error (option SimulateLimits)) : Monitor * bool :=
  match st with
  | Err e => (update m (offlineState e), false)
  | Ok st => (update m (onlineState st ver lim), true)
  end.

(** One pass of watch: a new round, or the connection lost. lim is what the
    node answers when the limits are still unknown. *)
Definition watchRound (m : Monitor) (r : result error Status) (lim : result error (option SimulateLimits)) : Monitor * bool :=
  match r with
  | Err e => (update m (offlineState e), false)
  | Ok st =>
      let known := ls_LimitsKnown (mo_state m) in
      (update m (roundState st (known || is_ok lim) match lim with Ok l => if known then None else l | Err _ => None end), true)
  end.

Definition refreshLimits (m : Monitor) (lim : result error (option SimulateLimits)) : Monitor :=
  if negb (ls_Online (mo_state m)) then m
  else match lim with
       | Err _ => m
       | Ok l => update m (limitsState l)
       end.

(** ** The oldest round the node serves *)
Section Search.
Context (HasBlock : Z → result error bool).

(** The loop of ProbeOldestRound: HasBlock lo is false, HasBlock hi true. *)
Fixpoint bisect (fuel : nat) (lo hi : Z) : option (result error Z) :=
  match fuel with
  | O => None
  | S fuel =>
      if 1 <? hi - lo then
        let mid := lo + (hi - lo) / 2 in
        match HasBlock mid with
        | Err e => Some (Err e)
        | Ok true => bisect fuel lo mid
        | Ok false => bisect fuel mid hi
        end
      else Some (Ok hi)
  end.

(** 64 halvings of a 64-bit interval, and the last test. *)
Definition bisectFuel : nat := 65.

Definition ProbeOldestRound (last : Z) : option (result error Z) :=
  match HasBlock 0 with
  | Err e => Some (Err e)
  | Ok true => Some (Ok 0)
  | Ok false =>
      match HasBlock last with
      | Err e => Some (Err e)
      | Ok false => Some (Err "node cannot serve its own last round"%string)
      | Ok true => bisect bisectFuel 0 last
      end
  end.

Definition checkEdge (expected last : Z) : option (result error Z) :=
  match HasBlock expected with
  | Err e => Some (Err e)
  | Ok false => ProbeOldestRound last
  | Ok true =>
      if expected =? 0 then Some (Ok 0)
      else match HasBlock (expected - 1) with
           | Err e => Some (Err e)
           | Ok true => ProbeOldestRound last
           | Ok false => Some (Ok expected)
           end
  end.

(** The capabilities once the oldest round was measured. *)
Definition measuredCaps (c : Capabilities) (lastRound measured : Z) : Capabilities :=
  if cap_OldestRound c <? measured then
    let c :=
      if ar_Kind (cap_Archival c) =s ArchivalFull then c <| cap_Archival := mkArchival ArchivalSince measured |>
      else if ar_Kind (cap_Archival c) =s ArchivalTrailing then
        if measured <? lastRound then c <| cap_Archival ::= λ a, mkArchival (ar_Kind a) (wu64 (lastRound - measured)) |> else c
      else c in
    let c := c <| cap_OldestRound := OldestRoundFor (cap_Archival c) lastRound |> in
    if cap_OldestRound c <? measured then c <| cap_OldestRound := measured |> else c
  else c.

Definition measuredState (measured : Z) (s : LocalState) : LocalState :=
  s <| ls_Verified := true |> <| ls_Caps := measuredCaps (ls_Caps s) (ls_LastRound s) measured |>.

(** The operator's archival override stands for a measurement. *)
Definition archivalGiven : bool := match ov with Some o => isSome (ov_Archival o) | None => false end.

(** verifyOldest; None: the search did not end (it always does). *)
Definition verifyOldest (m : Monitor) (full : bool) : option Monitor :=
  let st := mo_state m in
  if negb (ls_Online st) || (ls_LastRound st =? 0) then Some m
  else if archivalGiven then Some (update m (λ s, s <| ls_Verified := true |>))
  else
    measured ← (if full || negb (ls_Verified st) then ProbeOldestRound (ls_LastRound st)
                else checkEdge (cap_OldestRound (ls_Caps st)) (ls_LastRound st));
    match measured with
    | Err _ => Some m
    | Ok measured => Some (update m (measuredState measured))
    end.
End Search.
End WithOverrides.

(** ** Backoff *)
Record backoff := mkBackoff { bo_base : Duration; bo_max : Duration; bo_cur : Duration }.

Definition newBackoff (base max : Duration) : backoff := mkBackoff base max 0.

Definition next (b : backoff) : backoff * Duration :=
  let cur := if bo_cur b =? 0 then bo_base b
             else let c := wi64 (bo_cur b * 2) in if bo_max b <? c then bo_max b else c in
  (b <| bo_cur := cur |>, cur).

Definition reset (b : backoff) : backoff := b <| bo_cur := 0 |>.

(** ** Lemmas *)

(** What a search answers: the first round of a served stretch, the least of
    all when every round after a served one is served; or a failure of the
    node. *)
Definition search_ok (HasBlock : Z → result error bool) (last : Z) (r : result error Z) : Prop :=
  match r with
  | Ok m =>
      0 <= m <= last ∧ HasBlock m = Ok true ∧ (m = 0 ∨ HasBlock (m - 1) = Ok false) ∧
      ((∀ a b, 0 <= a <= b → b <= last → HasBlock a = Ok true → HasBlock b = Ok true) →
       ∀ x, 0 <= x < m → HasBlock x ≠ Ok true)
  | Err e => (∃ x, HasBlock x = Err e) ∨ HasBlock last = Ok false
  end.

Lemma edge_least (HasBlock : Z → result error bool) last m :
  0 < m <= last → HasBlock (m - 1) = Ok false →
  (∀ a b, 0 <= a <= b → b <= last → HasBlock a = Ok true → HasBlock b = Ok true) →
  ∀ x, 0 <= x < m → HasBlock x ≠ Ok true.
Proof. intros Hm Hf Hmono x Hx Ht. assert (HasBlock (m - 1) = Ok true) by (apply (Hmono x); [lia | lia | done]). congruence. Qed.

Lemma bisect_ok (HasBlock : Z → result error bool) last fuel lo hi :
  0 <= lo < hi → hi <= last → hi - lo <= 2 ^ Z.of_nat fuel → HasBlock lo = Ok false → HasBlock hi = Ok true →
  ∃ r, bisect HasBlock (S fuel) lo hi = Some r ∧ search_ok HasBlock last r.
Proof.
  revert lo hi. induction fuel as [|fuel IH]; intros lo hi Hlo Hhi Hd Hl Hh.
  - assert (hi = lo + 1) as -> by lia. exists (Ok (lo + 1)). split; [simpl; case_match; [lia | done] |].
    simpl. split_and!; try done; try lia; [right; by replace (lo + 1 - 1) with lo by lia |].
    apply edge_least; [lia | by replace (lo + 1 - 1) with lo by lia].
  - remember (S fuel) as f. simpl. destruct (Z.ltb_spec 1 (hi - lo)).
    + assert (2 ^ Z.of_nat f = 2 * 2 ^ Z.of_nat fuel) as Ep
        by (subst f; rewrite Nat2Z.inj_succ, Z.pow_succ_r; lia).
      set (mid := lo + (hi - lo) / 2). assert (lo < mid < hi ∧ mid - lo <= 2 ^ Z.of_nat fuel ∧ hi - mid <= 2 ^ Z.of_nat fuel) as (? & ? & ?).
      { pose proof (Z.div_mod (hi - lo) 2 ltac:(lia)). pose proof (Z.mod_pos_bound (hi - lo) 2 ltac:(lia)). unfold mid. lia. }
      destruct (HasBlock mid) as [[]|e] eqn:Em; subst f.
      * apply IH; done || lia.
      * apply IH; done || lia.
      * exists (Err e). split; [done |]. left. by exists mid.
    + assert (hi = lo + 1) as -> by lia. exists (Ok (lo + 1)). split; [done |].
      simpl. split_and!; try done; try lia; [right; by replace (lo + 1 - 1) with lo by lia |].
      apply edge_least; [lia | by replace (lo + 1 - 1) with lo by lia].
Qed.

Lemma Probe_ok (HasBlock : Z → result error bool) last : is_u64 last → ∃ r, ProbeOldestRound HasBlock last = Some r ∧ search_ok HasBlock last r.
Proof.
  intros Hl. unfold ProbeOldestRound. destruct (HasBlock 0) as [[]|e] eqn:E0.
  - exists (Ok 0). split; [done |]. simpl. split_and!; try done; [mlia | by left | lia].
  - destruct (HasBlock last) as [[]|e] eqn:El.
    + assert (0 < last) by (destruct (Z.eq_dec last 0) as [->|]; [congruence | mlia]).
      apply (bisect_ok HasBlock last 64 0 last); [lia | lia | | done | done].
      change (Z.of_nat 64) with 64. change (2 ^ 64) with two64. mlia.
    + eexists. split; [done |]. by right.
    + exists (Err e). split; [done |]. left. by exists last.
  - exists (Err e). split; [done |]. left. by exists 0.
Qed.

(** ** Properties *)

(** C19: measuring the oldest round always ends (in at most 67 requests) and
    is right: it answers a round the node serves whose predecessor it does not
    serve, the oldest one it serves at all when the served rounds are one
    stretch up to the last, and an error only when a request failed or the
    node does not serve its own last round; the incremental check of a known
    edge answers the same way. *)
Theorem oldest_round_measured (HasBlock : Z → result error bool) expected last :
  is_u64 last → 0 <= expected <= last →
  (∃ r, ProbeOldestRound HasBlock last = Some r ∧ search_ok HasBlock last r) ∧
  (∃ r, checkEdge HasBlock expected last = Some r ∧ search_ok HasBlock last r).
Proof.
  intros Hl He. split; [by apply Probe_ok |]. unfold checkEdge.
  destruct (HasBlock expected) as [[]|e] eqn:E1; [| by apply Probe_ok | exists (Err e); split; [done |]; left; by exists expected].
  destruct (Z.eqb_spec expected 0) as [->|Hne].
  - exists (Ok 0). split; [done |]. simpl. split_and!; try done; lia.
  - destruct (HasBlock (expected - 1)) as [[]|e] eqn:E2; [by apply Probe_ok | |].
    + exists (Ok expected). split; [done |]. simpl. split_and!; try done; try lia; [by right |]. apply edge_least; [lia | done].
    + exists (Err e). split; [done |]. left. by exists (expected - 1).
Qed.

Lemma oldest_round_measured_witness :
  let has r : result error bool := Ok (3000 <=? r) in
  ProbeOldestRound has 10000 = Some (Ok 3000) ∧
  (∃ r, ProbeOldestRound has 10000 = Some r ∧ search_ok has 10000 r) ∧
  (∃ r, checkEdge has 3000 10000 = Some r ∧ search_ok has 10000 r).
Proof.
  intros has. split; [vm_compute; reflexivity |].
  apply (oldest_round_measured has 3000 10000); [vm_compute; split; congruence | lia].
Defined.

(** a measured window is kept where the code keeps it: for an archival or
    trailing node that serves less than its config claims, the advertised
    oldest round becomes the measured one at once and stays at or above it at
    every later round. *)
Theorem measured_window_kept c last measured last' :
  ar_Kind (cap_Archival c) = ArchivalFull ∨ ar_Kind (cap_Archival c) = ArchivalTrailing →
  cap_OldestRound c < measured → 0 <= measured < last → last <= last' < two64 →
  cap_OldestRound (measuredCaps c last measured) = measured ∧
  measured <= OldestRoundFor (cap_Archival (measuredCaps c last measured)) last'.
Proof.
  intros Hk Hm H1 H2. unfold measuredCaps. rewrite (proj2 (Z.ltb_lt _ _) Hm).
  destruct c as [oldest [kind n] dev fol exp tt sim ver gen sto lb]. simpl in *.
  destruct Hk as [Hk|Hk]; rewrite Hk; simpl.
  - unfold OldestRoundFor, set, const. simpl. rewrite Z.ltb_irrefl. simpl. split; [done | lia].
  - rewrite (proj2 (Z.ltb_lt measured last)) by lia. simpl.
    unfold OldestRoundFor, set, const. simpl. rewrite (wu64_id (last - measured)) by mlia.
    destruct (Z.leb_spec last (last - measured)).
    + simpl. destruct (Z.ltb_spec 0 measured); simpl; [lia |]. split; [lia |].
      destruct (Z.leb_spec last' (last - measured)); [lia |]. rewrite wu64_id by mlia. lia.
    + simpl. rewrite wu64_id by mlia. replace (last - (last - measured)) with measured by lia. rewrite Z.ltb_irrefl. simpl.
      split; [done |]. destruct (Z.leb_spec last' (last - measured)); [lia |]. rewrite wu64_id by mlia. lia.
Qed.

Lemma measured_window_kept_witness :
  let c := zeroCapabilities <| cap_Archival := mkArchival ArchivalTrailing 5000 |> <| cap_OldestRound := 5000 |> in
  cap_OldestRound (measuredCaps c 10000 8000) = 8000 ∧ 8000 <= OldestRoundFor (cap_Archival (measuredCaps c 10000 8000)) 10500.
Proof. intros c. apply measured_window_kept; [by right | reflexivity | lia | vm_compute; split; congruence]. Defined.

(** a non-archival node's measured window is forgotten at the next round:
    the verification advertises the measured oldest round, but the next block
    recomputes it from the default lookback alone, below what the node was
    measured to serve. *)
Theorem measured_window_forgotten (HasBlock : Z → result error bool) m m' m'' st lim measured :
  ls_Online (mo_state m) = true → ls_Verified (mo_state m) = false →
  cap_Archival (ls_Caps (mo_state m)) = mkArchival ArchivalNone 0 →
  ls_LastRound (mo_state m) = 10000 → cap_OldestRound (ls_Caps (mo_state m)) = 9000 →
  ProbeOldestRound HasBlock 10000 = Some (Ok measured) → 9001 < measured →
  verifyOldest None HasBlock m false = Some m' →
  s_LastRound st = 10001 → watchRound None m' (Ok st) lim = (m'', true) →
  cap_OldestRound (ls_Caps (mo_state m')) = measured ∧
  cap_OldestRound (ls_Caps (mo_state m'')) = 9001.
Proof.
  intros Hon Hv Ha Hl Ho Hp Hm. unfold verifyOldest. rewrite Hon, Hl, Hv. simpl. rewrite Hp. simpl. intros [= <-] Hst.
  unfold watchRound, roundState, measuredState. intros [= <-]. unfold measuredCaps. destruct m as [[on last caps cfg cok ver ls le ep sq lk] ch vf].
  destruct caps as [oldest arch dev fol exp tt sim vers gen sto lb]. simpl in *. subst. simpl.
  rewrite (proj2 (Z.ltb_lt 9000 measured)) by lia. simpl.
  change (OldestRoundFor {| ar_Kind := ArchivalNone; ar_N := 0 |} 10000) with 9000.
  unfold const. rewrite ?(proj2 (Z.ltb_lt 9000 measured)) by lia. simpl. split; [done |].
  destruct (_ && negb lk); simpl; unfold atLastRound; simpl; rewrite Hst; reflexivity.
Qed.

(** A node catching up, freshly seen at round 10000 with blocks from 9800. *)
Definition sampleMonitor : Monitor :=
  mkMonitor (zeroLocal <| ls_Online := true |> <| ls_LastRound := 10000 |>
    <| ls_Caps := zeroCapabilities <| cap_Archival := mkArchival ArchivalNone 0 |> <| cap_OldestRound := 9000 |> |>) 0 true.

Lemma measured_window_forgotten_witness :
  ∃ m' m'', verifyOldest None (λ r, Ok (9800 <=? r)) sampleMonitor false = Some m' ∧
    watchRound None m' (Ok (mkStatus 10001 0 0 false "{}")) (Ok None) = (m'', true) ∧
    cap_OldestRound (ls_Caps (mo_state m')) = 9800 ∧ cap_OldestRound (ls_Caps (mo_state m'')) = 9001.
Proof.
  eexists _, _. split; [vm_compute; reflexivity |]. split; [reflexivity |].
  apply (measured_window_forgotten (λ r, Ok (9800 <=? r)) sampleMonitor _ _ (mkStatus 10001 0 0 false "{}") (Ok None) 9800);
    [reflexivity | reflexivity | reflexivity | reflexivity | reflexivity | vm_compute; reflexivity | reflexivity |
     vm_compute; reflexivity | reflexivity | reflexivity].
Defined.
