(* ===== verification/Directory.v ===== *)
(** * Directory: the fleet as one agent sees it (internal/app/directory.go)

    Links and paths are shared: a ping in flight keeps its path while the
    registry replaces the peer set.  So they live in a heap, named by numbers
    as pointers name them in the code; peers and externals are values of their
    maps.  Each function is one critical section of Directory.mu, and the
    composite ones take what happens outside the lock (the clock, the
    monitor's state, what each Send returned) as arguments.  A Go map's
    iteration order is an argument where it shows.  A pointer that names
    nothing reads as the zero value; the invariant of DirectoryLaws shows
    there is none.  Logs and metrics are not modelled. *)
From S2P Require Import Prelude GoFloat GoStrings GoTime GoNet Types Eligible Ports Codec Health Path Endpoint Monitor.
Open Scope Z_scope.

(** ** Options *)
Record ExternalUpstream := mkExternal {
  eu_Name : string;
  eu_URL : string;
  eu_Token : string;
  eu_Tier : Z;
  eu_Capabilities : option CapabilityOverrides;
  eu_HealthCheck : Duration
}.

Record DirectoryOptions := mkDirOptions {
  do_LocalID : string;
  do_LocalTier : Z;
  do_NoLocal : bool;
  do_SuspectAfter : Duration;
  do_DownAfter : Duration;
  do_ProbeInterval : Duration;
  do_KeepAlive : Duration;
  do_PathProbeInterval : Duration;
  do_PathTimeout : Duration;
  do_SyncTolerance : Z;
  do_LagGrace : Duration;
  do_ReturnHysteresis : Z;
  do_PeerOverrides : gmap string (option Z);   (* PeerOverride.Tier *)
  do_Externals : list ExternalUpstream;
  do_Exclude : list string
}.

Definition orDefault (v d : Z) : Z := if v =? 0 then d else v.

Definition defaults (o : DirectoryOptions) : DirectoryOptions :=
  o <| do_SuspectAfter ::= λ v, orDefault v (15 * Second) |>
    <| do_DownAfter ::= λ v, orDefault v (30 * Second) |>
    <| do_ProbeInterval ::= λ v, orDefault v (10 * Second) |>
    <| do_KeepAlive ::= λ v, orDefault v (5 * Second) |>
    <| do_PathProbeInterval ::= λ v, orDefault v (30 * Second) |>
    <| do_PathTimeout ::= λ v, orDefault v (2 * Second) |>
    <| do_ReturnHysteresis ::= λ v, orDefault v 3 |>
    <| do_LagGrace ::= λ v, orDefault v (1500 * Millisecond) |>.

Definition newJudge (o : DirectoryOptions) : SyncJudge :=
  NewSyncJudge (do_SyncTolerance o) (do_LagGrace o) (do_ReturnHysteresis o).

(** ** State *)
Record pathState := mkPath {
  pt_addr : string;
  pt_rtt : Duration;
  pt_pingedAt : Time;
  pt_pongedAt : Time;
  pt_lastSeen : Time;
  pt_nonce : Z;
  pt_fails : Z;
  pt_noRoute : bool;
  pt_deaf : bool
}.

Definition newPath (addr : string) : pathState := mkPath addr 0 zero_time zero_time zero_time 0 0 false false.

Record link := mkLink {
  ln_id : string;
  ln_pub : string;
  ln_paths : list nat;     (* pointers to paths *)
  ln_cur : Z;
  ln_switchedAt : Time;
  ln_heardAt : Time
}.

Definition newLink (id : string) : link := mkLink id "" [] (-1) zero_time zero_time.

Record peerState := mkPeer {
  pe_rec : NodeRecord;
  pe_hb : Heartbeat;
  pe_seenAt : Time;
  pe_hasHB : bool;
  pe_silent : bool;
  pe_probeAt : Time;
  pe_probeOK : bool;
  pe_probeRd : Z;
  pe_judge : SyncJudge;
  pe_ln : option nat;      (* nil in a fresh peer *)
  pe_hosts : list string
}.

Definition zeroRecord : NodeRecord := mkNodeRecord "" "" "" [] "" (mkAgentInfo [] "" "") 0 [] None 0 0.

Definition newPeer (j : SyncJudge) : peerState :=
  mkPeer zeroRecord zeroHeartbeat zero_time false false zero_time false 0 j None [].

Record extState := mkExt {
  ex_cfg : ExternalUpstream;
  ex_checkedAt : Time;
  ex_inflight : bool;
  ex_ok : bool;
  ex_round : Z
}.

(** hbChanged and extDone are channels that are closed and replaced: the
    state counts how often.  d_unknown lists the goroutines [go d.onUnknown(id)]
    that were started (the hook is set before the loops run). *)
Record Directory := mkDirectory {
  d_network : string;
  d_peers : gmap string peerState;
  d_balancers : gmap string nat;
  d_nonce : Z;
  d_hbRound : Z;
  d_hbChanged : nat;
  d_extDone : nat;
  d_externals : gmap string extState;
  d_localJudge : SyncJudge;
  d_localSeq : Z;
  d_hbSeq : Z;
  d_draining : bool;
  d_unmatched : string;
  d_nudge : bool;
  d_unknown : list string;
  d_links : gmap nat link;
  d_pathst : gmap nat pathState;
  d_next : nat             (* the next unused pointer *)
}.

Definition externalCheckTimeout : Duration := 10 * Second.
Definition externalDebounce : Duration := Second.

Section Directory.
Context (o : DirectoryOptions).

Definition NewDirectory : Directory :=
  mkDirectory "" ∅ ∅ 0 0 0 0
    (foldl (λ m e,
       let e := if eu_HealthCheck e =? 0 then e <| eu_HealthCheck := Minute |> else e in
       <[eu_Name e := mkExt e zero_time false false 0]> m) ∅ (do_Externals o))
    (newJudge o) 0 0 false "" false [] ∅ ∅ 0.

Definition excluded (id : string) : bool := elem id (do_Exclude o).

(** ** The heap *)
Definition link_of (d : Directory) (l : nat) : link := default (newLink "") (d_links d !! l).
Definition path_of (d : Directory) (p : nat) : pathState := default (newPath "") (d_pathst d !! p).
Definition set_link (l : nat) (f : link → link) (d : Directory) : Directory := d <| d_links ::= alter f l |>.
Definition set_path (p : nat) (f : pathState → pathState) (d : Directory) : Directory := d <| d_pathst ::= alter f p |>.

(** A peer's link; the zero link when it has none yet. *)
Definition peerLink (p : peerState) : nat := default 0%nat (pe_ln p).

(** ** Links *)
Definition alive (p : pathState) : bool := negb (pt_noRoute p) && negb (pt_deaf p) && (pt_fails p <? PathFailures).

Definition stats (d : Directory) (l : nat) : list PathStat :=
  map (λ p, let p := path_of d p in mkPathStat (pt_addr p) (pt_rtt p) (alive p) (pt_deaf p)) (ln_paths (link_of d l)).

Definition curPath (d : Directory) (l : nat) : option nat :=
  let l := link_of d l in
  if ln_cur l <? 0 then None else ln_paths l !! Z.to_nat (ln_cur l).

Definition curAddr (d : Directory) (l : nat) : string :=
  match curPath d l with Some p => pt_addr (path_of d p) | None => ""%string end.

(** The map old of syncLink: the last path of each address. *)
Definition oldPaths (d : Directory) (paths : list nat) : gmap string nat :=
  foldl (λ m p, <[pt_addr (path_of d p) := p]> m) ∅ paths.

(** One address of syncLink's loop over the record's addresses. *)
Definition syncAddr (old : gmap string nat) (curAddr : string) (st : Directory * list nat * list string * Z) (a : string)
    : Directory * list nat * list string * Z :=
  let '(d, paths, seen, cur) := st in
  let a := NormalizeAddr a in
  if elem a seen then st
  else
    let '(d, p) := match old !! a with
                   | Some p => (d, p)
                   | None => (d <| d_pathst ::= <[d_next d := newPath a]> |> <| d_next ::= S |>, d_next d)
                   end in
    (d, paths ++ [p], a :: seen, if a =s curAddr then Z.of_nat (length paths) else cur).

Definition syncLink (d : Directory) (l : option nat) (r : NodeRecord) : Directory * nat :=
  let '(d, l) := match l with
                 | Some l => (d, l)
                 | None => (d <| d_links ::= <[d_next d := newLink (nr_ID r)]> |> <| d_next ::= S |>, d_next d)
                 end in
  let d := set_link l (λ x, x <| ln_pub := ai_PubKey (nr_Agent r) |>) d in
  let old := oldPaths d (ln_paths (link_of d l)) in
  let cur := curAddr d l in
  let '(d, paths, _, cur) := foldl (syncAddr old cur) (d, [], [], -1) (GossipAddrs (nr_Agent r)) in
  (set_link l (λ x, x <| ln_cur := cur |> <| ln_paths := paths |>) d, l).

(** Whether the chosen path changed. *)
Definition chooseLocked (d : Directory) (l : nat) (now : Time) : Directory * bool :=
  if do_NoLocal o then (d, false)
  else
    let x := link_of d l in
    let '(idx, _) := Choose (mkPathPolicy (do_PathProbeInterval o)) now (stats d l) (ln_cur x) (ln_switchedAt x) in
    if idx =? ln_cur x then (d, false)
    else (set_link l (λ x, x <| ln_cur := idx |> <| ln_switchedAt := now |>) d, true).

(** chooseLocked on each link in turn; whether any switched. *)
Definition chooseAll (d : Directory) (links : list nat) (now : Time) : Directory * bool :=
  foldl (λ '(d, switched) l, let '(d, s) := chooseLocked d l now in (d, s || switched)) (d, false) links.

Definition nudgeHeartbeat (switched : bool) (d : Directory) : Directory :=
  if switched then d <| d_nudge := true |> else d.

Definition heardMS (l : link) (now : Time) : Z :=
  if IsZero (ln_heardAt l) then -1 else Milliseconds (time_sub now (ln_heardAt l)).

(** ** The registry's records *)
Definition unmatchedExclude (d : Directory) : Directory * option (list string) :=
  let out := List.filter (λ id, isNone (d_peers d !! id) && isNone (d_externals d !! id)) (do_Exclude o) in
  let key := GoStrings.join "," out in
  if key =s d_unmatched d then (d, None) else (d <| d_unmatched := key |>, Some out).

(** One record of SetRecords's loop: the directory, the peers and the
    balancers seen, and whether a path switched. *)
Definition setRecord (network : string) (now : Time) (st : Directory * gset string * gmap string nat * bool) (r : NodeRecord)
    : Directory * gset string * gmap string nat * bool :=
  let '(d, seen, balancers, switched) := st in
  if (nr_ID r =s do_LocalID o) || ((network <>s "") && (nr_Network r <>s network)) then st
  else if IsBalancer r then
    let '(d, l) := syncLink d (d_balancers d !! nr_ID r) r in
    let '(d, s) := chooseLocked d l now in
    (d, seen, <[nr_ID r := l]> balancers, s || switched)
  else
    let r := match do_PeerOverrides o !! nr_ID r with
             | Some (Some tier) => r <| nr_Tier := tier |>
             | _ => r
             end in
    let p := default (newPeer (newJudge o)) (d_peers d !! nr_ID r) in
    let '(d, l) := syncLink d (pe_ln p) r in
    let p := p <| pe_rec := r |> <| pe_hosts := EndpointHosts (nr_Endpoints r) |> <| pe_ln := Some l |> in
    let '(d, s) := chooseLocked (d <| d_peers ::= <[nr_ID r := p]> |>) l now in
    (d, {[nr_ID r]} ∪ seen, balancers, s || switched).

Definition SetRecords (d : Directory) (now : Time) (local : LocalState) (recs : list NodeRecord) : Directory * option (list string) :=
  let network := cap_GenesisID (ls_Caps local) in
  let '(d, seen, balancers, switched) := foldl (setRecord network now) (d <| d_network := network |>, ∅, ∅, false) recs in
  let d := d <| d_peers ::= filter (λ kv, kv.1 ∈ seen) |> <| d_balancers := balancers |> in
  let '(d, unmatched) := unmatchedExclude d in
  (nudgeHeartbeat switched d, unmatched).

(** ** Rounds *)
Definition noteRound (d : Directory) (round : Z) : Directory :=
  if d_hbRound d <? round then d <| d_hbRound := round |> <| d_hbChanged ::= S |> else d.

(** Whether the peer's last heartbeat is recent. *)
Definition freshHB (p : peerState) (now : Time) : bool :=
  pe_hasHB p && (time_sub now (pe_seenAt p) <=? do_SuspectAfter o).

Definition freshProbe (p : peerState) (now : Time) : bool :=
  pe_probeOK p && (time_sub now (pe_probeAt p) <=? wi64 (2 * do_ProbeInterval o)).

(** The peer's round and whether it is reachable. *)
Definition peerRound (p : peerState) (now : Time) : Z * bool :=
  if freshHB p now then (hb_LastRound (pe_hb p), hb_Online (pe_hb p))
  else if freshProbe p now then (pe_probeRd p, true)
  else (0, false).

(** What one peer adds to the best round so far. *)
Definition peerBest (now : Time) (id : string) (p : peerState) (best : Z) : Z :=
  if excluded id then best
  else let '(r, ok) := peerRound p now in if ok && (best <? r) then r else best.

Definition extBest (n : string) (e : extState) (best : Z) : Z :=
  if excluded n then best else if ex_ok e && (best <? ex_round e) then ex_round e else best.

Definition bestRound (d : Directory) (now : Time) (local : LocalState) : Z :=
  let best := if ls_Online local then ls_LastRound local else 0 in
  map_fold extBest (map_fold (peerBest now) best (d_peers d)) (d_externals d).

(** Run's reaction to a change of the local node: nowj is when it is judged. *)
Definition onLocalChange (d : Directory) (nowj nowb : Time) (st : LocalState) : Directory :=
  if ls_Seq st =? d_localSeq d then d
  else
    let d := d <| d_localSeq := ls_Seq st |> in
    let d := if ls_Online st then noteRound d (ls_LastRound st) else d in
    d <| d_localJudge ::= λ j, (Judge j nowj (ls_Online st) (ls_LastRound st) (bestRound d nowb st)).1 |>.

(** ** Sending *)
Record sendJob := mkJob { sj_link : nat; sj_path : nat; sj_addr : string; sj_wire : string }.

Definition newSendJob (d : Directory) (l p : nat) (wire : string) : sendJob := mkJob l p (pt_addr (path_of d p)) wire.

Inductive sendError := ErrNoRoute | ErrOther.

Definition isNoRoute (e : option sendError) : bool := match e with Some ErrNoRoute => true | _ => false end.

(** What the sends proved, recorded under the lock. *)
Definition recordSends (d : Directory) (jobs : list sendJob) (errs : list (option sendError)) : Directory :=
  foldl (λ d '(j, e),
    match e with
    | Some ErrOther => d
    | _ => set_path (sj_path j) (λ p, p <| pt_noRoute := isNoRoute e |>) d
    end) d (zip jobs errs).

(** The links of the peers and of the balancers, in the orders the maps are
    walked. *)
Definition allLinks (d : Directory) (po bo : list string) : list nat :=
  omap (λ id, peerLink <$> d_peers d !! id) po ++ omap (λ id, d_balancers d !! id) bo.

(** The locked part of sendHeartbeat: the heartbeat and one job for each link
    with a path. *)
Definition heartbeatJobs (d : Directory) (st : LocalState) (po bo : list string) : Directory * Heartbeat * list sendJob :=
  let d := d <| d_hbSeq ::= λ s, wu64 (s + 1) |> in
  (d, mkHeartbeat (do_LocalID o) (d_hbSeq d) (ls_LastRound st) (ls_Online st) (ls_Caps st) (d_draining d),
   omap (λ l, (λ p, newSendJob d l p "") <$> curPath d l) (allLinks d po bo)).

Section Wire.
Context (c : Crypto) (j : Json) (priv : string).

(** What sendHeartbeat puts on the wire: nothing on a balancer. *)
Definition sendHeartbeat (d : Directory) (st : LocalState) (po bo : list string) : Directory * list sendJob :=
  if do_NoLocal o then (d, [])
  else
    let '(d, hb, jobs) := heartbeatJobs d st po bo in
    match EncodeHeartbeat c j priv hb with
    | Err _ => (d, [])
    | Ok wire => (d, map (λ job, job <| sj_wire := wire |>) jobs)
    end.

Definition SetDraining (d : Directory) (v : bool) (st : LocalState) (po bo : list string) : Directory * list sendJob :=
  sendHeartbeat (d <| d_draining := v |>) st po bo.

(** ** Receiving *)

(** What a probe says of our sending: the current path is deaf when the peer
    has not heard us for three keepalives that were sent on it. *)
Definition markDeaf (d : Directory) (l : nat) (heard : Z) (now : Time) : Directory :=
  let stale := wi64 (do_KeepAlive o * 3) in
  match curPath d l with
  | Some cur =>
      if (0 <=? heard) && (stale <? wi64 (heard * Millisecond)) &&
         (stale <? time_sub now (ln_switchedAt (link_of d l))) && negb (pt_deaf (path_of d cur))
      then set_path cur (λ p, p <| pt_deaf := true |>) d
      else d
  | None => d
  end.

(** The exponentially weighted round-trip time. *)
Definition ewma (rtt sample : Duration) : Duration :=
  let x : float64 := (nlit 8 10 * nofZ rtt + nlit 2 10 * nofZ sample)%num in
  match ntrunc x with Some z => wi64 z | None => 0 end.

Definition pong (now : Time) (p : pathState) : pathState :=
  let sample := time_sub now (pt_pingedAt p) in
  p <| pt_rtt := if pt_rtt p =? 0 then sample else ewma (pt_rtt p) sample |>
    <| pt_nonce := 0 |> <| pt_pongedAt := now |> <| pt_fails := 0 |> <| pt_deaf := false |> <| pt_noRoute := false |>.

Definition answers (nonce : Z) (p : pathState) : bool := negb (pt_nonce p =? 0) && (pt_nonce p =? nonce).

(** The pong's loop: the directory, and whether some ping was answered. *)
Definition matchPong (d : Directory) (l : nat) (nonce : Z) (now : Time) : Directory * bool :=
  foldl (λ '(d, matched) p,
    if answers nonce (path_of d p) then (set_path p (pong now) d, true) else (d, matched))
    (d, false) (ln_paths (link_of d l)).

(** The reply, and whether the chosen path changed. *)
Definition handleProbe (d : Directory) (l : nat) (pr : Probe) (now : Time) : Directory * option Probe * bool :=
  let finish (d : Directory) (reply : option Probe) :=
    let '(d, s) := chooseLocked (markDeaf d l (pr_HeardMS pr) now) l now in (d, reply, s) in
  if pr_Type pr =s ProbePing then
    finish d (Some (mkProbe ProbePong (do_LocalID o) (pr_Nonce pr) (heardMS (link_of d l) now)))
  else if pr_Type pr =s ProbePong then
    let '(d, matched) := matchPong d l (pr_Nonce pr) now in
    if matched then finish d None else (d, None, false)
  else finish d None.

(** The path a datagram came by delivers. *)
Definition markSeen (d : Directory) (l : nat) (from : string) (now : Time) : Directory :=
  foldl (λ d p, if pt_addr (path_of d p) =s from
                then set_path p (λ x, x <| pt_lastSeen := now |> <| pt_fails := 0 |>) d else d)
    d (ln_paths (link_of d l)).

(** An accepted heartbeat of the peer p, known by id. *)
Definition acceptHeartbeat (d : Directory) (id : string) (p : peerState) (hb : Heartbeat) (now nowb : Time) (local : LocalState) : Directory :=
  let p := p <| pe_hb := hb |> <| pe_seenAt := now |> <| pe_hasHB := true |> <| pe_silent := false |> in
  let d := d <| d_peers ::= <[id := p]> |> in
  let d := if hb_Online hb && negb (excluded id) then noteRound d (hb_LastRound hb) else d in
  let best := bestRound d nowb local in
  d <| d_peers ::= alter (λ p, p <| pe_judge ::= λ j, (Judge j now (hb_Online hb) (hb_LastRound hb) best).1 |>) id |>.

Definition handleHeartbeat (d : Directory) (l : nat) (id : string) (p : peerState) (hb : Heartbeat) (now nowb : Time) (local : LocalState) : Directory :=
  let d := set_link l (λ x, x <| ln_heardAt := now |>) d in
  if pe_hasHB p && (hb_Seq hb <=? hb_Seq (pe_hb p)) && (time_sub now (pe_seenAt p) <? do_DownAfter o) then d
  else acceptHeartbeat d id p hb now nowb local.

(** The link a message speaks for: None for a node the registry does not
    name, and for a heartbeat of a balancer. *)
Definition linkFor (d : Directory) (env : Envelope) : option nat :=
  match d_peers d !! en_NodeID env with
  | Some p => Some (peerLink p)
  | None => match en_body env with HB _ => None | PR _ => d_balancers d !! en_NodeID env end
  end.

(** The hook for a node the registry has not told of: [go d.onUnknown(id)]. *)
Definition noteUnknown (d : Directory) (id : string) : Directory :=
  if isNone (d_peers d !! id) && isNone (d_balancers d !! id) then d <| d_unknown ::= λ l, l ++ [id] |> else d.

Definition handleLocked (d : Directory) (msgFrom : string) (env : Envelope) (now nowb : Time) (local : LocalState)
    : Directory * option Probe * bool :=
  let from := NormalizeAddr msgFrom in
  match linkFor d env with
  | None => (noteUnknown d (en_NodeID env), None, false)
  | Some l =>
      let pub := ln_pub (link_of d l) in
      if negb (String.length pub =? PublicKeySize)%nat || (en_PubKey env <>s pub) then (d, None, false)
      else
        let d := markSeen d l from now in
        match en_body env with
        | PR pr => handleProbe d l pr now
        | HB hb =>
            match d_peers d !! en_NodeID env with
            | Some p => (handleHeartbeat d l (en_NodeID env) p hb now nowb local, None, false)
            | None => (d, None, false)
            end
        end
  end.

(** One datagram: the state after it, and the address and bytes of the reply. *)
Definition handle (d : Directory) (msgFrom payload : string) (now nowb : Time) (local : LocalState) : Directory * option (string * string) :=
  match DecodeMessage c j payload with
  | Err _ => (d, None)
  | Ok env =>
      let '(d, reply, switched) := handleLocked d msgFrom env now nowb local in
      (nudgeHeartbeat switched d,
       match reply with
       | None => None
       | Some pr => match EncodeProbe c j priv pr with Err _ => None | Ok wire => Some (msgFrom, wire) end
       end)
  end.

(** ** Maintenance *)

(** The first part of probeSilentPeers for the peer id: the direct probe it
    asks for, by id, URL and token. *)
Definition probeSilentPeer (now : Time) (st : Directory * list (string * string * string)) (id : string) : Directory * list (string * string * string) :=
  let '(d, jobs) := st in
  match d_peers d !! id with
  | None => st
  | Some p =>
      let silent := negb (pe_hasHB p) || (do_SuspectAfter o <? time_sub now (pe_seenAt p)) in
      let entering := silent && negb (pe_silent p) in
      let p := if entering then p <| pe_silent := true |> else p in
      let d := if entering
               then foldl (λ d q, if pt_nonce (path_of d q) =? 0 then set_path q (λ x, x <| pt_pingedAt := zero_time |>) d else d)
                      d (ln_paths (link_of d (peerLink p)))
               else d in
      if silent && negb (excluded id) && (do_ProbeInterval o <=? time_sub now (pe_probeAt p)) &&
         (0 <? Z.of_nat (length (nr_Endpoints (pe_rec p))))
      then (d <| d_peers ::= <[id := p <| pe_probeAt := now |>]> |>,
            jobs ++ [(id, EndpointFor (nr_Endpoints (pe_rec p)) (pe_hosts p) (curAddr d (peerLink p)), nr_Token (pe_rec p))])
      else (d <| d_peers ::= <[id := p]> |>, jobs)
  end.

Definition probeSilentPeers (d : Directory) (now : Time) (po : list string) : Directory * list (string * string * string) :=
  foldl (probeSilentPeer now) (d, []) po.

(** The answer to a direct probe. *)
Definition probeResult (d : Directory) (id : string) (r : result error Status) : Directory :=
  d <| d_peers ::= alter (λ p,
    let p := p <| pe_probeOK := is_ok r |> in
    match r with Ok st => p <| pe_probeRd := s_LastRound st |> | Err _ => p end) id |>.

Record ping := mkPing { pi_job : sendJob; pi_pr : Probe }.

(** A ping that was not answered in time is a loss. *)
Definition timeOut (now : Time) (p : pathState) : pathState :=
  if negb (pt_nonce p =? 0) && (do_PathTimeout o <=? time_sub now (pt_pingedAt p))
  then p <| pt_nonce := 0 |> <| pt_fails ::= λ f, wi64 (f + 1) |> else p.

(** Whether a path without an outstanding ping is due for one. *)
Definition pingDue (now : Time) (p : pathState) : bool :=
  let answered := negb (Before (pt_pongedAt p) (pt_pingedAt p)) in
  let interval := if answered || (PathFailures <=? pt_fails p) || pt_noRoute p
                  then do_PathProbeInterval o else wi64 (2 * do_PathTimeout o) in
  IsZero (pt_pingedAt p) || (interval <=? time_sub now (pt_pingedAt p)).

Definition collectPath (l : nat) (now : Time) (st : Directory * list ping) (p : nat) : Directory * list ping :=
  let '(d, pings) := st in
  let d := set_path p (timeOut now) d in
  let x := path_of d p in
  if negb (pt_nonce x =? 0) || negb (pingDue now x) then (d, pings)
  else
    let d := d <| d_nonce ::= λ n, wu64 (n + 1) |> in
    let d := set_path p (λ x, x <| pt_nonce := d_nonce d |> <| pt_pingedAt := now |>) d in
    (d, pings ++ [mkPing (newSendJob d l p "") (mkProbe ProbePing (do_LocalID o) (d_nonce d) (heardMS (link_of d l) now))]).

(** The first locked part of checkPaths. *)
Definition collectPings (d : Directory) (links : list nat) (now : Time) : Directory * list ping :=
  foldl (λ st l, foldl (collectPath l now) st (ln_paths (link_of st.1 l))) (d, []) links.

(** The pings that could be signed, with their datagram. *)
Definition encodePings (pings : list ping) : list ping :=
  omap (λ p, match EncodeProbe c j priv (pi_pr p) with
             | Err _ => None
             | Ok wire => Some (p <| pi_job ::= λ job, job <| sj_wire := wire |> |>)
             end) pings.

(** The last locked part: a ping that found no route is not a loss. *)
Definition forgetUnsent (d : Directory) (pings : list ping) (errs : list (option sendError)) : Directory :=
  foldl (λ d '(pg, e),
    if isNoRoute e && (pt_nonce (path_of d (sj_path (pi_job pg))) =? pr_Nonce (pi_pr pg))
    then set_path (sj_path (pi_job pg)) (λ x, x <| pt_nonce := 0 |>) d else d) d (zip pings errs).

Definition finishPings (d : Directory) (pings : list ping) (errs : list (option sendError)) (links : list nat) (now : Time) : Directory :=
  let '(d, switched) := chooseAll (forgetUnsent d pings errs) links now in nudgeHeartbeat switched d.

(** checkPaths with nothing in between; sent gives what each Send returned. *)
Definition checkPaths (d : Directory) (now : Time) (po bo : list string) (sent : string → option sendError) : Directory * list ping :=
  let links := allLinks d po bo in
  let '(d, pings) := collectPings d links now in
  let pings := encodePings pings in
  let errs := map (λ p, sent (sj_addr (pi_job p))) pings in
  let d := recordSends d (map pi_job pings) errs in
  (finishPings d pings errs links now, pings).
End Wire.

(** ** Externals *)
Definition fresh (e : extState) (now : Time) : bool :=
  ex_ok e && (time_sub now (ex_checkedAt e) <=? eu_HealthCheck (ex_cfg e)).

(** Whether a check is repeated. *)
Definition checkDue (e : extState) (now : Time) : bool :=
  IsZero (ex_checkedAt e) || (externalDebounce <=? time_sub now (ex_checkedAt e)) || (ex_ok e && negb (fresh e now)).

(** The first part of checkExternals: the externals a check starts for. *)
Definition startCheck (now : Time) (n : string) (e : extState) : extState :=
  if excluded n then e
  else if negb (ex_inflight e) && checkDue e now then e <| ex_inflight := true |> else e.

Definition checkExternals (d : Directory) (now : Time) : Directory :=
  d <| d_externals ::= map_imap (λ n e, Some (startCheck now n e)) |>.

(** Whether some external has a valid check, and some check is in flight. *)
Definition externalsState (d : Directory) (now : Time) : bool * bool :=
  map_fold (λ n e '(f, i), if excluded n then (f, i) else (f || fresh e now, i || ex_inflight e)) (false, false) (d_externals d).

(** The end of one check. *)
Definition checkExternal (d : Directory) (n : string) (now : Time) (r : result error Status) : Directory :=
  d <| d_externals ::= alter (λ e,
         let e := e <| ex_inflight := false |> <| ex_checkedAt := now |> <| ex_ok := is_ok r |> in
         match r with Ok st => e <| ex_round := s_LastRound st |> | Err _ => e end) n |>
    <| d_extDone ::= S |>.

(** ** What the router sees *)
Definition keys {A} (m : gmap string A) : list string := sort_strings ((map_to_list m).*1).

Definition localUpstream (d : Directory) (local : LocalState) (statsOf : string → Stats) (h : Health) : Upstream :=
  mkUpstream (do_LocalID o) KindLocal (do_LocalTier o) (ls_Endpoint local) (nc_Token (ls_Config local)) h (ls_LastRound local)
    (ls_Caps local) (d_draining d) false (statsOf (do_LocalID o)) "local" nzero.

(** A peer's judge after the snapshot, and its row. *)
Definition peerUpstream (d : Directory) (id : string) (p : peerState) (now : Time) (best : Z) (statsOf : string → Stats) : SyncJudge * Upstream :=
  let row health round caps draining source :=
    mkUpstream id KindPeer (nr_Tier (pe_rec p)) (EndpointFor (nr_Endpoints (pe_rec p)) (pe_hosts p) (curAddr d (peerLink p)))
      (nr_Token (pe_rec p)) health round caps draining (excluded id) (statsOf id) source nzero in
  if freshHB p now then
    let hb := pe_hb p in
    let '(j, h) := Judge (pe_judge p) now (hb_Online hb) (hb_LastRound hb) best in
    (j, row h (hb_LastRound hb) (hb_Caps hb) (hb_Draining hb) "heartbeat"%string)
  else if freshProbe p now then
    let '(j, h) := Judge (pe_judge p) now true (pe_probeRd p) best in
    let caps := if pe_hasHB p then hb_Caps (pe_hb p)
                else Apply (nr_Declared (pe_rec p))
                       (zeroCapabilities <| cap_OldestRound := OldestRoundFor (mkArchival ArchivalNone 0) (pe_probeRd p) |>) (pe_probeRd p) in
    (j, row h (pe_probeRd p) caps false "probe"%string)
  else ((Judge (pe_judge p) now false 0 best).1, row HealthOffline 0 zeroCapabilities false "none"%string).

Definition extUpstream (n : string) (e : extState) (now : Time) (best : Z) (statsOf : string → Stats) : Upstream :=
  let caps := Apply (eu_Capabilities (ex_cfg e))
                (zeroCapabilities <| cap_OldestRound := OldestRoundFor (mkArchival ArchivalNone 0) (ex_round e) |>
                                  <| cap_Archival := mkArchival ArchivalNone 0 |>) (ex_round e) in
  mkUpstream n KindExternal (eu_Tier (ex_cfg e)) (eu_URL (ex_cfg e)) (eu_Token (ex_cfg e))
    (if fresh e now then SyncHealth HealthOnline (ex_round e) best (do_SyncTolerance o) else HealthOffline)
    (ex_round e) caps false (excluded n) (statsOf n) (if fresh e now then "check" else "none") nzero.

(** The local node's row, judged: the directory after it and the row. *)
Definition snapLocal (d : Directory) (now : Time) (local : LocalState) (best : Z) (statsOf : string → Stats) : Directory * list Upstream :=
  if do_NoLocal o then (d, [])
  else let '(lj, lh) := Judge (d_localJudge d) now (ls_Online local) (ls_LastRound local) best in
       (d <| d_localJudge := lj |>, [localUpstream d local statsOf lh]).

Definition snapPeer (now : Time) (best : Z) (statsOf : string → Stats) (st : Directory * list Upstream) (id : string) : Directory * list Upstream :=
  let '(d, out) := st in
  match d_peers d !! id with
  | None => st
  | Some p => let '(j, u) := peerUpstream d id p now best statsOf in
      (d <| d_peers ::= <[id := p <| pe_judge := j |>]> |>, out ++ [u])
  end.

Definition Snapshot (d : Directory) (now nowb : Time) (local : LocalState) (statsOf : string → Stats) : Directory * list Upstream * Z :=
  let best := bestRound d nowb local in
  let '(d, out) := foldl (snapPeer now best statsOf) (snapLocal d now local best statsOf) (keys (d_peers d)) in
  (d, out ++ omap (λ n, (λ e, extUpstream n e now best statsOf) <$> d_externals d !! n) (keys (d_externals d)), best).

(** ** Status pages and waits *)
Record PathStatus := mkPathStatus {
  pst_Addr : string; pst_RTTMS : float64; pst_Alive : bool; pst_Deaf : bool; pst_NoRoute : bool; pst_Losses : Z;
  pst_LastPongAge : float64; pst_LastSeenAge : float64 }.
Record LinkStatus := mkLinkStatus { lst_Peer : string; lst_Balancer : bool; lst_Path : string; lst_Paths : list PathStatus }.

Definition age (now t : Time) : float64 := if IsZero t then nofZ (-1) else Seconds (time_sub now t).

Definition linkStatus (d : Directory) (now : Time) (balancer : bool) (l : nat) : LinkStatus :=
  mkLinkStatus (ln_id (link_of d l)) balancer (curAddr d l)
    (map (λ p, let p := path_of d p in
               mkPathStatus (pt_addr p) (nofZ (Microseconds (pt_rtt p)) / nofZ 1000)%num (alive p) (pt_deaf p) (pt_noRoute p) (pt_fails p)
                 (age now (pt_pongedAt p)) (age now (pt_lastSeen p)))
       (ln_paths (link_of d l))).

Definition LinkSnapshot (d : Directory) (now : Time) : list LinkStatus :=
  omap (λ id, (λ p, linkStatus d now false (peerLink p)) <$> d_peers d !! id) (keys (d_peers d)) ++
  omap (λ id, linkStatus d now true <$> d_balancers d !! id) (keys (d_balancers d)).

Definition HeartbeatRound (d : Directory) : Z := d_hbRound d.

(** One pass of WaitForHeartbeatRound: the round to answer, or None to wait
    until the channel counted by d_hbChanged is closed. *)
Definition heartbeatPast (d : Directory) (round : Z) : option Z :=
  if round <? d_hbRound d then Some (d_hbRound d) else None.

Definition Balancers (d : Directory) : list string := keys (d_balancers d).
Definition PeerCount (d : Directory) : Z := Z.of_nat (size (d_peers d)).
End Directory.
