(* ===== verification/DirectoryInv.v ===== *)
(** * DirectoryInv: the shape of the directory's heap, and that every
    operation keeps it

    [dir_wf]: every peer and balancer owns a link of its own, every link owns
    its paths, with distinct addresses and a current path among them or none,
    and no two outstanding pings share a nonce. *)
From S2P Require Import Prelude GoFloat GoStrings GoTime GoNet Types Ports Codec Health Path Endpoint Monitor Directory.
Open Scope Z_scope.

Definition addrs (d : Directory) (l : nat) : list string := (λ p, pt_addr (path_of d p)) <$> ln_paths (link_of d l).

(** The links the maps point to, by role and id. *)
Inductive owner := Peer (id : string) | Balancer (id : string).

Definition owned (d : Directory) (w : owner) : option nat :=
  match w with
  | Peer id => p ← d_peers d !! id; pe_ln p
  | Balancer id => d_balancers d !! id
  end.

Record link_wf (d : Directory) (x : link) : Prop := {
  lw_paths p : p ∈ ln_paths x → is_Some (d_pathst d !! p);
  lw_addrs : NoDup ((λ p, pt_addr (path_of d p)) <$> ln_paths x);
  lw_cur : -1 <= ln_cur x < Z.of_nat (length (ln_paths x))
}.

Record dir_wf (d : Directory) : Prop := {
  dw_peer id p : d_peers d !! id = Some p → is_Some (pe_ln p);
  dw_owned w l : owned d w = Some l → is_Some (d_links d !! l);
  dw_inj w w' l : owned d w = Some l → owned d w' = Some l → w = w';
  dw_link l x : d_links d !! l = Some x → link_wf d x;
  dw_disjoint l l' x x' p : d_links d !! l = Some x → d_links d !! l' = Some x' → p ∈ ln_paths x → p ∈ ln_paths x' → l = l';
  dw_next n : (d_next d <= n)%nat → d_links d !! n = None ∧ d_pathst d !! n = None;
  dw_nonce p x : d_pathst d !! p = Some x → 0 <= pt_nonce x <= d_nonce d;
  dw_unique p q x y : d_pathst d !! p = Some x → d_pathst d !! q = Some y → pt_nonce x = pt_nonce y → pt_nonce x ≠ 0 → p = q;
  dw_room : is_u64 (d_nonce d)
}.

(** ** Changes of one object *)

Lemma link_of_eq d l x : d_links d !! l = Some x → link_of d l = x.
Proof. unfold link_of. by intros ->. Qed.

Lemma path_of_eq d p x : d_pathst d !! p = Some x → path_of d p = x.
Proof. unfold path_of. by intros ->. Qed.

(** Only these parts matter to the invariant. *)
Definition heap (d : Directory) :=
  (pe_ln <$> d_peers d, d_balancers d, d_nonce d, d_links d, d_pathst d, d_next d).

Lemma owned_heap d d' w : heap d = heap d' → owned d w = owned d' w.
Proof.
  intros [= Hp Hb _ _ _ _]. destruct w as [id|id]; simpl; [| by rewrite Hb].
  assert (∀ d, (p ← d_peers d !! id; pe_ln p) = mjoin ((pe_ln <$> d_peers d) !! id)) as E
    by (intros e; rewrite lookup_fmap; by destruct (d_peers e !! id)).
  by rewrite !E, Hp.
Qed.

Lemma wf_heap d d' : heap d = heap d' → dir_wf d → dir_wf d'.
Proof.
  intros H [W1 W2 W3 W4 W5 W6 W7 W8 W9]. pose proof (owned_heap d d') as Ho.
  assert (∀ w, owned d' w = owned d w) as Ho' by (intros w; symmetry; by apply Ho).
  injection H as Hp Hb Hn Hl Hq Hx.
  assert (∀ p, path_of d' p = path_of d p) as Ep by (intros p; unfold path_of; by rewrite Hq).
  constructor; intros *; rewrite ?Ho', <- ?Hl, <- ?Hq, <- ?Hx, <- ?Hn; eauto.
  - intros E. apply (f_equal (λ m, m !! id)) in Hp. rewrite !lookup_fmap, E in Hp. simpl in Hp.
    destruct (d_peers d !! id) as [q|] eqn:Eq; [| done]. simpl in Hp. injection Hp as <-. eauto.
  - intros E. destruct (W4 _ _ E) as [A B C]. constructor; rewrite <- ?Hq; [done | | done].
    erewrite list_fmap_ext; [exact B |]. intros i p _. by rewrite Ep.
Qed.

(** A change of a path that keeps its address, and its nonce or clears it. *)
Definition mild (f : pathState → pathState) : Prop :=
  ∀ x, pt_addr (f x) = pt_addr x ∧ (pt_nonce (f x) = pt_nonce x ∨ pt_nonce (f x) = 0).

Lemma set_path_addr d p f q :
  (∀ x, pt_addr (f x) = pt_addr x) → pt_addr (path_of (set_path p f d) q) = pt_addr (path_of d q).
Proof.
  intros Hf. unfold path_of, set_path. simpl. destruct (decide (p = q)) as [->|Hne].
  - rewrite lookup_alter_eq. destruct (d_pathst d !! q); simpl; [apply Hf | done].
  - by rewrite lookup_alter_ne.
Qed.

Lemma set_path_link_wf d p f x :
  (∀ x, pt_addr (f x) = pt_addr x) → link_wf d x → link_wf (set_path p f d) x.
Proof.
  intros Hf [A B C]. constructor; [| | done].
  - intros q Hq. unfold set_path. simpl. destruct (A q Hq) as [y Hy]. destruct (decide (p = q)) as [->|Hne].
    + rewrite lookup_alter_eq, Hy. eauto.
    + rewrite lookup_alter_ne, Hy by done. eauto.
  - erewrite list_fmap_ext; [exact B |]. intros i q _. by apply set_path_addr.
Qed.

Lemma wf_set_path d p f : mild f → dir_wf d → dir_wf (set_path p f d).
Proof.
  intros Hf [W1 W2 W3 W4 W5 W6 W7 W8 W9].
  assert (∀ q y, d_pathst (set_path p f d) !! q = Some y →
            ∃ x, d_pathst d !! q = Some x ∧ (pt_nonce y = pt_nonce x ∨ pt_nonce y = 0)) as Hx.
  { intros q y. unfold set_path. simpl. destruct (decide (p = q)) as [->|Hne].
    - rewrite lookup_alter_eq. destruct (d_pathst d !! q) as [x|]; [| done]. intros [= <-]. exists x. split; [done | apply Hf].
    - rewrite lookup_alter_ne by done. intros ->. eauto. }
  constructor; try done.
  - intros l x E. apply set_path_link_wf; [apply Hf | eauto].
  - intros n Hn. destruct (W6 n Hn) as [A B]. split; [done |]. unfold set_path. simpl.
    destruct (decide (p = n)) as [->|Hne]; [by rewrite lookup_alter_eq, B | by rewrite lookup_alter_ne].
  - intros q y E. destruct (Hx q y E) as (x & E' & En). specialize (W7 q x E'). change (d_nonce (set_path p f d)) with (d_nonce d). lia.
  - intros q r y z E1 E2 En Hz. destruct (Hx q y E1) as (x1 & E1' & N1), (Hx r z E2) as (x2 & E2' & N2).
    apply (W8 q r x1 x2); [done | done | |]; lia.
Qed.

(** A change of a link that keeps its paths. *)
Lemma wf_set_link d l f :
  (∀ x, ln_paths (f x) = ln_paths x) →
  (∀ x, d_links d !! l = Some x → -1 <= ln_cur (f x) < Z.of_nat (length (ln_paths x))) →
  dir_wf d → dir_wf (set_link l f d).
Proof.
  intros Hp Hc [W1 W2 W3 W4 W5 W6 W7 W8 W9].
  assert (∀ k y, d_links (set_link l f d) !! k = Some y →
            ∃ x, d_links d !! k = Some x ∧ ln_paths y = ln_paths x ∧ link_wf d y) as Hx.
  { intros k y. unfold set_link. simpl. destruct (decide (l = k)) as [->|Hne].
    - rewrite lookup_alter_eq. destruct (d_links d !! k) as [x|] eqn:E; [| done]. intros [= <-]. exists x.
      destruct (W4 k x E) as [A B C]. split; [done |]. split; [apply Hp |].
      constructor; rewrite Hp; [done | done | by apply Hc].
    - rewrite lookup_alter_ne by done. intros E. rewrite E. eauto. }
  constructor; try done.
  - intros w k E. unfold set_link. simpl. destruct (W2 w k E) as [x Ex]. destruct (decide (l = k)) as [->|Hne].
    + rewrite lookup_alter_eq, Ex. eauto.
    + rewrite lookup_alter_ne, Ex by done. eauto.
  - intros k y E. destruct (Hx k y E) as (x & E' & Ep & [A B C]). by constructor.
  - intros k k' y y' q E1 E2 H1 H2. destruct (Hx k y E1) as (x & E1' & P1 & _), (Hx k' y' E2) as (x' & E2' & P2 & _).
    rewrite P1 in H1. rewrite P2 in H2. eauto.
  - intros n Hn. destruct (W6 n Hn) as [A B]. split; [| done]. unfold set_link. simpl.
    destruct (decide (l = n)) as [->|Hne]; [by rewrite lookup_alter_eq, A | by rewrite lookup_alter_ne].
Qed.

#[export] Hint Resolve wf_set_path : mesh.

(** ** syncLink *)

Lemma oldPaths_spec d paths :
  NoDup ((λ p, pt_addr (path_of d p)) <$> paths) →
  ∀ a p, oldPaths d paths !! a = Some p ↔ p ∈ paths ∧ pt_addr (path_of d p) = a.
Proof.
  intros Hnd. assert (∀ m : gmap string nat,
    (∀ q, q ∈ paths → m !! pt_addr (path_of d q) = None) →
    ∀ a p, foldl (λ m p, <[pt_addr (path_of d p) := p]> m) m paths !! a = Some p ↔
           (p ∈ paths ∧ pt_addr (path_of d p) = a) ∨ m !! a = Some p) as H.
  { induction paths as [|q paths IH]; intros m Hm a p; simpl.
    - rewrite elem_of_nil. tauto.
    - simpl in Hnd. apply NoDup_cons in Hnd as [Hq Hnd]. rewrite IH; [| done |].
      + rewrite elem_of_cons. destruct (decide (pt_addr (path_of d q) = a)) as [<-|Hne].
        * rewrite lookup_insert_eq. split; [intros [[? ?]|[= ->]]; tauto |].
          intros [[[->|Hin] E]|E]; [by right | by left | rewrite Hm in E by left; done].
        * rewrite lookup_insert_ne by done. split; [tauto |]. intros [[[->|Hin] E]|E]; [done | by left | by right].
      + intros r Hr. rewrite lookup_insert_ne; [apply Hm; by right |]. intros E. apply Hq. rewrite E.
        apply list_elem_of_fmap. eauto. }
  intros a p. unfold oldPaths. rewrite H; [| done]. rewrite lookup_empty. split; [intros [?|?]; done | by left].
Qed.

(** Where the loop of syncLink stands after some addresses, newest first in
    seen; ca is the current address. *)
Record sync_inv (d0 : Directory) (old : gmap string nat) (ca : string) (d : Directory) (paths : list nat) (seen : list string) (cur : Z) : Prop := {
  si_same : d = d0 <| d_pathst := d_pathst d |> <| d_next := d_next d |>;
  si_next : (d_next d0 <= d_next d)%nat;
  si_free n : (d_next d <= n)%nat → d_pathst d !! n = None;
  si_keep n x : d_pathst d0 !! n = Some x → d_pathst d !! n = Some x;
  si_new n x : d_pathst d !! n = Some x → d_pathst d0 !! n = Some x ∨
    ((d_next d0 <= n < d_next d)%nat ∧ ∃ a, x = newPath a ∧ old !! a = None);
  si_addrs : (λ p, pt_addr (path_of d p)) <$> paths = reverse seen;
  si_nodup : NoDup seen;
  si_src p : p ∈ paths → is_Some (d_pathst d !! p) ∧ (old !! pt_addr (path_of d p) = Some p ∨ (d_next d0 <= p)%nat);
  si_cur : (cur = -1 ∧ ca ∉ seen) ∨ ∃ i, cur = Z.of_nat i ∧ reverse seen !! i = Some ca
}.

(** What old must be. *)
Definition old_ok (d0 : Directory) (old : gmap string nat) : Prop :=
  (∀ a p, old !! a = Some p → ∃ x, d_pathst d0 !! p = Some x ∧ pt_addr x = a) ∧
  (∀ n, (d_next d0 <= n)%nat → d_pathst d0 !! n = None).

Lemma sync_cur_step ca a seen cur (paths : list nat) :
  length paths = length seen → a ∉ seen →
  (cur = -1 ∧ ca ∉ seen) ∨ (∃ i, cur = Z.of_nat i ∧ reverse seen !! i = Some ca) →
  let cur' := if a =s ca then Z.of_nat (length paths) else cur in
  (cur' = -1 ∧ ca ∉ a :: seen) ∨ ∃ i, cur' = Z.of_nat i ∧ reverse (a :: seen) !! i = Some ca.
Proof.
  intros Hlen Ha H. simpl. rewrite reverse_cons. destruct (String.eqb_spec a ca) as [->|Hne].
  - right. exists (length seen). rewrite Hlen. split; [done |].
    rewrite lookup_app_r by (rewrite length_reverse; lia). by rewrite length_reverse, Nat.sub_diag.
  - destruct H as [[-> Hn]|(i & -> & Hi)]; [left; split; [done | by apply not_elem_of_cons] | right].
    exists i. split; [done |]. by rewrite lookup_app, Hi.
Qed.

Lemma sync_step d0 old ca d paths seen cur a :
  old_ok d0 old → sync_inv d0 old ca d paths seen cur →
  let a' := NormalizeAddr a in
  let '(d', paths', seen', cur') := syncAddr old ca (d, paths, seen, cur) a in
  sync_inv d0 old ca d' paths' seen' cur' ∧ seen' = (if elem a' seen then seen else a' :: seen).
Proof.
  intros [Ho Hfree] [S1 S2 S3 S4 S5 S6 S7 S8 S9]. simpl. set (a' := NormalizeAddr a).
  destruct (elem a' seen) eqn:Ee; [by split |].
  assert (a' ∉ seen) as Ha by (intros H; apply elem_In in H; congruence).
  assert (length paths = length seen) as Hlen
    by (apply (f_equal length) in S6; by rewrite length_fmap, length_reverse in S6).
  pose proof (sync_cur_step ca a' seen cur paths Hlen Ha S9) as S9'.
  destruct (old !! a') as [p|] eqn:Eo; (split; [| done]).
  - destruct (Ho _ _ Eo) as (x & Hx & Hxa). pose proof (S4 _ _ Hx) as Hx'.
    constructor; try done.
    + rewrite fmap_app, reverse_cons, S6. simpl. by rewrite (path_of_eq d p x Hx'), Hxa.
    + by apply NoDup_cons.
    + intros q [Hq|Hq]%elem_of_app; [by apply S8 |]. apply list_elem_of_singleton in Hq as ->.
      rewrite (path_of_eq d p x Hx'), Hxa. eauto.
  - set (d1 := d <| d_pathst ::= _ |> <| d_next ::= S |>).
    assert (∀ q, q ≠ d_next d → d_pathst d1 !! q = d_pathst d !! q) as Hne by (intros q Hq; by apply lookup_insert_ne).
    assert (d_pathst d1 !! d_next d = Some (newPath a')) as Heq by apply lookup_insert_eq.
    assert (∀ q, q ∈ paths → q ≠ d_next d) as Hin.
    { intros q Hq ->. destruct (S8 _ Hq) as [[y Hy] _]. rewrite S3 in Hy by lia. done. }
    assert (∀ q, q ∈ paths → path_of d1 q = path_of d q) as Hp.
    { intros q Hq. unfold path_of. by rewrite Hne by auto. }
    constructor.
    + unfold d1. rewrite S1. reflexivity.
    + change (d_next d1) with (S (d_next d)). lia.
    + intros n Hn. change (d_next d1) with (S (d_next d)) in Hn. rewrite Hne by lia. apply S3. lia.
    + intros n x Hx. rewrite Hne; [by apply S4 |]. intros ->. rewrite Hfree in Hx by lia. done.
    + intros n x. change (d_next d1) with (S (d_next d)). destruct (decide (n = d_next d)) as [->|Hn].
      * rewrite Heq. intros [= <-]. right. split; [lia | eauto].
      * rewrite Hne by done. intros Hx. destruct (S5 n x Hx) as [?|[? ?]]; [by left | right]. split; [lia | done].
    + rewrite fmap_app, reverse_cons, <- S6. f_equal; [| simpl; by rewrite (path_of_eq _ _ _ Heq)].
      apply list_fmap_ext. intros i q Hq. rewrite Hp; [done | by eapply list_elem_of_lookup_2].
    + by apply NoDup_cons.
    + intros q [Hq|Hq]%elem_of_app; [rewrite Hne, Hp by auto; by apply S8 |].
      apply list_elem_of_singleton in Hq as ->. rewrite Heq. split; [eauto | right; lia].
    + exact S9'.
Qed.

Definition distinctStep (seen : list string) (a : string) : list string := if elem a seen then seen else a :: seen.

(** The first occurrence of each, in order. *)
Definition distinct (l : list string) : list string := reverse (foldl distinctStep [] l).

Lemma sync_fold d0 old ca l d paths seen cur :
  old_ok d0 old → sync_inv d0 old ca d paths seen cur →
  ∃ d' paths' cur', foldl (syncAddr old ca) (d, paths, seen, cur) l =
    (d', paths', foldl distinctStep seen (NormalizeAddr <$> l), cur') ∧
    sync_inv d0 old ca d' paths' (foldl distinctStep seen (NormalizeAddr <$> l)) cur'.
Proof.
  intros Ho. revert d paths seen cur. induction l as [|a l IH]; intros d paths seen cur H.
  - exists d, paths, cur. by split.
  - pose proof (sync_step d0 old ca d paths seen cur a Ho H) as Hs. cbn [foldl fmap list_fmap].
    destruct (syncAddr old ca (d, paths, seen, cur) a) as [[[d1 paths1] seen1] cur1]. destruct Hs as [Hs ->].
    by apply IH.
Qed.

(** What syncLink makes of the link l of d (a fresh one if it had none). *)
Record synced_link (d : Directory) (lo : option nat) (r : NodeRecord) (d' : Directory) (l : nat) : Prop := {
  sl_ptr : l = default (d_next d) lo;
  sl_same : d' = d <| d_links := d_links d' |> <| d_pathst := d_pathst d' |> <| d_next := d_next d' |>;
  sl_next : (d_next d <= d_next d')%nat ∧ (d_next d = l → d_next d < d_next d')%nat;
  sl_free n : (d_next d' <= n)%nat → d_links d' !! n = None ∧ d_pathst d' !! n = None;
  sl_links k : k ≠ l → d_links d' !! k = d_links d !! k;
  sl_link : ∃ x, d_links d' !! l = Some x ∧ ln_pub x = ai_PubKey (nr_Agent r) ∧
    ln_switchedAt x = ln_switchedAt (link_of d l) ∧ ln_heardAt x = ln_heardAt (link_of d l) ∧
    -1 <= ln_cur x < Z.of_nat (length (ln_paths x));
  sl_addrs : addrs d' l = distinct (NormalizeAddr <$> GossipAddrs (nr_Agent r));
  sl_nodup : NoDup (addrs d' l);
  sl_keep n x : d_pathst d !! n = Some x → d_pathst d' !! n = Some x;
  sl_new n x : d_pathst d' !! n = Some x → d_pathst d !! n = Some x ∨
    ((d_next d <= n)%nat ∧ ∃ a, x = newPath a ∧ ∀ p, p ∈ ln_paths (link_of d l) → pt_addr (path_of d p) ≠ a);
  sl_src p : p ∈ ln_paths (link_of d' l) → is_Some (d_pathst d' !! p) ∧
    (p ∈ ln_paths (link_of d l) ∨ (d_next d <= p)%nat);
  sl_survive p : p ∈ ln_paths (link_of d l) → pt_addr (path_of d p) ∈ addrs d' l → p ∈ ln_paths (link_of d' l);
  sl_cur : (ln_cur (link_of d' l) = -1 ∧ curAddr d l ∉ addrs d' l) ∨
    (∃ q, curPath d' l = Some q ∧ pt_addr (path_of d' q) = curAddr d l) ∧ curAddr d l ∈ addrs d' l
}.

Lemma curPath_elem d l p : curPath d l = Some p → p ∈ ln_paths (link_of d l).
Proof. unfold curPath. destruct (_ <? 0); [done |]. apply list_elem_of_lookup_2. Qed.

(** The link a sync starts from: the given one, or a fresh empty one. *)
Definition startLink (d : Directory) (lo : option nat) (r : NodeRecord) : Directory * nat :=
  let '(d, l) := match lo with
                 | Some l => (d, l)
                 | None => (d <| d_links ::= <[d_next d := newLink (nr_ID r)]> |> <| d_next ::= S |>, d_next d)
                 end in
  (set_link l (λ x, x <| ln_pub := ai_PubKey (nr_Agent r) |>) d, l).

Record started (d : Directory) (lo : option nat) (r : NodeRecord) (d1 : Directory) (l : nat) (x : link) : Prop := {
  st_ptr : l = default (d_next d) lo;
  st_same : d1 = d <| d_links := d_links d1 |> <| d_next := d_next d1 |>;
  st_next : (d_next d <= d_next d1)%nat ∧ (d_next d = l → d_next d < d_next d1)%nat;
  st_free n : (d_next d1 <= n)%nat → d_links d1 !! n = None;
  st_links k : k ≠ l → d_links d1 !! k = d_links d !! k;
  st_link : d_links d1 !! l = Some x;
  st_pub : ln_pub x = ai_PubKey (nr_Agent r);
  st_rest : ln_switchedAt x = ln_switchedAt (link_of d l) ∧ ln_heardAt x = ln_heardAt (link_of d l) ∧
    ln_paths x = ln_paths (link_of d l) ∧ ln_cur x = ln_cur (link_of d l);
  st_wf : link_wf d x
}.

Lemma startLink_spec d lo r :
  dir_wf d → (∀ l, lo = Some l → is_Some (d_links d !! l)) →
  ∃ x, started d lo r (startLink d lo r).1 (startLink d lo r).2 x.
Proof.
  intros W Hl. unfold startLink. destruct lo as [l|]; simpl.
  - destruct (Hl l eq_refl) as [y Hy].
    assert (l < d_next d)%nat as Hlt.
    { destruct (decide (d_next d <= l)%nat) as [Hge|]; [| lia]. destruct (dw_next d W l Hge). congruence. }
    exists (y <| ln_pub := ai_PubKey (nr_Agent r) |>). constructor; simpl; unfold set_link; simpl; try done; try lia.
    + intros n Hn. rewrite lookup_alter_ne by lia. by apply (dw_next d W).
    + intros k Hk. by rewrite lookup_alter_ne.
    + by rewrite lookup_alter_eq, Hy.
    + by rewrite (link_of_eq d l y Hy).
    + destruct (dw_link d W l y Hy) as [A B C]. by constructor.
  - destruct (dw_next d W (d_next d)) as [E1 E2]; [lia |].
    exists ((newLink (nr_ID r)) <| ln_pub := ai_PubKey (nr_Agent r) |>). constructor; simpl; unfold set_link; simpl; try done; try lia.
    + intros n Hn. rewrite lookup_alter_ne, lookup_insert_ne by lia. apply (dw_next d W). lia.
    + intros k Hk. by rewrite lookup_alter_ne, lookup_insert_ne by done.
    + by rewrite lookup_alter_eq, lookup_insert_eq.
    + unfold link_of. by rewrite E1.
    + constructor; simpl; [intros p Hp; by apply elem_of_nil in Hp | constructor | lia].
Qed.

Lemma syncLink_start d lo r :
  syncLink d lo r =
  let '(d1, l) := startLink d lo r in
  let '(d2, paths, _, cur) :=
    foldl (syncAddr (oldPaths d1 (ln_paths (link_of d1 l))) (curAddr d1 l)) (d1, [], [], -1) (GossipAddrs (nr_Agent r)) in
  (set_link l (λ x, x <| ln_cur := cur |> <| ln_paths := paths |>) d2, l).
Proof. unfold syncLink, startLink. by destruct lo. Qed.

Lemma sync_inv_init d old ca : (∀ n, (d_next d <= n)%nat → d_pathst d !! n = None) → sync_inv d old ca d [] [] (-1).
Proof.
  intros H. constructor; try done; auto.
  - by destruct d.
  - constructor.
  - intros p Hp. by apply elem_of_nil in Hp.
  - left. split; [done | by intros ?%elem_of_nil].
Qed.

(** What the loop leaves, as a link. *)
Lemma sync_inv_link d0 old ca d paths seen cur :
  sync_inv d0 old ca d paths seen cur →
  -1 <= cur < Z.of_nat (length paths) ∧
  ((cur = -1 ∧ ca ∉ seen) ∨ ∃ p, paths !! Z.to_nat cur = Some p ∧ pt_addr (path_of d p) = ca ∧ 0 <= cur ∧ ca ∈ seen).
Proof.
  intros [_ _ _ _ _ S6 _ _ S9]. destruct S9 as [[-> Hn]|(i & -> & Hi)]; [split; [lia | by left] |].
  rewrite <- S6, list_lookup_fmap in Hi. destruct (paths !! i) as [p|] eqn:Ei; [| done]. simpl in Hi. injection Hi as Hi.
  pose proof (lookup_lt_Some _ _ _ Ei). split; [lia |]. right. exists p. rewrite Nat2Z.id. split_and!; try done; [lia |].
  rewrite <- elem_of_reverse, <- S6, <- Hi. apply list_elem_of_fmap. exists p. split; [done | by eapply list_elem_of_lookup_2].
Qed.

Lemma started_path d lo r d1 l x p : started d lo r d1 l x → path_of d1 p = path_of d p.
Proof. intros H. unfold path_of. by rewrite (st_same _ _ _ _ _ _ H). Qed.

Lemma started_curAddr d lo r d1 l x : started d lo r d1 l x → curAddr d1 l = curAddr d l.
Proof.
  intros H. destruct (st_rest _ _ _ _ _ _ H) as (_ & _ & Hps & Hcur). unfold curAddr, curPath.
  rewrite (link_of_eq d1 l x (st_link _ _ _ _ _ _ H)), Hps, Hcur.
  destruct (if ln_cur (link_of d l) <? 0 then None else _); [by rewrite (started_path _ _ _ _ _ _ _ H) | done].
Qed.

Lemma started_old d lo r d1 l x :
  dir_wf d → started d lo r d1 l x →
  (∀ a p, oldPaths d1 (ln_paths x) !! a = Some p ↔ p ∈ ln_paths x ∧ pt_addr (path_of d p) = a) ∧
  old_ok d1 (oldPaths d1 (ln_paths x)).
Proof.
  intros W H. pose proof (λ p, started_path _ _ _ _ _ _ p H) as Hpo. destruct (st_wf _ _ _ _ _ _ H) as [X1 X2 X3].
  assert (d_pathst d1 = d_pathst d) as Hpt by by rewrite (st_same _ _ _ _ _ _ H).
  assert (∀ a p, oldPaths d1 (ln_paths x) !! a = Some p ↔ p ∈ ln_paths x ∧ pt_addr (path_of d p) = a) as Hold.
  { intros a p. rewrite oldPaths_spec; [by rewrite Hpo |].
    erewrite list_fmap_ext; [exact X2 |]. intros i q _. by rewrite Hpo. }
  split; [done |]. split.
  - intros a p [Hin E]%Hold. rewrite Hpt. destruct (X1 p Hin) as [y Hy]. exists y. split; [done |].
    by rewrite (path_of_eq d p y Hy) in E.
  - intros n Hn. rewrite Hpt. apply (dw_next d W). destruct (st_next _ _ _ _ _ _ H). lia.
Qed.

Lemma syncLink_spec d lo r :
  dir_wf d → (∀ l, lo = Some l → is_Some (d_links d !! l)) →
  synced_link d lo r (syncLink d lo r).1 (syncLink d lo r).2.
Proof.
  intros W Hl. rewrite syncLink_start. destruct (startLink_spec d lo r W Hl) as [x H].
  destruct (startLink d lo r) as [d1 l]. cbn [fst snd] in H. destruct (started_old _ _ _ _ _ _ W H) as [Hold Hok].
  pose proof (started_curAddr _ _ _ _ _ _ H) as Hca.
  destruct H as [Hptr Hsame [Hn1 Hn2] Hfree Hlinks Hx Hpub (Hsw & Hhe & Hps & Hcur) [X1 X2 X3]].
  assert (d_pathst d1 = d_pathst d) as Hpt by by rewrite Hsame.
  rewrite (link_of_eq d1 l x Hx), Hca. set (old := oldPaths d1 (ln_paths x)) in *.
  destruct (sync_fold d1 old (curAddr d l) (GossipAddrs (nr_Agent r)) d1 [] [] (-1)) as (d2 & paths & cur & -> & I);
    [done | by apply sync_inv_init, Hok |].
  set (seen := foldl distinctStep [] _) in I.
  destruct (sync_inv_link _ _ _ _ _ _ _ I) as [Hrange Hcases]. destruct I as [I1 I2 I3 I4 I5 I6 I7 I8 _].
  assert (d_links d2 = d_links d1) as Hl2 by by rewrite I1.
  set (d' := set_link l _ d2). cbn [fst snd]. rewrite Hpt in I4, I5.
  set (y := x <| ln_cur := cur |> <| ln_paths := paths |>).
  assert (d_links d' !! l = Some y) as Hy by (unfold d', set_link; simpl; by rewrite lookup_alter_eq, Hl2, Hx).
  assert (link_of d' l = y) as Hlo by by apply link_of_eq.
  assert (addrs d' l = reverse seen) as Had by (unfold addrs; rewrite Hlo; exact I6).
  assert (∀ k, k ≠ l → d_links d' !! k = d_links d1 !! k) as Hne
    by (intros k Hk; unfold d', set_link; simpl; by rewrite lookup_alter_ne, Hl2).
  constructor; rewrite ?Had, ?Hlo; try done.
  - unfold d', set_link. rewrite I1, Hsame. reflexivity.
  - change (d_next d') with (d_next d2). lia.
  - intros n Hn. change (d_next d') with (d_next d2) in Hn. split; [| by apply I3].
    rewrite Hne; [apply Hfree; lia |]. intros ->. rewrite Hfree in Hx by lia. done.
  - intros k Hk. by rewrite Hne, Hlinks.
  - exists y. split; [done |]. split; [exact Hpub |]. split; [exact Hsw |]. split; [exact Hhe | exact Hrange].
  - rewrite (reverse_Permutation seen). exact I7.
  - intros n z Hz. destruct (I5 n z Hz) as [?|(Hn & a & -> & Ha)]; [by left | right]. split; [lia |]. exists a. split; [done |].
    intros p Hp E. rewrite <- Hps in Hp. by rewrite (proj2 (Hold a p) (conj Hp E)) in Ha.
  - intros p Hp. destruct (I8 p Hp) as [A [B|B]]; (split; [done |]); [left | right; lia].
    rewrite <- Hps. by apply Hold in B as [B _].
  - intros p Hp Hin. rewrite <- Hps in Hp. destruct (X1 p Hp) as [z Hz]. simpl.
    rewrite <- I6, (path_of_eq d p z Hz) in Hin. apply list_elem_of_fmap in Hin as (q & Eq & Hq).
    destruct (I8 q Hq) as [[w Hw] [B|B]].
    + rewrite <- Eq, (proj2 (Hold _ p)) in B; [by injection B as -> | split; [done |]; by rewrite (path_of_eq d p z Hz)].
    + rewrite (path_of_eq _ _ _ Hw) in Eq. destruct (I5 q w Hw) as [Hq'|(_ & a & -> & Ha)].
      * destruct (dw_next d W q); [lia | congruence].
      * simpl in Eq. subst a. rewrite (proj2 (Hold _ p)) in Ha; [done | split; [done |]; by rewrite (path_of_eq d p z Hz)].
  - destruct Hcases as [[-> Hn]|(p & Hp & Ea & Hc & Hin)]; [left; split; [done | by rewrite elem_of_reverse] | right].
    rewrite elem_of_reverse. split; [| done]. exists p. split; [| exact Ea]. unfold curPath. rewrite Hlo.
    change (ln_cur y) with cur. change (ln_paths y) with paths. cbn zeta. by rewrite (proj2 (Z.ltb_ge cur 0)) by lia.
Qed.

Lemma path_lt d p x : dir_wf d → d_pathst d !! p = Some x → (p < d_next d)%nat.
Proof. intros W H. destruct (decide (d_next d <= p)%nat) as [Hge|]; [| lia]. destruct (dw_next d W p Hge). congruence. Qed.

Lemma link_lt d l x : dir_wf d → d_links d !! l = Some x → (l < d_next d)%nat.
Proof. intros W H. destruct (decide (d_next d <= l)%nat) as [Hge|]; [| lia]. destruct (dw_next d W l Hge). congruence. Qed.

(** A path of a link, as the heap has it. *)
Lemma link_path d l p : dir_wf d → p ∈ ln_paths (link_of d l) → ∃ x, d_links d !! l = Some x ∧ p ∈ ln_paths x ∧ is_Some (d_pathst d !! p).
Proof.
  intros W. unfold link_of. destruct (d_links d !! l) as [x|] eqn:E; simpl; [| by intros ?%elem_of_nil].
  intros Hp. exists x. split_and!; try done. by apply (dw_link d W l x E).
Qed.

Lemma link_wf_keep d d' x :
  (∀ n y, d_pathst d !! n = Some y → d_pathst d' !! n = Some y) → link_wf d x → link_wf d' x.
Proof.
  intros Hk [A B C]. constructor; [| | done].
  - intros p Hp. destruct (A p Hp) as [y Hy]. eauto.
  - erewrite list_fmap_ext; [exact B |]. intros i p Hp. apply list_elem_of_lookup_2 in Hp.
    destruct (A p Hp) as [y Hy]. by rewrite (path_of_eq _ _ _ Hy), (path_of_eq _ _ _ (Hk _ _ Hy)).
Qed.

Section Synced.
Context (d : Directory) (lo : option nat) (r : NodeRecord) (d' : Directory) (l : nat).
Context (W : dir_wf d) (Hlo : ∀ l, lo = Some l → is_Some (d_links d !! l)) (S : synced_link d lo r d' l).

Lemma synced_owned w : owned d' w = owned d w.
Proof. unfold owned. by rewrite (sl_same _ _ _ _ _ S). Qed.

Lemma synced_links_wf k x : d_links d' !! k = Some x → link_wf d' x.
Proof.
  intros E. destruct (decide (k = l)) as [->|Hne].
  - destruct (sl_link _ _ _ _ _ S) as (y & Hy & _ & _ & _ & Hr). assert (y = x) as -> by congruence.
    pose proof (sl_nodup _ _ _ _ _ S) as Hn. unfold addrs in Hn.
    pose proof (sl_src _ _ _ _ _ S) as Hs. rewrite (link_of_eq d' l x Hy) in *.
    constructor; [intros p Hp; by apply Hs | done | done].
  - rewrite (sl_links _ _ _ _ _ S) in E by done. eapply link_wf_keep; [apply (sl_keep _ _ _ _ _ S) | by eapply (dw_link d W)].
Qed.

(** A path of l after the sync belonged to no other link. *)
Lemma synced_apart k x p : k ≠ l → d_links d' !! k = Some x → p ∈ ln_paths x → p ∉ ln_paths (link_of d' l).
Proof.
  intros Hne E Hp Hin. rewrite (sl_links _ _ _ _ _ S) in E by done.
  destruct (lw_paths d x (dw_link d W k x E) p Hp) as [y Hy]. pose proof (path_lt d p y W Hy).
  destruct (sl_src _ _ _ _ _ S p Hin) as [_ [Hold|]]; [| lia].
  destruct (link_path d l p W Hold) as (z & Hz & Hpz & _). apply Hne. by eapply (dw_disjoint d W).
Qed.

Lemma synced_wf : dir_wf d'.
Proof.
  pose proof synced_owned as Ho. destruct (sl_link _ _ _ _ _ S) as (y & Hy & _).
  assert (d_peers d' = d_peers d ∧ d_nonce d' = d_nonce d) as [Hp Hn] by (by rewrite (sl_same _ _ _ _ _ S)).
  constructor.
  - intros id p. rewrite Hp. apply (dw_peer d W).
  - intros w k. rewrite Ho. intros E. destruct (decide (k = l)) as [->|Hne]; [by rewrite Hy |].
    rewrite (sl_links _ _ _ _ _ S) by done. by eapply (dw_owned d W).
  - intros w w' k. rewrite !Ho. apply (dw_inj d W).
  - apply synced_links_wf.
  - intros k k' x x' p E E' H H'. destruct (decide (k = l)) as [->|Hne], (decide (k' = l)) as [->|Hne']; try done.
    + exfalso. apply (synced_apart k' x' p Hne' E' H'). by rewrite (link_of_eq d' l x E).
    + exfalso. apply (synced_apart k x p Hne E H). by rewrite (link_of_eq d' l x' E').
    + rewrite (sl_links _ _ _ _ _ S) in E, E' by done. by eapply (dw_disjoint d W).
  - apply (sl_free _ _ _ _ _ S).
  - intros p x E. rewrite Hn. destruct (sl_new _ _ _ _ _ S p x E) as [?|(_ & a & -> & _)]; [by eapply (dw_nonce d W) |].
    simpl. pose proof (dw_room d W). mlia.
  - intros p q x x' E E' En Hz.
    destruct (sl_new _ _ _ _ _ S p x E) as [?|(_ & a & -> & _)]; [| done].
    destruct (sl_new _ _ _ _ _ S q x' E') as [?|(_ & a & -> & _)]; [| simpl in En; congruence].
    by eapply (dw_unique d W).
  - rewrite Hn. apply (dw_room d W).
Qed.
End Synced.

(** ** The other operations *)

Definition objects (d : Directory) := (d_nonce d, d_links d, d_pathst d, d_next d).

(** New owners of the same objects. *)
Lemma wf_roots d d' :
  objects d = objects d' →
  (∀ id p, d_peers d' !! id = Some p → is_Some (pe_ln p)) →
  (∀ w l, owned d' w = Some l → is_Some (d_links d !! l)) →
  (∀ w w' l, owned d' w = Some l → owned d' w' = Some l → w = w') →
  dir_wf d → dir_wf d'.
Proof.
  intros [= Hn Hl Hq Hx] H1 H2 H3 [_ _ _ W4 W5 W6 W7 W8 W9].
  assert (∀ p, path_of d' p = path_of d p) as Ep by (intros p; unfold path_of; by rewrite Hq).
  constructor; rewrite <- ?Hl, <- ?Hq, <- ?Hx, <- ?Hn; eauto.
  intros l x E. destruct (W4 _ _ E) as [A B C]. constructor; rewrite <- ?Hq; [done | | done].
  erewrite list_fmap_ext; [exact B |]. intros i p _. by rewrite Ep.
Qed.

Lemma Choose_range d l now p since i why :
  Choose p now (stats d l) (ln_cur (link_of d l)) since = (i, why) → -1 <= i < Z.of_nat (length (ln_paths (link_of d l))).
Proof.
  intros [[-> _]|(b & Hb & _)]%Choose_cases; [lia |]. unfold path_at in Hb. destruct (Z.ltb_spec i 0); [done |].
  apply lookup_lt_Some in Hb. unfold stats in Hb. rewrite length_map in Hb. lia.
Qed.

Section Ops.
Context (o : DirectoryOptions).

Lemma chooseLocked_wf d l now : dir_wf d → dir_wf (chooseLocked o d l now).1.
Proof.
  intros W. unfold chooseLocked. destruct (do_NoLocal o); [done |].
  destruct (Choose _ _ _ _ _) as [i why] eqn:E. destruct (i =? _); [done |]. simpl.
  apply wf_set_link; [done | | done]. intros x Hx. pose proof (Choose_range _ _ _ _ _ _ _ E) as H.
  by rewrite (link_of_eq d l x Hx) in H.
Qed.

(** chooseLocked only sets cur and switchedAt of its link. *)
Lemma chooseLocked_frame d l now :
  ∃ f, (chooseLocked o d l now).1 = set_link l f d ∧ ∀ x, ln_id (f x) = ln_id x ∧ ln_pub (f x) = ln_pub x ∧ ln_paths (f x) = ln_paths x ∧ ln_heardAt (f x) = ln_heardAt x.
Proof.
  assert (∀ d, d = set_link l (λ x, x) d) as Hid.
  { intros e. unfold set_link. destruct e. unfold set. simpl. f_equal. apply map_eq. intros k.
    destruct (decide (l = k)) as [->|]; [rewrite lookup_alter_eq; by destruct (_ !! k) | by rewrite lookup_alter_ne]. }
  unfold chooseLocked. destruct (do_NoLocal o); [exists (λ x, x); by rewrite <- Hid |].
  destruct (Choose _ _ _ _ _) as [i why]. destruct (i =? _); [exists (λ x, x); by rewrite <- Hid |].
  by eexists.
Qed.

Lemma set_link_owned d l f w : owned (set_link l f d) w = owned d w.
Proof. done. Qed.

(** The balancers SetRecords has collected so far. *)
Definition collected (d : Directory) (bs : gmap string nat) : Prop :=
  (∀ id l, bs !! id = Some l → is_Some (d_links d !! l) ∧ ∀ w, owned d w = Some l → w = Balancer id) ∧
  (∀ id id' l, bs !! id = Some l → bs !! id' = Some l → id = id').

Lemma collected_grow d d' bs :
  (∀ w, owned d' w = owned d w) → (∀ l, is_Some (d_links d !! l) → is_Some (d_links d' !! l)) →
  collected d bs → collected d' bs.
Proof.
  intros Ho Hl [H1 H2]. split; [| done]. intros id l E. destruct (H1 id l E) as [A B].
  split; [auto |]. intros w. rewrite Ho. apply B.
Qed.

Lemma set_link_is_Some d l f k : is_Some (d_links d !! k) → is_Some (d_links (set_link l f d) !! k).
Proof.
  unfold set_link. simpl. destruct (decide (l = k)) as [->|Hne]; [rewrite lookup_alter_eq | by rewrite lookup_alter_ne].
  by intros [x ->].
Qed.

Lemma synced_is_Some d lo r d' l k : synced_link d lo r d' l → is_Some (d_links d !! k) → is_Some (d_links d' !! k).
Proof.
  intros S H. destruct (decide (k = l)) as [->|Hne]; [| by rewrite (sl_links _ _ _ _ _ S)].
  destruct (sl_link _ _ _ _ _ S) as (x & -> & _). done.
Qed.

(** What chooseLocked after syncLink leaves for the owners. *)
Lemma sync_choose d lo r now :
  dir_wf d → (∀ l, lo = Some l → is_Some (d_links d !! l)) →
  let '(d1, l) := syncLink d lo r in
  let d2 := (chooseLocked o d1 l now).1 in
  dir_wf d1 ∧ dir_wf d2 ∧ l = default (d_next d) lo ∧ is_Some (d_links d1 !! l) ∧ is_Some (d_links d2 !! l) ∧
  (∀ w, owned d1 w = owned d w) ∧ (∀ w, owned d2 w = owned d w) ∧
  (∀ k, is_Some (d_links d !! k) → is_Some (d_links d1 !! k)) ∧ (∀ k, is_Some (d_links d !! k) → is_Some (d_links d2 !! k)).
Proof.
  intros W Hlo. pose proof (syncLink_spec d lo r W Hlo) as S. destruct (syncLink d lo r) as [d1 l]. simpl in S.
  pose proof (synced_wf _ _ _ _ _ W S) as W1. pose proof (chooseLocked_wf d1 l now W1) as W2.
  destruct (chooseLocked_frame d1 l now) as (f & E & _). rewrite E in *.
  destruct (sl_link _ _ _ _ _ S) as (x & Hx & _).
  split_and!; try done.
  - apply (sl_ptr _ _ _ _ _ S).
  - by apply set_link_is_Some; rewrite Hx.
  - apply (synced_owned _ _ _ _ _ S).
  - intros w. rewrite set_link_owned. apply (synced_owned _ _ _ _ _ S).
  - intros k Hk. by eapply synced_is_Some.
  - intros k Hk. apply set_link_is_Some. by eapply synced_is_Some.
Qed.

(** A peer put in the map with a link nobody else owns. *)
Lemma wf_put_peer d id p l :
  pe_ln p = Some l → is_Some (d_links d !! l) → (∀ w, owned d w = Some l → w = Peer id) →
  dir_wf d → dir_wf (d <| d_peers ::= <[id := p]> |>).
Proof.
  intros Hp Hl Hw W. set (d' := d <| d_peers ::= _ |>).
  assert (∀ w k, owned d' w = Some k → (w = Peer id ∧ k = l) ∨ (w ≠ Peer id ∧ owned d w = Some k)) as Ho.
  { intros w k. destruct w as [id'|id']; simpl; [| right; by split].
    destruct (decide (id = id')) as [<-|Hne].
    - rewrite lookup_insert_eq. simpl. rewrite Hp. intros [= <-]. by left.
    - rewrite lookup_insert_ne by done. right. split; [congruence | done]. }
  apply (wf_roots d); try done.
  - intros id' q. simpl. destruct (decide (id = id')) as [<-|Hne]; [rewrite lookup_insert_eq | rewrite lookup_insert_ne by done; apply (dw_peer d W)].
    intros [= <-]. eauto.
  - intros w k E. destruct (Ho w k E) as [[-> ->]|[_ E']]; [done | by eapply (dw_owned d W)].
  - intros w w' k E E'. destruct (Ho w k E) as [[-> ->]|[N E1]], (Ho w' _ E') as [[-> E2]|[N' E2]]; try done.
    + by rewrite (Hw w' E2).
    + subst. by rewrite (Hw w E1).
    + by eapply (dw_inj d W).
Qed.

(** A link the owner w has, or a new one. *)
Definition claims (d : Directory) (w : owner) (l : nat) : Prop := owned d w = Some l ∨ l = d_next d.

Lemma claims_default d w : claims d w (default (d_next d) (owned d w)).
Proof. unfold claims. destruct (owned d w); simpl; auto. Qed.

Lemma claims_owner d w l w' : dir_wf d → claims d w l → owned d w' = Some l → w' = w.
Proof.
  intros W [Hw| ->] H; [by eapply (dw_inj d W) |].
  destruct (dw_owned d W w' _ H) as [x Hx]. destruct (dw_next d W (d_next d)); [lia | congruence].
Qed.

Lemma claims_collected d bs w l id : dir_wf d → collected d bs → claims d w l → bs !! id = Some l → w = Balancer id.
Proof.
  intros W [C _] [Hw| ->] H; destruct (C id _ H) as [[x Hx] B]; [by apply B |].
  destruct (dw_next d W (d_next d)); [lia | congruence].
Qed.

Lemma collected_put d bs id l :
  collected d bs → is_Some (d_links d !! l) →
  (∀ w, owned d w = Some l → w = Balancer id) → (∀ id', bs !! id' = Some l → id' = id) →
  collected d (<[id := l]> bs).
Proof.
  intros [C1 C2] Hl Hw Hb. split.
  - intros id' k. destruct (decide (id = id')) as [<-|Hne]; [rewrite lookup_insert_eq | rewrite lookup_insert_ne by done; apply C1].
    intros [= <-]. by split.
  - intros i i' k. destruct (decide (id = i)) as [<-|Hne], (decide (id = i')) as [<-|Hne'];
      rewrite ?lookup_insert_eq, ?lookup_insert_ne by done; [done | | | apply C2].
    + intros [= <-] E. symmetry. by apply Hb.
    + intros E [= <-]. by apply Hb.
Qed.

Lemma collected_put_peer d bs id p l :
  pe_ln p = Some l → (∀ id', bs !! id' ≠ Some l) → collected d bs → collected (d <| d_peers ::= <[id := p]> |>) bs.
Proof.
  intros Hp Hl [C1 C2]. split; [| done]. intros id' k E. destruct (C1 id' k E) as [A B]. split; [done |].
  intros [i|i]; simpl; [| apply (B (Balancer i))]. destruct (decide (id = i)) as [<-|Hne].
  - rewrite lookup_insert_eq. simpl. rewrite Hp. intros [= <-]. by destruct (Hl id').
  - rewrite lookup_insert_ne by done. apply (B (Peer i)).
Qed.

Definition rec_inv (st : Directory * gset string * gmap string nat * bool) : Prop :=
  dir_wf st.1.1.1 ∧ collected st.1.1.1 st.1.2.

Lemma setRecord_inv network now st r : rec_inv st → rec_inv (setRecord o network now st r).
Proof.
  destruct st as [[[d seen] bs] sw]. intros [W C]. simpl in W, C. unfold setRecord.
  destruct (_ || _); [done |]. destruct (IsBalancer r).
  - set (w := Balancer (nr_ID r)).
    pose proof (sync_choose d (owned d w) r now W (dw_owned d W w)) as H. simpl in H.
    destruct (syncLink d _ r) as [d1 l]. destruct H as (_ & W2 & El & _ & Hl & _ & Ho & _ & Hk).
    destruct (chooseLocked o d1 l now) as [d2 s]. simpl in *. split; [done |]. simpl.
    assert (claims d w l) as Hc by (rewrite El; apply claims_default).
    apply collected_put; [by apply (collected_grow d) | done | |].
    + intros w'. rewrite Ho. by apply claims_owner.
    + intros id E. pose proof (claims_collected d bs w l id W C Hc E) as H. by injection H as ->.
  - set (r' := match do_PeerOverrides o !! nr_ID r with Some (Some t) => _ | _ => r end). set (p := default _ _).
    assert (pe_ln p = owned d (Peer (nr_ID r'))) as Hown.
    { subst p. simpl. by destruct (d_peers d !! nr_ID r'). }
    rewrite Hown. set (w := Peer (nr_ID r')) in *.
    pose proof (sync_choose d (owned d w) r' now W (dw_owned d W w)) as H.
    destruct (syncLink d _ r') as [d1 l]. destruct H as (W1 & _ & El & Hl & _ & Ho & _ & Hk & _).
    assert (claims d w l) as Hc by (rewrite El; apply claims_default).
    set (p' := p <| pe_rec := r' |> <| pe_hosts := _ |> <| pe_ln := Some l |>).
    set (d2 := d1 <| d_peers ::= <[nr_ID r' := p']> |>).
    assert (dir_wf d2 ∧ collected d2 bs) as [W2 C2].
    { split.
      - apply (wf_put_peer d1 _ p' l); [done | done | | done]. intros w'. rewrite Ho. by apply claims_owner.
      - apply collected_put_peer with l; [done | | by apply (collected_grow d)].
        intros id E. by pose proof (claims_collected d bs w l id W C Hc E). }
    pose proof (chooseLocked_wf d2 l now W2) as W3. destruct (chooseLocked_frame d2 l now) as (f & E & _).
    destruct (chooseLocked o d2 l now) as [d3 s]. simpl in E, W3. subst d3. split; [done |]. simpl.
    by apply (collected_grow d2); [done | apply set_link_is_Some |].
Qed.

Lemma unmatchedExclude_heap d : heap (unmatchedExclude o d).1 = heap d.
Proof. unfold unmatchedExclude. by destruct (_ =s _). Qed.

Lemma nudge_heap b d : heap (nudgeHeartbeat b d) = heap d.
Proof. by destruct b. Qed.

Lemma SetRecords_wf d now local recs : dir_wf d → dir_wf (SetRecords o d now local recs).1.
Proof.
  intros W. unfold SetRecords.
  assert (rec_inv (foldl (setRecord o (cap_GenesisID (ls_Caps local)) now)
    (d <| d_network := cap_GenesisID (ls_Caps local) |>, ∅, ∅, false) recs)) as H.
  { apply foldl_keeps; [| intros st r; apply setRecord_inv]. split; [by apply (wf_heap d) |]. by split. }
  destruct (foldl _ _ _) as [[[d1 seen] bs] sw]. destruct H as [W1 [C1 C2]]. simpl in *.
  set (d2 := d1 <| d_peers ::= _ |> <| d_balancers := bs |>).
  assert (∀ w l, owned d2 w = Some l → (owned d1 w = Some l ∧ ∃ id, w = Peer id) ∨ ∃ id, w = Balancer id ∧ bs !! id = Some l) as Ho.
  { intros [id|id] l; simpl; [| right; eauto]. intros E. left. split; [| eauto].
    destruct (filter _ (d_peers d1) !! id) as [p|] eqn:Ef; [| done]. apply map_lookup_filter_Some in Ef as [-> _]. done. }
  assert (dir_wf d2) as W2.
  { apply (wf_roots d1); [done | | | | done].
    - intros id p E. simpl in E. apply map_lookup_filter_Some in E as [E _]. by eapply (dw_peer d1 W1).
    - intros w l E. destruct (Ho w l E) as [[E1 _]|(id & -> & E1)]; [by eapply (dw_owned d1 W1) | by eapply C1].
    - intros w w' l E E'. destruct (Ho w l E) as [[E1 [i ->]]|(id & -> & E1)], (Ho w' l E') as [[E2 [i' ->]]|(id' & -> & E2)].
      + by eapply (dw_inj d1 W1).
      + destruct (C1 _ _ E2) as [_ B]. by apply B in E1.
      + destruct (C1 _ _ E1) as [_ B]. by apply B in E2.
      + by rewrite (C2 _ _ _ E1 E2). }
  pose proof (unmatchedExclude_heap d2) as Hu. destruct (unmatchedExclude o d2) as [d3 un]. simpl in *.
  apply (wf_heap d3); [by rewrite nudge_heap | by apply (wf_heap d2)].
Qed.

(** *** Pings *)

Lemma wf_set_nonce d p now :
  d_nonce d + 1 < two64 → dir_wf d →
  let d' := d <| d_nonce ::= λ n, wu64 (n + 1) |> in
  dir_wf (set_path p (λ x, x <| pt_nonce := d_nonce d' |> <| pt_pingedAt := now |>) d') ∧ d_nonce d' = d_nonce d + 1.
Proof.
  intros Hroom W d'. pose proof (dw_room d W) as Hr. assert (d_nonce d' = d_nonce d + 1) as En by (unfold d'; simpl; rewrite wu64_id; mlia).
  split; [| done]. set (f := λ x, _). destruct W as [W1 W2 W3 W4 W5 W6 W7 W8 W9].
  assert (∀ q y, d_pathst (set_path p f d') !! q = Some y →
            ∃ x, d_pathst d !! q = Some x ∧ (q ≠ p ∧ y = x ∨ q = p ∧ pt_nonce y = d_nonce d + 1)) as Hx.
  { intros q y. unfold set_path. simpl. destruct (decide (p = q)) as [->|Hne].
    - rewrite lookup_alter_eq. destruct (d_pathst d !! q) as [x|]; [| done]. intros [= <-]. exists x. split; [done |].
      right. split; [done | exact En].
    - rewrite lookup_alter_ne by done. intros ->. exists y. split; [done | by left]. }
  constructor; try done.
  - intros l x E. apply set_path_link_wf; [done |]. destruct (W4 l x E) as [A B C]. by constructor.
  - intros n Hn. destruct (W6 n Hn) as [A B]. split; [done |]. unfold set_path. simpl.
    destruct (decide (p = n)) as [->|Hne]; [by rewrite lookup_alter_eq, B | by rewrite lookup_alter_ne].
  - intros q y E. change (d_nonce (set_path p f d')) with (d_nonce d'). rewrite En.
    destruct (Hx q y E) as (x & E' & [[_ ->]|[_ ->]]); [specialize (W7 q x E'); lia | mlia].
  - intros q r y z E1 E2 Ey Hz. destruct (Hx q y E1) as (x1 & E1' & [[N1 ->]|[-> N1]]), (Hx r z E2) as (x2 & E2' & [[N2 ->]|[-> N2]]); try done.
    + by apply (W8 q r x1 x2).
    + specialize (W7 q x1 E1'). lia.
    + specialize (W7 r x2 E2'). lia.
  - change (is_u64 (d_nonce d')). rewrite En. mlia.
Qed.

Lemma timeOut_mild now : mild (timeOut o now).
Proof. intros x. unfold timeOut. destruct (_ && _); simpl; auto. Qed.

Lemma collectPath_wf l now st p :
  dir_wf st.1 → d_nonce st.1 + 1 < two64 →
  dir_wf (collectPath o l now st p).1 ∧ d_nonce (collectPath o l now st p).1 <= d_nonce st.1 + 1 ∧
  d_links (collectPath o l now st p).1 = d_links st.1.
Proof.
  destruct st as [d pings]. simpl. intros W Hr. pose proof (wf_set_path d p _ (timeOut_mild now) W) as W1.
  destruct (_ || _); simpl; [split_and!; try done; lia |].
  pose proof (wf_set_nonce (set_path p (timeOut o now) d) p now Hr W1) as [W2 En]. split_and!; [exact W2 | | done].
  simpl in *. lia.
Qed.

(** collectPings as one loop over the paths of the links. *)
Definition linkPaths (d : Directory) (links : list nat) : list (nat * nat) :=
  mjoin ((λ l, pair l <$> ln_paths (link_of d l)) <$> links).

Lemma linkPaths_cons d l links : length (linkPaths d (l :: links)) = (length (ln_paths (link_of d l)) + length (linkPaths d links))%nat.
Proof. unfold linkPaths. rewrite fmap_cons. simpl. by rewrite length_app, length_fmap. Qed.

Lemma collect_link l now d0 st ps :
  d_links st.1 = d_links d0 → dir_wf st.1 → d_nonce st.1 + Z.of_nat (length ps) < two64 →
  let st' := foldl (collectPath o l now) st ps in
  dir_wf st'.1 ∧ d_nonce st'.1 <= d_nonce st.1 + Z.of_nat (length ps) ∧ d_links st'.1 = d_links d0.
Proof.
  revert st. induction ps as [|p ps IH]; intros st Hl W Hr; simpl in *; [split_and!; try done; lia |].
  destruct (collectPath_wf l now st p W ltac:(lia)) as (W' & Hn & Hl').
  destruct (IH (collectPath o l now st p)) as (A & B & C); [congruence | done | lia |]. split_and!; try done; lia.
Qed.

Lemma collectPings_wf d links now :
  dir_wf d → d_nonce d + Z.of_nat (length (linkPaths d links)) < two64 →
  dir_wf (collectPings o d links now).1 ∧ d_links (collectPings o d links now).1 = d_links d.
Proof.
  intros W. unfold collectPings.
  assert (∀ st, d_links st.1 = d_links d → dir_wf st.1 → d_nonce st.1 + Z.of_nat (length (linkPaths d links)) < two64 →
    let st' := foldl (λ st l, foldl (collectPath o l now) st (ln_paths (link_of st.1 l))) st links in
    dir_wf st'.1 ∧ d_links st'.1 = d_links d) as H; [| intros Hr; by apply H].
  induction links as [|l links IH]; intros st Hl Ws Hr; [done |].
  rewrite linkPaths_cons in Hr.
  assert (link_of st.1 l = link_of d l) as El by (unfold link_of; by rewrite Hl). simpl. rewrite El.
  destruct (collect_link l now d st (ln_paths (link_of d l)) Hl Ws) as (A & B & C); [lia |].
  apply IH; [done | done | lia].
Qed.

(** *** Messages *)

Lemma heap_put_peer d id p p' :
  d_peers d !! id = Some p → pe_ln p' = pe_ln p → heap (d <| d_peers ::= <[id := p']> |>) = heap d.
Proof.
  intros E H. unfold heap. cbn. assert (pe_ln <$> <[id := p']> (d_peers d) = pe_ln <$> d_peers d) as ->; [| done].
  rewrite fmap_insert, H. apply insert_id. by rewrite lookup_fmap, E.
Qed.

Lemma heap_alter_peer d id f : (∀ p, pe_ln (f p) = pe_ln p) → heap (d <| d_peers ::= alter f id |>) = heap d.
Proof.
  intros H. unfold heap. cbn. assert (pe_ln <$> alter f id (d_peers d) = pe_ln <$> d_peers d) as ->; [| done]. apply map_eq. intros k. rewrite !lookup_fmap.
  destruct (decide (id = k)) as [->|Hne]; [rewrite lookup_alter_eq | by rewrite lookup_alter_ne].
  destruct (d_peers d !! k); simpl; [by rewrite H | done].
Qed.

Lemma markSeen_wf d l from now : dir_wf d → dir_wf (markSeen d l from now).
Proof. intros W. unfold markSeen. apply (foldl_keeps dir_wf); [done |]. intros d' p W'. case_match; [apply wf_set_path; [split; [done | by left] | done] | done]. Qed.

Lemma markDeaf_wf d l heard now : dir_wf d → dir_wf (markDeaf o d l heard now).
Proof. intros W. unfold markDeaf. case_match; [| done]. case_match; [apply wf_set_path; [split; [done | by left] | done] | done]. Qed.

Lemma pong_mild now : mild (pong now).
Proof. intros x. split; [done | by right]. Qed.

Lemma matchPong_wf d l nonce now : dir_wf d → dir_wf (matchPong d l nonce now).1.
Proof.
  intros W. unfold matchPong. apply (foldl_keeps (λ st, dir_wf st.1)); [done |]. intros [d' m] p W'. simpl in W'.
  case_match; [apply wf_set_path; [apply pong_mild | done] | done].
Qed.

Lemma handleProbe_wf d l pr now : dir_wf d → dir_wf (handleProbe o d l pr now).1.1.
Proof.
  intros W. unfold handleProbe.
  assert (∀ d' rep, dir_wf d' → dir_wf (let '(d2, s) := chooseLocked o (markDeaf o d' l (pr_HeardMS pr) now) l now in (d2, rep, s) : Directory * option Probe * bool).1.1) as H.
  { intros d' rep W'. pose proof (chooseLocked_wf (markDeaf o d' l (pr_HeardMS pr) now) l now (markDeaf_wf _ _ _ _ W')) as H.
    by destruct (chooseLocked _ _ _ _). }
  destruct (pr_Type pr =s ProbePing); [by apply H |]. destruct (pr_Type pr =s ProbePong); [| by apply H].
  pose proof (matchPong_wf d l (pr_Nonce pr) now W) as W'. destruct (matchPong _ _ _ _) as [d' []]; [by apply H | done].
Qed.

Lemma noteRound_heap d r : heap (noteRound d r) = heap d.
Proof. unfold noteRound. by destruct (_ <? _). Qed.

Lemma acceptHeartbeat_heap d id p hb now nowb local :
  d_peers d !! id = Some p → heap (acceptHeartbeat o d id p hb now nowb local) = heap d.
Proof.
  intros E. unfold acceptHeartbeat. rewrite heap_alter_peer by done. destruct (_ && _); [rewrite noteRound_heap |];
    by eapply heap_put_peer.
Qed.

Lemma handleHeartbeat_wf d l id p hb now nowb local :
  d_peers d !! id = Some p → dir_wf d → dir_wf (handleHeartbeat o d l id p hb now nowb local).
Proof.
  intros E W. unfold handleHeartbeat.
  assert (dir_wf (set_link l (λ x, x <| ln_heardAt := now |>) d)) as W1.
  { apply wf_set_link; [done | | done]. intros x Hx. apply (dw_link d W l x Hx). }
  case_match; [done |]. eapply wf_heap; [| exact W1]. symmetry. by apply acceptHeartbeat_heap.
Qed.

Lemma markSeen_peers d l from now : d_peers (markSeen d l from now) = d_peers d.
Proof. unfold markSeen. apply (foldl_keeps (λ d', d_peers d' = d_peers d)); [done |]. intros d' p H. by case_match. Qed.

Lemma unknown_heap d id : heap (noteUnknown d id) = heap d.
Proof. unfold noteUnknown. by case_match. Qed.

Lemma handleLocked_wf d from env now nowb local : dir_wf d → dir_wf (handleLocked o d from env now nowb local).1.1.
Proof.
  intros W. unfold handleLocked. destruct (linkFor d env) as [l|]; [| apply (wf_heap d); [simpl; by rewrite unknown_heap | done]]. case_match; [done |].
  pose proof (markSeen_wf d l (NormalizeAddr from) now W) as W1. destruct (en_body env) as [hb|pr]; [| by apply handleProbe_wf].
  destruct (d_peers (markSeen _ _ _ _) !! _) as [p|] eqn:E; [by apply handleHeartbeat_wf | done].
Qed.

Lemma handle_wf c j priv d from payload now nowb local : dir_wf d → dir_wf (handle o c j priv d from payload now nowb local).1.
Proof.
  intros W. unfold handle. destruct (DecodeMessage c j payload) as [env|]; [| done].
  pose proof (handleLocked_wf d from env now nowb local W) as W1. destruct (handleLocked _ _ _ _ _ _ _) as [[d1 reply] sw].
  simpl in *. apply (wf_heap d1); [by rewrite nudge_heap | done].
Qed.

(** *** Sends, probes, externals and snapshots *)

Lemma recordSends_wf d jobs errs : dir_wf d → dir_wf (recordSends d jobs errs).
Proof.
  intros W. unfold recordSends. apply (foldl_keeps dir_wf); [done |]. intros d' [job [[]|]] W'; [| done |]; (apply wf_set_path; [split; [done | by left] | done]).
Qed.

Lemma chooseAll_wf d links now : dir_wf d → dir_wf (chooseAll o d links now).1.
Proof.
  intros W. unfold chooseAll. apply (foldl_keeps (λ st, dir_wf st.1)); [done |]. intros [d' s] l W'.
  pose proof (chooseLocked_wf d' l now W') as H. by destruct (chooseLocked o d' l now).
Qed.

Lemma finishPings_wf d pings errs links now : dir_wf d → dir_wf (finishPings o d pings errs links now).
Proof.
  intros W. unfold finishPings. assert (dir_wf (forgetUnsent d pings errs)) as W1.
  { unfold forgetUnsent. apply (foldl_keeps dir_wf); [done |]. intros d' [pg e] W'. case_match; [apply wf_set_path; [split; [done | by right] | done] | done]. }
  pose proof (chooseAll_wf _ links now W1) as W2. destruct (chooseAll _ _ _ _) as [d1 sw]. apply (wf_heap d1); [by rewrite nudge_heap | done].
Qed.

Lemma set_paths_peers d (g : Directory → nat → bool) f ps :
  d_peers (foldl (λ d q, if g d q then set_path q f d else d) d ps) = d_peers d.
Proof. apply (foldl_keeps (λ d', d_peers d' = d_peers d)); [done |]. intros d' q H. by case_match. Qed.

Lemma probeSilentPeer_wf now st id : dir_wf st.1 → dir_wf (probeSilentPeer o now st id).1.
Proof.
  destruct st as [d jobs]. simpl. intros W. unfold probeSilentPeer. destruct (d_peers d !! id) as [p|] eqn:E; [| done].
  set (entering := (_ && negb (pe_silent p))). set (p' := if entering then _ else p). set (d' := if entering then _ else d).
  assert (pe_ln p' = pe_ln p) as Hp by (subst p'; by destruct entering).
  assert (dir_wf d' ∧ d_peers d' = d_peers d) as [W' E'].
  { subst d'. destruct entering; [| done]. split; [| apply set_paths_peers].
    apply foldl_keeps; [done |]. intros d1 q W1. case_match; [apply wf_set_path; [split; [done | by left] | done] | done]. }
  match goal with |- dir_wf (if ?b then _ else _).1 => destruct b end; simpl; eapply (wf_heap d'); try done; symmetry; eapply heap_put_peer; rewrite ?E'; done.
Qed.

Lemma probeResult_heap d id r : heap (probeResult d id r) = heap d.
Proof. apply heap_alter_peer. intros p. by destruct r. Qed.

Lemma snapPeer_heap now best statsOf st id : heap (snapPeer o now best statsOf st id).1 = heap st.1.
Proof.
  destruct st as [d out]. unfold snapPeer. destruct (d_peers d !! id) as [p|] eqn:E; [| done].
  destruct (peerUpstream _ _ _ _ _ _ _) as [j u]. by apply (heap_put_peer d id p).
Qed.

Lemma Snapshot_heap d now nowb local statsOf : heap (Snapshot o d now nowb local statsOf).1.1 = heap d.
Proof.
  unfold Snapshot. set (best := bestRound _ _ _ _).
  assert (heap (foldl (snapPeer o now best statsOf) (snapLocal o d now local best statsOf) (keys (d_peers d))).1 = heap d) as H.
  { apply (foldl_keeps (λ st, heap st.1 = heap d)).
    - unfold snapLocal. destruct (do_NoLocal o); [done |]. by destruct (Judge _ _ _ _ _).
    - intros st id. by rewrite snapPeer_heap. }
  by destruct (foldl _ _ _).
Qed.

Lemma onLocalChange_heap d nowj nowb st : heap (onLocalChange o d nowj nowb st) = heap d.
Proof. unfold onLocalChange. destruct (_ =? _); [done |]. destruct (ls_Online st); [| done]. unfold noteRound. simpl. by destruct (_ <? _). Qed.

Lemma sendHeartbeat_heap c j priv d st po bo : heap (sendHeartbeat o c j priv d st po bo).1 = heap d.
Proof. unfold sendHeartbeat. destruct (do_NoLocal o); [done |]. simpl. by destruct (EncodeHeartbeat _ _ _ _). Qed.
End Ops.
