(* ===== verification/DirectoryLaws.v ===== *)
(** * DirectoryLaws: what the directory promises

    [dstep] is every way the directory's state changes, one critical section
    at a time, in any interleaving; the theorems are about every state
    reachable by it, or about one operation on such a state. *)
From S2P Require Import Prelude GoFloat GoStrings GoTime GoNet Types Ports Codec Health Path Endpoint Monitor Directory DirectoryInv.
Open Scope Z_scope.

Section Steps.
Context (o : DirectoryOptions) (c : Crypto) (j : Json) (priv : string).

(** The sends of a ping or heartbeat are recorded later than their jobs were
    collected, so jobs, errors and links of those steps are any. *)
Inductive dstep : Directory → Directory → Prop :=
| step_records d now local recs : dstep d (SetRecords o d now local recs).1
| step_local d nowj nowb st : dstep d (onLocalChange o d nowj nowb st)
| step_heartbeat d st po bo : dstep d (sendHeartbeat o c j priv d st po bo).1
| step_draining d v st po bo : dstep d (SetDraining o c j priv d v st po bo).1
| step_nudged d : dstep d (d <| d_nudge := false |>)
| step_sent d jobs errs : dstep d (recordSends d jobs errs)
| step_handle d from payload now nowb local : dstep d (handle o c j priv d from payload now nowb local).1
| step_silent d now po : dstep d (probeSilentPeers o d now po).1
| step_probed d id r : dstep d (probeResult d id r)
| step_pings d now po bo : d_nonce d + Z.of_nat (length (linkPaths d (allLinks d po bo))) < two64 →
    dstep d (collectPings o d (allLinks d po bo) now).1
| step_pinged d pings errs links now : dstep d (finishPings o d pings errs links now)
| step_check d now : dstep d (checkExternals o d now)
| step_checked d n now r : dstep d (checkExternal d n now r)
| step_snapshot d now nowb local statsOf : dstep d (Snapshot o d now nowb local statsOf).1.1.

Definition reachable : Directory → Prop := rtc dstep (NewDirectory o).

Lemma NewDirectory_wf : dir_wf (NewDirectory o).
Proof.
  assert (∀ w, owned (NewDirectory o) w = None) as Ho by (intros []; done).
  constructor; try done; intros *; rewrite ?Ho; done.
Qed.

Lemma dstep_wf d d' : dstep d d' → dir_wf d → dir_wf d'.
Proof.
  intros H W. destruct H; try (by apply (wf_heap d)).
  - by apply SetRecords_wf.
  - apply (wf_heap d); [by rewrite onLocalChange_heap | done].
  - apply (wf_heap d); [by rewrite sendHeartbeat_heap | done].
  - apply (wf_heap d); [| done]. unfold SetDraining. by rewrite sendHeartbeat_heap.
  - by apply recordSends_wf.
  - by apply handle_wf.
  - unfold probeSilentPeers. apply (foldl_keeps (λ st, dir_wf st.1)); [done |]. intros st id. apply probeSilentPeer_wf.
  - apply (wf_heap d); [by rewrite probeResult_heap | done].
  - by apply collectPings_wf.
  - by apply finishPings_wf.
  - apply (wf_heap d); [by rewrite Snapshot_heap | done].
Qed.

Lemma reachable_dir_wf d : reachable d → dir_wf d.
Proof.
  unfold reachable. generalize NewDirectory_wf. generalize (NewDirectory o). intros e W H.
  induction H as [|x y z S _ IH]; [done |]. apply IH. by eapply dstep_wf.
Qed.
End Steps.

(** ** Rounds and waiters *)

(** hbRound only rises, and each rise closes the channel the waiters hold. *)
Definition rises (d d' : Directory) : Prop :=
  d_hbRound d <= d_hbRound d' ∧ (d_hbChanged d <= d_hbChanged d')%nat ∧
  (d_hbRound d < d_hbRound d' → (d_hbChanged d < d_hbChanged d')%nat).

#[export] Instance rises_preorder : PreOrder rises.
Proof. split; [intros d; unfold rises; split_and!; lia |]. intros x y z (? & ? & ?) (? & ? & ?). unfold rises. split_and!; lia. Qed.

Definition rounds (d : Directory) := (d_hbRound d, d_hbChanged d).

Lemma rises_same d d' : rounds d = rounds d' → rises d d'.
Proof. intros [= H1 H2]. unfold rises. rewrite H1, H2. split_and!; lia. Qed.

Lemma noteRound_rises d r : rises d (noteRound d r).
Proof. unfold noteRound, rises. destruct (Z.ltb_spec (d_hbRound d) r); simpl; unfold const; split_and!; lia. Qed.

(** The operations that leave the rounds alone. *)
Lemma syncLink_rounds d lo r : rounds (syncLink d lo r).1 = rounds d.
Proof.
  rewrite syncLink_start. assert (rounds (startLink d lo r).1 = rounds d) as H by (unfold startLink; by destruct lo).
  destruct (startLink d lo r) as [d1 l]. simpl in H. rewrite <- H.
  match goal with |- context [foldl (syncAddr ?old ?ca) ?st ?l] =>
    assert (rounds (foldl (syncAddr old ca) st l).1.1.1 = rounds d1) as H1; [| by destruct (foldl (syncAddr old ca) st l) as [[[]]]] end.
  apply (foldl_keeps (λ st : Directory * list nat * list string * Z, rounds st.1.1.1 = rounds d1)); [done |].
  intros [[[e ps] seen] cur] a He. unfold syncAddr. destruct (elem _ _); [done |]. by destruct (_ !! _).
Qed.

Section Rounds.
Context (o : DirectoryOptions).

Lemma chooseLocked_rounds d l now : rounds (chooseLocked o d l now).1 = rounds d.
Proof. destruct (chooseLocked_frame o d l now) as (f & -> & _). done. Qed.

Lemma chooseAll_rounds d links now : rounds (chooseAll o d links now).1 = rounds d.
Proof.
  unfold chooseAll. apply (foldl_keeps (λ st : Directory * bool, rounds st.1 = rounds d)); [done |].
  intros [e s] l H. pose proof (chooseLocked_rounds e l now) as E. destruct (chooseLocked o e l now). simpl in *. congruence.
Qed.

Lemma SetRecords_rounds d now local recs : rounds (SetRecords o d now local recs).1 = rounds d.
Proof.
  unfold SetRecords.
  match goal with |- context [foldl ?f ?st recs] => assert (rounds (foldl f st recs).1.1.1 = rounds d) as H end.
  { apply (foldl_keeps (λ st : Directory * gset string * gmap string nat * bool, rounds st.1.1.1 = rounds d)); [done |].
    intros [[[e seen] bs] sw] r H. simpl in H. unfold setRecord. destruct (_ || _); [done |]. destruct (IsBalancer r).
    - pose proof (syncLink_rounds e (d_balancers e !! nr_ID r) r) as E. destruct (syncLink _ _ _) as [e1 l].
      pose proof (chooseLocked_rounds e1 l now) as E1. destruct (chooseLocked _ _ _ _). simpl in *. congruence.
    - match goal with |- context [syncLink e ?lo ?r'] => pose proof (syncLink_rounds e lo r') as E; destruct (syncLink e lo r') as [e1 l] end.
      match goal with |- context [chooseLocked o ?e2 l now] => pose proof (chooseLocked_rounds e2 l now) as E1; destruct (chooseLocked o e2 l now) end.
      simpl in *. unfold rounds in *. simpl in *. congruence. }
  destruct (foldl _ _ _) as [[[d1 seen] bs] sw]. simpl in H. unfold unmatchedExclude. by destruct (_ =s _), sw.
Qed.

Lemma paths_rounds {A} (g : Directory → A → Directory) d l : (∀ d a, rounds (g d a) = rounds d) → rounds (foldl g d l) = rounds d.
Proof. intros H. apply (foldl_keeps (λ e, rounds e = rounds d)); [done |]. intros e a He. by rewrite H. Qed.

Lemma markSeen_rounds d l from now : rounds (markSeen d l from now) = rounds d.
Proof. apply paths_rounds. intros e p. by case_match. Qed.

Lemma handleProbe_rounds d l pr now : rounds (handleProbe o d l pr now).1.1 = rounds d.
Proof.
  unfold handleProbe.
  assert (∀ e rep, rounds (let '(d2, s) := chooseLocked o (markDeaf o e l (pr_HeardMS pr) now) l now in (d2, rep, s) : Directory * option Probe * bool).1.1 = rounds e) as H.
  { intros e rep. pose proof (chooseLocked_rounds (markDeaf o e l (pr_HeardMS pr) now) l now) as H.
    destruct (chooseLocked _ _ _ _). simpl in *. rewrite H. unfold markDeaf. case_match; [| done]. by case_match. }
  destruct (_ =s ProbePing); [apply H |]. destruct (_ =s ProbePong); [| apply H].
  assert (rounds (matchPong d l (pr_Nonce pr) now).1 = rounds d) as E.
  { unfold matchPong. apply (foldl_keeps (λ st : Directory * bool, rounds st.1 = rounds d)); [done |]. intros [e m] p He. by case_match. }
  destruct (matchPong _ _ _ _) as [d1 []]; simpl in *; [by rewrite H | done].
Qed.

Lemma alter_rounds d f id : rounds (d <| d_peers ::= alter f id |>) = rounds d.
Proof. done. Qed.

Lemma handle_rises c j priv d from payload now nowb local : rises d (handle o c j priv d from payload now nowb local).1.
Proof.
  unfold handle. destruct (DecodeMessage c j payload) as [env|]; [| done].
  assert (rises d (handleLocked o d from env now nowb local).1.1) as H.
  { unfold handleLocked. destruct (linkFor d env) as [l|]; [| apply rises_same; unfold noteUnknown; by case_match]. case_match; [done |].
    pose proof (markSeen_rounds d l (NormalizeAddr from) now) as E. destruct (en_body env) as [hb|pr].
    - etransitivity; [by apply rises_same |]. case_match; [| done]. unfold handleHeartbeat. case_match; [by apply rises_same |].
      unfold acceptHeartbeat. destruct (_ && negb _); [| by apply rises_same].
      etransitivity; [| apply rises_same; symmetry; apply alter_rounds]. etransitivity; [| apply noteRound_rises]. by apply rises_same.
    - apply rises_same. by rewrite handleProbe_rounds. }
  destruct (handleLocked _ _ _ _ _ _ _) as [[d1 rep] sw]. simpl in *. by destruct sw.
Qed.

Lemma collectPings_rounds d links now : rounds (collectPings o d links now).1 = rounds d.
Proof.
  unfold collectPings. apply (foldl_keeps (λ st : Directory * list ping, rounds st.1 = rounds d)); [done |]. intros st l H.
  apply (foldl_keeps (λ st : Directory * list ping, rounds st.1 = rounds d)); [done |]. intros [e ps] p He. unfold collectPath. by destruct (_ || _).
Qed.

Lemma probeSilent_rounds d now po : rounds (probeSilentPeers o d now po).1 = rounds d.
Proof.
  unfold probeSilentPeers. apply (foldl_keeps (λ st : Directory * _, rounds st.1 = rounds d)); [done |]. intros [e js] id H. simpl in H.
  unfold probeSilentPeer. destruct (d_peers e !! id) as [p|]; [| done].
  match goal with |- context [foldl ?g e ?ps] => assert (rounds (foldl g e ps) = rounds d) as E by (rewrite paths_rounds; [done |]; intros e' q; by case_match) end.
  rewrite <- H in *. destruct (_ && negb (pe_silent p)); match goal with |- context [if ?b then (_, _) else _] => destruct b end; simpl; try done; by rewrite <- E.
Qed.

Lemma Snapshot_rounds d now nowb local statsOf : rounds (Snapshot o d now nowb local statsOf).1.1 = rounds d.
Proof.
  unfold Snapshot. set (best := bestRound _ _ _ _).
  assert (rounds (foldl (snapPeer o now best statsOf) (snapLocal o d now local best statsOf) (keys (d_peers d))).1 = rounds d) as H.
  { apply (foldl_keeps (λ st : Directory * list Upstream, rounds st.1 = rounds d)).
    - unfold snapLocal. destruct (do_NoLocal o); [done |]. by destruct (Judge _ _ _ _ _).
    - intros [e out] id H. unfold snapPeer. destruct (d_peers e !! id); [| done]. by destruct (peerUpstream _ _ _ _ _ _ _). }
  by destruct (foldl _ _ _).
Qed.

Lemma dstep_rises c j priv d d' : dstep o c j priv d d' → rises d d'.
Proof.
  intros H. destruct H; try (apply rises_same; done).
  - apply rises_same. by rewrite SetRecords_rounds.
  - unfold onLocalChange. destruct (_ =? _); [done |]. destruct (ls_Online st); [| by apply rises_same].
    apply (transitivity (y := noteRound (d <| d_localSeq := ls_Seq st |>) (ls_LastRound st))); [| by apply rises_same].
    etransitivity; [| apply noteRound_rises]. by apply rises_same.
  - apply rises_same. unfold sendHeartbeat. destruct (do_NoLocal o); [done |]. simpl. by destruct (EncodeHeartbeat _ _ _ _).
  - apply rises_same. unfold SetDraining, sendHeartbeat. destruct (do_NoLocal o); [done |]. simpl. by destruct (EncodeHeartbeat _ _ _ _).
  - apply rises_same. symmetry. apply paths_rounds. intros e [job [[]|]]; done.
  - apply handle_rises.
  - apply rises_same. by rewrite probeSilent_rounds.
  - apply rises_same. by rewrite collectPings_rounds.
  - apply rises_same. unfold finishPings.
    pose proof (chooseAll_rounds (forgetUnsent d pings errs) links now) as E. destruct (chooseAll _ _ _ _) as [d1 sw]. simpl in E.
    assert (rounds (forgetUnsent d pings errs) = rounds d) as E' by (apply paths_rounds; intros e [pg er]; by case_match).
    destruct sw; simpl; unfold rounds in *; simpl; congruence.
  - apply rises_same. by rewrite Snapshot_rounds.
Qed.
End Rounds.

(** ** What one message touches *)

Definition others (d : Directory) :=
  (d_network d, d_balancers d, d_nonce d, d_externals d, d_localJudge d, d_localSeq d, d_hbSeq d, d_draining d, d_unmatched d, d_next d).

(** Only the link l and its paths may differ, besides the peers and rounds. *)
Record touches (l : nat) (d d' : Directory) : Prop := {
  to_links k : k ≠ l → d_links d' !! k = d_links d !! k;
  to_link : ln_paths (link_of d' l) = ln_paths (link_of d l);
  to_paths p : p ∉ ln_paths (link_of d l) → d_pathst d' !! p = d_pathst d !! p;
  to_others : others d' = others d
}.

#[export] Instance touches_preorder l : PreOrder (touches l).
Proof.
  split; [intros d; by constructor |]. intros x y z [A B C D] [A' B' C' D']. constructor; [| congruence | | congruence].
  - intros k Hk. by rewrite A', A.
  - intros p Hp. rewrite C', C; [done | done | by rewrite B].
Qed.

Lemma touches_path l d p f : p ∈ ln_paths (link_of d l) → touches l d (set_path p f d).
Proof.
  intros Hp. constructor; try done. intros q Hq. unfold set_path. simpl. rewrite lookup_alter_ne; [done |]. by intros ->.
Qed.

Lemma touches_link l d f : (∀ x, ln_paths (f x) = ln_paths x) → touches l d (set_link l f d).
Proof.
  intros Hf. constructor; try done.
  - intros k Hk. unfold set_link. simpl. by rewrite lookup_alter_ne.
  - unfold link_of, set_link. simpl. rewrite lookup_alter_eq. destruct (d_links d !! l); simpl; [apply Hf | done].
Qed.

Lemma touches_same l d d' : d_links d = d_links d' → d_pathst d = d_pathst d' → others d = others d' → touches l d d'.
Proof. intros H1 H2 H3. constructor; unfold link_of; by rewrite ?H1, ?H2, ?H3. Qed.

Lemma touches_peers l d e f : touches l d e → touches l d (e <| d_peers ::= f |>).
Proof. intros [A B C D]. by constructor. Qed.

(** A loop over the link's own paths. *)
Lemma touches_loop l d (g : Directory → nat → Directory) :
  (∀ e p, p ∈ ln_paths (link_of e l) → touches l e (g e p)) →
  ∀ ps, (∀ p, p ∈ ps → p ∈ ln_paths (link_of d l)) → touches l d (foldl g d ps).
Proof.
  intros Hg ps. revert d. induction ps as [|p ps IH]; intros d Hps; simpl; [done |].
  pose proof (Hg d p (Hps p ltac:(by left))) as H. etransitivity; [exact H |]. apply IH.
  intros q Hq. rewrite (to_link _ _ _ H). apply Hps. by right.
Qed.

Section Touch.
Context (o : DirectoryOptions).

Lemma markSeen_touches d l from now : touches l d (markSeen d l from now).
Proof. unfold markSeen. apply touches_loop; [| done]. intros e p Hp. case_match; [by apply touches_path | done]. Qed.

Lemma markDeaf_touches d l heard now : touches l d (markDeaf o d l heard now).
Proof. unfold markDeaf. destruct (curPath d l) as [p|] eqn:E; [| done]. case_match; [by apply touches_path, curPath_elem | done]. Qed.

Lemma chooseLocked_touches d l now : touches l d (chooseLocked o d l now).1.
Proof. destruct (chooseLocked_frame o d l now) as (f & -> & Hf). apply touches_link. apply Hf. Qed.

Lemma matchPong_touches d l nonce now : touches l d (matchPong d l nonce now).1.
Proof.
  unfold matchPong. assert (∀ ps st, (∀ p, p ∈ ps → p ∈ ln_paths (link_of st.1 l)) →
    touches l st.1 (foldl (λ '(d, m), λ p, if answers nonce (path_of d p) then (set_path p (pong now) d, true) else (d, m)) st ps).1) as H;
    [| by apply (H _ (d, false))].
  induction ps as [|p ps IH]; intros [e m] Hps; [done |]. simpl. destruct (answers nonce (path_of e p)).
  - pose proof (touches_path l e p (pong now) (Hps p ltac:(by left))) as T. etransitivity; [exact T |].
    apply (IH (set_path p (pong now) e, true)). intros q Hq. simpl. rewrite (to_link _ _ _ T). apply Hps. by right.
  - apply (IH (e, m)). intros q Hq. apply Hps. by right.
Qed.

Lemma handleProbe_touches d l pr now : touches l d (handleProbe o d l pr now).1.1.
Proof.
  unfold handleProbe.
  assert (∀ e rep, touches l e (let '(d2, s) := chooseLocked o (markDeaf o e l (pr_HeardMS pr) now) l now in (d2, rep, s) : Directory * option Probe * bool).1.1) as H.
  { intros e rep. pose proof (chooseLocked_touches (markDeaf o e l (pr_HeardMS pr) now) l now) as H.
    destruct (chooseLocked _ _ _ _). simpl in *. etransitivity; [apply markDeaf_touches | exact H]. }
  destruct (_ =s ProbePing); [apply H |]. destruct (_ =s ProbePong); [| apply H].
  pose proof (matchPong_touches d l (pr_Nonce pr) now) as T. destruct (matchPong _ _ _ _) as [d1 []]; simpl in *; [| done].
  etransitivity; [exact T | apply H].
Qed.

Lemma noteRound_touches d l r : touches l d (noteRound d r).
Proof. unfold noteRound. destruct (_ <? _); by apply touches_same. Qed.

Lemma handleHeartbeat_touches d l id p hb now nowb local : touches l d (handleHeartbeat o d l id p hb now nowb local).
Proof.
  unfold handleHeartbeat. etransitivity; [by apply (touches_link l d (λ x, x <| ln_heardAt := now |>)) |]. case_match; [done |].
  unfold acceptHeartbeat. destruct (_ && negb _); [| by apply touches_same].
  apply touches_peers. etransitivity; [| apply noteRound_touches]. by apply touches_same.
Qed.

(** What handleLocked touches, when it gets past the key check. *)
Lemma handleLocked_touches d from env now nowb local l :
  linkFor d env = Some l → touches l d (handleLocked o d from env now nowb local).1.1.
Proof.
  intros E. unfold handleLocked. rewrite E. case_match; [done |].
  etransitivity; [apply (markSeen_touches d l (NormalizeAddr from) now) |].
  destruct (en_body env); [| apply handleProbe_touches]. case_match; [apply handleHeartbeat_touches | done].
Qed.
End Touch.

(** ** Peers and rounds after one message *)

(** What a message may do to the peers and to hbRound: only the sender's peer
    changes, and the round rises only to an online heartbeat of a peer that is
    not excluded. *)
Definition peers_by (o : DirectoryOptions) (env : Envelope) (d d' : Directory) : Prop :=
  (∀ id, id ≠ en_NodeID env → d_peers d' !! id = d_peers d !! id) ∧
  (d_hbRound d' = d_hbRound d ∨
   ∃ hb, en_body env = HB hb ∧ hb_Online hb = true ∧ excluded o (en_NodeID env) = false ∧
     d_hbRound d' = hb_LastRound hb ∧ d_hbRound d < d_hbRound d').

Definition view (d : Directory) := (d_peers d, d_hbRound d).

Lemma loop_view {A} (g : Directory → A → Directory) d l : (∀ d a, view (g d a) = view d) → view (foldl g d l) = view d.
Proof. intros H. apply (foldl_keeps (λ e, view e = view d)); [done |]. intros e a He. by rewrite H. Qed.

Lemma chooseLocked_view o d l now : view (chooseLocked o d l now).1 = view d.
Proof. destruct (chooseLocked_frame o d l now) as (f & -> & _). done. Qed.

Lemma handleProbe_view o d l pr now : view (handleProbe o d l pr now).1.1 = view d.
Proof.
  unfold handleProbe.
  assert (∀ e rep, view (let '(d2, s) := chooseLocked o (markDeaf o e l (pr_HeardMS pr) now) l now in (d2, rep, s) : Directory * option Probe * bool).1.1 = view e) as H.
  { intros e rep. pose proof (chooseLocked_view o (markDeaf o e l (pr_HeardMS pr) now) l now) as H.
    destruct (chooseLocked _ _ _ _). simpl in *. rewrite H. unfold markDeaf. case_match; [| done]. by case_match. }
  destruct (_ =s ProbePing); [apply H |]. destruct (_ =s ProbePong); [| apply H].
  assert (view (matchPong d l (pr_Nonce pr) now).1 = view d) as E.
  { unfold matchPong. apply (foldl_keeps (λ st : Directory * bool, view st.1 = view d)); [done |]. intros [e m] p He. by case_match. }
  destruct (matchPong _ _ _ _) as [d1 []]; simpl in *; [by rewrite H | done].
Qed.

Lemma acceptHeartbeat_by o d id p hb now nowb local env :
  en_NodeID env = id → en_body env = HB hb → peers_by o env d (acceptHeartbeat o d id p hb now nowb local).
Proof.
  intros Ei Eb. split.
  - intros i Hi. unfold acceptHeartbeat. simpl. rewrite lookup_alter_ne by congruence.
    destruct (_ && _); [unfold noteRound; destruct (_ <? _) |]; simpl; by rewrite lookup_insert_ne by congruence.
  - unfold acceptHeartbeat. simpl. destruct (hb_Online hb && negb (excluded o id)) eqn:E; [| by left].
    bprop. unfold noteRound. simpl. destruct (Z.ltb_spec (d_hbRound d) (hb_LastRound hb)); simpl; [right | by left].
    exists hb. subst id. split_and!; done.
Qed.

Lemma handleLocked_by o d from env now nowb local : peers_by o env d (handleLocked o d from env now nowb local).1.1.
Proof.
  assert (∀ e e', view e = view e' → peers_by o env d e → peers_by o env d e') as Hv.
  { intros e e' [= H1 H2]. unfold peers_by. by rewrite H1, H2. }
  assert (peers_by o env d d) as Hr by (split; [done | by left]).
  unfold handleLocked. destruct (linkFor d env) as [l|].
  2:{ eapply (Hv d); [| done]. unfold noteUnknown. by case_match. }
  case_match; [done |].
  assert (view (markSeen d l (NormalizeAddr from) now) = view d) as E by (apply loop_view; intros e p; by case_match).
  destruct (en_body env) as [hb|pr] eqn:Eb; [| eapply Hv; [symmetry; etransitivity; [apply handleProbe_view | exact E] | done]].
  case_match; [| by eapply Hv]. unfold handleHeartbeat. simpl.
  set (d1 := set_link l _ _). assert (view d1 = view d) as E1 by exact E. case_match; [by eapply Hv |].
  pose proof (acceptHeartbeat_by o d1 _ p hb now nowb local env eq_refl Eb) as [A1 A2].
  injection E1 as E1 E2. split; [intros id Hid; rewrite <- E1; by apply A1 |]. by rewrite <- E2.
Qed.

(** ** Properties *)

(** C4: in every state the directory can reach, through any interleaving of
    its critical sections and with sends, pings and probes still in flight,
    each peer and each balancer has a link of its own, no two links share an
    address object, a link's addresses are distinct and its current index is
    one of them or -1, and no two outstanding pings carry the same nonce. *)
Theorem reachable_wf o c j priv d : reachable o c j priv d → dir_wf d.
Proof. apply reachable_dir_wf. Qed.

(** C18: a waiter on the heartbeat round is never lost: over any run the round
    only rises, and whenever a wait that had to block could now answer, the
    channel it blocks on has been closed. *)
Theorem waiters_woken o c j priv d d' r :
  rtc (dstep o c j priv) d d' →
  HeartbeatRound d <= HeartbeatRound d' ∧
  (heartbeatPast d r = None → ∀ best, heartbeatPast d' r = Some best →
     (d_hbChanged d < d_hbChanged d')%nat ∧ best = HeartbeatRound d' ∧ r < best).
Proof.
  intros H. assert (rises d d') as (H1 & H2 & H3).
  { induction H as [|x y z S _ IH]; [done |]. etransitivity; [by eapply dstep_rises | done]. }
  split; [done |]. unfold heartbeatPast, HeartbeatRound in *. intros Hn best.
  destruct (Z.ltb_spec r (d_hbRound d)); [done |]. destruct (Z.ltb_spec r (d_hbRound d')); [| done].
  intros [= <-]. split_and!; [apply H3; lia | done | done].
Qed.

(** C10: only authenticated datagrams count: if a datagram changes anything or
    is answered, it is a key, a signature and a body, and the signature is that
    key's over that body; and either the key is the 32-byte one registered for
    the node the body names (a peer, or a balancer for a probe), or the registry
    has not told of that node and the only effect is the call of the hook for
    unknown nodes with its id, which asks for a registry refresh. *)
Theorem handle_authentic o c j priv d from payload now nowb local d' reply :
  handle o c j priv d from payload now nowb local = (d', reply) → d' ≠ d ∨ reply ≠ None →
  ∃ env sig b, payload = en_PubKey env +:+ sig +:+ b ∧ Verify c (en_PubKey env) b sig = true ∧
    DecodeMessage c j payload = Ok env ∧
    ((∃ l, linkFor d env = Some l ∧
        ln_pub (link_of d l) = en_PubKey env ∧ String.length (en_PubKey env) = PublicKeySize ∧
        (∀ hb, en_body env = HB hb → is_Some (d_peers d !! en_NodeID env))) ∨
     (d_peers d !! en_NodeID env = None ∧ d_balancers d !! en_NodeID env = None ∧
        d' = d <| d_unknown ::= λ l, l ++ [en_NodeID env] |> ∧ reply = None)).
Proof.
  unfold handle. destruct (DecodeMessage c j payload) as [env|] eqn:Ed; [| intros [= <- <-] []; done].
  destruct (DecodeMessage_spec c j payload env Ed) as (sig & b & Ew & Hl & Hs & Hv & _).
  destruct (linkFor d env) as [l|] eqn:El.
  2:{ unfold handleLocked, noteUnknown. rewrite El. simpl. intros [= <- <-] Hd. exists env, sig, b. split_and!; try done. right.
      destruct (d_peers d !! en_NodeID env), (d_balancers d !! en_NodeID env); simpl in *; try (by destruct Hd). }
  destruct (decide (ln_pub (link_of d l) = en_PubKey env)) as [Ek|Ek].
  2:{ unfold handleLocked. rewrite El. apply not_eq_sym, String.eqb_neq in Ek. rewrite Ek, orb_true_r. simpl. intros [= <- <-] []; done. }
  intros _ _. exists env, sig, b. split_and!; try done. left. exists l. split_and!; try done.
  intros hb Hb. unfold linkFor in El. rewrite Hb in El. destruct (d_peers d !! en_NodeID env); [eauto | done].
Qed.

(** C13: one peer cannot disturb another: whatever an authenticated datagram
    says, only its sender's peer entry, link and addresses may change, and the
    heartbeat round may only rise, to the round of an online heartbeat of a
    peer that is not excluded. *)
Theorem handleLocked_isolated o d from env now nowb local d' reply sw :
  dir_wf d → handleLocked o d from env now nowb local = (d', reply, sw) →
  (∀ id, id ≠ en_NodeID env → d_peers d' !! id = d_peers d !! id) ∧
  (∀ w l, owned d w = Some l → w ≠ Peer (en_NodeID env) → w ≠ Balancer (en_NodeID env) →
     link_of d' l = link_of d l ∧ stats d' l = stats d l ∧ owned d' w = Some l) ∧
  d_balancers d' = d_balancers d ∧ d_externals d' = d_externals d ∧ d_nonce d' = d_nonce d ∧
  (d_hbRound d' = d_hbRound d ∨
   ∃ hb, en_body env = HB hb ∧ hb_Online hb = true ∧ excluded o (en_NodeID env) = false ∧
     d_hbRound d' = hb_LastRound hb ∧ d_hbRound d < d_hbRound d').
Proof.
  intros W H. pose proof (handleLocked_by o d from env now nowb local) as [B1 B2]. rewrite H in B1, B2. simpl in B1, B2.
  destruct (linkFor d env) as [l|] eqn:El.
  2:{ unfold handleLocked in H. rewrite El in H. injection H as <- _ _. unfold noteUnknown.
      case_match; split_and!; try done; try (by left); intros w l Hw _ _; (split; [done | split; [done |]]); by destruct w. }
  pose proof (handleLocked_touches o d from env now nowb local l El) as T. rewrite H in T. simpl in T.
  destruct T as [T1 T2 T3 [= _ Tb Tn Te _ _ _ _ _ _]]. split_and!; try done.
  intros w k Hw Hp Hb. assert (k ≠ l) as Hne.
  { intros ->. unfold linkFor in El. destruct (d_peers d !! en_NodeID env) as [p|] eqn:Ep.
    - injection El as El. apply Hp. apply (dw_inj d W w (Peer (en_NodeID env)) l Hw). simpl. rewrite Ep. simpl.
      destruct (dw_peer d W _ p Ep) as [x Hx]. unfold peerLink in El. rewrite Hx in *. by rewrite <- El.
    - destruct (en_body env); [done |]. apply Hb. by apply (dw_inj d W w (Balancer (en_NodeID env)) l Hw). }
  assert (link_of d' k = link_of d k) as Ek by (unfold link_of; by rewrite T1). split_and!; [done | |].
  - unfold stats. rewrite Ek. apply map_ext_in. intros p Hp'. apply list_elem_of_In in Hp'.
    unfold path_of. rewrite T3; [done |]. intros Hin.
    destruct (link_path d k p W Hp') as (x & Hx & Hpx & _), (link_path d l p W Hin) as (y & Hy & Hpy & _).
    apply Hne. by eapply (dw_disjoint d W).
  - destruct w as [id|id]; simpl in *; [| by rewrite Tb]. rewrite B1; [done |]. intros ->. by apply Hp.
Qed.

(** a registry refresh keeps what was measured: the link's addresses
    become the record's, normalised, once each and in order; an address that
    survives keeps its path object with everything measured on it, an address
    that is new starts unmeasured, and no other link changes; the current path
    stays current if its address survives, and there is none if it does not. *)
Theorem syncLink_keeps d l x r d' l' :
  dir_wf d → d_links d !! l = Some x → syncLink d (Some l) r = (d', l') →
  l' = l ∧ addrs d' l = distinct (NormalizeAddr <$> GossipAddrs (nr_Agent r)) ∧ NoDup (addrs d' l) ∧
  (∀ p, p ∈ ln_paths x → pt_addr (path_of d p) ∈ addrs d' l → p ∈ ln_paths (link_of d' l)) ∧
  (∀ p y, d_pathst d !! p = Some y → d_pathst d' !! p = Some y) ∧
  (∀ p, p ∈ ln_paths (link_of d' l) → p ∉ ln_paths x → ∃ a, path_of d' p = newPath a ∧ a ∉ addrs d l) ∧
  (∀ k, k ≠ l → d_links d' !! k = d_links d !! k) ∧
  (∀ p, curPath d l = Some p → pt_addr (path_of d p) ∈ addrs d' l → curPath d' l = Some p) ∧
  (∀ p, curPath d l = Some p → pt_addr (path_of d p) ∉ addrs d' l → curPath d' l = None).
Proof.
  intros W Hx H. pose proof (link_of_eq d l x Hx) as El.
  assert (∀ k, Some l = Some k → is_Some (d_links d !! k)) as Hlo by (intros k [= <-]; eauto).
  pose proof (syncLink_spec d (Some l) r W Hlo) as S. rewrite H in S. simpl in S.
  pose proof (synced_wf d (Some l) r d' l' W S) as W'. pose proof (sl_ptr _ _ _ _ _ S) as E. simpl in E. subst l'. rewrite <- El.
  assert (∀ p, curPath d l = Some p → curAddr d l = pt_addr (path_of d p)) as Hca by (intros p E; unfold curAddr; by rewrite E).
  split_and!; [done | apply S | apply S | apply S | apply S | | apply S | |].
  - intros p Hp Hn. destruct (sl_src _ _ _ _ _ S p Hp) as [[y Hy] [|Hge]]; [done |].
    destruct (sl_new _ _ _ _ _ S p y Hy) as [Hold|(_ & a & -> & Ha)]; [pose proof (path_lt d p y W Hold); lia |].
    exists a. rewrite (path_of_eq _ _ _ Hy). split; [done |]. intros (q & -> & Hq)%list_elem_of_fmap. by apply (Ha q).
  - intros p E Hin. pose proof (Hca p E) as Ea. destruct (sl_cur _ _ _ _ _ S) as [[_ Hn]|[(q & Eq & Eaq) _]]; [by rewrite Ea in Hn |].
    rewrite Eq. f_equal. pose proof (curPath_elem d l p E) as Hp. pose proof (curPath_elem d' l q Eq) as Hq.
    destruct (link_path d l p W Hp) as (_ & _ & _ & y & Hy).
    apply (NoDup_fmap_eq _ _ _ _ (sl_nodup _ _ _ _ _ S) Hq (sl_survive _ _ _ _ _ S p Hp Hin)).
    by rewrite Eaq, Ea, (path_of_eq _ _ _ Hy), (path_of_eq _ _ _ (sl_keep _ _ _ _ _ S p y Hy)).
  - intros p E Hn. destruct (sl_cur _ _ _ _ _ S) as [[Hc _]|[_ Hin]]; [| by rewrite (Hca p E) in Hin].
    unfold curPath. by rewrite Hc.
Qed.

(** *** Pings and pongs *)

Lemma matchPong_none d nonce now ps m :
  (∀ p, p ∈ ps → answers nonce (path_of d p) = false) →
  foldl (λ '(d, m), λ p, if answers nonce (path_of d p) then (set_path p (pong now) d, true) else (d, m)) (d, m) ps = (d, m).
Proof.
  revert m. induction ps as [|p ps IH]; intros m H; simpl; [done |]. rewrite (H p) by by left. apply IH. intros q Hq. apply H. by right.
Qed.

Lemma answers_nonce n p : answers n p = true ↔ pt_nonce p = n ∧ n ≠ 0.
Proof. unfold answers. destruct (Z.eqb_spec (pt_nonce p) 0), (Z.eqb_spec (pt_nonce p) n); simpl; split; intros; destruct_and?; try done; lia. Qed.

Lemma path_of_set d p f : is_Some (d_pathst d !! p) → path_of (set_path p f d) p = f (path_of d p).
Proof. intros [x E]. unfold path_of, set_path. simpl. by rewrite lookup_alter_eq, E. Qed.

Lemma path_of_set_ne d p q f : p ≠ q → path_of (set_path p f d) q = path_of d q.
Proof. intros H. unfold path_of, set_path. simpl. by rewrite lookup_alter_ne. Qed.

(** a pong answers at most one ping: it either matches no outstanding
    nonce of the sender's link and changes nothing, or exactly one path, which
    gets its round-trip sample and is cleared of losses, deafness and the
    no-route mark, and no other path changes. *)
Theorem pong_matches_one d l nonce now d' matched :
  dir_wf d → matchPong d l nonce now = (d', matched) →
  (matched = false ∧ d' = d ∧ ∀ p, p ∈ ln_paths (link_of d l) → pt_nonce (path_of d p) = nonce → nonce = 0) ∨
  (matched = true ∧ nonce ≠ 0 ∧ ∃ p, p ∈ ln_paths (link_of d l) ∧ pt_nonce (path_of d p) = nonce ∧
     d' = set_path p (pong now) d ∧ (∀ q, q ≠ p → path_of d' q = path_of d q) ∧
     pt_nonce (path_of d' p) = 0 ∧ pt_fails (path_of d' p) = 0 ∧ alive (path_of d' p) = true).
Proof.
  intros W. unfold matchPong. set (ps := ln_paths (link_of d l)).
  destruct (decide (Exists (λ p, answers nonce (path_of d p) = true) ps)) as [H|H].
  - apply Exists_exists in H as (p & Hp & Ha). destruct (link_path d l p W Hp) as (_ & _ & _ & Hex).
    destruct Hex as [x Hx]. pose proof (proj1 (answers_nonce _ _) Ha) as [Hn Hz].
    assert (∀ q, q ∈ ps → q ≠ p → answers nonce (path_of d q) = false) as Hq.
    { intros q Hq Hne. apply not_true_is_false. intros [Eq _]%answers_nonce. apply Hne.
      destruct (link_path d l q W Hq) as (_ & _ & _ & [y Hy]). rewrite (path_of_eq _ _ _ Hy) in Eq. rewrite (path_of_eq _ _ _ Hx) in Hn.
      apply (dw_unique d W q p y x Hy Hx); congruence. }
    destruct (list_elem_of_split_l ps p Hp) as (ps1 & ps2 & Eps & Hn1). rewrite Eps, foldl_app.
    rewrite matchPong_none by (intros q Hq1; apply Hq; [rewrite Eps; apply elem_of_app; by left | by intros ->]). simpl. rewrite Ha.
    assert (pt_nonce (path_of (set_path p (pong now) d) p) = 0) as H0 by (rewrite path_of_set by eauto; done).
    rewrite matchPong_none.
    + intros [= <- <-]. right. split; [done |]. split; [done |]. exists p. split_and!; try done.
      * by rewrite <- Eps.
      * intros q Hne. by apply path_of_set_ne.
      * by rewrite path_of_set by eauto.
      * by rewrite path_of_set by eauto.
    + intros q Hq2. destruct (decide (q = p)) as [->|Hne].
      * unfold answers. by rewrite H0.
      * rewrite path_of_set_ne by done. apply Hq; [rewrite Eps; apply elem_of_app; right; by right | done].
  - rewrite matchPong_none.
    + intros [= <- <-]. left. split_and!; try done. intros p Hp En. destruct (decide (nonce = 0)) as [|Hz]; [done |].
      destruct H. apply Exists_exists. exists p. split; [done |]. by apply answers_nonce.
    + intros p Hp. apply not_true_is_false. intros Ha. apply H. apply Exists_exists. eauto.
Qed.

(** *** Deaf paths *)

Lemma stats_lookup d l i : path_at (stats d l) i =
  (if i <? 0 then None else (λ p, mkPathStat (pt_addr (path_of d p)) (pt_rtt (path_of d p)) (alive (path_of d p)) (pt_deaf (path_of d p))) <$> ln_paths (link_of d l) !! Z.to_nat i).
Proof. unfold path_at, stats. destruct (i <? 0); [done |]. by rewrite list_lookup_fmap. Qed.

(** What chooseLocked does, from the policy's answer. *)
Lemma chooseLocked_eq o d l now x :
  do_NoLocal o = false → d_links d !! l = Some x →
  ∃ i why, Choose (mkPathPolicy (do_PathProbeInterval o)) now (stats d l) (ln_cur x) (ln_switchedAt x) = (i, why) ∧
    d_pathst (chooseLocked o d l now).1 = d_pathst d ∧
    ln_cur (link_of (chooseLocked o d l now).1 l) = i ∧ ln_paths (link_of (chooseLocked o d l now).1 l) = ln_paths x ∧
    (chooseLocked o d l now).2 = negb (i =? ln_cur x).
Proof.
  intros Hn Hx. unfold chooseLocked. rewrite Hn, (link_of_eq d l x Hx). destruct (Choose _ _ _ _ _) as [i why]. exists i, why.
  split; [done |]. destruct (Z.eqb_spec i (ln_cur x)) as [->|]; simpl; [by rewrite (link_of_eq d l x Hx) |].
  unfold link_of, set_link. simpl. by rewrite lookup_alter_eq, Hx.
Qed.

(** After a choice the current path is alive when any is, and there is none
    otherwise; leaving a dead path is a switch. *)
Lemma chooseLocked_alive o d l now d' switched :
  dir_wf d → do_NoLocal o = false → chooseLocked o d l now = (d', switched) →
  (∀ p, curPath d' l = Some p → alive (path_of d' p) = true) ∧
  (curPath d' l = None → ∀ p, p ∈ ln_paths (link_of d l) → alive (path_of d' p) = false) ∧
  (∀ p, curPath d l = Some p → alive (path_of d p) = false → switched = true).
Proof.
  intros W Hn Hch. destruct (d_links d !! l) as [x|] eqn:Hx.
  2:{ assert (d' = d ∧ ln_paths (link_of d l) = []) as [-> En].
      { destruct (chooseLocked_frame o d l now) as (f & E & _). rewrite Hch in E. simpl in E. subst d'. unfold link_of. rewrite Hx. split; [| done].
        unfold set_link, set. destruct d. simpl in *. f_equal. apply map_eq. intros k.
        destruct (decide (l = k)) as [<-|]; [by rewrite lookup_alter_eq, Hx | by rewrite lookup_alter_ne]. }
      unfold curPath. rewrite En. simpl. split_and!; [intros p; by case_match | by intros _ p ?%elem_of_nil | intros p; by case_match]. }
  destruct (chooseLocked_eq o d l now x Hn Hx) as (i & why & Ec & Eq & Ei & Ep & Es). rewrite Hch in Eq, Ei, Ep, Es. simpl in *.
  assert (∀ p, path_of d' p = path_of d p) as Hp by (intros p; unfold path_of; by rewrite Eq).
  apply Choose_cases in Ec. unfold curPath. rewrite Ei, Ep, (link_of_eq d l x Hx).
  assert (∀ p, p ∈ ln_paths x → ∃ s, s ∈ stats d l ∧ ps_Alive s = alive (path_of d p)) as Hs.
  { intros p Hin. unfold stats. rewrite (link_of_eq d l x Hx). eexists. split; [by apply list_elem_of_fmap_2 | done]. }
  destruct Ec as [[-> Hall]|(b & Hb & Ha & _)].
  - split; [done |]. split.
    + intros _ p Hin. rewrite Hp. destruct (Hs p Hin) as (s & Hin' & <-). by apply Hall.
    + intros p Hcur Hd. subst switched. destruct (Z.eqb_spec (-1) (ln_cur x)) as [E|]; [by rewrite <- E in Hcur | done].
  - rewrite stats_lookup, (link_of_eq d l x Hx) in Hb. destruct (i <? 0); [done |].
    destruct (ln_paths x !! Z.to_nat i) as [q|] eqn:Eq'; [| done]. simpl in Hb. injection Hb as <-. simpl in Ha. split_and!.
    + intros p [= <-]. by rewrite Hp.
    + done.
    + intros p Hcur Hd. subst switched. destruct (Z.eqb_spec i (ln_cur x)) as [E|]; [| done]. exfalso.
      rewrite E in Eq'. destruct (ln_cur x <? 0); congruence.
Qed.

Lemma markDeaf_deaf o d l p heard now :
  dir_wf d → curPath d l = Some p → 0 <= heard → wi64 (do_KeepAlive o * 3) < wi64 (heard * Millisecond) →
  wi64 (do_KeepAlive o * 3) < time_sub now (ln_switchedAt (link_of d l)) →
  pt_deaf (path_of (markDeaf o d l heard now) p) = true.
Proof.
  intros W Hc H1 H2 H3. unfold markDeaf. rewrite Hc.
  rewrite (proj2 (Z.leb_le _ _) H1), (proj2 (Z.ltb_lt _ _) H2), (proj2 (Z.ltb_lt _ _) H3). simpl.
  destruct (pt_deaf (path_of d p)) eqn:E; simpl; [done |].
  destruct (link_path d l p W (curPath_elem d l p Hc)) as (_ & _ & _ & Hex). by rewrite path_of_set.
Qed.

Lemma markDeaf_cur o d l heard now : curPath (markDeaf o d l heard now) l = curPath d l.
Proof. unfold markDeaf. destruct (curPath d l) as [q|] eqn:E; [| done]. case_match; [| done]. exact E. Qed.

(** a path on which we are not heard is left at once: when a peer's ping
    says it has not heard us for more than three keepalives and the current
    path has been in use that long, the path is marked deaf, another alive
    path is chosen (or none, when no path is alive), a heartbeat is asked for,
    and the ping is answered. *)
Theorem deaf_path_left o d l p pr now d' reply sw :
  dir_wf d → do_NoLocal o = false → curPath d l = Some p → pr_Type pr = ProbePing →
  0 <= pr_HeardMS pr → wi64 (do_KeepAlive o * 3) < wi64 (pr_HeardMS pr * Millisecond) →
  wi64 (do_KeepAlive o * 3) < time_sub now (ln_switchedAt (link_of d l)) →
  handleProbe o d l pr now = (d', reply, sw) →
  sw = true ∧ pt_deaf (path_of d' p) = true ∧ curPath d' l ≠ Some p ∧
  (∀ q, curPath d' l = Some q → alive (path_of d' q) = true) ∧
  (curPath d' l = None → ∀ q, q ∈ ln_paths (link_of d l) → alive (path_of d' q) = false) ∧
  reply = Some (mkProbe ProbePong (do_LocalID o) (pr_Nonce pr) (heardMS (link_of d l) now)).
Proof.
  intros W Hn Hc Ht H1 H2 H3. unfold handleProbe. rewrite Ht. simpl.
  set (d1 := markDeaf o d l (pr_HeardMS pr) now). destruct (chooseLocked o d1 l now) as [d2 s] eqn:Ech. intros [= <- <- <-].
  pose proof (markDeaf_deaf o d l p (pr_HeardMS pr) now W Hc H1 H2 H3) as Hd.
  destruct (chooseLocked_alive o d1 l now d2 s (markDeaf_wf o d l _ now W) Hn Ech) as (A & B & C).
  assert (path_of d2 p = path_of d1 p) as Ep.
  { destruct (chooseLocked_frame o d1 l now) as (f & E & _). rewrite Ech in E. simpl in E. by subst d2. }
  assert (alive (path_of d1 p) = false) as Hal by (unfold alive; unfold d1; rewrite Hd; by rewrite andb_false_r).
  split_and!; try done.
  - apply (C p); [unfold d1; by rewrite markDeaf_cur | done].
  - by rewrite Ep.
  - intros E. specialize (A p E). rewrite Ep in A. congruence.
  - intros E q Hq. apply B; [done |]. unfold d1. by rewrite (to_link _ _ _ (markDeaf_touches o d l _ now)).
Qed.
