(* ===== verification/DirectoryView.v ===== *)
(** * DirectoryView: what the router sees of the fleet

    The best round, the snapshot's rows and the health they carry, external
    checks, and what a silent peer looks like; then a sample fleet on which the
    directory's theorems are applied. *)
From S2P Require Import Prelude GoFloat GoStrings GoTime GoNet Types Eligible Ports Codec Health Path Endpoint Monitor Directory DirectoryInv DirectoryLaws.
Open Scope Z_scope.

(** ** The best round *)

(** The rounds that count: the local node's, a reachable peer's and a checked
    external's, unless excluded. *)
Definition counts (o : DirectoryOptions) (d : Directory) (now : Time) (local : LocalState) (r : Z) : Prop :=
  (ls_Online local = true ∧ r = ls_LastRound local) ∨
  (∃ id p, d_peers d !! id = Some p ∧ excluded o id = false ∧ peerRound o p now = (r, true)) ∨
  (∃ n e, d_externals d !! n = Some e ∧ excluded o n = false ∧ ex_ok e = true ∧ r = ex_round e).

(** A fold that keeps the largest value its elements offer. *)
Lemma map_fold_best {A} (g : string → A → option Z) (f : string → A → Z → Z) (m : gmap string A) b :
  (∀ i x acc, f i x acc = match g i x with Some r => if acc <? r then r else acc | None => acc end) →
  b <= map_fold f b m ∧ (∀ i x r, m !! i = Some x → g i x = Some r → r <= map_fold f b m) ∧
  (map_fold f b m = b ∨ ∃ i x, m !! i = Some x ∧ g i x = Some (map_fold f b m)).
Proof.
  intros Hf. apply (map_fold_weak_ind (λ acc m, b <= acc ∧ (∀ i x r, m !! i = Some x → g i x = Some r → r <= acc) ∧
    (acc = b ∨ ∃ i x, m !! i = Some x ∧ g i x = Some acc))).
  - split_and!; [lia | intros i x r; by rewrite lookup_empty | by left].
  - intros i x m' acc Hi (H1 & H2 & H3). rewrite Hf. destruct (g i x) as [r|] eqn:E.
    + destruct (Z.ltb_spec acc r) as [Hlt|Hge]; split_and!; try lia.
      * intros k y r' Hk Hg. destruct (decide (i = k)) as [<-|Hne].
        -- rewrite lookup_insert_eq in Hk. injection Hk as <-. rewrite E in Hg. injection Hg as <-. lia.
        -- rewrite lookup_insert_ne in Hk by done. specialize (H2 k y r' Hk Hg). lia.
      * right. exists i, x. by rewrite lookup_insert_eq.
      * intros k y r' Hk Hg. destruct (decide (i = k)) as [<-|Hne].
        -- rewrite lookup_insert_eq in Hk. injection Hk as <-. rewrite E in Hg. injection Hg as <-. lia.
        -- rewrite lookup_insert_ne in Hk by done. by eapply H2.
      * destruct H3 as [->|(k & y & Hk & Hg)]; [by left | right]. exists k, y. split; [| done].
        rewrite lookup_insert_ne; [done |]. intros <-. congruence.
    + split_and!; [done | |].
      * intros k y r' Hk Hg. destruct (decide (i = k)) as [<-|Hne]; [rewrite lookup_insert_eq in Hk; congruence |].
        rewrite lookup_insert_ne in Hk by done. by eapply H2.
      * destruct H3 as [->|(k & y & Hk & Hg)]; [by left | right]. exists k, y. split; [| done].
        rewrite lookup_insert_ne; [done |]. intros <-. congruence.
Qed.

Definition peerOffer (o : DirectoryOptions) (now : Time) (id : string) (p : peerState) : option Z :=
  if excluded o id then None else let '(r, ok) := peerRound o p now in if ok then Some r else None.

Definition extOffer (o : DirectoryOptions) (n : string) (e : extState) : option Z :=
  if excluded o n then None else if ex_ok e then Some (ex_round e) else None.

Lemma peerBest_offer o now id p acc : peerBest o now id p acc = match peerOffer o now id p with Some r => if acc <? r then r else acc | None => acc end.
Proof. unfold peerBest, peerOffer. destruct (excluded o id); [done |]. destruct (peerRound o p now) as [r []]; done. Qed.

Lemma extBest_offer o n e acc : extBest o n e acc = match extOffer o n e with Some r => if acc <? r then r else acc | None => acc end.
Proof. unfold extBest, extOffer. destruct (excluded o n); [done |]. by destruct (ex_ok e). Qed.

(** the best round is exactly the highest of what counts: no reachable
    peer, checked external or online local node that is not excluded is ahead
    of it, and one of them reported it (or nothing counts and it is 0). *)
Theorem bestRound_highest o d now local :
  0 <= ls_LastRound local →
  (∀ r, counts o d now local r → r <= bestRound o d now local) ∧
  (counts o d now local (bestRound o d now local) ∨ bestRound o d now local = 0).
Proof.
  intros Hl. unfold bestRound. set (b := if ls_Online local then ls_LastRound local else 0).
  destruct (map_fold_best (peerOffer o now) (peerBest o now) (d_peers d) b (peerBest_offer o now)) as (P1 & P2 & P3).
  set (bp := map_fold (peerBest o now) b (d_peers d)) in *.
  destruct (map_fold_best (extOffer o) (extBest o) (d_externals d) bp (extBest_offer o)) as (E1 & E2 & E3).
  set (be := map_fold (extBest o) bp (d_externals d)) in *. split.
  - intros r [[Ho ->]|[(id & p & Hp & Hx & Hr)|(n & e & He & Hx & Hok & ->)]].
    + subst b. rewrite Ho in *. lia.
    + assert (r <= bp); [| lia]. apply (P2 id p r Hp). unfold peerOffer. by rewrite Hx, Hr.
    + apply (E2 n e _ He). unfold extOffer. by rewrite Hx, Hok.
  - unfold counts. destruct E3 as [->|(n & e & He & Hg)].
    + destruct P3 as [->|(id & p & Hp & Hg)].
      * subst b. destruct (ls_Online local); [left; by left | by right].
      * left. right. left. exists id, p. unfold peerOffer in Hg. destruct (excluded o id); [done |].
        destruct (peerRound o p now) as [r []]; [| done]. injection Hg as ->. done.
    + left. right. right. exists n, e. unfold extOffer in Hg. destruct (excluded o n); [done |].
      destruct (ex_ok e); [| done]. injection Hg as Hg. done.
Qed.

(** ** Rows *)

Lemma keys_elem {A} (m : gmap string A) id : id ∈ keys m ↔ is_Some (m !! id).
Proof.
  unfold keys, sort_strings. rewrite insertion_sort_perm. rewrite list_elem_of_fmap. split.
  - intros ([k x] & -> & H). apply elem_of_map_to_list in H. simpl. eauto.
  - intros [x H]. exists (id, x). split; [done |]. by apply elem_of_map_to_list.
Qed.

Lemma keys_nodup {A} (m : gmap string A) : NoDup (keys m).
Proof. unfold keys, sort_strings. rewrite insertion_sort_perm. apply NoDup_fst_map_to_list. Qed.

Lemma keys_sorted {A} (m : gmap string A) : StronglySorted (sort_le sltb) (keys m).
Proof. unfold keys, sort_strings. apply (insertion_sort_sorted sltb (λ _, True) (sltb_strict (λ _, True) id)). by apply Forall_forall. Qed.

Lemma heap_curAddr d d' l : heap d = heap d' → curAddr d l = curAddr d' l.
Proof. intros [= _ _ _ Hl Hp _]. unfold curAddr, curPath, link_of, path_of. by rewrite Hl, Hp. Qed.

Lemma heap_peerUpstream o d d' id p now best statsOf :
  heap d = heap d' → peerUpstream o d id p now best statsOf = peerUpstream o d' id p now best statsOf.
Proof. intros H. unfold peerUpstream. by rewrite (heap_curAddr d d' _ H). Qed.

Definition peerRow (o : DirectoryOptions) (d : Directory) (now : Time) (best : Z) (statsOf : string → Stats) (id : string) : option Upstream :=
  (λ p, (peerUpstream o d id p now best statsOf).2) <$> d_peers d !! id.

(** The peers' rows are those of the state the snapshot starts from. *)
Lemma snapPeers_rows o d now best statsOf ids e out :
  heap e = heap d → NoDup ids → (∀ id, id ∈ ids → d_peers e !! id = d_peers d !! id) → d_externals e = d_externals d →
  (foldl (snapPeer o now best statsOf) (e, out) ids).2 = out ++ omap (peerRow o d now best statsOf) ids ∧
  d_externals (foldl (snapPeer o now best statsOf) (e, out) ids).1 = d_externals d.
Proof.
  revert e out. induction ids as [|id ids IH]; intros e out He Hnd Hp Hx; [by rewrite app_nil_r |].
  apply NoDup_cons in Hnd as [Hid Hnd]. pose proof (Hp id ltac:(by left)) as Hq.
  pose proof (snapPeer_heap o now best statsOf (e, out) id) as Hh. cbn [foldl omap list_omap].
  assert (∀ k, k ∈ ids → d_peers e !! k = d_peers d !! k) as Hp' by (intros k Hk; apply Hp; by right).
  unfold peerRow at 1. destruct (d_peers d !! id) as [p|] eqn:Ep; cbn [fmap option_fmap option_map snd].
  - destruct (peerUpstream o d id p now best statsOf) as [j u] eqn:Eu.
    assert (snapPeer o now best statsOf (e, out) id = (e <| d_peers ::= <[id := p <| pe_judge := j |>]> |>, out ++ [u])) as Es
      by (unfold snapPeer; by rewrite Hq, (heap_peerUpstream o e d), Eu).
    rewrite Es in *. simpl in Hh. destruct (IH (e <| d_peers ::= <[id := p <| pe_judge := j |>]> |>) (out ++ [u])) as [-> ->]; try done.
    + by rewrite Hh.
    + intros k Hk. simpl. rewrite lookup_insert_ne by (intros ->; done). by apply Hp'.
    + by rewrite <- app_assoc.
  - assert (snapPeer o now best statsOf (e, out) id = (e, out)) as -> by (unfold snapPeer; by rewrite Hq). by apply IH.
Qed.

Definition extRow (o : DirectoryOptions) (d : Directory) (now : Time) (best : Z) (statsOf : string → Stats) (n : string) : option Upstream :=
  (λ e, extUpstream o n e now best statsOf) <$> d_externals d !! n.

Lemma Snapshot_eq o d now nowb local statsOf :
  let best := bestRound o d nowb local in
  (Snapshot o d now nowb local statsOf).1.2 =
    (snapLocal o d now local best statsOf).2 ++ omap (peerRow o d now best statsOf) (keys (d_peers d)) ++
    omap (extRow o d now best statsOf) (keys (d_externals d)) ∧
  (Snapshot o d now nowb local statsOf).2 = best.
Proof.
  intros best. unfold Snapshot. fold best. destruct (snapLocal o d now local best statsOf) as [e out] eqn:El.
  assert (heap e = heap d ∧ d_peers e = d_peers d ∧ d_externals e = d_externals d) as (H1 & H2 & H3).
  { unfold snapLocal in El. destruct (do_NoLocal o); [by injection El as <- _ |]. destruct (Judge _ _ _ _ _). by injection El as <- _. }
  destruct (snapPeers_rows o d now best statsOf (keys (d_peers d)) e out H1 (keys_nodup _)) as [E1 E2]; [intros; by rewrite H2 | done |].
  destruct (foldl (snapPeer o now best statsOf) (e, out) (keys (d_peers d))) as [d' out'] eqn:Ef. simpl in *.
  split; [| done]. rewrite E1, <- app_assoc. unfold extRow. by rewrite E2.
Qed.

Lemma Judge_offline j now round best : (Judge j now false round best).2 = HealthOffline.
Proof. unfold Judge. simpl. destruct (sj_seen j); done. Qed.

(** What a row says of the fleet.  A peer is shown as reachable by its last
    heartbeat, if it says online and is no older than SuspectAfter, or else by
    its last direct probe that was answered, if the last one sent is recent
    (its own answer may be outstanding: [stale_probe_trusted]). *)
Definition row_ok (o : DirectoryOptions) (d : Directory) (now : Time) (local : LocalState) (u : Upstream) : Prop :=
  match up_Kind u with
  | KindLocal => do_NoLocal o = false ∧ up_ID u = do_LocalID o ∧ up_Excluded u = false ∧ up_LastRound u = ls_LastRound local ∧
      up_BaseURL u = ls_Endpoint local ∧ up_Token u = nc_Token (ls_Config local) ∧
      (up_Health u ≠ HealthOffline → ls_Online local = true)
  | KindPeer => ∃ p, d_peers d !! up_ID u = Some p ∧ up_Excluded u = excluded o (up_ID u) ∧ up_Token u = nr_Token (pe_rec p) ∧
      up_BaseURL u = EndpointFor (nr_Endpoints (pe_rec p)) (pe_hosts p) (curAddr d (peerLink p)) ∧
      (up_Health u ≠ HealthOffline →
         (pe_hasHB p = true ∧ time_sub now (pe_seenAt p) <= do_SuspectAfter o ∧ hb_Online (pe_hb p) = true ∧
            up_LastRound u = hb_LastRound (pe_hb p)) ∨
         (pe_probeOK p = true ∧ time_sub now (pe_probeAt p) <= wi64 (2 * do_ProbeInterval o) ∧ up_LastRound u = pe_probeRd p))
  | KindExternal => ∃ e, d_externals d !! up_ID u = Some e ∧ up_Excluded u = excluded o (up_ID u) ∧ up_LastRound u = ex_round e ∧
      up_BaseURL u = eu_URL (ex_cfg e) ∧ up_Token u = eu_Token (ex_cfg e) ∧
      (up_Health u ≠ HealthOffline → ex_ok e = true ∧ time_sub now (ex_checkedAt e) <= eu_HealthCheck (ex_cfg e))
  end.

Lemma peerRow_ok o d now local best statsOf id u :
  peerRow o d now best statsOf id = Some u → up_ID u = id ∧ row_ok o d now local u.
Proof.
  unfold peerRow. destruct (d_peers d !! id) as [p|] eqn:Ep; [| done]. simpl. intros [= <-].
  unfold peerUpstream. destruct (freshHB o p now) eqn:Ef.
  - destruct (Judge _ _ _ _ _) as [j h] eqn:Ej. simpl. split; [done |]. exists p. simpl. split_and!; try done.
    intros Hh. left. unfold freshHB in Ef. apply andb_true_iff in Ef as [? ?%Z.leb_le]. destruct (hb_Online (pe_hb p)) eqn:Eo; [by split_and! |].
    destruct Hh. apply (f_equal snd) in Ej. by rewrite Judge_offline in Ej.
  - destruct (freshProbe o p now) eqn:Eg.
    + destruct (Judge _ _ _ _ _) as [j h] eqn:Ej. simpl. split; [done |]. exists p. simpl. split_and!; try done.
      intros Hh. right. unfold freshProbe in Eg. apply andb_true_iff in Eg as [? ?%Z.leb_le]. by split_and!.
    + simpl. split; [done |]. exists p. by split_and!.
Qed.

Lemma extRow_ok o d now local best statsOf n u :
  extRow o d now best statsOf n = Some u → up_ID u = n ∧ row_ok o d now local u.
Proof.
  unfold extRow. destruct (d_externals d !! n) as [e|] eqn:Ee; [| done]. simpl. intros [= <-]. split; [done |].
  exists e. simpl. split_and!; try done. unfold fresh. destruct (ex_ok e && _) eqn:Ef; [| done]. by apply andb_true_iff in Ef as [? ?%Z.leb_le].
Qed.

Lemma omap_rows (f : string → option Upstream) (l : list string) :
  (∀ id, id ∈ l → is_Some (f id)) → (∀ id u, f id = Some u → up_ID u = id) → up_ID <$> omap f l = l.
Proof.
  intros H1 H2. induction l as [|id l IH]; [done |]. destruct (H1 id ltac:(by left)) as [u E]. simpl. rewrite E. simpl.
  rewrite (H2 id u E). f_equal. apply IH. intros k Hk. apply H1. by right.
Qed.

(** C12: the snapshot lists every upstream once, in a fixed order (the local
    node unless this is a balancer, the peers by id, the externals by name),
    with the best round; excluded ones are listed and marked; each row carries
    its own URL and token (the local node's, those of the peer's record, of the
    external's configuration) and the round it is judged by; and a row is shown
    as reachable only on evidence: the monitor says the local node is online; the
    peer's last heartbeat is no older than SuspectAfter and says online, or its
    last answered probe succeeded and the last one sent is no older than twice the
    probe interval; the last check of the external succeeded and is still valid. *)
Theorem Snapshot_sound o d now nowb local statsOf d' us best :
  Snapshot o d now nowb local statsOf = (d', us, best) →
  best = bestRound o d nowb local ∧
  up_ID <$> us = (if do_NoLocal o then [] else [do_LocalID o]) ++ keys (d_peers d) ++ keys (d_externals d) ∧
  NoDup (keys (d_peers d)) ∧ StronglySorted (sort_le sltb) (keys (d_peers d)) ∧
  NoDup (keys (d_externals d)) ∧ StronglySorted (sort_le sltb) (keys (d_externals d)) ∧
  ∀ u, u ∈ us → row_ok o d now local u.
Proof.
  intros H. destruct (Snapshot_eq o d now nowb local statsOf) as [E1 E2]. rewrite H in E1, E2. simpl in E1, E2. subst us best.
  set (best := bestRound o d nowb local).
  assert (up_ID <$> (snapLocal o d now local best statsOf).2 = (if do_NoLocal o then [] else [do_LocalID o]) ∧
          ∀ u, u ∈ (snapLocal o d now local best statsOf).2 → row_ok o d now local u) as [L1 L2].
  { unfold snapLocal. destruct (do_NoLocal o) eqn:En; [split; [done | by intros u ?%elem_of_nil] |].
    destruct (Judge _ _ _ _ _) as [j h] eqn:Ej. split; [done |]. intros u ->%list_elem_of_singleton. split_and!; try done.
    simpl. intros Hh. destruct (ls_Online local) eqn:Eo; [done |]. destruct Hh. apply (f_equal snd) in Ej. by rewrite Judge_offline in Ej. }
  split_and!; [done | | apply keys_nodup | apply keys_sorted | apply keys_nodup | apply keys_sorted |].
  - rewrite !fmap_app, L1. f_equal. f_equal.
    + apply omap_rows; [| intros id u Hu; by eapply (peerRow_ok o d now local)].
      intros id [p Hp]%keys_elem. unfold peerRow. by rewrite Hp.
    + apply omap_rows; [| intros id u Hu; by eapply (extRow_ok o d now local)].
      intros n [e He]%keys_elem. unfold extRow. by rewrite He.
  - intros u [Hu|[Hu|Hu]%elem_of_app]%elem_of_app; [by apply L2 | |]; apply list_elem_of_omap in Hu as (id & _ & Hu).
    + by eapply peerRow_ok.
    + by eapply extRow_ok.
Qed.

(** ** Silent peers *)

(** a silent peer is given up on after SuspectAfter, not DownAfter: once
    its last heartbeat is older than SuspectAfter and no probe answered
    lately, its row is offline, from no source, however far DownAfter is. *)
Theorem silent_peer_offline o d id p now best statsOf :
  d_peers d !! id = Some p →
  do_SuspectAfter o < time_sub now (pe_seenAt p) < do_DownAfter o → freshProbe o p now = false →
  (peerUpstream o d id p now best statsOf).2 =
    mkUpstream id KindPeer (nr_Tier (pe_rec p)) (EndpointFor (nr_Endpoints (pe_rec p)) (pe_hosts p) (curAddr d (peerLink p)))
      (nr_Token (pe_rec p)) HealthOffline 0 zeroCapabilities false (excluded o id) (statsOf id) "none" nzero ∧
  peerRound o p now = (0, false).
Proof.
  intros _ [H _] Hp. unfold peerUpstream, peerRound, freshHB. rewrite (proj2 (Z.leb_gt _ _) H), andb_false_r, Hp. done.
Qed.

(** an old probe result is renewed by asking again: when a peer whose last
    successful probe has long expired falls silent again, sending the next
    probe makes that old round count as the peer's current one, before the
    probe is answered. *)
Theorem stale_probe_trusted o d id p now :
  d_peers d !! id = Some p → pe_probeOK p = true → 0 <= do_ProbeInterval o < two63 / 2 →
  do_SuspectAfter o < time_sub now (pe_seenAt p) → do_ProbeInterval o <= time_sub now (pe_probeAt p) →
  excluded o id = false → nr_Endpoints (pe_rec p) ≠ [] → freshProbe o p now = false →
  peerRound o p now = (0, false) ∧
  ∃ p', d_peers (probeSilentPeers o d now [id]).1 !! id = Some p' ∧ peerRound o p' now = (pe_probeRd p, true).
Proof.
  intros Hp Hok Hi Hs Hq Hx He Hf.
  assert (∀ q, pe_seenAt q = pe_seenAt p → freshHB o q now = false) as Hn
    by (intros q E; unfold freshHB; by rewrite E, (proj2 (Z.leb_gt _ _) Hs), andb_false_r).
  split; [unfold peerRound; by rewrite Hn, Hf |].
  assert (0 < Z.of_nat (length (nr_Endpoints (pe_rec p)))) as Hlen by (destruct (nr_Endpoints (pe_rec p)); simpl; [done | lia]).
  unfold probeSilentPeers. simpl. rewrite Hp, (proj2 (Z.ltb_lt _ _) Hs), orb_true_r. simpl.
  set (p' := if negb (pe_silent p) then _ else p).
  assert (pe_seenAt p' = pe_seenAt p ∧ pe_probeAt p' = pe_probeAt p ∧ pe_rec p' = pe_rec p ∧ pe_probeOK p' = pe_probeOK p ∧ pe_probeRd p' = pe_probeRd p)
    as (E1 & E2 & E3 & E4 & E5) by (subst p'; by destruct (negb (pe_silent p))).
  rewrite Hx, E2, E3, (proj2 (Z.leb_le _ _) Hq), (proj2 (Z.ltb_lt _ _) Hlen). simpl. rewrite lookup_insert_eq.
  eexists. split; [reflexivity |]. unfold peerRound. rewrite Hn by (simpl; exact E1).
  unfold freshProbe. simpl. unfold const. rewrite E4, E5, Hok, time_sub_diag.
  rewrite (proj2 (Z.leb_le 0 _)); [done |]. rewrite wi64_id; [lia |]. change (two63 / 2) with (2 ^ 62) in Hi. mlia.
Qed.

(** ** Externals *)

Lemma checkExternals_lookup o d now n : d_externals (checkExternals o d now) !! n = startCheck o now n <$> d_externals d !! n.
Proof. unfold checkExternals. simpl. rewrite map_lookup_imap. by destruct (d_externals d !! n). Qed.

(** externals are the last resort and are asked sparingly: an excluded
    external is never checked and keeps its state; a new check starts only when
    none is in flight and either the last one is a debounce old (or there was
    none), or it answered and has expired; and after it every external that is
    not excluded and last answered is either valid or being checked. *)
Theorem checks_started o d now n e :
  d_externals d !! n = Some e →
  ∃ e', d_externals (checkExternals o d now) !! n = Some e' ∧
    (excluded o n = true → e' = e) ∧
    (ex_inflight e' = true → ex_inflight e = false →
       excluded o n = false ∧
       (ex_checkedAt e = zero_time ∨ externalDebounce <= time_sub now (ex_checkedAt e) ∨ ex_ok e = true ∧ fresh e now = false)) ∧
    (excluded o n = false → ex_ok e = true → fresh e' now = true ∨ ex_inflight e' = true) ∧
    fresh e' now = fresh e now ∧ ex_round e' = ex_round e.
Proof.
  intros He. rewrite checkExternals_lookup, He. simpl. eexists. split; [reflexivity |]. unfold startCheck.
  destruct (excluded o n); [split_and!; try done; congruence |].
  destruct (ex_inflight e) eqn:Ei; simpl; [split_and!; try done; by right |].
  assert (∀ b : bool, checkDue e now = b → b = true → ex_checkedAt e = zero_time ∨ externalDebounce <= time_sub now (ex_checkedAt e) ∨ ex_ok e = true ∧ fresh e now = false) as Hdue.
  { intros b <-. unfold checkDue, IsZero. intros H. bprop. destruct H as [[H|H]|[H1 H2]]; [left; lia | right; left; lia | right; right; by split]. }
  destruct (checkDue e now) eqn:Ed; split_and!; try done.
  - intros _ _. split; [done |]. by apply (Hdue true).
  - by right.
  - intros H1 H2. congruence.
  - intros _ Hok. left. unfold checkDue in Ed. rewrite Hok in Ed. by destruct (fresh e now); [| rewrite orb_true_r in Ed].
Qed.

(** ** A sample fleet *)

Definition sampleOptions : DirectoryOptions :=
  defaults (mkDirOptions "me" 0 false 0 0 0 0 0 0 0 0 0 ∅
    [mkExternal "ext" "https://rpc.example" "" 9 None 0] ["ext"%string]).

Definition peerRecord : NodeRecord :=
  sampleRecord <| nr_Agent := mkAgentInfo ["10.0.0.1:4190"; "10.1.0.1:4190"]%string "" (Public toyCrypto "k") |>
               <| nr_Endpoints := ["http://10.1.0.1:4001"; "http://10.0.0.1:4001"]%string |>.

Definition localNode : LocalState :=
  zeroLocal <| ls_Online := true |> <| ls_LastRound := 90 |> <| ls_Seq := 1 |>
            <| ls_Caps := zeroCapabilities <| cap_GenesisID := "net-v1" |> |>.

Definition t0 : Time := 1000 * Second.

(** The registry was read. *)
Definition fleet1 : Directory := (SetRecords sampleOptions (NewDirectory sampleOptions) t0 localNode [peerRecord]).1.

(** Its first heartbeat came in, by the first address. *)
Definition wireHB : string := encodeSigned toyCrypto "k" "{heartbeat}".
Definition fleet2 : Directory :=
  (handle sampleOptions toyCrypto toyJson "k" fleet1 "10.0.0.1:4190" wireHB (t0 + Second) (t0 + Second) localNode).1.

(** Both paths are pinged. *)
Definition fleet3 : Directory := (collectPings sampleOptions fleet2 (allLinks fleet2 ["n1"%string] []) (t0 + 2 * Second)).1.

Lemma fleet1_reachable : reachable sampleOptions toyCrypto toyJson "k" fleet1.
Proof. eapply rtc_l; [apply step_records | apply rtc_refl]. Qed.

Lemma fleet2_step : dstep sampleOptions toyCrypto toyJson "k" fleet1 fleet2.
Proof. apply step_handle. Qed.

Lemma fleet3_step : dstep sampleOptions toyCrypto toyJson "k" fleet2 fleet3.
Proof. apply step_pings. vm_compute. reflexivity. Qed.

Lemma fleet2_reachable : reachable sampleOptions toyCrypto toyJson "k" fleet2.
Proof. exact (rtc_r _ _ _ fleet1_reachable fleet2_step). Qed.

Lemma fleet3_reachable : reachable sampleOptions toyCrypto toyJson "k" fleet3.
Proof. exact (rtc_r _ _ _ fleet2_reachable fleet3_step). Qed.

Lemma fleet1_wf : dir_wf fleet1.
Proof. eapply reachable_dir_wf, fleet1_reachable. Qed.
Lemma fleet2_wf : dir_wf fleet2.
Proof. eapply reachable_dir_wf, fleet2_reachable. Qed.
Lemma fleet3_wf : dir_wf fleet3.
Proof. eapply reachable_dir_wf, fleet3_reachable. Qed.

Lemma reachable_wf_witness : dir_wf fleet3 ∧ d_hbRound fleet3 = 100.
Proof. split; [exact (reachable_wf sampleOptions toyCrypto toyJson "k" fleet3 fleet3_reachable) | vm_compute; reflexivity]. Defined.

Lemma waiters_woken_witness :
  heartbeatPast fleet1 95 = None ∧ heartbeatPast fleet3 95 = Some 100 ∧ (d_hbChanged fleet1 < d_hbChanged fleet3)%nat.
Proof.
  split; [vm_compute; reflexivity |]. split; [vm_compute; reflexivity |].
  destruct (waiters_woken sampleOptions toyCrypto toyJson "k" fleet1 fleet3 95) as [_ H].
  - exact (rtc_l _ fleet1 fleet2 fleet3 fleet2_step (rtc_once fleet2 fleet3 fleet3_step)).
  - apply (H ltac:(vm_compute; reflexivity) 100). vm_compute. reflexivity.
Defined.

Lemma handle_authentic_witness :
  ∃ env l sig b, wireHB = en_PubKey env +:+ sig +:+ b ∧ Verify toyCrypto (en_PubKey env) b sig = true ∧
    linkFor fleet1 env = Some l ∧ ln_pub (link_of fleet1 l) = en_PubKey env.
Proof.
  destruct (handle_authentic sampleOptions toyCrypto toyJson "k" fleet1 "10.0.0.1:4190" wireHB (t0 + Second) (t0 + Second) localNode
    fleet2 None) as (env & sig & b & H1 & H2 & _ & [(l & H4 & H5 & _)|(_ & _ & E & _)]).
  - vm_compute. reflexivity.
  - left. intros E. apply (f_equal d_hbRound) in E. vm_compute in E. discriminate.
  - exists env, l, sig, b. exact (conj H1 (conj H2 (conj H4 H5))).
  - apply (f_equal d_hbRound) in E. vm_compute in E. discriminate.
Defined.

(** A datagram of a node the registry has not told of: its id is reported. *)
Lemma unknown_reported :
  (handle sampleOptions toyCrypto toyJson "k" (NewDirectory sampleOptions) "10.0.0.1:4190" wireHB t0 t0 localNode).2 = None ∧
  d_unknown (handle sampleOptions toyCrypto toyJson "k" (NewDirectory sampleOptions) "10.0.0.1:4190" wireHB t0 t0 localNode).1 = ["n1"%string].
Proof. by vm_compute. Qed.

Definition envHB : Envelope := mkEnvelope (Public toyCrypto "k") "n1" (HB sampleHeartbeat).

Lemma handleLocked_isolated_witness :
  let '(d', reply, sw) := handleLocked sampleOptions fleet1 "10.0.0.1:4190" envHB (t0 + Second) (t0 + Second) localNode in
  d_externals d' = d_externals fleet1 ∧ d_hbRound d' = 100.
Proof.
  pose proof (handleLocked_isolated sampleOptions fleet1 "10.0.0.1:4190" envHB (t0 + Second) (t0 + Second) localNode) as H.
  assert (d_hbRound (handleLocked sampleOptions fleet1 "10.0.0.1:4190" envHB (t0 + Second) (t0 + Second) localNode).1.1 = 100) as E
    by (vm_compute; reflexivity).
  destruct (handleLocked sampleOptions fleet1 "10.0.0.1:4190" envHB (t0 + Second) (t0 + Second) localNode) as [[d' reply] sw].
  split; [apply (H d' reply sw fleet1_wf eq_refl) | exact E].
Defined.

(** The record without its first address. *)
Definition movedRecord : NodeRecord :=
  peerRecord <| nr_Agent := mkAgentInfo ["10.2.0.1:4190"; "10.1.0.1:4190"]%string "" (Public toyCrypto "k") |>.

Lemma syncLink_keeps_witness :
  let '(d', l') := syncLink fleet3 (Some 0%nat) movedRecord in
  l' = 0%nat ∧ addrs d' 0 = ["10.2.0.1:4190"; "10.1.0.1:4190"]%string.
Proof.
  pose proof (syncLink_keeps fleet3 0 (link_of fleet3 0) movedRecord) as H.
  destruct (syncLink fleet3 (Some 0%nat) movedRecord) as [d' l']. 
  destruct (H d' l' fleet3_wf ltac:(vm_compute; reflexivity) eq_refl) as (-> & -> & _). split; [reflexivity | vm_compute; reflexivity].
Defined.

Lemma pong_matches_one_witness :
  (matchPong fleet3 0 2 (t0 + 3 * Second)).2 = true ∧
  ∃ p, pt_nonce (path_of fleet3 p) = 2 ∧ (matchPong fleet3 0 2 (t0 + 3 * Second)).1 = set_path p (pong (t0 + 3 * Second)) fleet3.
Proof.
  destruct (pong_matches_one fleet3 0 2 (t0 + 3 * Second) _ _ fleet3_wf (surjective_pairing _)) as [(_ & _ & H)|(E & _ & p & _ & Hn & Ed & _)].
  - exfalso. specialize (H 2%nat ltac:(vm_compute; right; left) ltac:(vm_compute; reflexivity)). discriminate.
  - split; [exact E | exists p; split; [exact Hn | exact Ed]].
Defined.

Lemma deaf_path_left_witness :
  let pr := mkProbe ProbePing "n1" 5 20000 in
  let '(d', reply, sw) := handleProbe sampleOptions fleet3 0 pr (t0 + 60 * Second) in
  curPath fleet3 0 = Some 1%nat ∧ sw = true ∧ pt_deaf (path_of d' 1) = true ∧ curPath d' 0 ≠ Some 1%nat.
Proof.
  intros pr. pose proof (deaf_path_left sampleOptions fleet3 0 1 pr (t0 + 60 * Second)) as H.
  destruct (handleProbe sampleOptions fleet3 0 pr (t0 + 60 * Second)) as [[d' reply] sw].
  destruct (H d' reply sw fleet3_wf ltac:(reflexivity) ltac:(vm_compute; reflexivity) ltac:(reflexivity) ltac:(simpl; lia)
    ltac:(vm_compute; reflexivity) ltac:(vm_compute; reflexivity) eq_refl) as (A & B & C & _).
  split; [vm_compute; reflexivity |]. exact (conj A (conj B C)).
Defined.

Lemma bestRound_highest_witness :
  (∀ r, counts sampleOptions fleet2 (t0 + 2 * Second) localNode r → r <= 100) ∧
  bestRound sampleOptions fleet2 (t0 + 2 * Second) localNode = 100.
Proof.
  destruct (bestRound_highest sampleOptions fleet2 (t0 + 2 * Second) localNode ltac:(vm_compute; congruence)) as [H _].
  assert (bestRound sampleOptions fleet2 (t0 + 2 * Second) localNode = 100) as E by (vm_compute; reflexivity).
  rewrite E in H. exact (conj H E).
Defined.

Lemma Snapshot_sound_witness :
  let '(d', us, best) := Snapshot sampleOptions fleet2 (t0 + 2 * Second) (t0 + 2 * Second) localNode (λ _, zeroStats) in
  best = bestRound sampleOptions fleet2 (t0 + 2 * Second) localNode ∧ up_ID <$> us = ["me"; "n1"; "ext"]%string.
Proof.
  pose proof (Snapshot_sound sampleOptions fleet2 (t0 + 2 * Second) (t0 + 2 * Second) localNode (λ _, zeroStats)) as H.
  destruct (Snapshot sampleOptions fleet2 (t0 + 2 * Second) (t0 + 2 * Second) localNode (λ _, zeroStats)) as [[d' us] best].
  destruct (H d' us best eq_refl) as (E1 & E2 & _). split; [exact E1 |]. rewrite E2. vm_compute. reflexivity.
Defined.

Lemma silent_peer_offline_witness :
  ∃ p, d_peers fleet2 !! "n1"%string = Some p ∧ peerRound sampleOptions p (t0 + 20 * Second) = (0, false).
Proof.
  eexists. split; [vm_compute; reflexivity |].
  eapply (silent_peer_offline sampleOptions fleet2 "n1" _ (t0 + 20 * Second) 0 (λ _, zeroStats));
    [vm_compute; reflexivity | vm_compute; split; reflexivity | vm_compute; reflexivity].
Defined.

(** The peer fell silent once, answered a probe at round 50, came back, and is
    silent again an hour later. *)
Definition fleet4 : Directory :=
  probeResult (probeSilentPeers sampleOptions fleet2 (t0 + 20 * Second) ["n1"%string]).1 "n1" (Ok (mkStatus 50 0 0 false "{}")).

Lemma stale_probe_trusted_witness :
  ∃ p p', d_peers fleet4 !! "n1"%string = Some p ∧
    d_peers (probeSilentPeers sampleOptions fleet4 (t0 + Hour) ["n1"%string]).1 !! "n1"%string = Some p' ∧
    peerRound sampleOptions p' (t0 + Hour) = (pe_probeRd p, true) ∧ pe_probeRd p = 50.
Proof.
  destruct (d_peers fleet4 !! "n1"%string) as [p|] eqn:E; [| exfalso; apply (f_equal isSome) in E; vm_compute in E; discriminate].
  assert (Some p = d_peers fleet4 !! "n1"%string) as E' by (symmetry; exact E). vm_compute in E'. injection E' as E'.
  destruct (stale_probe_trusted sampleOptions fleet4 "n1" p (t0 + Hour) E) as (_ & p' & H1 & H2);
    [subst p; reflexivity | vm_compute; split; congruence | subst p; vm_compute; reflexivity |
     subst p; vm_compute; congruence | vm_compute; reflexivity | subst p; discriminate | subst p; vm_compute; reflexivity |].
  exists p, p'. split; [reflexivity |]. split; [exact H1 |]. split; [exact H2 |]. subst p. reflexivity.
Defined.

Lemma checks_started_witness :
  ∃ e', d_externals (checkExternals sampleOptions fleet1 t0) !! "ext"%string = Some e' ∧ d_externals fleet1 !! "ext"%string = Some e'.
Proof.
  destruct (checks_started sampleOptions fleet1 t0 "ext" _ ltac:(vm_compute; reflexivity)) as (e' & H1 & H2 & _).
  exists e'. split; [exact H1 |]. rewrite (H2 ltac:(vm_compute; reflexivity)). vm_compute. reflexivity.
Defined.
