(* ===== verification/TxnPins.v ===== *)
(** * TxnPins: which node accepted a transaction (internal/app/txnpins.go)

    Two generations of a map rotate as time passes, so that a pin needs no
    timer of its own.  The mutex makes each method one step. *)
From S2P Require Import Prelude GoTime.
Open Scope Z_scope.

Record txnPins := mkPins {
  tp_ttl : Duration;
  tp_cur : gmap string string;
  tp_prev : gmap string string;
  tp_rotated : Time
}.

Definition newTxnPins (ttl : Duration) (now : Time) : txnPins := mkPins ttl ∅ ∅ now.

Definition rotate (p : txnPins) (now : Time) : txnPins :=
  let age := time_sub now (tp_rotated p) in
  if wi64 (2 * tp_ttl p) <=? age then mkPins (tp_ttl p) ∅ ∅ now
  else if tp_ttl p <=? age then mkPins (tp_ttl p) ∅ (tp_cur p) now
  else p.

Definition remember (p : txnPins) (txid upstream : string) (now : Time) : txnPins :=
  if txid =s "" then p
  else let p := rotate p now in p <| tp_cur ::= <[txid := upstream]> |>.

Definition recall (p : txnPins) (txid : string) (now : Time) : txnPins * option string :=
  let p := rotate p now in
  (p, match tp_cur p !! txid with Some u => Some u | None => tp_prev p !! txid end).

(** ** Traces *)
Inductive pinOp := Remember (txid upstream : string) | Recall (txid : string).

Definition pinStep (p : txnPins) (e : Time * pinOp) : txnPins :=
  match e.2 with
  | Remember txid u => remember p txid u e.1
  | Recall txid => (recall p txid e.1).1
  end.

Definition pinRun (p : txnPins) (l : list (Time * pinOp)) : txnPins := foldl pinStep p l.

(** The trace does not remember the transaction again. *)
Definition leaves_alone (txid : string) (l : list (Time * pinOp)) : Prop :=
  ∀ t u, (t, Remember txid u) ∉ l.

(** The clock of a trace never runs backwards, from t0. *)
Fixpoint ordered_from (t0 : Time) (l : list (Time * pinOp)) : Prop :=
  match l with [] => True | e :: l => t0 <= e.1 ∧ ordered_from e.1 l end.

Definition last_time (t0 : Time) (l : list (Time * pinOp)) : Time := foldl (λ _ e, e.1) t0 l.

(** Durations and times far from the ends of a 64-bit nanosecond count. *)
Definition pin_range (ttl t : Z) : Prop := 0 < ttl < 2 ^ 60 ∧ 0 <= t < 2 ^ 62.

(** ** Lemmas *)

Lemma rotate_eq p now :
  pin_range (tp_ttl p) now → 0 <= tp_rotated p <= now →
  rotate p now =
    if 2 * tp_ttl p <=? now - tp_rotated p then mkPins (tp_ttl p) ∅ ∅ now
    else if tp_ttl p <=? now - tp_rotated p then mkPins (tp_ttl p) ∅ (tp_cur p) now else p.
Proof.
  intros [H1 H2] H3. unfold rotate. rewrite wi64_id by mlia. by rewrite time_sub_exact by mlia.
Qed.

(** The state of a trace that started when txid was pinned to u at t0. *)
Record pinned (txid u : string) (t0 now : Time) (p : txnPins) : Prop := {
  pd_range : 0 < tp_ttl p < 2 ^ 60;
  pd_times : 0 <= t0 ∧ 0 <= tp_rotated p <= now;
  pd_where :
    (tp_cur p !! txid = Some u ∧ tp_rotated p <= t0 < tp_rotated p + tp_ttl p) ∨
    (tp_cur p !! txid = None ∧ tp_prev p !! txid = Some u ∧ t0 <= tp_rotated p <= t0 + 2 * tp_ttl p) ∨
    (tp_cur p !! txid = None ∧ tp_prev p !! txid = None ∧ t0 + tp_ttl p <= now)
}.

Lemma rotate_pinned txid u t0 now now' p :
  pinned txid u t0 now p → t0 <= now' → now <= now' < 2 ^ 62 → pinned txid u t0 now' (rotate p now').
Proof.
  intros [Hr [Ht0 Ht] Hw] Ht0' Hn. rewrite rotate_eq by (unfold pin_range; lia).
  destruct (Z.leb_spec (2 * tp_ttl p) (now' - tp_rotated p)); [| destruct (Z.leb_spec (tp_ttl p) (now' - tp_rotated p))].
  - constructor; simpl; [done | lia |]. right. right. rewrite !lookup_empty. split_and!; try done. lia.
  - constructor; simpl; [done | lia |]. rewrite lookup_empty. right.
    destruct Hw as [[-> ?]|[(-> & ? & ?)|(-> & ? & ?)]]; [left | right | right]; split_and!; try done; lia.
  - constructor; [done | lia |]. destruct Hw as [?|[?|(? & ? & ?)]]; [by left | by right; left | right; right].
    split_and!; try done. lia.
Qed.

Lemma pinStep_pinned txid u t0 now p e :
  pinned txid u t0 now p → t0 <= e.1 → now <= e.1 < 2 ^ 62 → (∀ v, e.2 ≠ Remember txid v) →
  pinned txid u t0 e.1 (pinStep p e).
Proof.
  intros H Ht Hn Hno. pose proof (rotate_pinned _ _ _ _ _ _ H Ht Hn) as Hp.
  unfold pinStep. destruct e as [t [x v|x]]; simpl in *; [| exact Hp].
  unfold remember. case_match.
  - destruct H as [? [? ?] Hw]. constructor; [done | lia |].
    destruct Hw as [?|[?|(? & ? & ?)]]; [by left | by right; left | right; right]. split_and!; try done. lia.
  - destruct Hp as [? ? Hw]. assert (x ≠ txid) by (intros ->; by apply (Hno v)).
    constructor; simpl; [done .. |]. by rewrite lookup_insert_ne.
Qed.

Lemma last_time_ge t l : ordered_from t l → t <= last_time t l.
Proof.
  revert t. induction l as [|e l IH]; intros t; [done |]. intros [? Ho]. specialize (IH _ Ho).
  change (last_time t (e :: l)) with (last_time e.1 l). lia.
Qed.

Lemma pinRun_pinned txid u t0 now p l :
  pinned txid u t0 now p → t0 <= now → ordered_from now l → last_time now l < 2 ^ 62 → leaves_alone txid l →
  pinned txid u t0 (last_time now l) (pinRun p l) ∧ t0 <= last_time now l.
Proof.
  revert now p. induction l as [|e l IH]; intros now p H Ht Ho Hl Hx; simpl in *; [done |].
  destruct Ho as [Hne Ho].
  change (last_time e.1 l < 2 ^ 62) in Hl. pose proof (last_time_ge _ _ Ho) as Hle.
  assert (t0 <= e.1) by (etransitivity; [exact Ht | exact Hne]).
  apply IH; try done; [| by intros t v Hin; apply (Hx t v); right].
  eapply pinStep_pinned; try done; [split; [done | by eapply Z.le_lt_trans] |].
  intros v E. destruct e as [t x]. simpl in E. subst x. apply (Hx t v). left.
Qed.

Lemma remember_pinned p txid u t0 :
  pin_range (tp_ttl p) t0 → 0 <= tp_rotated p <= t0 → txid ≠ ""%string → pinned txid u t0 t0 (remember p txid u t0).
Proof.
  intros Hr Ht Hx. unfold remember. apply String.eqb_neq in Hx. rewrite Hx, rotate_eq by done.
  destruct Hr as [? ?].
  destruct (Z.leb_spec (2 * tp_ttl p) (t0 - tp_rotated p)); [| destruct (Z.leb_spec (tp_ttl p) (t0 - tp_rotated p))];
    (constructor; simpl; [done | lia | left; rewrite lookup_insert_eq; split; [done | lia]]).
Qed.

Lemma recall_pinned txid u t0 now now' p :
  pinned txid u t0 now p → t0 <= now' → now <= now' < 2 ^ 62 →
  (now' < t0 + tp_ttl p → (recall p txid now').2 = Some u) ∧
  (t0 + 3 * tp_ttl p <= now' → (recall p txid now').2 = None).
Proof.
  intros H Ht Hn. destruct (rotate_pinned _ _ _ _ _ _ H Ht Hn) as [Hr' Ht' Hw']. unfold recall. simpl.
  assert (tp_ttl (rotate p now') = tp_ttl p ∧ now' - tp_rotated (rotate p now') < tp_ttl p) as [El Eg].
  { destruct H as [? [? ?] _]. rewrite rotate_eq by (unfold pin_range; lia). repeat case_match; simpl; split; try done; lia. }
  rewrite El in *. destruct Hw' as [[-> ?]|[(-> & -> & ?)|(-> & -> & ?)]]; split; intros; try done; lia.
Qed.

(** ** Properties *)

(** a pin lives at least its time to live and less than three times it:
    whatever else is remembered and recalled meanwhile, a pinned transaction
    is recalled with its node for the whole ttl, and is gone once three ttls
    have passed. *)
Theorem pin_lifetime p txid u t0 l now :
  pin_range (tp_ttl p) t0 → 0 <= tp_rotated p <= t0 → txid ≠ ""%string →
  ordered_from t0 l → leaves_alone txid l → last_time t0 l <= now < 2 ^ 62 →
  let '(_, found) := recall (pinRun (remember p txid u t0) l) txid now in
  (now < t0 + tp_ttl p → found = Some u) ∧ (t0 + 3 * tp_ttl p <= now → found = None).
Proof.
  intros Hr Ht Hx Ho Hl Hn.
  destruct (pinRun_pinned txid u t0 t0 (remember p txid u t0) l) as [Hp Hle];
    [by apply remember_pinned | lia | done | lia | done |].
  pose proof (recall_pinned _ _ _ _ now _ Hp ltac:(lia) Hn) as H.
  assert (tp_ttl (pinRun (remember p txid u t0) l) = tp_ttl p) as E.
  { clear. assert (∀ q t, tp_ttl (rotate q t) = tp_ttl q) as Hrot by (intros q t; unfold rotate; by repeat case_match).
    assert (∀ q x v t, tp_ttl (remember q x v t) = tp_ttl q) as Hrem
      by (intros q x v t; unfold remember; case_match; [done | apply Hrot]).
    rewrite <- (Hrem p txid u t0). generalize (remember p txid u t0).
    induction l as [|e l IH]; intros q; [done |]. simpl. rewrite IH. unfold pinStep. case_match; [apply Hrem | apply Hrot]. }
  rewrite E in H. by destruct (recall _ _ _).
Qed.

Lemma pin_lifetime_witness :
  let '(_, found) := recall (pinRun (remember (newTxnPins Minute Second) "tx" "n1" (2 * Second))
                      [(3 * Second, Remember "other" "n2"); (62 * Second - 1, Recall "tx")]) "tx" (62 * Second - 1) in
  (62 * Second - 1 < 2 * Second + Minute → found = Some "n1"%string) ∧
  (2 * Second + 3 * Minute <= 62 * Second - 1 → found = None).
Proof.
  apply (pin_lifetime (newTxnPins Minute Second) "tx" "n1" (2 * Second)).
  - by vm_compute.
  - by vm_compute.
  - discriminate.
  - by vm_compute.
  - intros t u Hin. rewrite !elem_of_cons in Hin. destruct Hin as [Hin|[Hin|Hin]]; [discriminate .. |]. by apply elem_of_nil in Hin.
  - by vm_compute.
Defined.

(** the documented bound of two ttls is not what the code keeps: a pin
    recalled just before its second ttl ends moves to the previous generation
    and is still recalled two nanoseconds before its third ttl ends, for any
    ttl. *)
Theorem pin_outlives_two_ttls txid u ttl t0 :
  0 <= t0 → pin_range ttl (t0 + 3 * ttl) → txid ≠ ""%string → 2 <= ttl →
  let p := remember (newTxnPins ttl t0) txid u t0 in
  let p := (recall p txid (t0 + 2 * ttl - 1)).1 in
  (recall p txid (t0 + 3 * ttl - 2)).2 = Some u.
Proof.
  intros Ht [H1 H2] Hx H3 p. assert (p = mkPins ttl {[txid := u]} ∅ t0) as ->.
  { unfold p, remember. apply String.eqb_neq in Hx. rewrite Hx, rotate_eq by (unfold pin_range; simpl; lia). simpl.
    rewrite Z.sub_diag. by rewrite !(proj2 (Z.leb_gt _ 0)) by lia. }
  unfold recall. simpl. rewrite (rotate_eq _ (t0 + 2 * ttl - 1)) by (unfold pin_range; simpl; lia). simpl.
  rewrite (proj2 (Z.leb_gt _ _)), (proj2 (Z.leb_le ttl _)) by lia.
  rewrite rotate_eq by (unfold pin_range; simpl; lia). simpl.
  rewrite !(proj2 (Z.leb_gt _ _)) by lia. simpl. by rewrite lookup_empty, lookup_singleton_eq.
Qed.

Lemma pin_outlives_two_ttls_witness :
  let p := remember (newTxnPins Minute Second) "tx" "n1" Second in
  let p := (recall p "tx" (Second + 2 * Minute - 1)).1 in
  (recall p "tx" (Second + 3 * Minute - 2)).2 = Some "n1"%string.
Proof. apply (pin_outlives_two_ttls "tx" "n1" Minute Second); [by vm_compute | by vm_compute | discriminate | by vm_compute]. Defined.
