(* ===== verification/StatsBook.v ===== *)
(** * StatsBook: what the router has seen of each upstream (internal/app/stats.go)

    A ring of recent outcomes gives the error rate, a run of failures opens
    the circuit breaker, latencies are smoothed per stat key and a counter
    holds the requests in flight.  The mutex makes each method one step; the
    clock is read inside it, so a step takes the time as an argument.  None is
    a panic (an index out of range). *)
From S2P Require Import Prelude GoFloat GoTime Types Ports.
Open Scope Z_scope.

Record BreakerOptions := mkBreaker {
  br_Threshold : Z;
  br_OpenFor : Duration;
  br_Window : Z;
  br_Alpha : float64
}.

Definition DefaultBreaker : BreakerOptions := mkBreaker 5 (10 * Second) 50 (nlit 2 10).

Record upstreamStats := mkUStats {
  us_latency : gmap string float64;
  us_window : list bool;
  us_windowPos : Z;
  us_windowFull : bool;
  us_inflight : Z;
  us_failures : Z;
  us_probing : bool;
  us_openUntil : Time;
  us_throttledUntil : Time;
  us_busyUntil : Time
}.

Record StatsBook := mkBook { sb_opts : BreakerOptions; sb_m : gmap string upstreamStats }.

Definition NewStatsBook (opts : BreakerOptions) : StatsBook :=
  mkBook (if br_Threshold opts =? 0 then DefaultBreaker else opts) ∅.

Definition freshStats (opts : BreakerOptions) : option upstreamStats :=
  if br_Window opts <? 0 then None
  else Some (mkUStats ∅ (replicate (Z.to_nat (br_Window opts)) false) 0 false 0 0 false zero_time zero_time zero_time).

Definition get (b : StatsBook) (id : string) : option upstreamStats :=
  match sb_m b !! id with Some s => Some s | None => freshStats (sb_opts b) end.

(** The map entry of id rewritten through the pointer get returned. *)
Definition put (b : StatsBook) (id : string) (s : upstreamStats) : StatsBook := b <| sb_m ::= <[id := s]> |>.

Definition Begin (b : StatsBook) (id : string) : option StatsBook :=
  s ← get b id; Some (put b id (s <| us_inflight := wi64 (us_inflight s + 1) |>)).

(** The func Begin returns: fired is the state of its sync.Once. *)
Definition Finish (b : StatsBook) (id : string) (fired : bool) : option (StatsBook * bool) :=
  if fired then Some (b, true)
  else s ← get b id; Some (put b id (s <| us_inflight := wi64 (us_inflight s - 1) |>), true).

(** The ring after one outcome. *)
Definition pushWindow (s : upstreamStats) (failed : bool) : option upstreamStats :=
  if (us_windowPos s <? 0) || (Z.of_nat (length (us_window s)) <=? us_windowPos s) then None
  else
    let pos := Z.rem (us_windowPos s + 1) (Z.of_nat (length (us_window s))) in
    Some (s <| us_window ::= <[Z.to_nat (us_windowPos s) := failed]> |> <| us_windowPos := pos |>
            <| us_windowFull ::= λ f, if pos =? 0 then true else f |>).

Definition recordOne (opts : BreakerOptions) (now : Time) (key : string) (out : Outcome) (s : upstreamStats) : option upstreamStats :=
  let failed := Failed out in
  s ← pushWindow s failed;
  Some
    (if failed then
       let s := s <| us_failures := wi64 (us_failures s + 1) |> in
       let s := if (br_Threshold opts <=? us_failures s) || us_probing s
                then s <| us_openUntil := time_add now (br_OpenFor opts) |> <| us_probing := true |> else s in
       if out_Status out =? 429 then s <| us_throttledUntil := time_add now (br_OpenFor opts) |> else s
     else
       let s := s <| us_failures := 0 |> <| us_probing := false |> in
       let ms := (nofZ (out_Duration out) / nofZ Millisecond)%num in
       s <| us_latency ::= <[key := match us_latency s !! key with
                                    | Some prev => (prev + br_Alpha opts * (ms - prev))%num
                                    | None => ms
                                    end]> |>).

Definition RecordOutcome (b : StatsBook) (now : Time) (id key : string) (out : Outcome) : option StatsBook :=
  s ← get b id; s ← recordOne (sb_opts b) now key out s; Some (put b id s).

Definition Busy (b : StatsBook) (now : Time) (id : string) (d : Duration) : option StatsBook :=
  let until := time_add now d in
  s ← get b id;
  Some (put b id (if After until (us_busyUntil s) then s <| us_busyUntil := until |> else s)).

(** How many of the first n outcomes of the ring failed. *)
Definition countFails (window : list bool) (n : nat) : Z := Z.of_nat (length (List.filter id (take n window))).

Definition Snapshot (b : StatsBook) (now : Time) (id : string) : Stats :=
  match sb_m b !! id with
  | None => zeroStats
  | Some s =>
      let n := if us_windowFull s then Z.of_nat (length (us_window s)) else us_windowPos s in
      let fails := countFails (us_window s) (Z.to_nat n) in
      mkStats (us_latency s) (if 0 <? n then (nofZ fails / nofZ n)%num else nzero) (us_inflight s)
        (Before now (us_openUntil s)) (Before now (us_throttledUntil s)) (Before now (us_busyUntil s))
  end.

(** ** Histories

    What an upstream's statistics should be, from the list of its outcomes,
    newest first. *)
Definition history : Type := list (Time * Outcome).

(** The length of the run of failures the history ends with. *)
Fixpoint failRun (h : history) : Z :=
  match h with
  | (_, o) :: h => if Failed o then 1 + failRun h else 0
  | [] => 0
  end.

(** The last failure that found, or made, the run as long as the threshold. *)
Fixpoint lastTrip (threshold : Z) (h : history) : option Time :=
  match h with
  | (t, o) :: h' => if Failed o && (threshold <=? failRun h) then Some t else lastTrip threshold h'
  | [] => None
  end.

(** The last time the upstream answered 429. *)
Fixpoint lastThrottle (h : history) : option Time :=
  match h with
  | (t, o) :: h' => if Failed o && (out_Status o =? 429) then Some t else lastThrottle h'
  | [] => None
  end.

Definition recentFails (window : nat) (h : history) : list bool := take window ((λ e, Failed e.2) <$> h).

(** The share of failures among the last window outcomes. *)
Definition recentRate (window : nat) (h : history) : float64 :=
  let l := recentFails window h in
  if (0 <? Z.of_nat (length l)) then (nofZ (Z.of_nat (length (List.filter id l))) / nofZ (Z.of_nat (length l)))%num else nzero.

Definition openAt (now : Time) (d : Duration) (last : option Time) : bool :=
  match last with Some t => now <? t + d | None => false end.

(** *** The ring *)

(** The ring holds the newest outcomes of l (newest first). *)
Definition ring (W : nat) (window : list bool) (pos : Z) (full : bool) (l : list bool) : Prop :=
  if full then ∃ a b, window = a ++ b ∧ b ≠ [] ∧ pos = Z.of_nat (length a) ∧ length window = W ∧ take W l = reverse a ++ reverse b
  else window = reverse l ++ replicate (W - length l) false ∧ pos = Z.of_nat (length l) ∧ (length l < W)%nat.

Lemma ring_len W window pos full l : ring W window pos full l → length window = W ∧ 0 <= pos < Z.of_nat W.
Proof.
  unfold ring. destruct full.
  - intros (a & b & -> & Hb & -> & <- & _). rewrite length_app. split; [done |]. destruct b; [done | simpl; lia].
  - intros (-> & -> & H). rewrite length_app, length_reverse, length_replicate. lia.
Qed.

Lemma count_perm (l l' : list bool) : l ≡ₚ l' → length (List.filter id l) = length (List.filter id l').
Proof.
  intros H. induction H as [|x l l' H IH|x y l|l l' l'' H1 IH1 H2 IH2]; [done | | | congruence].
  - destruct x; simpl; congruence.
  - by destruct x, y.
Qed.

Lemma ring_count W window pos full l :
  ring W window pos full l →
  let n := if full then Z.of_nat (length window) else pos in
  n = Z.of_nat (length (take W l)) ∧ countFails window (Z.to_nat n) = Z.of_nat (length (List.filter id (take W l))).
Proof.
  intros H. pose proof (ring_len _ _ _ _ _ H) as [Hl _]. unfold ring in H. unfold countFails. destruct full; simpl.
  - destruct H as (a & b & -> & _ & _ & _ & E). rewrite Nat2Z.id, firstn_all, E. rewrite !length_app, !length_reverse.
    split; [done |]. f_equal. apply count_perm. by rewrite !reverse_Permutation.
  - destruct H as (-> & -> & H). rewrite Nat2Z.id, take_app_le by (rewrite length_reverse; lia).
    rewrite (take_ge l) by lia. split; [done |]. f_equal. rewrite take_ge by (rewrite length_reverse; lia).
    apply count_perm. apply reverse_Permutation.
Qed.

Lemma ring_step W window pos full l x :
  ring W window pos full l →
  let pos' := if pos + 1 =? Z.of_nat W then 0 else pos + 1 in
  ring W (<[Z.to_nat pos := x]> window) pos' (if pos' =? 0 then true else full) (x :: l).
Proof.
  intros H pos'. pose proof (ring_len _ _ _ _ _ H) as [Hl Hp]. unfold pos', ring in *. clear pos'. destruct full.
  - destruct H as (a & b & -> & Hb & -> & _ & Et). rewrite Nat2Z.id. rewrite length_app in Hl.
    destruct b as [|y b]; [done |]. simpl in Hl.
    assert (<[length a:=x]> (a ++ y :: b) = a ++ x :: b) as ->
      by (replace (length a) with (length a + 0)%nat by lia; by rewrite insert_app_r).
    assert (take W (x :: l) = x :: reverse a ++ reverse b) as Et'.
    { destruct W as [|W]; [lia |]. simpl. f_equal.
      assert (take W l = take W (take (S W) l)) as -> by (rewrite take_take; f_equal; lia).
      rewrite Et, reverse_cons, app_assoc, take_app_le by (rewrite length_app, !length_reverse; lia).
      apply take_ge. rewrite length_app, !length_reverse. lia. }
    destruct (Z.eqb_spec (Z.of_nat (length a) + 1) (Z.of_nat W)) as [E|E]; simpl.
    + destruct b; [| simpl in Hl; lia]. exists [], (a ++ [x]).
      split_and!; [done | by destruct a | done | rewrite length_app; simpl; lia |].
      by rewrite Et', reverse_app, app_nil_r.
    + destruct (Z.eqb_spec (Z.of_nat (length a) + 1) 0); [lia |]. exists (a ++ [x]), b.
      split_and!; [by rewrite <- app_assoc | intros ->; simpl in Hl; lia | rewrite length_app; simpl; lia |
                   rewrite length_app; simpl; lia |].
      by rewrite Et', reverse_app.
  - destruct H as (-> & -> & H). rewrite Nat2Z.id.
    assert (<[length l:=x]> (reverse l ++ replicate (W - length l) false) =
            reverse (x :: l) ++ replicate (W - length (x :: l)) false) as ->.
    { replace (length l) with (length (reverse l) + 0)%nat at 1 by (rewrite length_reverse; lia).
      rewrite insert_app_r, reverse_cons, <- app_assoc. simpl.
      destruct (W - length l)%nat eqn:E; [lia |]. simpl. by replace (W - S (length l))%nat with n by lia. }
    destruct (Z.eqb_spec (Z.of_nat (length l) + 1) (Z.of_nat W)) as [E|E]; simpl.
    + exists [], (reverse (x :: l)). replace (W - S (length l))%nat with 0%nat by lia.
      split_and!; [by rewrite app_nil_r | rewrite reverse_cons; by destruct (reverse l) | done |
                   rewrite app_nil_r, length_reverse; simpl; lia |].
      rewrite reverse_involutive. apply take_ge. simpl. lia.
    + destruct (Z.eqb_spec (Z.of_nat (length l) + 1) 0); [lia |]. split_and!; [done | lia | lia].
Qed.

Lemma ring_push W s l x :
  ring W (us_window s) (us_windowPos s) (us_windowFull s) l →
  ∃ win pos full, pushWindow s x = Some (s <| us_window := win |> <| us_windowPos := pos |> <| us_windowFull := full |>) ∧
    ring W win pos full (x :: l).
Proof.
  intros H. pose proof (ring_len _ _ _ _ _ H) as [Hl Hp]. pose proof (ring_step _ _ _ _ _ x H) as Hs.
  unfold pushWindow. destruct ((us_windowPos s <? 0) || _) eqn:E; [lia |]. clear E.
  assert (Z.rem (us_windowPos s + 1) (Z.of_nat W) = if us_windowPos s + 1 =? Z.of_nat W then 0 else us_windowPos s + 1) as Er.
  { destruct (Z.eqb_spec (us_windowPos s + 1) (Z.of_nat W)) as [->|]; [apply Z.rem_same; lia | apply Z.rem_small; lia]. }
  rewrite Hl, Er. by eexists _, _, _.
Qed.

(** *** One upstream *)
Definition since_zero (d : Duration) (last : option Time) : Time :=
  match last with Some t => t + d | None => zero_time end.

(** The entry of an upstream with history h and n requests in flight. *)
Record tracks (opts : BreakerOptions) (h : history) (n : Z) (s : upstreamStats) : Prop := {
  tr_ring : ring (Z.to_nat (br_Window opts)) (us_window s) (us_windowPos s) (us_windowFull s) ((λ e, Failed e.2) <$> h);
  tr_failures : us_failures s = failRun h;
  tr_probing : us_probing s = (0 <? failRun h) && (br_Threshold opts <=? failRun h);
  tr_open : us_openUntil s = since_zero (br_OpenFor opts) (lastTrip (br_Threshold opts) h);
  tr_throttled : us_throttledUntil s = since_zero (br_OpenFor opts) (lastThrottle h);
  tr_inflight : us_inflight s = n
}.

Lemma failRun_bound h : 0 <= failRun h <= Z.of_nat (length h).
Proof. induction h as [|[t o] h IH]; simpl; [lia |]. case_match; lia. Qed.

Lemma fresh_tracks opts : 0 < br_Window opts → ∃ s, freshStats opts = Some s ∧ tracks opts [] 0 s.
Proof.
  intros H. unfold freshStats. destruct (Z.ltb_spec (br_Window opts) 0); [lia |]. eexists. split; [reflexivity |].
  constructor; try done. unfold ring. simpl. rewrite Nat.sub_0_r. split_and!; [done | done | lia].
Qed.

Lemma recordOne_tracks opts h n s now key out :
  Z.of_nat (length h) < 2 ^ 62 → tracks opts h n s →
  ∃ s', recordOne opts now key out s = Some s' ∧ tracks opts ((now, out) :: h) n s'.
Proof.
  intros Hlen [Hr Hf Hp Ho Ht Hi]. pose proof (failRun_bound h) as Hb. unfold recordOne.
  destruct (ring_push _ s _ (Failed out) Hr) as (win & pos & full & -> & Hr'). simpl.
  eexists. split; [reflexivity |]. unfold const.
  destruct (Failed out) eqn:Ef.
  - rewrite Hf, Hp, wi64_id by mlia.
    assert ((br_Threshold opts <=? failRun h + 1) || (0 <? failRun h) && (br_Threshold opts <=? failRun h) =
            (br_Threshold opts <=? failRun h + 1)) as -> by lia.
    destruct (Z.leb_spec (br_Threshold opts) (failRun h + 1)), (out_Status out =? 429) eqn:E9; constructor; simpl;
      unfold const; rewrite ?Ef, ?E9; simpl; rewrite ?(Z.add_comm 1 (failRun h)); try done; try lia.
    all: destruct (Z.leb_spec (br_Threshold opts) (failRun h + 1)); try lia; try done.
    all: rewrite ?Hp; destruct (br_Threshold opts <=? failRun h) eqn:E, (0 <? failRun h) eqn:E'; simpl; try done; lia.
  - constructor; simpl; unfold const; rewrite ?Ef; simpl; try done.
Qed.

(** *** The book *)
Inductive bookOp :=
  | OpRecord (now : Time) (id key : string) (out : Outcome)
  | OpBegin (id : string)
  | OpFinish (k : nat)             (* the k-th func Begin returned is called *)
  | OpBusy (now : Time) (id : string) (d : Duration).

(** The book and the funcs Begin returned so far: whose they are, and whether
    they have fired. *)
Definition bookWorld : Type := StatsBook * list (string * bool).

Definition bookStep (w : bookWorld) (op : bookOp) : option bookWorld :=
  let '(b, fs) := w in
  match op with
  | OpRecord now id key out => b ← RecordOutcome b now id key out; Some (b, fs)
  | OpBegin id => b ← Begin b id; Some (b, fs ++ [(id, false)])
  | OpFinish k =>
      match fs !! k with
      | Some (id, fired) => '(b, fired) ← Finish b id fired; Some (b, <[k := (id, fired)]> fs)
      | None => Some w
      end
  | OpBusy now id d => b ← Busy b now id d; Some (b, fs)
  end.

Fixpoint bookRun (w : bookWorld) (ops : list bookOp) : option bookWorld :=
  match ops with
  | [] => Some w
  | op :: ops => w ← bookStep w op; bookRun w ops
  end.

(** The outcomes recorded for id, newest first. *)
Definition historyOf (id : string) (ops : list bookOp) : history :=
  reverse (omap (λ op, match op with
                       | OpRecord now id' _ out => if id' =s id then Some (now, out) else None
                       | _ => None
                       end) ops).

(** The requests to id begun and not finished. *)
Definition unfinished (id : string) (fs : list (string * bool)) : list (string * bool) :=
  List.filter (λ f, (f.1 =s id) && negb f.2) fs.

Definition inflightOf (id : string) (fs : list (string * bool)) : Z := Z.of_nat (length (unfinished id fs)).

Definition book_inv (opts : BreakerOptions) (ops : list bookOp) (w : bookWorld) : Prop :=
  sb_opts w.1 = opts ∧ (length w.2 <= length ops)%nat ∧
  ∀ id, ∃ s, get w.1 id = Some s ∧ tracks opts (historyOf id ops) (inflightOf id w.2) s.

Lemma get_put b id id' s : get (put b id s) id' = if id' =s id then Some s else get b id'.
Proof.
  unfold get, put. simpl. destruct (String.eqb_spec id' id) as [->|]; [by rewrite lookup_insert_eq | by rewrite lookup_insert_ne].
Qed.

Lemma historyOf_snoc id ops op :
  historyOf id (ops ++ [op]) =
  match op with
  | OpRecord now id' _ out => if id' =s id then (now, out) :: historyOf id ops else historyOf id ops
  | _ => historyOf id ops
  end.
Proof.
  unfold historyOf. rewrite omap_app, reverse_app. simpl. destruct op as [now id' key out| | |]; simpl; try done.
  by destruct (id' =s id).
Qed.

Lemma inflightOf_bound id fs : 0 <= inflightOf id fs <= Z.of_nat (length fs).
Proof.
  unfold inflightOf, unfinished. induction fs as [|f fs IH]; simpl; [lia |]. case_match; simpl; lia.
Qed.

Lemma historyOf_bound id ops : (length (historyOf id ops) <= length ops)%nat.
Proof.
  unfold historyOf. rewrite length_reverse. induction ops as [|op ops IH]; cbn [omap list_omap length]; [lia |].
  destruct (match op with OpRecord _ _ _ _ => _ | _ => _ end); cbn [length]; unfold omap in *; lia.
Qed.

Lemma inflightOf_app id fs f : inflightOf id (fs ++ [f]) = inflightOf id fs + (if (f.1 =s id) && negb f.2 then 1 else 0).
Proof.
  unfold inflightOf, unfinished. rewrite List.filter_app, length_app. simpl. case_match; simpl; lia.
Qed.

Lemma inflightOf_fire id id' fs k :
  fs !! k = Some (id', false) →
  inflightOf id (<[k := (id', true)]> fs) = inflightOf id fs - (if id' =s id then 1 else 0).
Proof.
  unfold inflightOf, unfinished. revert k. induction fs as [|f fs IH]; intros [|k]; simpl; try done.
  - intros [= ->]. simpl. rewrite andb_false_r, andb_true_r. destruct (id' =s id); simpl; lia.
  - intros H. specialize (IH k H). simpl. destruct ((f.1 =s id) && negb f.2), (id' =s id); simpl in *; lia.
Qed.

Lemma tracks_inflight opts h n n' s : tracks opts h n s → tracks opts h n' (s <| us_inflight := n' |>).
Proof. intros []. by constructor. Qed.

Lemma bookStep_inv opts ops w op :
  0 < br_Window opts → Z.of_nat (length ops) < 2 ^ 62 → book_inv opts ops w →
  ∃ w', bookStep w op = Some w' ∧ book_inv opts (ops ++ [op]) w'.
Proof.
  intros HW Hlen (Ho & Hfs & Hid). destruct w as [b fs]. simpl in *.
  assert (∀ id, Z.of_nat (length (historyOf id ops)) < 2 ^ 62) as Hh
    by (intros id; pose proof (historyOf_bound id ops); lia).
  assert (∀ id, 0 <= inflightOf id fs < 2 ^ 62) as Hn by (intros id; pose proof (inflightOf_bound id fs); lia).
  destruct op as [now id key out|id|k|now id d]; simpl.
  - destruct (Hid id) as (s & Hg & Ht). unfold RecordOutcome. rewrite Hg. simpl. rewrite Ho.
    destruct (recordOne_tracks opts _ _ s now key out (Hh id) Ht) as (s' & -> & Ht'). simpl.
    eexists. split; [reflexivity |]. split_and!; [done | rewrite length_app; simpl; lia |].
    intros id'. simpl. rewrite get_put, historyOf_snoc, (String.eqb_sym id id'). destruct (String.eqb_spec id' id) as [->|]; eauto.
  - destruct (Hid id) as (s & Hg & Ht). unfold Begin. rewrite Hg. simpl. eexists. split; [reflexivity |].
    split_and!; [done | simpl; rewrite !length_app; simpl; lia |].
    intros id'. simpl. rewrite get_put, historyOf_snoc, inflightOf_app. simpl. rewrite andb_true_r, (String.eqb_sym id id').
    destruct (String.eqb_spec id' id) as [->|]; [| rewrite Z.add_0_r; eauto].
    eexists. split; [reflexivity |]. pose proof (tr_inflight _ _ _ _ Ht) as ->.
    rewrite wi64_id by (specialize (Hn id); mlia). by eapply tracks_inflight.
  - assert (∀ w', book_inv opts ops w' → book_inv opts (ops ++ [OpFinish k]) w') as Hsame.
    { intros w' (H1 & H2 & H3). split_and!; [done | rewrite length_app; lia |].
      intros id'. rewrite historyOf_snoc. apply H3. }
    destruct (fs !! k) as [[id fired]|] eqn:Ek; [| eexists; split; [reflexivity | by apply Hsame]].
    unfold Finish. destruct fired; simpl.
    { eexists. split; [reflexivity |]. rewrite list_insert_id by done. by apply Hsame. }
    destruct (Hid id) as (s & Hg & Ht). rewrite Hg. simpl. eexists. split; [reflexivity |]. apply Hsame.
    split_and!; [done | simpl; by rewrite length_insert |].
    intros id'. simpl. rewrite get_put, (inflightOf_fire id' id fs k Ek), (String.eqb_sym id id').
    destruct (String.eqb_spec id' id) as [->|]; [| rewrite Z.sub_0_r; eauto].
    eexists. split; [reflexivity |]. pose proof (tr_inflight _ _ _ _ Ht) as ->.
    rewrite wi64_id by (specialize (Hn id); mlia). by eapply tracks_inflight.
  - destruct (Hid id) as (s & Hg & Ht). unfold Busy. rewrite Hg. simpl. eexists. split; [reflexivity |].
    split_and!; [done | simpl; rewrite length_app; simpl; lia |].
    intros id'. simpl. rewrite get_put, historyOf_snoc. destruct (String.eqb_spec id' id) as [->|]; [| eauto].
    eexists. split; [reflexivity |]. case_match; [| done]. destruct Ht. by constructor.
Qed.

Lemma bookRun_inv opts ops0 w ops :
  0 < br_Window opts → Z.of_nat (length (ops0 ++ ops)) < 2 ^ 62 → book_inv opts ops0 w →
  ∃ w', bookRun w ops = Some w' ∧ book_inv opts (ops0 ++ ops) w'.
Proof.
  intros HW. revert ops0 w. induction ops as [|op ops IH]; intros ops0 w Hlen Hi; simpl.
  - rewrite app_nil_r. eauto.
  - rewrite length_app in Hlen. simpl in Hlen.
    destruct (bookStep_inv opts ops0 w op HW ltac:(lia) Hi) as (w' & -> & Hi'). simpl.
    replace (ops0 ++ op :: ops) with ((ops0 ++ [op]) ++ ops) by by rewrite <- app_assoc.
    apply IH; [rewrite !length_app; simpl; lia | done].
Qed.

Lemma bookRun_new opts ops :
  br_Threshold opts ≠ 0 → 0 < br_Window opts → Z.of_nat (length ops) < 2 ^ 62 →
  ∃ w', bookRun (NewStatsBook opts, []) ops = Some w' ∧ book_inv opts ops w'.
Proof.
  intros HT HW Hlen. apply (bookRun_inv opts []); [done | done |].
  unfold NewStatsBook. rewrite (proj2 (Z.eqb_neq _ _) HT). split_and!; [done | simpl; lia |].
  intros id. destruct (fresh_tracks opts HW) as (s & Hs & Ht). exists s. split; [| done].
  unfold get. simpl. by rewrite lookup_empty.
Qed.

(** The snapshot of an upstream, seen or not, from its entry. *)
Lemma Snapshot_spec opts b now id h n s :
  0 < br_Window opts → 0 <= now → sb_opts b = opts → get b id = Some s → tracks opts h n s →
  st_ErrorRate (Snapshot b now id) = recentRate (Z.to_nat (br_Window opts)) h ∧
  st_Inflight (Snapshot b now id) = n ∧
  st_BreakerOpen (Snapshot b now id) = openAt now (br_OpenFor opts) (lastTrip (br_Threshold opts) h) ∧
  st_Throttled (Snapshot b now id) = openAt now (br_OpenFor opts) (lastThrottle h).
Proof.
  intros HW Hnow Ho Hg [Hr _ _ Hop Hth Hi]. unfold get in Hg. unfold Snapshot.
  assert (∀ d l, Before now (since_zero d l) = openAt now d l) as Hb.
  { intros d [t|]; [done |]. simpl. unfold Before, zero_time. lia. }
  destruct (ring_count _ _ _ _ _ Hr) as [En Ec]. unfold recentRate, recentFails.
  destruct (sb_m b !! id) as [s'|].
  - injection Hg as ->. simpl. rewrite Ec, En, Hop, Hth, !Hb. by split_and!.
  - rewrite Ho in Hg. destruct (fresh_tracks opts HW) as (s' & Hg' & _). rewrite Hg in Hg'. simplify_eq.
    unfold freshStats in Hg. destruct (br_Window (sb_opts b) <? 0); [done |]. injection Hg as <-. simpl in *.
    rewrite <- !Hb, <- Hop, <- Hth, <- En. split_and!; try done; simpl; unfold Before, zero_time; symmetry; lia.
Qed.

(** ** Properties *)

(** the statistics the selector sees are functions of what happened: after
    any interleaving of requests beginning, finishing (the returned func called
    any number of times), outcomes and busy answers over any upstreams, no step
    panics, an upstream's error rate is the share of failures among its last
    Window outcomes, and its in-flight count is the number of its requests
    begun and not finished. *)
Theorem Snapshot_rates opts ops id now :
  br_Threshold opts ≠ 0 → 0 < br_Window opts → Z.of_nat (length ops) < 2 ^ 62 → 0 <= now →
  ∃ b fs, bookRun (NewStatsBook opts, []) ops = Some (b, fs) ∧
    st_ErrorRate (Snapshot b now id) = recentRate (Z.to_nat (br_Window opts)) (historyOf id ops) ∧
    st_Inflight (Snapshot b now id) = Z.of_nat (length (unfinished id fs)).
Proof.
  intros HT HW Hlen Hnow. destruct (bookRun_new opts ops HT HW Hlen) as ([b fs] & -> & Ho & _ & Hid).
  exists b, fs. split; [done |]. destruct (Hid id) as (s & Hg & Ht).
  by destruct (Snapshot_spec opts b now id _ _ s HW Hnow Ho Hg Ht) as (-> & -> & _).
Qed.

(** C39: the circuit breaker and the throttle follow the outcomes exactly: the
    breaker is open for OpenFor after the last failure that completed a run of
    Threshold consecutive failures or prolonged such a run (so one failed
    probe after the pause opens it again, and one success ends the run), and
    the upstream is throttled for OpenFor after its last 429. *)
Theorem Snapshot_breaker opts ops id now :
  br_Threshold opts ≠ 0 → 0 < br_Window opts → Z.of_nat (length ops) < 2 ^ 62 → 0 <= now →
  ∃ b fs, bookRun (NewStatsBook opts, []) ops = Some (b, fs) ∧
    st_BreakerOpen (Snapshot b now id) = openAt now (br_OpenFor opts) (lastTrip (br_Threshold opts) (historyOf id ops)) ∧
    st_Throttled (Snapshot b now id) = openAt now (br_OpenFor opts) (lastThrottle (historyOf id ops)).
Proof.
  intros HT HW Hlen Hnow. destruct (bookRun_new opts ops HT HW Hlen) as ([b fs] & -> & Ho & _ & Hid).
  exists b, fs. split; [done |]. destruct (Hid id) as (s & Hg & Ht).
  by destruct (Snapshot_spec opts b now id _ _ s HW Hnow Ho Hg Ht) as (_ & _ & -> & ->).
Qed.

(** *** Two failures of three, with a threshold of two *)
Definition sampleBreaker : BreakerOptions := mkBreaker 2 (10 * Second) 2 (nlit 2 10).

Definition sampleOps : list bookOp :=
  [OpBegin "n1"; OpRecord 5 "n1" "default" (mkOutcome 200 None true 7 0);
   OpRecord 6 "n1" "default" (mkOutcome 502 None false 7 0); OpRecord 7 "n1" "default" (mkOutcome 429 None false 7 0);
   OpFinish 0; OpFinish 0].

Lemma Snapshot_rates_witness :
  ∃ b fs, bookRun (NewStatsBook sampleBreaker, []) sampleOps = Some (b, fs) ∧
    st_ErrorRate (Snapshot b 9 "n1") = recentRate 2 (historyOf "n1" sampleOps) ∧
    st_Inflight (Snapshot b 9 "n1") = Z.of_nat (length (unfinished "n1" fs)).
Proof. apply (Snapshot_rates sampleBreaker sampleOps "n1" 9); by vm_compute. Defined.

Lemma Snapshot_breaker_witness :
  ∃ b fs, bookRun (NewStatsBook sampleBreaker, []) sampleOps = Some (b, fs) ∧
    st_BreakerOpen (Snapshot b 9 "n1") = true ∧ st_Throttled (Snapshot b 9 "n1") = true.
Proof. apply (Snapshot_breaker sampleBreaker sampleOps "n1" 9); by vm_compute. Defined.
