(* ===== verification/Limiter.v ===== *)
(** * Limiter: what each client may still spend (internal/app/ratelimit.go)

    Every client has an allowance, a [limitKey]: two buckets of credits and
    the set of its billed requests in flight.  A [Ticket] is one admitted
    request's account.  Both are shared mutable objects in the code (a ticket
    points at its key, a key at its tickets, and the limiter's maps at keys),
    so the state is a heap: keys and tickets are numbered, and the maps, the
    overflow pointer and the sets hold numbers.  The mutex makes each method
    one step; the clock is read by the method and is an argument here.

    The arithmetic is over any [Num] (float64 in the program).  Metrics and
    log lines are not modelled, and an amount of credits in an answer is the
    number, not its decimal text. *)
From S2P Require Import Prelude GoFloat GoStrings GoTime Types Classify Effort Billing.
From stdpp Require Import pretty.
From Stdlib Require Import Ascii QArith Qround Lqa.
Open Scope Z_scope.

Section Limiter.
Context {F : Type} `{Num F}.

(** ** Data *)
Record LimitToken := mkLimitToken { lt_Name : string; lt_Token : string; lt_Plan : string }.

(** What the limiter reads of its options; byName is built from the tokens. *)
Record LimiterOptions := mkLimiterOptions {
  lo_plans : gmap string (Plan F);
  lo_byName : gmap string LimitToken;
  lo_AnonymousPlan : string;
  lo_Weights : CostWeights F;
  lo_SimulatePerSecond : F;
  lo_Effort : EffortRates F;
  lo_MaxKeys : Z;
  lo_StateFile : string
}.

Record Identity := mkIdentity { id_Exempt : bool; id_Key : string; id_Plan : string }.

Record limitKey := mkLimitKey {
  lk_id : string;
  lk_plan : Plan F;
  lk_minute : Bucket F;
  lk_day : Bucket F;
  lk_flights : gset nat
}.

Record Ticket := mkTicket {
  tk_k : nat;
  tk_costKey : string;
  tk_base : F;
  tk_metered : bool;
  tk_start : Time;
  tk_extra : F;
  tk_frozen : bool;
  tk_effort : Effort;
  tk_reported : bool;
  tk_refunded : bool;
  tk_cancel : bool;       (* cancel is set *)
  tk_cancelled : bool;
  tk_done : bool
}.

Record Limiter := mkLimiter {
  lm_keys : gmap string nat;
  lm_active : gset nat;
  lm_overflow : option nat;
  lm_kheap : gmap nat limitKey;
  lm_theap : gmap nat Ticket;
  lm_next : nat                 (* the next number of a key or a ticket *)
}.

Inductive DenialMessage :=
  | MsgCaps (why : string)
  | MsgTooCostly (cost : F) (window : string) (capacity : F)
  | MsgRateLimited (window : string)
  | MsgUnreadable
  | MsgExhausted.

Record Denial := mkDenial {
  dn_Status : Z;
  dn_Message : DenialMessage;
  dn_RetryAfter : Duration;
  dn_Header : list (string * string)
}.

Definition NewLimiter : Limiter := mkLimiter ∅ ∅ None ∅ ∅ 0.

(** ** One key *)
Definition newLimitKey (id : string) (plan : Plan F) : limitKey :=
  mkLimitKey id plan (mkBucket nzero zero_time) (mkBucket nzero zero_time) ∅.

Definition refill (k : limitKey) (now : Time) : limitKey :=
  k <| lk_minute := Refill (pl_Minute (lk_plan k)) (lk_minute k) now |>
    <| lk_day := Refill (pl_Day (lk_plan k)) (lk_day k) now |>.

Definition bucket_sub (b : Bucket F) (c : F) : Bucket F := mkBucket (bu_Level b - c)%num (bu_At b).

Definition charge (k : limitKey) (c : F) : limitKey :=
  let k := if Limited (pl_Minute (lk_plan k)) then k <| lk_minute := bucket_sub (lk_minute k) c |> else k in
  if Limited (pl_Day (lk_plan k)) then k <| lk_day := bucket_sub (lk_day k) c |> else k.

(** The tickets of the key's flights. *)
Definition ticketsOf (ts : gmap nat Ticket) (ps : list nat) : list Ticket := omap (λ t, ts !! t) ps.

Definition flights (ts : gmap nat Ticket) (k : limitKey) : list Ticket := ticketsOf ts (elements (lk_flights k)).

Definition owed (ts : gmap nat Ticket) (k : limitKey) : F :=
  foldl (λ sum t, (sum + tk_extra t)%num) nzero (flights ts k).

Definition metering (ts : gmap nat Ticket) (k : limitKey) : bool := existsb tk_metered (flights ts k).

Definition shortfall (ts : gmap nat Ticket) (k : limitKey) (cost : F) : Duration * string :=
  if nleb cost nzero then (0, ""%string)
  else
    let owed := owed ts k in
    let d := Wait (pl_Minute (lk_plan k)) (bu_Level (lk_minute k) - owed)%num cost in
    let '(wait, window) := if 0 <? d then (d, "minute"%string) else (0, ""%string) in
    let d := Wait (pl_Day (lk_plan k)) (bu_Level (lk_day k) - owed)%num cost in
    let '(wait, window) := if wait <? d then (d, "day"%string) else (wait, window) in
    (if (window <>s "") && (wait <? Second) then Second else wait, window).

Definition overdrawn (ts : gmap nat Ticket) (k : limitKey) : bool :=
  let owed := owed ts k in
  Limited (pl_Minute (lk_plan k)) && nltb (bu_Level (lk_minute k) - owed)%num nzero ||
  Limited (pl_Day (lk_plan k)) && nltb (bu_Level (lk_day k) - owed)%num nzero.

(** ** Answers *)
Definition ceilSeconds (d : Duration) : Z := to_i64 (nceil (Seconds d : F)).

Definition quoted (s : string) : string := String "034" (s +:+ String "034" "").

Definition windowPolicy (name : string) (w : Window F) : string :=
  quoted name +:+ ";q=" +:+ pretty (to_i64 (ntrunc (wi_Capacity w))) +:+
  ";w=" +:+ pretty (to_i64 (ntrunc (Seconds (wi_Period w) : F))).

Definition windowState (name : string) (w : Window F) (left : F) : string :=
  quoted name +:+ ";r=" +:+ pretty (Z.max (to_i64 (nfloor left)) 0) +:+ ";t=" +:+ pretty (ceilSeconds (UntilFull w left)).

Definition header (ts : gmap nat Ticket) (k : limitKey) : list (string * string) :=
  let owed := owed ts k in
  let windows := List.filter (λ e, Limited e.1.2)
    [("minute"%string, pl_Minute (lk_plan k), lk_minute k); ("day"%string, pl_Day (lk_plan k), lk_day k)] in
  match windows with
  | [] => []
  | _ => [("RateLimit-Policy"%string, GoStrings.join ", " (map (λ e, windowPolicy e.1.1 e.1.2) windows));
          ("RateLimit"%string, GoStrings.join ", " (map (λ e, windowState e.1.1 e.1.2 (bu_Level e.2 - owed)%num) windows))]
  end.

(** ** The heap *)
Definition set_key (l : Limiter) (p : nat) (k : limitKey) : Limiter := l <| lm_kheap ::= <[p := k]> |>.
Definition set_ticket (l : Limiter) (p : nat) (t : Ticket) : Limiter := l <| lm_theap ::= <[p := t]> |>.

(** new(limitKey): the limiter with one more key, and its number. *)
Definition alloc_key (l : Limiter) (k : limitKey) : Limiter * nat :=
  (l <| lm_kheap ::= <[lm_next l := k]> |> <| lm_next ::= S |>, lm_next l).

Definition alloc_ticket (l : Limiter) (t : Ticket) : Limiter * nat :=
  (l <| lm_theap ::= <[lm_next l := t]> |> <| lm_next ::= S |>, lm_next l).

Section Options.
Context (o : LimiterOptions).

(** l.key(id, plan). *)
Definition key (l : Limiter) (id : Identity) (plan : Plan F) : Limiter * nat :=
  match lm_keys l !! id_Key id with
  | Some p => (l, p)
  | None =>
      if has_prefix "ip:" (id_Key id) && (lo_MaxKeys o <=? Z.of_nat (size (lm_keys l))) then
        match lm_overflow l with
        | Some p => (l, p)
        | None =>
            let '(l, p) := alloc_key l (newLimitKey "ip:overflow" plan) in
            (l <| lm_overflow := Some p |>, p)
        end
      else
        let '(l, p) := alloc_key l (newLimitKey (id_Key id) plan) in
        (l <| lm_keys ::= <[id_Key id := p]> |>, p)
  end.

(** The refusals that do not depend on the client's state. *)
Definition beyondPlan (plan : Plan F) (class : RequestClass) : option Denial :=
  match (if rc_Simulate class then rc_SimNeeds class else None) with
  | Some n =>
      if CapsCheck (pl_Simulate plan) n <>s "" then
        Some (mkDenial 403 (MsgCaps (CapsCheck (pl_Simulate plan) n)) 0 [])
      else None
  | None => None
  end.

Definition tooCostly (plan : Plan F) (cost : F) : option Denial :=
  if Limited (pl_Minute plan) && nltb (wi_Capacity (pl_Minute plan)) cost
  then Some (mkDenial 403 (MsgTooCostly cost "minute" (wi_Capacity (pl_Minute plan))) 0 [])
  else if Limited (pl_Day plan) && nltb (wi_Capacity (pl_Day plan)) cost
  then Some (mkDenial 403 (MsgTooCostly cost "day" (wi_Capacity (pl_Day plan))) 0 [])
  else None.

(** plan.Simulate != (domain.SimulateCaps{}). *)
Definition caps_set (c : SimulateCaps) : bool :=
  negb ((sc_MaxGroups c =? 0) && (sc_MaxRounds c =? 0) && (sc_MaxExtraOpcodeBudget c =? 0) &&
        negb (sc_DenyUnnamedResources c) && negb (sc_DenyExecTrace c)).

(** Admit: None is a nil plan dereferenced; the result is a ticket or a
    denial. *)
Definition Admit (l : Limiter) (now : Time) (id : Identity) (class : RequestClass) (best : Z)
    : option (Limiter * result Denial nat) :=
  plan ← lo_plans o !! id_Plan id;
  let unreadable := rc_Simulate class && isNone (rc_SimNeeds class) && caps_set (pl_Simulate plan) in
  let cost := Base (lo_Weights o) class best in
  match beyondPlan plan class with
  | Some d => Some (l, Err d)
  | None =>
  match tooCostly plan cost with
  | Some d => Some (l, Err d)
  | None =>
      let '(l, p) := key l id plan in
      k ← lm_kheap l !! p;
      let k := refill k now in
      let '(wait, window) := shortfall (lm_theap l) k cost in
      if window <>s "" then
        Some (set_key l p k, Err (mkDenial 429 (MsgRateLimited window) wait (header (lm_theap l) k)))
      else
        let k := charge k cost in
        if unreadable then
          Some (set_key l p k, Err (mkDenial 400 MsgUnreadable 0 (header (lm_theap l) k)))
        else
          let '(l, t) := alloc_ticket l
            (mkTicket p (CostKey class best) cost (rc_Simulate class) now nzero false zeroEffort false false false false false) in
          let l := set_key l p (k <| lk_flights ::= λ fs, fs ∪ {[t]} |>) in
          let l := if rc_Simulate class then l <| lm_active ::= λ a, a ∪ {[p]} |> else l in
          Some (l, Ok t)
  end
  end.

(** ** One ticket *)
Definition meter (t : Ticket) (now : Time) : F :=
  (nmax (Seconds (time_sub now (tk_start t))) nzero * lo_SimulatePerSecond o)%num.

Definition settle (t : Ticket) (now : Time) : Ticket :=
  if tk_frozen t then t
  else if tk_reported t then t <| tk_extra := Credits (lo_Effort o) (tk_effort t) |>
  else if tk_metered t then t <| tk_extra := meter t now |>
  else t.

Definition Reported (l : Limiter) (p : nat) (e : Effort) : option Limiter :=
  t ← lm_theap l !! p;
  Some (set_ticket l p (t <| tk_effort ::= λ x, Effort.Add x e |> <| tk_reported := true |>)).

Definition Track (l : Limiter) (p : nat) : option Limiter :=
  t ← lm_theap l !! p; Some (set_ticket l p (t <| tk_cancel := true |>)).

(** refund: the ticket and its key. *)
Definition refund (t : Ticket) (k : limitKey) : Ticket * limitKey :=
  let floor := default nzero (lo_Weights o !! "default"%string) in
  let back := (tk_base t - floor)%num in
  let '(t, k) := if nltb nzero back then (t <| tk_base := floor |>, charge k (nsub nzero back)) else (t, k) in
  (t <| tk_extra := nzero |> <| tk_frozen := true |> <| tk_refunded := true |>, k).

(** Responding: the state, the RateLimit headers and the cost header. *)
Definition Responding (l : Limiter) (p : nat) (now : Time) (status : Z) (retryAfter : string)
    : option (Limiter * list (string * string) * F) :=
  t ← lm_theap l !! p;
  k ← lm_kheap l !! tk_k t;
  let '(t, k) := if (status =? 503) && (retryAfter <>s "") && negb (tk_reported t) && negb (tk_refunded t)
                 then refund t k else (t, k) in
  let t := (settle t now) <| tk_frozen := true |> in
  let k := refill k now in
  let l := set_key (set_ticket l p t) (tk_k t) k in
  Some (l, header (lm_theap l) k, (tk_base t + tk_extra t)%num).

Definition Done (l : Limiter) (p : nat) (now : Time) : option Limiter :=
  t ← lm_theap l !! p;
  if tk_done t then Some l
  else
    k ← lm_kheap l !! tk_k t;
    let t := settle (t <| tk_done := true |>) now in
    let l := set_ticket l p t in
    let k := k <| lk_flights ::= λ fs, fs ∖ {[p]} |> in
    let l := if metering (lm_theap l) k then l else l <| lm_active ::= λ a, a ∖ {[tk_k t]} |> in
    Some (set_key l (tk_k t) (charge k (tk_extra t))).

Definition Exhausted (l : Limiter) (p : nat) (now : Time) : option (Limiter * Denial) :=
  t ← lm_theap l !! p;
  k ← lm_kheap l !! tk_k t;
  let k := refill k now in
  let wait := (shortfall (lm_theap l) k (tk_base t)).1 in
  Some (set_key l (tk_k t) k, mkDenial 429 MsgExhausted (Z.max wait Second) (header (lm_theap l) k)).

(** ** The meter's tick *)

(** The first loop of tick: the meter of one ticket. *)
Definition tickMeter (now : Time) (ts : gmap nat Ticket) (p : nat) : gmap nat Ticket :=
  match ts !! p with
  | Some t => if tk_metered t && negb (tk_frozen t) then <[p := t <| tk_extra := meter t now |>]> ts else ts
  | None => ts
  end.

(** The second: cancelling one ticket. *)
Definition tickCancel (ts : gmap nat Ticket) (p : nat) : gmap nat Ticket :=
  match ts !! p with
  | Some t =>
      if tk_frozen t || negb (tk_cancel t) then ts
      else <[p := t <| tk_frozen := true |> <| tk_cancelled := true |>]> ts
  | None => ts
  end.

Definition tickKey (now : Time) (l : Limiter) (p : nat) : Limiter :=
  match lm_kheap l !! p with
  | None => l
  | Some k =>
      let l := l <| lm_theap ::= λ ts, foldl (tickMeter now) ts (elements (lk_flights k)) |> in
      let k := refill k now in
      let l := set_key l p k in
      if negb (overdrawn (lm_theap l) k) then l
      else l <| lm_theap ::= λ ts, foldl tickCancel ts (elements (lk_flights k)) |>
  end.

Definition tick (l : Limiter) (now : Time) : Limiter := foldl (tickKey now) l (elements (lm_active l)).

(** ** Sweeping *)
Definition fullKey (k : limitKey) : bool :=
  Full (pl_Minute (lk_plan k)) (lk_minute k) && Full (pl_Day (lk_plan k)) (lk_day k).

Definition sweepKey (now : Time) (l : Limiter) (e : string * nat) : Limiter :=
  match lm_kheap l !! e.2 with
  | None => l
  | Some k =>
      if negb (bool_decide (lk_flights k = ∅)) then l
      else
        let k := refill k now in
        let l := set_key l e.2 k in
        if fullKey k then l <| lm_keys ::= delete e.1 |> else l
  end.

Definition sweepOverflow (now : Time) (l : Limiter) : Limiter :=
  match lm_overflow l with
  | None => l
  | Some p =>
      match lm_kheap l !! p with
      | None => l
      | Some k =>
          if bool_decide (lk_flights k = ∅) && (Z.of_nat (size (lm_keys l)) <? lo_MaxKeys o) then
            let k := refill k now in
            let l := set_key l p k in
            if fullKey k then l <| lm_overflow := None |> else l
          else l
      end
  end.

Definition sweep (l : Limiter) (now : Time) : Limiter :=
  sweepOverflow now (foldl (sweepKey now) l (map_to_list (lm_keys l))).

(** ** Saving and loading *)
Record limiterBucket := mkLimiterBucket { lb_Minute : Bucket F; lb_Day : Bucket F }.
Record limiterState := mkLimiterState { ls_Saved : Time; ls_Keys : gmap string limiterBucket }.

(** What save writes of one key; None: its allowance is full. *)
Definition saveKey (ts : gmap nat Ticket) (k : limitKey) : option limiterBucket :=
  let owed := owed ts k in
  let minute := if Limited (pl_Minute (lk_plan k)) then bucket_sub (lk_minute k) owed else lk_minute k in
  let day := if Limited (pl_Day (lk_plan k)) then bucket_sub (lk_day k) owed else lk_day k in
  if negb (Full (pl_Minute (lk_plan k)) minute) || negb (Full (pl_Day (lk_plan k)) day)
  then Some (mkLimiterBucket minute day) else None.

Definition saveStep (now : Time) (a : Limiter * gmap string limiterBucket) (e : string * nat)
    : Limiter * gmap string limiterBucket :=
  let '(l, st) := a in
  match lm_kheap l !! e.2 with
  | None => a
  | Some k =>
      let k := refill k now in
      (set_key l e.2 k, match saveKey (lm_theap l) k with Some b => <[e.1 := b]> st | None => st end)
  end.

(** save up to the file: the state written. *)
Definition save (l : Limiter) (now : Time) : Limiter * option limiterState :=
  if lo_StateFile o =s "" then (l, None)
  else
    let '(l, st) := foldl (saveStep now) (l, ∅) (map_to_list (lm_keys l)) in
    (l, Some (mkLimiterState now st)).

Definition planOf (id : string) : option (Plan F) :=
  if has_prefix "token:" id then
    match lo_byName o !! String.substring 6 (String.length id - 6) id with
    | Some t => lo_plans o !! lt_Plan t
    | None => None
    end
  else if has_prefix "ip:" id && (id <>s "ip:overflow") then lo_plans o !! lo_AnonymousPlan o
  else None.

Definition loadStep (now : Time) (l : Limiter) (e : string * limiterBucket) : Limiter :=
  match planOf e.1 with
  | None => l
  | Some plan =>
      let saved := refill (mkLimitKey "" plan (lb_Minute e.2) (lb_Day e.2) ∅) now in
      match lm_keys l !! e.1 with
      | Some p =>
          match lm_kheap l !! p with
          | None => l
          | Some k =>
              let k := refill k now in
              set_key l p
                (k <| lk_minute := mkBucket (nmin (bu_Level (lk_minute k)) (bu_Level (lk_minute saved))) (bu_At (lk_minute k)) |>
                   <| lk_day := mkBucket (nmin (bu_Level (lk_day k)) (bu_Level (lk_day saved))) (bu_At (lk_day k)) |>)
          end
      | None =>
          let '(l, p) := alloc_key l ((newLimitKey e.1 plan) <| lk_minute := lk_minute saved |> <| lk_day := lk_day saved |>) in
          l <| lm_keys ::= <[e.1 := p]> |>
      end
  end.

(** load from the decoded file; None: no state file, or it does not exist. *)
Definition load (l : Limiter) (now : Time) (st : option limiterState) : Limiter :=
  match st with
  | Some st => foldl (loadStep now) l (map_to_list (ls_Keys st))
  | None => l
  end.
End Options.
End Limiter.
Arguments limitKey F : clear implicits.
Arguments Ticket F : clear implicits.
Arguments Limiter F : clear implicits.
Arguments LimiterOptions F : clear implicits.
Arguments Denial F : clear implicits.
Arguments limiterState F : clear implicits.
Arguments limiterBucket F : clear implicits.
