(* ===== verification/LimiterSound.v ===== *)
(** * LimiterSound: the limiter's shared objects stay consistent

    The invariant of the heap of keys and tickets ([limiter_wf]), that every
    method of the limiter keeps it, and reachability under any interleaving of
    calls. *)
From S2P Require Import Prelude GoFloat GoStrings GoTime Types Classify Effort Billing Limiter.
From stdpp Require Import pretty.
From Stdlib Require Import Ascii QArith Qround Lqa.
Open Scope Z_scope.

(** ** The shared structure is sound *)
Section Invariant.
Context {F : Type} `{Num F} (o : LimiterOptions F).

(** Every pointer leads to an object, a ticket is among its key's flights
    exactly until it is done, the meter's set is the keys with a metered
    flight, and a key with a flight is still the one the limiter uses. *)
Record limiter_wf (l : Limiter F) : Prop := {
  wf_keys id p : lm_keys l !! id = Some p → ∃ k, lm_kheap l !! p = Some k ∧ lk_id k = id;
  wf_overflow p : lm_overflow l = Some p → ∃ k, lm_kheap l !! p = Some k;
  wf_ticket t tk : lm_theap l !! t = Some tk →
    ∃ k, lm_kheap l !! tk_k tk = Some k ∧ (t ∈ lk_flights k ↔ tk_done tk = false);
  wf_flights p k t : lm_kheap l !! p = Some k → t ∈ lk_flights k →
    ∃ tk, lm_theap l !! t = Some tk ∧ tk_k tk = p;
  wf_active p : p ∈ lm_active l ↔ ∃ k, lm_kheap l !! p = Some k ∧ metering (lm_theap l) k = true;
  wf_kept p k : lm_kheap l !! p = Some k → lk_flights k ≠ ∅ → lm_keys l !! lk_id k = Some p ∨ lm_overflow l = Some p;
  wf_next n : (lm_next l <= n)%nat → lm_kheap l !! n = None ∧ lm_theap l !! n = None
}.

Lemma elem_flights ts (k : limitKey F) tk : tk ∈ flights ts k ↔ ∃ t, t ∈ lk_flights k ∧ ts !! t = Some tk.
Proof. unfold flights, ticketsOf. rewrite list_elem_of_omap. by setoid_rewrite elem_of_elements. Qed.

Lemma metering_true ts (k : limitKey F) :
  metering ts k = true ↔ ∃ t tk, t ∈ lk_flights k ∧ ts !! t = Some tk ∧ tk_metered tk = true.
Proof.
  unfold metering. rewrite existsb_exists. split.
  - intros (tk & Hin%list_elem_of_In%elem_flights & Hm). destruct Hin as (t & ? & ?). eauto.
  - intros (t & tk & ? & ? & ?). exists tk. split; [| done]. apply list_elem_of_In, elem_flights. eauto.
Qed.

(** Changing the levels of a key. *)
Lemma wf_set_key l p k k' :
  limiter_wf l → lm_kheap l !! p = Some k → lk_id k' = lk_id k → lk_flights k' = lk_flights k →
  limiter_wf (set_key l p k').
Proof.
  intros [Hk Ho Ht Hf Ha Hkept Hn] Hp Eid Efl.
  assert (∀ q x, <[p := k']> (lm_kheap l) !! q = Some x →
    ∃ y, lm_kheap l !! q = Some y ∧ lk_id x = lk_id y ∧ lk_flights x = lk_flights y) as Hback.
  { intros q x. destruct (decide (q = p)) as [->|]; [rewrite lookup_insert_eq; intros [= <-] | rewrite lookup_insert_ne by done]; eauto. }
  assert (∀ q y, lm_kheap l !! q = Some y →
    ∃ x, <[p := k']> (lm_kheap l) !! q = Some x ∧ lk_id x = lk_id y ∧ lk_flights x = lk_flights y) as Hforth.
  { intros q y Hy. destruct (decide (q = p)) as [->|]; [rewrite lookup_insert_eq; simplify_eq | rewrite lookup_insert_ne by done]; eauto. }
  constructor; simpl.
  - intros id q Hq. destruct (Hk id q Hq) as (y & Hy & <-). destruct (Hforth q y Hy) as (x & ? & ? & _). eauto.
  - intros q Hq. destruct (Ho q Hq) as (y & Hy). destruct (Hforth q y Hy) as (x & ? & _). eauto.
  - intros t tk Htk. destruct (Ht t tk Htk) as (y & Hy & Hiff). destruct (Hforth _ y Hy) as (x & ? & _ & E). exists x. by rewrite E.
  - intros q x t Hx Hin. destruct (Hback q x Hx) as (y & Hy & _ & E). rewrite E in Hin. by eapply Hf.
  - intros q. rewrite Ha. setoid_rewrite metering_true. split.
    + intros (y & Hy & t & tk & Hin & ?). destruct (Hforth q y Hy) as (x & ? & _ & E). exists x. split; [done |]. exists t, tk. by rewrite E.
    + intros (x & Hx & t & tk & Hin & ?). destruct (Hback q x Hx) as (y & ? & _ & E). exists y. split; [done |]. exists t, tk. by rewrite <- E.
  - intros q x Hx Hne. destruct (Hback q x Hx) as (y & Hy & -> & E). rewrite E in Hne. by eapply Hkept.
  - intros n Hle. destruct (Hn n Hle) as [Hn1 Hn2]. split; [| done]. rewrite lookup_insert_ne; [done | congruence].
Qed.

(** Changing the account of a ticket. *)
Lemma wf_set_tickets l ts :
  limiter_wf l →
  (∀ t, option_map (λ x, (tk_k x, tk_metered x, tk_done x)) (ts !! t) =
        option_map (λ x, (tk_k x, tk_metered x, tk_done x)) (lm_theap l !! t)) →
  limiter_wf (l <| lm_theap := ts |>).
Proof.
  intros [Hk Ho Ht Hf Ha Hkept Hn] E.
  assert (∀ t x, ts !! t = Some x → ∃ y, lm_theap l !! t = Some y ∧ tk_k y = tk_k x ∧ tk_metered y = tk_metered x ∧ tk_done y = tk_done x) as Hback.
  { intros t x Hx. specialize (E t). rewrite Hx in E. destruct (lm_theap l !! t) as [y|]; [| done]. injection E as ???. eauto. }
  assert (∀ t y, lm_theap l !! t = Some y → ∃ x, ts !! t = Some x ∧ tk_k y = tk_k x ∧ tk_metered y = tk_metered x ∧ tk_done y = tk_done x) as Hforth.
  { intros t y Hy. specialize (E t). rewrite Hy in E. destruct (ts !! t) as [x|]; [| done]. injection E as ???. eauto. }
  constructor; simpl; try done.
  - intros t x Hx. destruct (Hback t x Hx) as (y & Hy & E1 & _ & E3). destruct (Ht t y Hy) as (k & Hkk & Hiff).
    exists k. by rewrite <- E1, <- E3.
  - intros p k t Hp Hin. destruct (Hf p k t Hp Hin) as (y & Hy & <-). destruct (Hforth t y Hy) as (x & ? & ? & _). eauto.
  - intros p. rewrite Ha. setoid_rewrite metering_true. split.
    + intros (k & Hkk & t & y & Hin & Hy & Hm). destruct (Hforth t y Hy) as (x & ? & _ & E2 & _). exists k. split; [done |]. exists t, x. by rewrite <- E2.
    + intros (k & Hkk & t & x & Hin & Hx & Hm). destruct (Hback t x Hx) as (y & ? & _ & E2 & _). exists k. split; [done |]. exists t, y. by rewrite E2.
  - intros n Hle. destruct (Hn n Hle) as [Hn1 Hn2]. split; [done |].
    change (ts !! n = None). specialize (E n). rewrite Hn2 in E. destruct (ts !! n); [discriminate E | done].
Qed.

Lemma wf_set_ticket l t x y :
  limiter_wf l → lm_theap l !! t = Some x → tk_k y = tk_k x → tk_metered y = tk_metered x → tk_done y = tk_done x →
  limiter_wf (set_ticket l t y).
Proof.
  intros Hl Hx E1 E2 E3.
  assert (set_ticket l t y = l <| lm_theap := <[t := y]> (lm_theap l) |>) as -> by reflexivity.
  apply wf_set_tickets; [done |].
  intros q. destruct (decide (q = t)) as [->|]; [| by rewrite lookup_insert_ne].
  rewrite lookup_insert_eq, Hx. simpl. by rewrite E1, E2, E3.
Qed.

Lemma wf_new : limiter_wf NewLimiter.
Proof.
  constructor; simpl; try (by intros x y Hx; rewrite lookup_empty in Hx); try done.
  - intros p. split; [set_solver |]. intros (k & Hk & _). by rewrite lookup_empty in Hk.
Qed.

(** A new key with no flights, before anything points at it. *)
Lemma wf_alloc_key l k : limiter_wf l → lk_flights k = ∅ → limiter_wf (alloc_key l k).1.
Proof.
  intros [Hk Ho Ht Hf Ha Hkept Hn] Efl. destruct (Hn (lm_next l) ltac:(lia)) as [Hfresh Hfresh'].
  assert (∀ q x, lm_kheap l !! q = Some x → <[lm_next l := k]> (lm_kheap l) !! q = Some x) as Hin
    by (intros q x Hq; rewrite lookup_insert_ne; [done | congruence]).
  assert (∀ q x, <[lm_next l := k]> (lm_kheap l) !! q = Some x → x = k ∧ q = lm_next l ∨ lm_kheap l !! q = Some x) as Hback.
  { intros q x. destruct (decide (q = lm_next l)) as [->|]; [rewrite lookup_insert_eq; intros [= <-]; by left | rewrite lookup_insert_ne by done; by right]. }
  constructor; simpl.
  - intros id p Hp. destruct (Hk id p Hp) as (x & ? & ?). eauto.
  - intros p Hp. destruct (Ho p Hp) as (x & ?). eauto.
  - intros t tk Htk. destruct (Ht t tk Htk) as (x & ? & ?). eauto.
  - intros p x t Hp Hin'. destruct (Hback p x Hp) as [[-> _]|Hp']; [rewrite Efl in Hin'; set_solver | eauto].
  - intros p. rewrite Ha. setoid_rewrite metering_true. split; [naive_solver |].
    intros (x & Hx & t & tk & Hin' & ?). destruct (Hback p x Hx) as [[-> _]|Hx']; [rewrite Efl in Hin'; set_solver | eauto 10].
  - intros p x Hp Hne. destruct (Hback p x Hp) as [[-> _]|Hp']; [done | eauto].
  - intros n Hle. destruct (Hn n) as [Hn1 Hn2]; [lia |]. split; [| done]. rewrite lookup_insert_ne; [done | lia].
Qed.

(** Pointing a map entry at a key of its id that had no entry. *)
Lemma wf_link l id p k :
  limiter_wf l → lm_keys l !! id = None → lm_kheap l !! p = Some k → lk_id k = id → lk_flights k = ∅ →
  limiter_wf (l <| lm_keys ::= <[id := p]> |>).
Proof.
  intros [Hk Ho Ht Hf Ha Hkept Hn] Hid Hp Eid Efl. constructor; simpl; try done.
  - intros id' q. destruct (decide (id' = id)) as [->|]; [rewrite lookup_insert_eq; intros [= <-]; eauto | rewrite lookup_insert_ne by done; apply Hk].
  - intros q x Hq Hne. destruct (Hkept q x Hq Hne) as [Hl|Hl]; [left | by right].
    rewrite lookup_insert_ne; [done |]. congruence.
Qed.

Lemma wf_link_overflow l p k :
  limiter_wf l → lm_overflow l = None → lm_kheap l !! p = Some k → limiter_wf (l <| lm_overflow := Some p |>).
Proof.
  intros [Hk Ho Ht Hf Ha Hkept Hn] Hov Hp. constructor; simpl; try done.
  - intros q [= <-]. eauto.
  - intros q x Hq Hne. destruct (Hkept q x Hq Hne) as [Hl|Hl]; [by left | congruence].
Qed.

(** The key l.key finds or makes, and that it is in use. *)
Lemma key_spec l id plan :
  limiter_wf l →
  let '(l', p) := key o l id plan in
  limiter_wf l' ∧ lm_theap l' = lm_theap l ∧ (∃ k, lm_kheap l' !! p = Some k ∧
    (lm_keys l' !! lk_id k = Some p ∨ lm_overflow l' = Some p) ∧
    (lm_kheap l !! p = Some k ∨ lm_kheap l !! p = None ∧ k = newLimitKey (lk_id k) plan)) ∧
  (∀ q x, lm_kheap l !! q = Some x → lm_kheap l' !! q = Some x).
Proof.
  intros Hl. unfold key. destruct (wf_next l Hl (lm_next l) ltac:(lia)) as [Hfresh _].
  assert (∀ id', limiter_wf (alloc_key l (newLimitKey id' plan)).1) as Hal by (intros; by apply wf_alloc_key).
  assert (∀ id' q x, lm_kheap l !! q = Some x → <[lm_next l := newLimitKey id' plan]> (lm_kheap l) !! q = Some x) as Hin
    by (intros id' q x Hq; rewrite lookup_insert_ne; [done | congruence]).
  destruct (lm_keys l !! id_Key id) as [p|] eqn:Eid.
  { destruct (wf_keys l Hl _ _ Eid) as (k & Hk & E). split_and!; try done. exists k. rewrite E. auto. }
  destruct (_ && _).
  - destruct (lm_overflow l) as [p|] eqn:Eov.
    { destruct (wf_overflow l Hl _ Eov) as (k & Hk). split_and!; try done. exists k. auto. }
    simpl. split_and!; [| done | | by apply Hin].
    + eapply (wf_link_overflow (alloc_key l _).1); [apply Hal | done |]. simpl. apply lookup_insert_eq.
    + eexists. rewrite lookup_insert_eq. split; [reflexivity |]. split; [by right | by right].
  - simpl. split_and!; [| done | | by apply Hin].
    + eapply (wf_link (alloc_key l _).1); [apply Hal | done | simpl; apply lookup_insert_eq | done | done].
    + eexists. rewrite lookup_insert_eq. split; [reflexivity |]. simpl. rewrite lookup_insert_eq. split; [by left | by right].
Qed.

(** A new ticket takes off on a key in use. *)
Lemma wf_takeoff l p k tk :
  limiter_wf l → lm_kheap l !! p = Some k → (lm_keys l !! lk_id k = Some p ∨ lm_overflow l = Some p) →
  tk_k tk = p → tk_done tk = false →
  ∀ k', lk_id k' = lk_id k → lk_flights k' = lk_flights k ∪ {[lm_next l]} →
  limiter_wf (let l' := set_key (alloc_ticket l tk).1 p k' in if tk_metered tk then l' <| lm_active ::= λ a, a ∪ {[p]} |> else l').
Proof.
  intros Hl Hp Hused Ek Ed k' Eid Efl. pose proof Hl as [Hk Ho Ht Hf Ha Hkept Hn].
  destruct (Hn (lm_next l) ltac:(lia)) as [Hfk Hft]. set (n := lm_next l) in *.
  assert (n ∉ lk_flights k) as Hnf by (intros Hin; destruct (Hf p k n Hp Hin) as (? & E & _); congruence).
  set (l' := if tk_metered tk then _ else _).
  assert (lm_kheap l' = <[p := k']> (lm_kheap l) ∧ lm_theap l' = <[n := tk]> (lm_theap l) ∧ lm_keys l' = lm_keys l ∧
          lm_overflow l' = lm_overflow l ∧ lm_next l' = S n ∧
          lm_active l' = if tk_metered tk then lm_active l ∪ {[p]} else lm_active l) as (E1 & E2 & E3 & E4 & E5 & E6)
    by (unfold l'; by destruct (tk_metered tk)). clearbody l'.
  assert (∀ t, t ≠ n → <[n := tk]> (lm_theap l) !! t = lm_theap l !! t) as Hne by (intros; by rewrite lookup_insert_ne).
  constructor; rewrite ?E1, ?E2, ?E3, ?E4, ?E5, ?E6.
  - intros id q Hq. destruct (Hk id q Hq) as (x & Hx & <-). destruct (decide (q = p)) as [->|];
      [rewrite lookup_insert_eq; simplify_eq | rewrite lookup_insert_ne by done]; eauto.
  - intros q Hq. destruct (Ho q Hq) as (x & Hx). destruct (decide (q = p)) as [->|];
      [rewrite lookup_insert_eq | rewrite lookup_insert_ne by done]; eauto.
  - intros t x. destruct (decide (t = n)) as [->|Htn].
    + rewrite lookup_insert_eq. intros [= <-]. rewrite Ek, lookup_insert_eq. exists k'. split; [done |]. rewrite Efl. set_solver.
    + rewrite Hne by done. intros Hx. destruct (Ht t x Hx) as (y & Hy & Hiff). destruct (decide (tk_k x = p)) as [E|];
        [rewrite E, lookup_insert_eq | rewrite lookup_insert_ne by done; eauto].
      exists k'. split; [done |]. rewrite E, Hp in Hy. injection Hy as <-. rewrite <- Hiff, Efl. set_solver.
  - intros q x t. destruct (decide (q = p)) as [->|].
    + rewrite lookup_insert_eq. intros [= <-]. rewrite Efl, elem_of_union, elem_of_singleton. intros [Hin| ->].
      * rewrite Hne by (intros ->; done). by apply (Hf p k).
      * rewrite lookup_insert_eq. eauto.
    + rewrite lookup_insert_ne by done. intros Hx Hin. destruct (Hf q x t Hx Hin) as (y & Hy & Eq).
      exists y. split; [| done]. rewrite Hne; [done | congruence].
  - assert (∀ q x, <[p := k']> (lm_kheap l) !! q = Some x → metering (<[n := tk]> (lm_theap l)) x = true ↔
      (q = p ∧ tk_metered tk = true ∨ ∃ y, lm_kheap l !! q = Some y ∧ metering (lm_theap l) y = true)) as Hm.
    { intros q x Hx. rewrite metering_true. setoid_rewrite metering_true. destruct (decide (q = p)) as [->|Hqp].
      - rewrite lookup_insert_eq in Hx. injection Hx as <-. rewrite Efl. split.
        + intros (t & y & Hin & Hy & Hme). apply elem_of_union in Hin as [Hin|Hin%elem_of_singleton].
          * right. exists k. split; [done |]. exists t, y. rewrite Hne in Hy by (intros ->; done). done.
          * subst t. rewrite lookup_insert_eq in Hy. injection Hy as <-. by left.
        + intros [[_ Hme]|(y & Hy & t & z & Hin & Hz & Hme)].
          * exists n, tk. rewrite lookup_insert_eq. set_solver.
          * rewrite Hp in Hy. injection Hy as <-. exists t, z. rewrite Hne by (intros ->; done). set_solver.
      - rewrite lookup_insert_ne in Hx by done. split.
        + intros (t & y & Hin & Hy & Hme). right. exists x. split; [done |]. exists t, y.
          destruct (Hf q x t Hx Hin) as (z & Hz & _). rewrite Hne in Hy by congruence. done.
        + intros [[? _]|(y & Hy & t & z & Hin & Hz & Hme)]; [done |]. rewrite Hx in Hy. injection Hy as <-.
          exists t, z. rewrite Hne by congruence. done. }
    assert (∀ q, (∃ x, <[p := k']> (lm_kheap l) !! q = Some x ∧ metering (<[n := tk]> (lm_theap l)) x = true) ↔
              q = p ∧ tk_metered tk = true ∨ q ∈ lm_active l) as Hq.
    { intros q. rewrite Ha. split.
      - intros (x & Hx & Hme). by apply (Hm q x Hx).
      - intros Hor. destruct (<[p := k']> (lm_kheap l) !! q) as [x|] eqn:Hx; [exists x; split; [done | by apply (Hm q x Hx)] |].
        exfalso. destruct (decide (q = p)) as [->|Hqp]; [by rewrite lookup_insert_eq in Hx |].
        rewrite lookup_insert_ne in Hx by done. destruct Hor as [[? _]|(y & Hy & _)]; congruence. }
    intros q. rewrite Hq. destruct (tk_metered tk); [| naive_solver]. rewrite elem_of_union, elem_of_singleton. naive_solver.
  - intros q x. destruct (decide (q = p)) as [->|].
    + rewrite lookup_insert_eq. intros [= <-] _. by rewrite Eid.
    + rewrite lookup_insert_ne by done. apply Hkept.
  - intros m Hle. destruct (Hn m) as [Hn1 Hn2]; [lia |]. rewrite !lookup_insert_ne; [done | lia | congruence].
Qed.

Lemma refill_frame (k : limitKey F) now : lk_id (refill k now) = lk_id k ∧ lk_flights (refill k now) = lk_flights k.
Proof. done. Qed.

Lemma charge_frame (k : limitKey F) c :
  lk_id (charge k c) = lk_id k ∧ lk_flights (charge k c) = lk_flights k ∧ lk_plan (charge k c) = lk_plan k.
Proof. unfold charge. by repeat case_match. Qed.

Lemma settle_frame t now :
  tk_k (settle o t now) = tk_k t ∧ tk_metered (settle o t now) = tk_metered t ∧ tk_done (settle o t now) = tk_done t.
Proof. unfold settle. by repeat case_match. Qed.

Lemma refund_frame t k :
  tk_k (refund o t k).1 = tk_k t ∧ tk_metered (refund o t k).1 = tk_metered t ∧ tk_done (refund o t k).1 = tk_done t ∧
  lk_id (refund o t k).2 = lk_id k ∧ lk_flights (refund o t k).2 = lk_flights k.
Proof.
  unfold refund. pose proof (charge_frame k (nsub nzero (tk_base t - default nzero (lo_Weights o !! "default"%string))%num)) as (? & ? & ?).
  destruct (nltb nzero _); simpl; by split_and!.
Qed.

Lemma Admit_wf l now id class best l' r :
  limiter_wf l → Admit o l now id class best = Some (l', r) → limiter_wf l'.
Proof.
  intros Hl. unfold Admit. destruct (lo_plans o !! id_Plan id) as [plan|]; [| done]. simpl.
  destruct (beyondPlan plan class); [by intros [= <- _] |].
  destruct (tooCostly plan _); [by intros [= <- _] |].
  pose proof (key_spec l id plan Hl) as Hkey. destruct (key o l id plan) as [l1 p].
  destruct Hkey as (Hl1 & _ & (k & Hk & Hused & _) & _). rewrite Hk. simpl.
  set (cost := Base _ _ _). destruct (shortfall (lm_theap l1) (refill k now) cost) as [wait window].
  pose proof (charge_frame (refill k now) cost) as (Ec1 & Ec2 & _).
  destruct (window <>s ""); [intros [= <- _]; by eapply wf_set_key |].
  destruct (_ && caps_set _); [intros [= <- _]; by eapply wf_set_key |].
  intros [= <- _]. set (tk := mkTicket p _ _ _ _ _ _ _ _ _ _ _ _).
  apply (wf_takeoff l1 p k tk Hl1 Hk Hused eq_refl eq_refl ((charge (refill k now) cost) <| lk_flights ::= λ fs, fs ∪ {[lm_next l1]} |>)).
  - done.
  - simpl. by rewrite Ec2.
Qed.

Lemma Reported_wf l p e l' : limiter_wf l → Reported l p e = Some l' → limiter_wf l'.
Proof.
  intros Hl. unfold Reported. destruct (lm_theap l !! p) as [t|] eqn:Et; [| done]. intros [= <-]. by eapply wf_set_ticket.
Qed.

Lemma Track_wf l p l' : limiter_wf l → Track l p = Some l' → limiter_wf l'.
Proof.
  intros Hl. unfold Track. destruct (lm_theap l !! p) as [t|] eqn:Et; [| done]. intros [= <-]. by eapply wf_set_ticket.
Qed.

Lemma Responding_wf l p now status ra l' h c :
  limiter_wf l → Responding o l p now status ra = Some (l', h, c) → limiter_wf l'.
Proof.
  intros Hl. unfold Responding. destruct (lm_theap l !! p) as [t|] eqn:Et; [| done]. simpl.
  destruct (lm_kheap l !! tk_k t) as [k|] eqn:Ek; [| done]. simpl.
  set (cond := _ && negb (tk_refunded t)). set (tk := if cond then refund o t k else (t, k)).
  assert (tk_k tk.1 = tk_k t ∧ tk_metered tk.1 = tk_metered t ∧ tk_done tk.1 = tk_done t ∧
          lk_id tk.2 = lk_id k ∧ lk_flights tk.2 = lk_flights k) as (E1 & E2 & E3 & E4 & E5)
    by (unfold tk; destruct cond; [apply refund_frame | done]).
  destruct tk as [t' k']. simpl in *. intros [= <- _ _].
  pose proof (settle_frame t' now) as (F1 & F2 & F3).
  eapply (wf_set_key _ _ k); [| simpl; by rewrite F1, E1 | done | done].
  eapply wf_set_ticket; [done | exact Et | | |]; simpl; congruence.
Qed.

Lemma Exhausted_wf l p now l' d : limiter_wf l → Exhausted l p now = Some (l', d) → limiter_wf l'.
Proof.
  intros Hl. unfold Exhausted. destruct (lm_theap l !! p) as [t|] eqn:Et; [| done]. simpl.
  destruct (lm_kheap l !! tk_k t) as [k|] eqn:Ek; [| done]. intros [= <- _]. by eapply wf_set_key.
Qed.

(** A ticket lands: its flight ends and its key is charged. *)
Lemma Done_wf l p now l' : limiter_wf l → Done o l p now = Some l' → limiter_wf l'.
Proof.
  intros Hl. unfold Done. destruct (lm_theap l !! p) as [t|] eqn:Et; [| done]. simpl.
  destruct (tk_done t) eqn:Ed; [by intros [= <-] |].
  destruct (lm_kheap l !! tk_k t) as [k|] eqn:Ek; [| done]. simpl.
  set (t' := settle o (t <| tk_done := true |>) now). pose proof (settle_frame (t <| tk_done := true |>) now) as (F1 & F2 & F3).
  fold t' in F1, F2, F3. simpl in F1, F2. set (k' := k <| lk_flights ::= λ fs, fs ∖ {[p]} |>).
  set (c := charge k' (tk_extra t')). pose proof (charge_frame k' (tk_extra t')) as (C1 & C2 & _). fold c in C1, C2.
  intros [= <-]. set (ts := <[p := t']> (lm_theap l)).
  set (l' := set_key _ _ _).
  assert (lm_kheap l' = <[tk_k t := c]> (lm_kheap l) ∧ lm_theap l' = ts ∧ lm_keys l' = lm_keys l ∧ lm_overflow l' = lm_overflow l ∧
          lm_next l' = lm_next l ∧ lm_active l' = if metering ts k' then lm_active l else lm_active l ∖ {[tk_k t]}) as (E1 & E2 & E3 & E4 & E5 & E6).
  { unfold l', set_ticket. simpl. rewrite F1. fold ts k'. by destruct (metering ts k'). }
  clearbody l'. pose proof Hl as [Hk Ho Ht Hf Ha Hkept Hn].
  assert (lk_flights c = lk_flights k ∖ {[p]}) as Cf by (by rewrite C2).
  assert (∀ q x, q ≠ tk_k t → lm_kheap l !! q = Some x → p ∉ lk_flights x) as Hother.
  { intros q x Hq Hx Hin. destruct (Hf q x p Hx Hin) as (y & Hy & <-). rewrite Et in Hy. by injection Hy as <-. }
  constructor; rewrite ?E1, ?E2, ?E3, ?E4, ?E5, ?E6.
  - intros id q Hq. destruct (Hk id q Hq) as (x & Hx & <-). destruct (decide (q = tk_k t)) as [->|];
      [rewrite lookup_insert_eq; simplify_eq | rewrite lookup_insert_ne by done]; eauto.
  - intros q Hq. destruct (Ho q Hq) as (x & Hx). destruct (decide (q = tk_k t)) as [->|];
      [rewrite lookup_insert_eq | rewrite lookup_insert_ne by done]; eauto.
  - intros q x. unfold ts. destruct (decide (q = p)) as [->|Hqp].
    + rewrite lookup_insert_eq. intros [= <-]. rewrite F1, lookup_insert_eq, F3. exists c. split; [done |]. rewrite Cf. simpl. set_solver.
    + rewrite lookup_insert_ne by done. intros Hx. destruct (Ht q x Hx) as (y & Hy & Hiff).
      destruct (decide (tk_k x = tk_k t)) as [E|E]; [rewrite E, lookup_insert_eq | rewrite lookup_insert_ne by done; eauto].
      exists c. split; [done |]. rewrite E, Ek in Hy. injection Hy as <-. rewrite <- Hiff, Cf. set_solver.
  - intros q x y. unfold ts. destruct (decide (q = tk_k t)) as [->|Hq].
    + rewrite lookup_insert_eq. intros [= <-]. rewrite Cf, elem_of_difference, elem_of_singleton. intros [Hin Hyp].
      rewrite lookup_insert_ne by done. by apply (Hf _ k).
    + rewrite lookup_insert_ne by done. intros Hx Hin. destruct (Hf q x y Hx Hin) as (z & Hz & Eq).
      exists z. split; [| done]. rewrite lookup_insert_ne; [done |]. intros <-. by apply (Hother q x Hq Hx).
  - assert (∀ q x, q ≠ tk_k t → lm_kheap l !! q = Some x → metering ts x = metering (lm_theap l) x) as Hm.
    { intros q x Hq Hx. apply eq_true_iff_eq. rewrite !metering_true. unfold ts. split; intros (y & z & Hin & Hz & ?);
        exists y, z; (split; [done |]); (split; [| done]);
        (rewrite lookup_insert_ne in * by (intros <-; by apply (Hother q x Hq Hx))); done. }
    intros q. destruct (decide (q = tk_k t)) as [->|Hq].
    + rewrite lookup_insert_eq. assert (metering ts c = metering ts k') as Ecm
        by (apply eq_true_iff_eq; rewrite !metering_true; by rewrite C2).
      split.
      * intros Hin. exists c. split; [done |]. rewrite Ecm. destruct (metering ts k'); [done | set_solver].
      * intros (x & [= <-] & Hmx). rewrite Ecm in Hmx. rewrite Hmx. apply Ha. exists k. split; [done |].
        apply metering_true in Hmx as (y & z & Hin & Hz & Hzm). apply metering_true. simpl in Hin.
        apply elem_of_difference in Hin as [Hin Hyp]. exists y, z. unfold ts in Hz.
        rewrite lookup_insert_ne in Hz by set_solver. done.
    + rewrite lookup_insert_ne by done. transitivity (q ∈ lm_active l); [destruct (metering ts k'); set_solver |].
      rewrite Ha. split; intros (x & Hx & Hmx); exists x; (split; [done |]); by rewrite (Hm q x Hq Hx) in *.
  - intros q x. destruct (decide (q = tk_k t)) as [->|].
    + rewrite lookup_insert_eq. intros [= <-] Hne. rewrite C1. apply (Hkept _ k Ek). rewrite Cf in Hne. set_solver.
    + rewrite lookup_insert_ne by done. apply Hkept.
  - intros n Hle. destruct (Hn n Hle) as [Hn1 Hn2]. unfold ts. split; rewrite lookup_insert_ne; congruence.
Qed.

(** A loop keeps what each step keeps. *)
(** The parts of the tickets the meter never touches. *)
Definition same_flights (ts ts' : gmap nat (Ticket F)) : Prop :=
  ∀ t, option_map (λ x, (tk_k x, tk_metered x, tk_done x)) (ts' !! t) =
       option_map (λ x, (tk_k x, tk_metered x, tk_done x)) (ts !! t).

Lemma same_flights_insert ts p t t' :
  ts !! p = Some t → (tk_k t', tk_metered t', tk_done t') = (tk_k t, tk_metered t, tk_done t) → same_flights ts (<[p := t']> ts).
Proof.
  intros Hp E q. destruct (decide (q = p)) as [->|]; [rewrite lookup_insert_eq, Hp; simpl; congruence | by rewrite lookup_insert_ne].
Qed.

Lemma tickMeter_same now ts p : same_flights ts (tickMeter o now ts p).
Proof.
  unfold tickMeter. destruct (ts !! p) as [t|] eqn:E; [| done]. case_match; [| done]. by eapply same_flights_insert.
Qed.

Lemma tickCancel_same ts p : same_flights ts (tickCancel ts p).
Proof.
  unfold tickCancel. destruct (ts !! p) as [t|] eqn:E; [| done]. case_match; [done |]. by eapply same_flights_insert.
Qed.

Lemma same_flights_fold (f : gmap nat (Ticket F) → nat → gmap nat (Ticket F)) ps ts :
  (∀ ts p, same_flights ts (f ts p)) → same_flights ts (foldl f ts ps).
Proof.
  intros Hf. apply (foldl_keeps (same_flights ts)); [done |]. intros ts' p H' t. by rewrite (Hf ts' p t).
Qed.

Lemma wf_fold_tickets l (f : gmap nat (Ticket F) → nat → gmap nat (Ticket F)) ps :
  (∀ ts p, same_flights ts (f ts p)) → limiter_wf l → limiter_wf (l <| lm_theap ::= λ ts, foldl f ts ps |>).
Proof.
  intros Hf Hl. assert (l <| lm_theap ::= λ ts, foldl f ts ps |> = l <| lm_theap := foldl f (lm_theap l) ps |>) as -> by done.
  apply wf_set_tickets; [done |]. by apply same_flights_fold.
Qed.

Lemma tickKey_wf now l p : limiter_wf l → limiter_wf (tickKey o now l p).
Proof.
  intros Hl. unfold tickKey. destruct (lm_kheap l !! p) as [k|] eqn:Ek; [| done].
  set (l1 := l <| lm_theap ::= _ |>).
  assert (limiter_wf l1) as Hl1 by (apply wf_fold_tickets; [apply tickMeter_same | done]).
  assert (limiter_wf (set_key l1 p (refill k now))) as Hl2 by (by apply (wf_set_key l1 p k)).
  case_match; [done |]. by apply wf_fold_tickets; [apply tickCancel_same |].
Qed.

Lemma tick_wf l now : limiter_wf l → limiter_wf (tick o l now).
Proof. intros Hl. unfold tick. apply (foldl_keeps limiter_wf); [done |]. intros. by apply tickKey_wf. Qed.

(** A key with no flights is forgotten. *)
Lemma wf_forget l id p k :
  limiter_wf l → lm_kheap l !! p = Some k → lk_flights k = ∅ → (∀ q, lm_keys l !! id = Some q → q = p) →
  limiter_wf (l <| lm_keys ::= delete id |>).
Proof.
  intros [Hk Ho Ht Hf Ha Hkept Hn] Hp Efl Hid. constructor; simpl; try done.
  - intros id' q Hq. apply lookup_delete_Some in Hq as [_ Hq]. by apply Hk.
  - intros q x Hq Hne. destruct (Hkept q x Hq Hne) as [Hl|Hl]; [left | by right].
    rewrite lookup_delete_ne; [done |]. intros ->. rewrite (Hid q Hl) in Hq. congruence.
Qed.

(** What every step of the sweep keeps: the entries it has still to visit are
    the limiter's own, unless already deleted. *)
Lemma sweepKey_wf now l e :
  limiter_wf l → (∀ q, lm_keys l !! e.1 = Some q → q = e.2) → limiter_wf (sweepKey now l e).
Proof.
  intros Hl He. unfold sweepKey. destruct (lm_kheap l !! e.2) as [k|] eqn:Ek; [| done].
  case_bool_decide as Efl; simpl; [| done].
  assert (limiter_wf (set_key l e.2 (refill k now))) as Hl2 by (by apply (wf_set_key l e.2 k)).
  case_match; [| done]. eapply (wf_forget _ e.1 e.2 (refill k now)); [done | simpl; apply lookup_insert_eq | done | done].
Qed.

Lemma sweepKey_keys now l e id q : lm_keys (sweepKey now l e) !! id = Some q → lm_keys l !! id = Some q.
Proof.
  unfold sweepKey. destruct (lm_kheap l !! e.2); [| done]. case_bool_decide; simpl; [| done].
  case_match; [| done]. simpl. intros Hq%lookup_delete_Some. naive_solver.
Qed.

Lemma sweepKeys_wf now l es :
  limiter_wf l → (∀ e q, e ∈ es → lm_keys l !! e.1 = Some q → q = e.2) → limiter_wf (foldl (sweepKey now) l es).
Proof.
  revert l. induction es as [|e es IH]; intros l Hl He; simpl; [done |]. apply IH.
  - apply sweepKey_wf; [done |]. intros q. apply He. by left.
  - intros e' q Hin Hq%sweepKey_keys. apply He; [by right | done].
Qed.

Lemma sweepOverflow_wf now l : limiter_wf l → limiter_wf (sweepOverflow o now l).
Proof.
  intros Hl. unfold sweepOverflow. destruct (lm_overflow l) as [p|] eqn:Eov; [| done].
  destruct (lm_kheap l !! p) as [k|] eqn:Ek; [| done]. case_bool_decide as Efl; simpl; [| done].
  case_match; [| done].
  assert (limiter_wf (set_key l p (refill k now))) as Hl2 by (by apply (wf_set_key l p k)).
  case_match; [| done]. destruct Hl2 as [Hk Ho Ht Hf Ha Hkept Hn]. constructor; simpl in *; try done.
  intros q x Hq Hne. destruct (Hkept q x Hq Hne) as [Hu|Hu]; [by left |]. exfalso.
  rewrite Eov in Hu. injection Hu as <-. rewrite lookup_insert_eq in Hq. injection Hq as <-. done.
Qed.

Lemma sweep_wf l now : limiter_wf l → limiter_wf (sweep o l now).
Proof.
  intros Hl. unfold sweep. apply sweepOverflow_wf, sweepKeys_wf; [done |].
  intros [id p] q Hin Hq. apply elem_of_map_to_list in Hin. simpl in *. congruence.
Qed.

Lemma save_wf l now l' st : limiter_wf l → save o l now = (l', st) → limiter_wf l'.
Proof.
  intros Hl. unfold save. case_match; [by intros [= <- _] |].
  destruct (foldl (saveStep now) (l, ∅) (map_to_list (lm_keys l))) as [l1 st1] eqn:E. intros [= <- _].
  apply (f_equal fst) in E. simpl in E. rewrite <- E.
  apply (foldl_keeps (λ a : Limiter F * gmap string (limiterBucket F), limiter_wf a.1)); [done |].
  intros [l2 st2] e Hl2. unfold saveStep. destruct (lm_kheap l2 !! e.2) as [k|] eqn:Ek; [| done].
  simpl. by eapply wf_set_key.
Qed.

Lemma loadStep_wf now l e : limiter_wf l → limiter_wf (loadStep o now l e).
Proof.
  intros Hl. unfold loadStep. destruct (planOf o e.1) as [plan|]; [| done].
  destruct (lm_keys l !! e.1) as [p|] eqn:Ep.
  - destruct (lm_kheap l !! p) as [k|] eqn:Ek; [| done]. by eapply wf_set_key.
  - simpl. set (k := (newLimitKey e.1 plan) <| lk_minute := _ |> <| lk_day := _ |>).
    eapply (wf_link (alloc_key l k).1 e.1 _ k); [by apply wf_alloc_key | done | simpl; apply lookup_insert_eq | done | done].
Qed.

Lemma load_wf l now st : limiter_wf l → limiter_wf (load o l now st).
Proof.
  intros Hl. unfold load. destruct st as [st|]; [| done].
  apply (foldl_keeps limiter_wf); [done |]. intros. by apply loadStep_wf.
Qed.

(** ** Any interleaving of calls *)
Inductive limiterOp :=
  | OpAdmit (now : Time) (id : Identity) (class : RequestClass) (best : Z)
  | OpReported (t : nat) (e : Effort)
  | OpTrack (t : nat)
  | OpResponding (t : nat) (now : Time) (status : Z) (retryAfter : string)
  | OpDone (t : nat) (now : Time)
  | OpExhausted (t : nat) (now : Time)
  | OpTick (now : Time)
  | OpSweep (now : Time)
  | OpSave (now : Time)
  | OpLoad (now : Time) (st : option (limiterState F)).

Definition limiterStep (l : Limiter F) (op : limiterOp) : option (Limiter F) :=
  match op with
  | OpAdmit now id class best => fst <$> Admit o l now id class best
  | OpReported t e => Reported l t e
  | OpTrack t => Track l t
  | OpResponding t now status ra => (λ r, r.1.1) <$> Responding o l t now status ra
  | OpDone t now => Done o l t now
  | OpExhausted t now => fst <$> Exhausted l t now
  | OpTick now => Some (tick o l now)
  | OpSweep now => Some (sweep o l now)
  | OpSave now => Some (save o l now).1
  | OpLoad now st => Some (load o l now st)
  end.

Inductive limiter_reachable : Limiter F → Prop :=
  | reach_new : limiter_reachable NewLimiter
  | reach_step l op l' : limiter_reachable l → limiterStep l op = Some l' → limiter_reachable l'.

Lemma limiterStep_wf l op l' : limiter_wf l → limiterStep l op = Some l' → limiter_wf l'.
Proof.
  intros Hl. destruct op; simpl.
  - destruct (Admit _ _ _ _ _ _) as [[l1 r]|] eqn:E; [| done]. intros [= <-]. by eapply Admit_wf.
  - by apply Reported_wf.
  - by apply Track_wf.
  - destruct (Responding _ _ _ _ _ _) as [[[l1 h] c]|] eqn:E; [| done]. intros [= <-]. by eapply Responding_wf.
  - by apply Done_wf.
  - destruct (Exhausted _ _ _) as [[l1 d]|] eqn:E; [| done]. intros [= <-]. by eapply Exhausted_wf.
  - intros [= <-]. by apply tick_wf.
  - intros [= <-]. by apply sweep_wf.
  - intros [= <-]. destruct (save o l now) eqn:E. by eapply save_wf.
  - intros [= <-]. by apply load_wf.
Qed.

(** C14: the limiter's shared objects stay consistent under every interleaving
    of admissions, reports, responses, completions, ticks, sweeps, saves and
    loads: no pointer dangles, a ticket is among its key's flights exactly
    until it is done, the meter's set is the keys with a metered request in
    flight, and a client with a request in flight is never forgotten, so no
    charge is lost. *)
Theorem limiter_consistent l : limiter_reachable l → limiter_wf l.
Proof. induction 1 as [|l op l' _ IH Hs]; [apply wf_new | by eapply limiterStep_wf]. Qed.
End Invariant.
