(* ===== verification/LimiterLaws.v ===== *)
(** * LimiterLaws: what the limiter promises its clients

    What admission decides, in any arithmetic ([Admit_decides]); the wait a
    client is told, in exact arithmetic; the meter's tick; and concrete
    limiters on which the laws are evaluated. *)
From S2P Require Import Prelude GoFloat GoStrings GoTime Types Classify Effort Billing Limiter LimiterSound.
From stdpp Require Import pretty.
From Stdlib Require Import Ascii QArith Qround Lqa.
Open Scope Z_scope.

(** ** Allowances, in exact arithmetic *)
Section Allowances.
Context (o : LimiterOptions Q).

(** Both windows of a key, with what the client may spend of each now. *)
Definition windowsOf (ts : gmap nat (Ticket Q)) (k : limitKey Q) : list (Window Q * Q) :=
  [(pl_Minute (lk_plan k), bu_Level (lk_minute k) - owed ts k); (pl_Day (lk_plan k), bu_Level (lk_day k) - owed ts k)]%Q.

Lemma Wait_covered (w : Window Q) level cost : (Limited w = true → cost <= level)%Q → Wait w level cost = 0.
Proof.
  intros Hc. unfold Wait. destruct (Limited w); [| done]. cbn [negb orb nleb Num_Q].
  by rewrite (proj2 (Qle_bool_iff _ _) (Hc eq_refl)).
Qed.

(** What shortfall answers, from the two waits. *)
Lemma shortfall_waits ts (k : limitKey Q) cost :
  (0 < cost)%Q →
  let dm := Wait (pl_Minute (lk_plan k)) (bu_Level (lk_minute k) - owed ts k)%Q cost in
  let dd := Wait (pl_Day (lk_plan k)) (bu_Level (lk_day k) - owed ts k)%Q cost in
  ((shortfall ts k cost).2 = ""%string ↔ dm <= 0 ∧ dd <= 0) ∧
  ((shortfall ts k cost).2 ≠ ""%string → (shortfall ts k cost).1 = Z.max Second (Z.max dm dd)).
Proof.
  intros Hc dm dd. unfold shortfall. cbn [nleb Num_Q nsub nzero nofZ].
  destruct (Qle_bool cost (inject_Z 0)) eqn:E; [qprop; change (inject_Z 0) with 0%Q in E; lra |].
  change (Wait (pl_Minute (lk_plan k)) _ cost) with dm. change (Wait (pl_Day (lk_plan k)) _ cost) with dd.
  assert (0 < Second) as Hs by done.
  destruct (Z.ltb_spec 0 dm); simpl.
  - destruct (Z.ltb_spec dm dd); simpl; (split; [split; [done | lia] |]); case_match; lia.
  - destruct (Z.ltb_spec 0 dd); simpl; (split; [split; [done || lia | done || lia] |]); try done; case_match; lia.
Qed.

Lemma shortfall_free ts (k : limitKey Q) cost : (cost <= 0)%Q → shortfall ts k cost = (0, ""%string).
Proof.
  intros Hc. unfold shortfall. cbn [nleb Num_Q nzero nofZ]. change (inject_Z 0) with 0%Q.
  by rewrite (proj2 (Qle_bool_iff _ _) Hc).
Qed.

(** The key a request is billed to, as Admit finds it. *)
Definition keyOf (l : Limiter Q) (id : Identity) (plan : Plan Q) : option (limitKey Q) :=
  let '(l, p) := key o l id plan in lm_kheap l !! p.

(** The same client finds the same key again while the map and the overflow
    key stay. *)
Lemma key_again l id plan l2 plan' :
  lm_keys l2 = lm_keys (key o l id plan).1 → lm_overflow l2 = lm_overflow (key o l id plan).1 →
  key o l2 id plan' = (l2, (key o l id plan).2).
Proof.
  unfold key. destruct (lm_keys l !! id_Key id) as [p|] eqn:Eid; simpl; [intros -> _; by rewrite Eid |].
  destruct (has_prefix "ip:" (id_Key id) && (lo_MaxKeys o <=? Z.of_nat (size (lm_keys l)))) eqn:Eb.
  - destruct (lm_overflow l) as [p|] eqn:Eov; simpl; intros -> ->; by rewrite Eid, Eb, ?Eov.
  - simpl. intros -> _. by rewrite lookup_insert_eq.
Qed.

(** Waiting covers a window, unless what is owed keeps it from ever holding
    the cost. *)
Lemma Wait_waited (w : Window Q) b t d ow cost :
  (Limited w = true → bu_At b = t ∧ (cost + ow <= wi_Capacity w)%Q ∧
     is_i64 (Qceiling (exactWait w (bu_Level b - ow) cost))) →
  0 < t → 0 <= d → is_i64 d → Wait w (bu_Level b - ow)%Q cost <= d →
  Wait w (bu_Level (Refill w b (t + d)%Z) - ow)%Q cost = 0.
Proof.
  intros Hw Ht Hd Hi Hle. apply Wait_covered. intros Hl. destruct (Hw Hl) as (Hat & Hcap & Hfit).
  destruct b as [level at_]. simpl in *. subst at_. rewrite Refill_after by done.
  assert (cost <= level - ow + gained w d)%Q as Hge.
  { destruct (Qlt_le_dec (level - ow) cost) as [Hlt|Hge].
    - by apply (Wait_le w _ cost Hl Hlt Hfit).
    - destruct (Z.eq_dec d 0) as [->|]; [assert (gained w 0 == 0)%Q as E by (unfold gained, Qdiv; ring); lra |].
      pose proof (gained_pos w d Hl ltac:(lia)). lra. }
  destruct (nmin_Q_cases (level + gained w d) (wi_Capacity w)) as [[-> ?]|[-> ?]]; lra.
Qed.

(** A refilled bucket is up to date, or ahead of the clock. *)
Lemma Refill_at (w : Window Q) b now : 0 < now → now <= bu_At (Refill w b now).
Proof.
  intros Hnow. unfold Refill. destruct (Limited w); simpl; [| lia]. destruct (IsZero (bu_At b)); simpl; [lia |].
  destruct (Z.ltb_spec 0 (time_sub now (bu_At b))) as [|Hle]; simpl; [lia |]. unfold time_sub in Hle. mlia.
Qed.

Lemma Wait_range (w : Window Q) level cost : is_i64 (Wait w level cost).
Proof. unfold Wait. case_match; [by vm_compute | apply to_i64_range]. Qed.

(** Retry-After is honest: a request refused because its client's
    allowance is short is told to wait at least a second, and the same request
    after exactly that wait, nothing else having happened, is not refused for
    its allowance again (provided the windows can ever hold the cost beside
    what is owed). *)
Theorem retry_after_honest l now id class best l' d plan k :
  limiter_wf l → lo_plans o !! id_Plan id = Some plan → 0 < now →
  Admit o l now id class best = Some (l', Err d) → dn_Status d = 429 →
  keyOf l' id plan = Some k → bu_At (lk_minute k) <= now → bu_At (lk_day k) <= now →
  (∀ w level, (w, level) ∈ windowsOf (lm_theap l') k → Limited w = true →
     (Base (lo_Weights o) class best + owed (lm_theap l') k <= wi_Capacity w)%Q ∧
     is_i64 (Qceiling (exactWait w level (Base (lo_Weights o) class best)))) →
  Second <= dn_RetryAfter d ∧
  ∀ l'' d', Admit o l' (now + dn_RetryAfter d) id class best = Some (l'', Err d') → dn_Status d' ≠ 429.
Proof.
  intros Hl Hplan Hnow. unfold Admit. rewrite Hplan. simpl.
  assert (∀ x, beyondPlan plan class = Some x → dn_Status x = 403) as Hb.
  { intros x. unfold beyondPlan. repeat case_match; by intros [= <-]. }
  assert (∀ x c, tooCostly plan c = Some x → dn_Status x = 403) as Ht.
  { intros x c. unfold tooCostly. repeat case_match; by intros [= <-]. }
  destruct (beyondPlan plan class) as [x|]; [intros [= _ ->] Hs; by rewrite (Hb _ eq_refl) in Hs |].
  destruct (tooCostly plan _) as [x|] eqn:Etc; [intros [= _ ->] Hs; by rewrite (Ht _ _ Etc) in Hs |].
  set (cost := Base _ _ _) in *. unfold keyOf.
  pose proof (key_spec o l id plan Hl) as Hkey. pose proof (λ l2 plan', key_again l id plan l2 plan') as Hagain.
  destruct (key o l id plan) as [l1 p]. simpl in Hagain. destruct Hkey as (Hl1 & _ & (k0 & Hk0 & _) & _). rewrite Hk0. simpl.
  destruct (shortfall (lm_theap l1) (refill k0 now) cost) as [wait window] eqn:Es.
  destruct (String.eqb_spec window "") as [->|Hne]; simpl; [destruct (_ && caps_set _); [by intros [= _ <-] | done] |].
  intros [= <- <-] _. rewrite (Hagain (set_key l1 p (refill k0 now)) plan eq_refl eq_refl). simpl.
  rewrite lookup_insert_eq. intros [= <-] Hm Hd Hw. cbn [dn_RetryAfter].
  destruct (Qlt_le_dec 0 cost) as [Hpos|Hfree]; [| rewrite shortfall_free in Es by done; congruence].
  set (k := refill k0 now) in *. set (ts := lm_theap l1) in *.
  destruct (shortfall_waits ts k cost Hpos) as [_ Hwait]. rewrite Es in Hwait. specialize (Hwait Hne). cbn [fst] in Hwait.
  pose proof (Refill_at (pl_Minute (lk_plan k)) (lk_minute k0) now) as Hm'. specialize (Hm' ltac:(done)).
  pose proof (Refill_at (pl_Day (lk_plan k)) (lk_day k0) now) as Hd'. specialize (Hd' ltac:(done)).
  set (dm := Wait (pl_Minute (lk_plan k)) _ cost) in *. set (dd := Wait (pl_Day (lk_plan k)) _ cost) in *.
  assert (0 < Second <= MaxInt64) as Hsec by done.
  assert (is_i64 wait) as Hi.
  { pose proof (Wait_range (pl_Minute (lk_plan k)) (bu_Level (lk_minute k) - owed ts k)%Q cost) as R1. fold dm in R1.
    pose proof (Wait_range (pl_Day (lk_plan k)) (bu_Level (lk_day k) - owed ts k)%Q cost) as R2. fold dd in R2. mlia. }
  split; [lia |]. intros l2 d'.
  change (owed ts (refill k (now + wait))) with (owed ts k).
  assert ((shortfall ts (refill k (now + wait)) cost).2 = ""%string) as Hnone.
  { destruct (shortfall_waits ts (refill k (now + wait)) cost Hpos) as [-> _].
    assert (∀ w b, (w, (bu_Level b - owed ts k)%Q) ∈ windowsOf ts k → bu_At b = now →
      Wait w (bu_Level b - owed ts k)%Q cost <= wait → Wait w (bu_Level (Refill w b (now + wait)%Z) - owed ts k)%Q cost = 0) as H0.
    { intros w b Hin Hat Hle. apply Wait_waited; [| done | lia | done | done].
      intros Hlim. destruct (Hw w _ Hin Hlim). done. }
    split; apply Z.eq_le_incl.
    - apply (H0 (pl_Minute (lk_plan k)) (lk_minute k)); [by left | by apply Z.le_antisymm | fold dm; lia].
    - apply (H0 (pl_Day (lk_plan k)) (lk_day k)); [by right; left | by apply Z.le_antisymm | fold dd; lia]. }
  destruct (shortfall ts (refill k (now + wait)) cost) as [wait' window'] eqn:Es'. simpl in Hnone. subst window'.
  cbn [mbind option_bind]. rewrite Es'. cbn [String.eqb negb].
  destruct (_ && caps_set _); [by intros [= _ <-] | done].
Qed.
End Allowances.

(** ** Admission, in the program's arithmetic *)
Section Admission.
Context {F : Type} `{Num F} (o : LimiterOptions F).

Definition windows (p : Plan F) : list (Window F) := [pl_Minute p; pl_Day p].

(** The request asks for more than its plan ever gives: a simulation beyond
    the plan's caps, or a price no full window covers. *)
Definition beyond (plan : Plan F) (class : RequestClass) (cost : F) : Prop :=
  (rc_Simulate class = true ∧ ∃ n, rc_SimNeeds class = Some n ∧ CapsCheck (pl_Simulate plan) n ≠ ""%string) ∨
  ∃ w, w ∈ windows plan ∧ Limited w = true ∧ nltb (wi_Capacity w) cost = true.

(** A simulation whose body says nothing, where the plan has caps. *)
Definition unreadable (plan : Plan F) (class : RequestClass) : Prop :=
  rc_Simulate class = true ∧ rc_SimNeeds class = None ∧ pl_Simulate plan ≠ mkCaps 0 0 0 false false.

(** A limited window at a level does not hold the cost, and will in time. *)
Definition lacks (w : Window F) (level cost : F) : Prop :=
  Limited w = true ∧ nleb cost level = false ∧
  0 < to_i64 (nceil ((cost - level) / (wi_Capacity w / Seconds (wi_Period w)) * nofZ Second)%num).

(** The client's allowance at a time does not cover a price beside what its
    requests in flight owe. *)
Definition uncovered (ts : gmap nat (Ticket F)) (k : limitKey F) (now : Time) (cost : F) : Prop :=
  nleb cost nzero = false ∧
  (lacks (pl_Minute (lk_plan k)) (bu_Level (Refill (pl_Minute (lk_plan k)) (lk_minute k) now) - owed ts k)%num cost ∨
   lacks (pl_Day (lk_plan k)) (bu_Level (Refill (pl_Day (lk_plan k)) (lk_day k) now) - owed ts k)%num cost).

(** A bucket with a price taken off; a window without a limit has none. *)
Definition taken (w : Window F) (b : Bucket F) (cost : F) : Bucket F :=
  if Limited w then mkBucket (bu_Level b - cost)%num (bu_At b) else b.

(** The key a request is billed to: the one of its name, the overflow key of
    addresses the limiter has no room for, or a new one with its windows full. *)
Definition billed_key (l : Limiter F) (id : Identity) (plan : Plan F) (p : nat) (k : limitKey F) : Prop :=
  lm_kheap l !! p = Some k ∧ lm_keys l !! id_Key id = Some p ∨
  lm_keys l !! id_Key id = None ∧ has_prefix "ip:" (id_Key id) = true ∧ lo_MaxKeys o <= Z.of_nat (size (lm_keys l)) ∧
    (lm_kheap l !! p = Some k ∧ lm_overflow l = Some p ∨
     lm_kheap l !! p = None ∧ lm_overflow l = None ∧ k = mkLimitKey "ip:overflow" plan (mkBucket nzero zero_time) (mkBucket nzero zero_time) ∅) ∨
  lm_keys l !! id_Key id = None ∧ (has_prefix "ip:" (id_Key id) = true → Z.of_nat (size (lm_keys l)) < lo_MaxKeys o) ∧
    lm_kheap l !! p = None ∧ k = mkLimitKey (id_Key id) plan (mkBucket nzero zero_time) (mkBucket nzero zero_time) ∅.

(** What a request that was let through to its allowance leaves. *)
Definition leaves (l l' : Limiter F) (now : Time) (p : nat) (k : limitKey F) (price : Window F → Bucket F → Bucket F) (fs : gset nat) : Prop :=
  lm_kheap l' = <[p := mkLimitKey (lk_id k) (lk_plan k)
                         (price (pl_Minute (lk_plan k)) (Refill (pl_Minute (lk_plan k)) (lk_minute k) now))
                         (price (pl_Day (lk_plan k)) (Refill (pl_Day (lk_plan k)) (lk_day k) now)) fs]> (lm_kheap l).

(** What Admit decides and does: the limiter after it and its answer. *)
Definition admission (l : Limiter F) (now : Time) (class : RequestClass) (plan : Plan F) (p : nat) (k : limitKey F) (cost : F)
    (l' : Limiter F) (r : result (Denial F) nat) : Prop :=
  match r with
  | Ok t =>
      ¬ beyond plan class cost ∧ ¬ uncovered (lm_theap l) k now cost ∧ ¬ unreadable plan class ∧
      leaves l l' now p k (λ w b, taken w b cost) (lk_flights k ∪ {[t]}) ∧ lm_theap l !! t = None ∧
      ∃ tk, lm_theap l' = <[t := tk]> (lm_theap l) ∧ tk_k tk = p ∧ tk_base tk = cost ∧ tk_extra tk = nzero ∧
        tk_start tk = now ∧ tk_metered tk = rc_Simulate class ∧
        tk_frozen tk = false ∧ tk_reported tk = false ∧ tk_refunded tk = false ∧ tk_cancelled tk = false ∧ tk_done tk = false
  | Err d =>
      lm_theap l' = lm_theap l ∧
      (dn_Status d = 403 ∧ beyond plan class cost ∧ l' = l ∨
       dn_Status d = 429 ∧ ¬ beyond plan class cost ∧ uncovered (lm_theap l) k now cost ∧ Second <= dn_RetryAfter d ∧
         leaves l l' now p k (λ _ b, b) (lk_flights k) ∨
       dn_Status d = 400 ∧ ¬ beyond plan class cost ∧ ¬ uncovered (lm_theap l) k now cost ∧ unreadable plan class ∧
         leaves l l' now p k (λ w b, taken w b cost) (lk_flights k))
  end.

Lemma beyondPlan_spec (plan : Plan F) class :
  match beyondPlan plan class with
  | Some d => dn_Status d = 403 ∧ rc_Simulate class = true ∧ ∃ n, rc_SimNeeds class = Some n ∧ CapsCheck (pl_Simulate plan) n ≠ ""%string
  | None => ¬ (rc_Simulate class = true ∧ ∃ n, rc_SimNeeds class = Some n ∧ CapsCheck (pl_Simulate plan) n ≠ ""%string)
  end.
Proof.
  unfold beyondPlan. destruct (rc_Simulate class); [| by intros [? _]]. destruct (rc_SimNeeds class) as [n|]; [| by intros (_ & ? & ? & _)].
  destruct (String.eqb_spec (CapsCheck (pl_Simulate plan) n) ""); simpl; [intros (_ & ? & [= <-] & ?); done |].
  split_and!; [done.. |]. by exists n.
Qed.

Lemma tooCostly_spec (plan : Plan F) cost :
  match tooCostly plan cost with
  | Some d => dn_Status d = 403 ∧ ∃ w, w ∈ windows plan ∧ Limited w = true ∧ nltb (wi_Capacity w) cost = true
  | None => ¬ ∃ w, w ∈ windows plan ∧ Limited w = true ∧ nltb (wi_Capacity w) cost = true
  end.
Proof.
  unfold tooCostly, windows. destruct (Limited (pl_Minute plan) && _) eqn:Em.
  { apply andb_true_iff in Em as [? ?]. split; [done |]. exists (pl_Minute plan). split_and!; [by left | done | done]. }
  destruct (Limited (pl_Day plan) && _) eqn:Ed.
  { apply andb_true_iff in Ed as [? ?]. split; [done |]. exists (pl_Day plan). split_and!; [by right; left | done | done]. }
  intros (w & [->|[->|[]%elem_of_nil]%elem_of_cons]%elem_of_cons & Hl & Hc); rewrite Hl, Hc in *; done.
Qed.

Lemma caps_set_spec c : caps_set c = true ↔ c ≠ mkCaps 0 0 0 false false.
Proof.
  destruct c as [g r e u x]. unfold caps_set. cbn.
  destruct (Z.eqb_spec g 0), (Z.eqb_spec r 0), (Z.eqb_spec e 0), u, x; simpl; split; intros; congruence.
Qed.

Lemma lacks_Wait (w : Window F) level cost : lacks w level cost ↔ 0 < Wait w level cost.
Proof.
  unfold lacks, Wait, rate. destruct (Limited w); simpl; [| split; [by intros [? _] | lia]].
  destruct (nleb cost level); simpl; [split; [by intros (_ & ? & _) | lia] | tauto].
Qed.

Lemma shortfall_uncovered ts (k : limitKey F) now cost :
  ((shortfall ts (refill k now) cost).2 ≠ ""%string ↔ uncovered ts k now cost) ∧
  ((shortfall ts (refill k now) cost).2 ≠ ""%string → Second <= (shortfall ts (refill k now) cost).1).
Proof.
  unfold shortfall, uncovered. destruct (nleb cost nzero); [by split; [split; [| intros [? _]] |] |].
  change (owed ts (refill k now)) with (owed ts k).
  change (lk_plan (refill k now)) with (lk_plan k).
  change (lk_minute (refill k now)) with (Refill (pl_Minute (lk_plan k)) (lk_minute k) now).
  change (lk_day (refill k now)) with (Refill (pl_Day (lk_plan k)) (lk_day k) now).
  pose proof (lacks_Wait (pl_Minute (lk_plan k)) (bu_Level (Refill (pl_Minute (lk_plan k)) (lk_minute k) now) - owed ts k)%num cost) as Lm.
  pose proof (lacks_Wait (pl_Day (lk_plan k)) (bu_Level (Refill (pl_Day (lk_plan k)) (lk_day k) now) - owed ts k)%num cost) as Ld.
  revert Lm Ld. set (dm := Wait (pl_Minute _) _ cost). set (dd := Wait (pl_Day _) _ cost). intros -> ->. assert (0 < Second) as Hs by done.
  destruct (Z.ltb_spec 0 dm); simpl.
  - destruct (Z.ltb_spec dm dd); simpl; (split; [split; [intros _; split; [done | by left] | done] |]); case_match; lia.
  - destruct (Z.ltb_spec 0 dd); simpl.
    + split; [split; [intros _; split; [done | by right] | done] |]. case_match; lia.
    + split; [split; [done | intros [_ [?|?]]; lia] | done].
Qed.

Lemma key_billed l id plan :
  limiter_wf l →
  let '(l1, p) := key o l id plan in
  ∃ k, billed_key l id plan p k ∧ lm_kheap l1 = <[p := k]> (lm_kheap l) ∧ lm_theap l1 = lm_theap l ∧
    lm_theap l1 !! lm_next l1 = None ∧ lm_next l1 ∉ lk_flights k.
Proof.
  intros Hl. pose proof (key_spec o l id plan Hl) as Hk. revert Hk. unfold key, billed_key.
  destruct (wf_next l Hl (lm_next l) ltac:(lia)) as [Hfk Hft].
  assert (∀ q x, lm_kheap l !! q = Some x → lm_next l ∉ lk_flights x) as Hfl.
  { intros q x Hx Hin. destruct (wf_flights l Hl q x _ Hx Hin) as (y & Hy & _). congruence. }
  destruct (lm_keys l !! id_Key id) as [p|] eqn:Ek.
  { intros (_ & _ & (k & Hk & _) & _). exists k. split_and!; [by left | by rewrite insert_id | done | done | by eapply Hfl]. }
  destruct (has_prefix "ip:" (id_Key id)) eqn:Ei; simpl.
  1: destruct (Z.leb_spec (lo_MaxKeys o) (Z.of_nat (size (lm_keys l)))) as [Hm|Hm].
  1: destruct (lm_overflow l) as [p|] eqn:Eo; simpl.
  - intros (_ & _ & (k & Hk & _) & _). exists k. split_and!; [right; left; split_and!; [done.. |]; by left | by rewrite insert_id | done | done | by eapply Hfl].
  - intros (W & _ & _ & _). eexists. split_and!; [right; left; split_and!; [done.. |]; right; by split_and! | done | done | | set_solver].
    apply (wf_next _ W). simpl. lia.
  - simpl. intros (W & _ & _ & _). eexists. split_and!; [right; right; by split_and! | done | done | | set_solver].
    apply (wf_next _ W). simpl. lia.
  - intros (W & _ & _ & _). eexists. split_and!; [right; right; by split_and! | done | done | | set_solver].
    apply (wf_next _ W). simpl. lia.
Qed.

Lemma charged_key (k : limitKey F) now cost :
  charge (refill k now) cost =
    mkLimitKey (lk_id k) (lk_plan k) (taken (pl_Minute (lk_plan k)) (Refill (pl_Minute (lk_plan k)) (lk_minute k) now) cost)
      (taken (pl_Day (lk_plan k)) (Refill (pl_Day (lk_plan k)) (lk_day k) now) cost) (lk_flights k).
Proof. destruct k as [i p m d fs]. unfold charge, taken, bucket_sub, refill. simpl. by destruct (Limited (pl_Minute p)); simpl; destruct (Limited (pl_Day p)). Qed.

(** C11: admission decides by the client's allowance and takes the price
    from it once.  A request its plan can never cover is refused with 403 and
    nothing changes.  One that some limited window, brought up to date, does
    not hold beside what the client's requests in flight owe (and will hold in
    time: a positive number of nanoseconds) is refused with 429, a second or
    more to wait, and nothing taken.  Any other has its price taken from each
    limited window once, and from nothing else: it is in flight as a fresh
    ticket of its client, or refused with 400 when it is a simulation that
    could not be read under a plan with caps.  A price of zero or less is
    never short.  In float64, as the program computes, and in any other
    arithmetic. *)
Theorem Admit_decides l now id class best plan :
  limiter_wf l → lo_plans o !! id_Plan id = Some plan →
  ∃ l' r p k, Admit o l now id class best = Some (l', r) ∧ billed_key l id plan p k ∧
    admission l now class plan p k (Base (lo_Weights o) class best) l' r.
Proof.
  intros Hl Hplan. unfold Admit. rewrite Hplan. cbn [mbind option_bind]. set (cost := Base _ _ _).
  pose proof (key_billed l id plan Hl) as Hkey. destruct (key o l id plan) as [l1 p] eqn:Ek.
  destruct Hkey as (k & Hb & Ekh & Eth & Hfresh & Hnin).
  pose proof (beyondPlan_spec plan class) as Hbp. destruct (beyondPlan plan class) as [d|].
  { destruct Hbp as [E Hbp]. exists l, (Err d), p, k. split_and!; [done | done |]. split; [done |]. left. split_and!; [done | by left | done]. }
  pose proof (tooCostly_spec plan cost) as Htc. destruct (tooCostly plan cost) as [d|].
  { destruct Htc as [E Htc]. exists l, (Err d), p, k. split_and!; [done | done |]. split; [done |]. left. split_and!; [done | by right | done]. }
  assert (¬ beyond plan class cost) as Hnb by (intros [?|?]; [by apply Hbp | by apply Htc]).
  rewrite Ekh, lookup_insert_eq. cbn [mbind option_bind].
  pose proof (shortfall_uncovered (lm_theap l1) k now cost) as Hs. rewrite Eth in Hs. rewrite Eth.
  destruct (shortfall (lm_theap l) (refill k now) cost) as [wait window]. destruct Hs as [Hs Hw]. cbn [fst snd] in Hs, Hw.
  assert (∀ k', lm_kheap (set_key l1 p k') = <[p := k']> (lm_kheap l)) as Eset by (intros k'; cbn; by rewrite Ekh, insert_insert_eq).
  destruct (String.eqb_spec window "") as [->|Hne]; cbn [negb].
  2: { do 4 eexists. split; [done |]. split; [exact Hb |]. split; [done |]. right. left.
       split_and!; [done | done | by apply Hs | by apply Hw |]. unfold leaves. by rewrite Eset. }
  assert (¬ uncovered (lm_theap l) k now cost) as Hcov by (intros ?%Hs; done).
  destruct (rc_Simulate class && isNone (rc_SimNeeds class) && caps_set (pl_Simulate plan)) eqn:Eu.
  - apply andb_true_iff in Eu as [[E1 E2]%andb_true_iff E3%caps_set_spec].
    do 4 eexists. split; [done |]. split; [exact Hb |]. split; [done |]. right. right.
    split_and!; [done | done | done | by split_and!; [| destruct (rc_SimNeeds class) |] |]. unfold leaves. by rewrite Eset, charged_key.
  - assert (¬ unreadable plan class) as Hur.
    { intros (E1 & E2 & E3%caps_set_spec). by rewrite E1, E2, E3 in Eu. }
    rewrite charged_key. cbn [alloc_ticket]. set (tk := mkTicket p _ _ _ _ _ _ _ _ _ _ _ _).
    do 4 eexists. split; [done |]. split; [exact Hb |]. cbn [admission]. split_and!; [done | done | done | | by rewrite <- Eth |].
    + unfold leaves. destruct (rc_Simulate class); cbn; by rewrite Ekh, insert_insert_eq.
    + exists tk. split; [| by split_and!]. clearbody tk. destruct (rc_Simulate class); cbn; by rewrite Eth.
Qed.
End Admission.

(** ** The meter's tick *)
Section Tick.
Context {F : Type} `{Num F} (o : LimiterOptions F).

(** Two heaps agree on a projection of the tickets of ps. *)
Definition agree {B} (f : Ticket F → B) (ps : list nat) (ts ts' : gmap nat (Ticket F)) : Prop :=
  ∀ t, t ∈ ps → option_map f (ts' !! t) = option_map f (ts !! t).

Lemma ticketsOf_agree {B} (f : Ticket F → B) ps ts ts' :
  agree f ps ts ts' → f <$> ticketsOf ts' ps = f <$> ticketsOf ts ps.
Proof.
  unfold ticketsOf. induction ps as [|p ps IH]; intros Hag; [done |]. cbn.
  assert (agree f ps ts ts') as Hag' by (intros t Ht; apply Hag; by right).
  specialize (Hag p ltac:(by left)). specialize (IH Hag'). cbn in IH.
  destruct (ts' !! p), (ts !! p); simpl in *; try done. injection Hag as ->. by f_equal.
Qed.

Lemma overdrawn_agree ts ts' k :
  agree tk_extra (elements (lk_flights k)) ts ts' → overdrawn ts' k = overdrawn ts k.
Proof.
  intros Hag%ticketsOf_agree. unfold overdrawn. assert (owed ts' k = owed ts k) as ->; [| done].
  unfold owed, flights. revert Hag. generalize (ticketsOf ts' (elements (lk_flights k))) (ticketsOf ts (elements (lk_flights k))) (@nzero F _).
  induction l as [|x l IH]; intros [|y l'] z; simpl; try done. intros [= -> Hl]. by apply IH.
Qed.

(** A loop over tickets changes none but those it visits, and keeps what each
    step keeps. *)
Lemma fold_agree {B} (f : Ticket F → B) (g : gmap nat (Ticket F) → nat → gmap nat (Ticket F)) qs ts :
  (∀ ts p t, option_map f (g ts p !! t) = option_map f (ts !! t)) → ∀ ps, agree f ps ts (foldl g ts qs).
Proof.
  intros Hg ps t _. apply (foldl_keeps (λ ts', option_map f (ts' !! t) = option_map f (ts !! t))); [done |].
  intros ts' p H'. by rewrite Hg.
Qed.

Lemma tickMeter_keeps now ts p t :
  option_map (λ x : Ticket F, (tk_frozen x, tk_cancel x, tk_cancelled x)) (tickMeter o now ts p !! t) =
  option_map (λ x : Ticket F, (tk_frozen x, tk_cancel x, tk_cancelled x)) (ts !! t).
Proof.
  unfold tickMeter. destruct (ts !! p) as [x|] eqn:E; [| done]. case_match; [| done].
  destruct (decide (t = p)) as [->|]; [by rewrite lookup_insert_eq, E | by rewrite lookup_insert_ne].
Qed.

Lemma tickCancel_keeps ts p t :
  option_map (@tk_extra F) (tickCancel ts p !! t) = option_map (@tk_extra F) (ts !! t).
Proof.
  unfold tickCancel. destruct (ts !! p) as [x|] eqn:E; [| done]. case_match; [done |].
  destruct (decide (t = p)) as [->|]; [by rewrite lookup_insert_eq, E | by rewrite lookup_insert_ne].
Qed.

(** Cancelled, or not to be. *)
Definition settled (t : Ticket F) : Prop := tk_cancel t = true → tk_frozen t = true.

Lemma tickCancel_settles ps ts t x :
  foldl tickCancel ts ps !! t = Some x →
  ((∃ y, ts !! t = Some y ∧ settled y) ∨ t ∈ ps) → settled x.
Proof.
  revert ts. induction ps as [|p ps IH]; intros ts; simpl.
  - intros Hx [(y & Hy & Hs)|Hin%elem_of_nil]; [| done]. rewrite Hx in Hy. by injection Hy as ->.
  - intros Hx Hor. apply (IH _ Hx). unfold tickCancel. destruct (decide (t = p)) as [->|Hne].
    + destruct (ts !! p) as [y|] eqn:E.
      * left. destruct (tk_frozen y || negb (tk_cancel y)) eqn:Ef.
        { exists y. split; [done |]. intros Hc. rewrite Hc in Ef. by rewrite orb_false_r in Ef. }
        eexists. rewrite lookup_insert_eq. split; [done |]. by intros _.
      * destruct Hor as [(y & Hy & _)|Hin]; [congruence |]. exfalso. clear -Hx E.
        assert (option_map (@tk_extra F) (foldl tickCancel ts (p :: ps) !! p) = option_map (@tk_extra F) (ts !! p)) as Hsame
          by (apply (fold_agree (@tk_extra F) tickCancel (p :: ps) ts tickCancel_keeps [p]); by left).
        simpl in Hsame. rewrite Hx, E in Hsame. done.
    + destruct Hor as [(y & Hy & Hs)|Hin].
      * left. exists y. split; [| done]. destruct (ts !! p); [| done]. case_match; [done |]. by rewrite lookup_insert_ne.
      * apply elem_of_cons in Hin as [->|Hin]; [done |]. by right.
Qed.

(** What a tick leaves of one key's flights, from the heap ts0 it started on. *)
Definition tick_ok (ts0 : gmap nat (Ticket F)) (l : Limiter F) (p : nat) : Prop :=
  ∀ k t x, lm_kheap l !! p = Some k → t ∈ lk_flights k → lm_theap l !! t = Some x →
    (overdrawn (lm_theap l) k = true → settled x) ∧
    (overdrawn (lm_theap l) k = false → ∃ y, ts0 !! t = Some y ∧ tk_frozen x = tk_frozen y ∧ tk_cancelled x = tk_cancelled y).

Lemma tickKey_ok now ts0 l p :
  (∀ k t, lm_kheap l !! p = Some k → t ∈ lk_flights k → lm_theap l !! t = ts0 !! t) → tick_ok ts0 (tickKey o now l p) p.
Proof.
  intros H0 k t x. unfold tickKey. destruct (lm_kheap l !! p) as [k0|] eqn:Ek; [| congruence].
  specialize (H0 k0 t eq_refl). set (ts1 := foldl (tickMeter o now) (lm_theap l) (elements (lk_flights k0))).
  pose proof (fold_agree (λ x : Ticket F, (tk_frozen x, tk_cancel x, tk_cancelled x)) (tickMeter o now) (elements (lk_flights k0))
                (lm_theap l) (tickMeter_keeps now) [t] t ltac:(by left)) as Hm. fold ts1 in Hm.
  change (lm_theap (set_key (l <| lm_theap ::= λ ts, foldl (tickMeter o now) ts (elements (lk_flights k0)) |>) p (refill k0 now))) with ts1.
  destruct (overdrawn ts1 (refill k0 now)) eqn:Eo; simpl; rewrite lookup_insert_eq; intros [= <-] Hin.
  - fold ts1. set (ts2 := foldl tickCancel ts1 (elements (lk_flights k0))). intros Hx.
    assert (overdrawn ts2 (refill k0 now) = overdrawn ts1 (refill k0 now)) as Eo2
      by (apply overdrawn_agree; apply (fold_agree (@tk_extra F)); apply tickCancel_keeps).
    rewrite Eo2, Eo. split; [| done]. intros _. apply (tickCancel_settles _ _ _ _ Hx). right. by apply elem_of_elements.
  - fold ts1. rewrite Eo. intros Hx. split; [done |]. intros _. rewrite Hx in Hm. simpl in Hin. rewrite <- H0 by done.
    destruct (lm_theap l !! t) as [y|]; [| done]. injection Hm as ???. by exists y.
Qed.

Lemma fold_untouched (g : gmap nat (Ticket F) → nat → gmap nat (Ticket F)) qs ts t :
  (∀ ts p, p ≠ t → g ts p !! t = ts !! t) → t ∉ qs → foldl g ts qs !! t = ts !! t.
Proof.
  intros Hg. revert ts. induction qs as [|q qs IH]; intros ts; [done |]. intros [Hq Hqs]%not_elem_of_cons. simpl.
  rewrite IH by done. by apply Hg.
Qed.

(** A key's tick leaves the other keys and their tickets alone. *)
Lemma tickKey_other now l p q k t :
  limiter_wf l → p ≠ q → lm_kheap l !! q = Some k → t ∈ lk_flights k →
  lm_kheap (tickKey o now l p) !! q = Some k ∧ lm_theap (tickKey o now l p) !! t = lm_theap l !! t.
Proof.
  intros Hl Hne Hq Hin. unfold tickKey. destruct (lm_kheap l !! p) as [k0|] eqn:Ek; [| done].
  assert (t ∉ elements (lk_flights k0)) as Hnot.
  { intros Hp%elem_of_elements. destruct (wf_flights l Hl p k0 t Ek Hp) as (x & Hx & <-).
    destruct (wf_flights l Hl q k t Hq Hin) as (y & Hy & <-). congruence. }
  assert (foldl (tickMeter o now) (lm_theap l) (elements (lk_flights k0)) !! t = lm_theap l !! t) as Em.
  { apply fold_untouched; [| done]. intros ts x Hx. unfold tickMeter. destruct (ts !! x); [| done]. case_match; [by rewrite lookup_insert_ne | done]. }
  case_match; simpl; rewrite lookup_insert_ne by done; (split; [done |]); [done |].
  rewrite fold_untouched; [done | | done].
  intros ts x Hx. unfold tickCancel. destruct (ts !! x); [| done]. case_match; [done | by rewrite lookup_insert_ne].
Qed.

Lemma tickKey_kheap now l p q : is_Some (lm_kheap (tickKey o now l p) !! q) → is_Some (lm_kheap l !! q).
Proof.
  unfold tickKey. destruct (lm_kheap l !! p) as [k0|] eqn:Ek; [| done].
  case_match; simpl; (destruct (decide (q = p)) as [->|]; [by rewrite Ek | by rewrite lookup_insert_ne]).
Qed.

Lemma tickKeys_ok now ts0 l ps :
  limiter_wf l → NoDup ps →
  (∀ p k t, p ∈ ps → lm_kheap l !! p = Some k → t ∈ lk_flights k → lm_theap l !! t = ts0 !! t) →
  (∀ p, p ∈ ps → tick_ok ts0 (foldl (tickKey o now) l ps) p) ∧
  (∀ p, p ∉ ps → tick_ok ts0 l p → tick_ok ts0 (foldl (tickKey o now) l ps) p).
Proof.
  revert l. induction ps as [|q ps IH]; intros l Hl Hnd Hsame; simpl; [split; [set_solver | done] |].
  apply NoDup_cons in Hnd as [Hq Hnd].
  assert (∀ p k t, p ≠ q → lm_kheap (tickKey o now l q) !! p = Some k → t ∈ lk_flights k →
            lm_kheap l !! p = Some k ∧ lm_theap (tickKey o now l q) !! t = lm_theap l !! t) as Hback.
  { intros p k t Hne Hk Hin. destruct (tickKey_kheap now l q p ltac:(by eexists)) as [k1 Hk1].
    destruct (decide (lk_flights k1 = ∅)) as [Hemp|Hemp].
    - exfalso. revert Hk. unfold tickKey. destruct (lm_kheap l !! q); [| rewrite Hk1; intros [= <-]; set_solver].
      case_match; simpl; rewrite lookup_insert_ne, Hk1 by done; intros [= <-]; set_solver.
    - apply set_choose_L in Hemp as [t1 Ht1]. destruct (tickKey_other now l q p k1 t1 Hl ltac:(done) Hk1 Ht1) as [Hk2 _].
      rewrite Hk in Hk2. injection Hk2 as <-. by destruct (tickKey_other now l q p k t Hl ltac:(done) Hk1 Hin). }
  destruct (IH (tickKey o now l q) ltac:(by apply tickKey_wf) Hnd) as [IH1 IH2].
  { intros p k t Hp Hk Hin. destruct (Hback p k t ltac:(by intros ->) Hk Hin) as [Hk' ->]. apply (Hsame p k t); [by right | done | done]. }
  split.
  - intros p [->|Hp]%elem_of_cons; [| by apply IH1]. apply IH2; [done |]. apply tickKey_ok.
    intros k t Hk Hin. apply (Hsame q k t); [by left | done | done].
  - intros p [Hne Hnot]%not_elem_of_cons Hok. apply IH2; [done |]. intros k t x Hk Hin Hx.
    destruct (Hback p k t Hne Hk Hin) as [Hk' Et]. rewrite Et in Hx.
    assert (overdrawn (lm_theap (tickKey o now l q)) k = overdrawn (lm_theap l) k) as ->.
    { apply overdrawn_agree. intros t' Ht'%elem_of_elements. destruct (Hback p k t' Hne Hk Ht') as [_ ->]. done. }
    by apply (Hok k t x).
Qed.

(** a tick cancels exactly the clients it leaves overdrawn: every flight
    of a metered client whose buckets no longer cover what it owes is stopped
    if it can be (its cancel function is known), and no flight of any other
    client is touched in that way. *)
Theorem tick_cancels_overdrawn l now p k t x :
  limiter_wf l → p ∈ lm_active l →
  lm_kheap (tick o l now) !! p = Some k → t ∈ lk_flights k → lm_theap (tick o l now) !! t = Some x →
  (overdrawn (lm_theap (tick o l now)) k = true → tk_cancel x = true → tk_frozen x = true) ∧
  (overdrawn (lm_theap (tick o l now)) k = false →
     ∃ y, lm_theap l !! t = Some y ∧ tk_frozen x = tk_frozen y ∧ tk_cancelled x = tk_cancelled y).
Proof.
  intros Hl Hp. destruct (tickKeys_ok now (lm_theap l) l (elements (lm_active l)) Hl) as [Hok _];
    [apply NoDup_elements | done |].
  apply (Hok p). by apply elem_of_elements.
Qed.
End Tick.

(** ** A concrete limiter *)

(** One plan of ten credits a minute and no daily limit, four credits a
    simulation and twenty more for each second it runs. *)
Definition samplePlan : Plan Q :=
  mkPlan "free" (mkWindow 10%Q Minute) (mkWindow 0%Q 0) (mkCaps 0 0 0 false false).

Definition sampleOptions : LimiterOptions Q :=
  mkLimiterOptions {["free"%string := samplePlan]} ∅ "free" {["simulate"%string := 4%Q]} 20%Q DefaultEffortRates 1000 "".

Definition sampleIdentity : Identity := mkIdentity false "ip:10.0.0.9" "free".

Definition simulation : RequestClass := zeroClass <| rc_Simulate := true |>.

(** The limiter after some calls, each of which succeeds. *)
Definition after (ops : list (@limiterOp Q)) : option (Limiter Q) :=
  foldl (λ l op, l ≫= λ l, limiterStep sampleOptions l op) (Some NewLimiter) ops.

Lemma after_reachable ops l : after ops = Some l → limiter_reachable sampleOptions l.
Proof.
  unfold after. revert l. induction ops as [|op ops IH] using rev_ind; intros l; [intros [= <-]; constructor |].
  rewrite foldl_app. simpl. destruct (foldl _ _ ops) as [l1|]; [| done]. simpl. intros Hs. eapply reach_step; [by apply IH | done].
Qed.

Lemma after_wf ops l : after ops = Some l → limiter_wf l.
Proof.
  unfold after. revert l. induction ops as [|op ops IH] using rev_ind; intros l; [intros [= <-]; apply wf_new |].
  rewrite foldl_app. simpl. destruct (foldl _ _ ops) as [l1|]; [| done]. simpl. intros Hs.
  eapply limiterStep_wf; [by apply IH | done].
Qed.

(** One simulation admitted and tracked, at one second. *)
Definition oneFlight : Limiter Q :=
  default NewLimiter (after [OpAdmit Second sampleIdentity simulation 100; OpTrack 1]).

Definition twoFlights : Limiter Q :=
  default NewLimiter (after [OpAdmit Second sampleIdentity simulation 100; OpTrack 1; OpAdmit Second sampleIdentity simulation 100]).

Lemma limiter_consistent_witness :
  ∃ l, limiter_reachable sampleOptions l ∧ elements (lm_active l) = [0%nat] ∧ limiter_wf l.
Proof.
  exists twoFlights. assert (limiter_reachable sampleOptions twoFlights) as R
    by (apply (after_reachable [OpAdmit Second sampleIdentity simulation 100; OpTrack 1; OpAdmit Second sampleIdentity simulation 100]);
        vm_compute; reflexivity).
  split; [exact R | split; [vm_compute; reflexivity | exact (limiter_consistent sampleOptions _ R)]].
Defined.

(** The same plan in the program's arithmetic, with ten credits a day too. *)
Definition dailyPlan : Plan float64 :=
  mkPlan "free" (mkWindow (nofZ 10) Minute) (mkWindow (nofZ 10) (24 * Hour)) (mkCaps 0 0 0 false false).

Definition dailyOptions : LimiterOptions float64 :=
  mkLimiterOptions {["free"%string := dailyPlan]} ∅ "free" {["simulate"%string := nofZ 4]} (nofZ 20) DefaultEffortRates 1000 "".

(** One simulation admitted, and a second after it. *)
Definition onceAdmitted : Limiter float64 :=
  match Admit dailyOptions NewLimiter Second sampleIdentity simulation 100 with Some (l, _) => l | None => NewLimiter end.

Lemma onceAdmitted_wf : limiter_wf onceAdmitted.
Proof.
  unfold onceAdmitted. destruct (Admit _ _ _ _ _ _) as [[l r]|] eqn:E; [| apply wf_new]. eapply Admit_wf; [apply wf_new | exact E].
Qed.

Lemma Admit_decides_witness :
  ∃ l' r p k, Admit dailyOptions onceAdmitted (2 * Second) sampleIdentity simulation 100 = Some (l', r) ∧
    billed_key dailyOptions onceAdmitted sampleIdentity dailyPlan p k ∧
    admission onceAdmitted (2 * Second) simulation dailyPlan p k (Base (lo_Weights dailyOptions) simulation 100) l' r ∧
    is_ok r = true.
Proof.
  destruct (Admit_decides dailyOptions onceAdmitted (2 * Second) sampleIdentity simulation 100 dailyPlan) as (l' & r & p & k & E & Hk & Ha).
  - exact onceAdmitted_wf.
  - by vm_compute.
  - exists l', r, p, k. split_and!; [exact E | exact Hk | exact Ha |]. vm_compute in E. by injection E as <- <-.
Defined.

Lemma retry_after_honest_witness :
  ∃ l' d, Admit sampleOptions twoFlights Second sampleIdentity simulation 100 = Some (l', Err d) ∧ dn_RetryAfter d = 12 * Second ∧
  Second <= dn_RetryAfter d ∧
  ∀ l'' d', Admit sampleOptions l' (Second + dn_RetryAfter d) sampleIdentity simulation 100 = Some (l'', Err d') → dn_Status d' ≠ 429.
Proof.
  destruct (Admit sampleOptions twoFlights Second sampleIdentity simulation 100) as [[l' [t|d]]|] eqn:E;
    [vm_compute in E; discriminate E | | vm_compute in E; discriminate E].
  exists l', d. split; [done |]. assert (dn_Status d = 429 ∧ dn_RetryAfter d = 12 * Second) as [Es Er]
    by (vm_compute in E; injection E as _ <-; vm_compute; done).
  split; [done |].
  destruct (keyOf sampleOptions l' sampleIdentity samplePlan) as [k|] eqn:Ek;
    [| vm_compute in E; injection E as <- _; vm_compute in Ek; discriminate Ek].
  apply (retry_after_honest sampleOptions twoFlights Second sampleIdentity simulation 100 l' d samplePlan k).
  - apply (after_wf [OpAdmit Second sampleIdentity simulation 100; OpTrack 1; OpAdmit Second sampleIdentity simulation 100]).
    vm_compute. reflexivity.
  - vm_compute. reflexivity.
  - vm_compute. reflexivity.
  - exact E.
  - exact Es.
  - exact Ek.
  - vm_compute in E. injection E as <- _. vm_compute in Ek. injection Ek as <-. vm_compute. congruence.
  - vm_compute in E. injection E as <- _. vm_compute in Ek. injection Ek as <-. vm_compute. congruence.
  - vm_compute in E. injection E as <- _. vm_compute in Ek. injection Ek as <-.
    intros w level Hin Hlim. unfold windowsOf in Hin. rewrite !elem_of_cons in Hin. destruct Hin as [Hin|[Hin|Hin]];
      [injection Hin as -> ->; vm_compute; split; [congruence | split; congruence] |
       injection Hin as -> ->; vm_compute in Hlim; discriminate Hlim | by apply elem_of_nil in Hin].
Defined.

Lemma tick_cancels_overdrawn_witness :
  ∃ k x, lm_kheap (tick sampleOptions oneFlight (100 * Second)) !! 0%nat = Some k ∧
    lm_theap (tick sampleOptions oneFlight (100 * Second)) !! 1%nat = Some x ∧
    overdrawn (lm_theap (tick sampleOptions oneFlight (100 * Second))) k = true ∧ tk_frozen x = true.
Proof.
  destruct (lm_kheap (tick sampleOptions oneFlight (100 * Second)) !! 0%nat) as [k|] eqn:Ek; [| vm_compute in Ek; discriminate Ek].
  destruct (lm_theap (tick sampleOptions oneFlight (100 * Second)) !! 1%nat) as [x|] eqn:Ex; [| vm_compute in Ex; discriminate Ex].
  exists k, x. split; [done |]. split; [done |].
  assert (overdrawn (lm_theap (tick sampleOptions oneFlight (100 * Second))) k = true) as Eo
    by (vm_compute in Ek; injection Ek as <-; vm_compute; reflexivity).
  split; [exact Eo |].
  apply (tick_cancels_overdrawn sampleOptions oneFlight (100 * Second) 0 k 1 x).
  - apply (after_wf [OpAdmit Second sampleIdentity simulation 100; OpTrack 1]). vm_compute. reflexivity.
  - apply elem_of_elements. vm_compute. left.
  - exact Ek.
  - vm_compute in Ek. injection Ek as <-. apply elem_of_elements. vm_compute. left.
  - exact Ex.
  - exact Eo.
  - vm_compute in Ex. injection Ex as <-. vm_compute. reflexivity.
Defined.
