(* ===== verification/Prog.v ===== *)
(** * Prog: programs that call their environment

    A request handler reads clocks and contexts, asks the directory, sends
    requests and writes to its client; what comes back is not the handler's
    to decide.  A [prog A] is such a handler as data: a tree whose nodes are
    calls, each with one branch per possible answer, and whose leaves are a
    result or a panic.  [runs m t x] says that m can make the calls t (each
    with the answer it got) and end with x, None being a panic; a theorem
    over all runs holds whatever the environment does and however other
    requests interleave.  [exec] runs a program against one environment, so
    that a concrete run is computed. *)
From S2P Require Import Prelude.

Section Prog.
Context {Act : Type} {Resp : Act → Type}.

(** A call and its answer. *)
Abbreviation event := (sigT Resp).
Abbreviation trace := (list event).

Inductive prog (A : Type) : Type :=
  | Ret (a : A)
  | Crash
  | Call (a : Act) (k : Resp a → prog A).
Arguments Ret {A} a.
Arguments Crash {A}.
Arguments Call {A} a k.

Fixpoint bind {A B} (f : A → prog B) (m : prog A) : prog B :=
  match m with
  | Ret a => f a
  | Crash => Crash
  | Call a k => Call a (λ r, bind f (k r))
  end.

(** Go's defer: d runs when m has returned and when it panicked. *)
Fixpoint finally {A} (m : prog A) (d : prog ()) : prog A :=
  match m with
  | Ret a => bind (λ _, Ret a) d
  | Crash => bind (λ _, Crash) d
  | Call a k => Call a (λ r, finally (k r) d)
  end.

Fixpoint runs {A} (m : prog A) (t : trace) (x : option A) : Prop :=
  match m with
  | Ret a => t = [] ∧ x = Some a
  | Crash => t = [] ∧ x = None
  | Call a k => ∃ r t', t = existT a r :: t' ∧ runs (k r) t' x
  end.

(** One environment: the answer to a call, given the calls before it. *)
Definition env : Type := trace → ∀ a : Act, Resp a.

Fixpoint exec {A} (e : env) (h : trace) (m : prog A) : trace * option A :=
  match m with
  | Ret a => ([], Some a)
  | Crash => ([], None)
  | Call a k =>
      let r := e h a in
      let '(t, x) := exec e (h ++ [existT a r]) (k r) in
      (existT a r :: t, x)
  end.

Lemma exec_runs {A} e (m : prog A) h : runs m (exec e h m).1 (exec e h m).2.
Proof.
  revert h. induction m as [a| |a k IH]; intros h; simpl; [done | done |].
  specialize (IH (e h a) (h ++ [existT a (e h a)])). destruct (exec e _ _) as [t x]. by exists (e h a), t.
Qed.

(** Every program has a run: it never gets stuck and it always ends. *)
Lemma runs_total {A} (e : env) (m : prog A) : ∃ t x, runs m t x.
Proof. eexists _, _. apply (exec_runs e m []). Qed.

Lemma runs_bind {A B} (f : A → prog B) (m : prog A) t x :
  runs (bind f m) t x ↔
  (∃ t1 t2 a, t = t1 ++ t2 ∧ runs m t1 (Some a) ∧ runs (f a) t2 x) ∨ (runs m t None ∧ x = None).
Proof.
  revert t. induction m as [a| |a k IH]; intros t; simpl.
  - split.
    + intros H. left. by exists [], t, a.
    + by intros [(t1 & t2 & b & -> & [-> [= ->]] & Hr)|[[_ Hx] _]].
  - split.
    + intros [-> ->]. by right.
    + by intros [(? & ? & ? & _ & [_ ?] & _)|[[-> _] ->]].
  - split.
    + intros (r & t' & -> & H). apply IH in H as [(t1 & t2 & b & -> & H1 & H2)|[H1 ->]].
      * left. exists (existT a r :: t1), t2, b. split; [done |]. eauto.
      * right. eauto.
    + intros [(t1 & t2 & b & -> & (r & t' & -> & H1) & H2)|[(r & t' & -> & H) ->]]; exists r.
      * exists (t' ++ t2). split; [done |]. apply IH. left. eauto 10.
      * exists t'. split; [done |]. apply IH. by right.
Qed.

Lemma runs_finally {A} (m : prog A) d t x :
  runs (finally m d) t x ↔
  ∃ t1 t2 y z, t = t1 ++ t2 ∧ runs m t1 y ∧ runs d t2 z ∧ x = match z with Some _ => y | None => None end.
Proof.
  revert t. induction m as [a| |a k IH]; intros t; simpl.
  - rewrite runs_bind. split.
    + intros [(t1 & t2 & [] & -> & H1 & -> & ->)|[H1 ->]].
      * exists [], t1, (Some a), (Some ()). by rewrite app_nil_r.
      * by exists [], t, (Some a), None.
    + intros (? & t2 & y & [[]|] & -> & [-> ->] & H & ->); [left | by right].
      exists t2, [], (). by rewrite app_nil_r.
  - rewrite runs_bind. split.
    + intros [(t1 & t2 & [] & -> & H1 & -> & ->)|[H1 ->]].
      * exists [], t1, None, (Some ()). by rewrite app_nil_r.
      * by exists [], t, None, None.
    + intros (? & t2 & y & [[]|] & -> & [-> ->] & H & ->); [left | by right].
      exists t2, [], (). by rewrite app_nil_r.
  - split.
    + intros (r & t' & -> & (t1 & t2 & y & z & -> & H1 & H2 & ->)%IH).
      exists (existT a r :: t1), t2, y, z. repeat (split; [done || eauto |]). done.
    + intros (t1 & t2 & y & z & -> & (r & t' & -> & H1) & H2 & ->).
      exists r, (t' ++ t2). split; [done |]. apply IH. eauto 10.
Qed.

(** ** What holds of every run *)
Definition always {A} (m : prog A) (P : trace → option A → Prop) : Prop := ∀ t x, runs m t x → P t x.

Lemma always_weaken {A} (m : prog A) (P Q : trace → option A → Prop) :
  always m P → (∀ t x, P t x → Q t x) → always m Q.
Proof. unfold always. eauto. Qed.

Lemma always_and {A} (m : prog A) (P Q : trace → option A → Prop) :
  always m P → always m Q → always m (λ t x, P t x ∧ Q t x).
Proof. unfold always. eauto. Qed.

Lemma always_ret {A} (a : A) (P : trace → option A → Prop) : P [] (Some a) → always (Ret a) P.
Proof. by intros H t x [-> ->]. Qed.

Lemma always_crash {A} (P : trace → option A → Prop) : P [] None → always Crash P.
Proof. by intros H t x [-> ->]. Qed.

Lemma always_call {A} a (k : Resp a → prog A) (P : trace → option A → Prop) :
  (∀ r, always (k r) (λ t x, P (existT a r :: t) x)) → always (Call a k) P.
Proof. intros H t x (r & t' & -> & H'). by apply H. Qed.

Lemma always_bind {A B} (f : A → prog B) (m : prog A) (P : trace → option B → Prop) :
  always m (λ t x, match x with
                   | Some a => always (f a) (λ t' y, P (t ++ t') y)
                   | None => P t None
                   end) → always (bind f m) P.
Proof.
  intros H t x [(t1 & t2 & a & -> & H1 & H2)|[H1 ->]]%runs_bind; [by apply (H _ _ H1) | apply (H _ _ H1)].
Qed.

Lemma always_finally {A} (m : prog A) d (P : trace → option A → Prop) :
  always m (λ t x, always d (λ t' z, P (t ++ t') match z with Some _ => x | None => None end)) → always (finally m d) P.
Proof. intros H t x (t1 & t2 & y & z & -> & H1 & H2 & ->)%runs_finally. by apply H. Qed.
End Prog.
Arguments env {Act} Resp.
Arguments Ret {Act Resp A} a.
Arguments Crash {Act Resp A}.
Arguments Call {Act Resp A} a k.
Arguments prog {Act} Resp A.
