(* ===== verification/Http.v ===== *)
(** * Http: requests, answers, and the calls a request handler makes

    The values of [net/http] the program touches, and [Act]: every call by
    which a handler of internal/app/router.go learns something from outside
    (the clock, its contexts, the directory, the network) or acts on
    something shared (the client's connection, the statistics, the pins, the
    limiter).  A header map is keyed by canonical name, each name spelled
    here as the code spells it. *)
From S2P Require Import Prelude GoFloat GoTime Types Classify Eligible Billing Effort Ports Limiter Prog.
Open Scope Z_scope.

(** ** Headers *)
Abbreviation Header := (gmap string (list string)).

Definition hvalues (h : Header) (k : string) : list string := default [] (h !! k).
Definition hget (h : Header) (k : string) : string := match hvalues h k with v :: _ => v | [] => "" end.
Definition hset (h : Header) (k v : string) : Header := <[k := [v]]> h.
Definition hadd (h : Header) (k v : string) : Header := <[k := hvalues h k ++ [v]]> h.
Definition hdel (h : Header) (k : string) : Header := delete k h.

(** ** Requests *)

(** A request body: absent (nil or http.NoBody), or a stream of bytes that
    ends in EOF or in an error. *)
Record ReqBody := mkBody { rb_none : bool; rb_data : string; rb_fails : bool }.

Definition noBody : ReqBody := mkBody true "" false.

(** io.NopCloser(bytes.NewReader(data)). *)
Definition bytesBody (data : string) : ReqBody := mkBody false data false.

Record Request := mkRequest {
  rq_Method : string;
  rq_Path : string;
  rq_RawQuery : string;
  rq_RequestURI : string;
  rq_Header : Header;
  rq_RemoteAddr : string;
  rq_Body : ReqBody;
  rq_ContentLength : Z;
  rq_Served : bool        (* it came in through an http.Server *)
}.

(** io.ReadAll(io.LimitReader(body, limit)): the bytes, or an error after
    them. *)
Definition readAll (b : ReqBody) (limit : Z) : string * bool :=
  if rb_none b then (""%string, false)
  else if limit <=? Z.of_nat (String.length (rb_data b)) then (String.substring 0 (Z.to_nat limit) (rb_data b), false)
  else (rb_data b, rb_fails b).

(** ** What a handler writes to its client *)
Inductive Payload :=
  | PMessage (msg : string)                       (* {"message": msg} *)
  | PDenial (m : DenialMessage (F := float64))
  | PLimits (r : FleetSimulateLimitsReply)
  | PHealth (best : Z)                            (* {"status": "ok", "best_round": best} *)
  | PUpstreams (us : list Upstream)
  | PStatus (role : string) (best : Z) (us : list Upstream)
  | PMetrics
  | PBytes (b : string).

(** One use of the ResponseWriter. *)
Inductive WriteOp :=
  | WSet (k v : string)              (* w.Header().Set *)
  | WAdd (k v : string)              (* w.Header().Add *)
  | WPut (k : string) (vs : list string) (* w.Header()[k] = vs *)
  | WCopy (h : Header)               (* copyHeader(w.Header(), h) *)
  | WClear                           (* clear(w.Header()) *)
  | WHead (code : Z)                 (* w.WriteHeader *)
  | WBody (p : Payload).             (* w.Write *)

(** ** What an upstream answers *)
Record Response := mkResponse { rs_StatusCode : Z; rs_Header : Header }.

(** One exchange with an upstream through the reverse proxy: the
    informational statuses it sent first, its answer or the transport's
    error, and what is left of the request's body. *)
Record Exchange := mkExchange {
  xc_Interim : list (Z * Header);
  xc_Result : result failure Response;
  xc_Rest : ReqBody
}.

(** One upstream's buffered answer to a fanned-out request. *)
Record fanResult := mkFan {
  fan_u : Upstream;
  fan_resp : option Response;
  fan_body : string;
  fan_err : option failure
}.

(** A status fetch as its waiters see it. *)
Record statusFetch := mkFetch {
  sf_want : Z;
  sf_round : Z;
  sf_upstream : option Upstream;
  sf_body : string;
  sf_err : option failure
}.

(** A select: a result came in, the grace period ended, the client left. *)
Inductive Selected := GotResult (i : nat) (r : fanResult) | GotGrace | GotGone.

(** ** The calls *)
Inductive Act :=
  | ANow                                              (* clock.Now *)
  | AGone                                             (* req.Context().Err() != nil: the client left *)
  | AQuota                                            (* the limiter cancelled the request *)
  | ACtxErr                                           (* ctx.Err() != nil, ctx bounding the request *)
  | AUntil                                            (* time.Until(ctx's deadline), when it has one *)
  | AInflight (delta : Z)                             (* r.inflight.Add *)
  | ADraining                                         (* r.draining.Load *)
  | ASnapshot                                         (* dir.Snapshot *)
  | ACheckExternals                                   (* dir.checkExternals *)
  | AHeartbeatRound                                   (* dir.HeartbeatRound *)
  | AWaitHeartbeat (after : Z)                        (* dir.WaitForHeartbeatRound: a round, and whether it timed out *)
  | AWaitLocal (after : Z)                            (* monitor.WaitForBlockAfter: the body, nil when there is none *)
  | ARnd                                              (* the random source, at this moment *)
  | ABegin (id : string)                              (* stats.Begin *)
  | AFinish (id : string)                             (* the func Begin returned *)
  | ARecord (id key : string) (out : Outcome)         (* stats.Record *)
  | ABusy (id : string) (d : Duration)                (* stats.Busy *)
  | ARemember (txid upstream : string)                (* pins.remember *)
  | ARecall (txid : string)                           (* pins.recall *)
  | AExchange (url token : string) (h : Header) (b : ReqBody) (* one exchange through the reverse proxy *)
  | ACopyBody                                         (* the answer's body: what was copied, and whether it was all *)
  | AGet (url token ctype : string) (b : string)      (* httpc.Do and the body it read *)
  | AFanOut (us : list Upstream)                      (* the goroutines of fanOut are started *)
  | ARecv                                             (* a result of theirs, with its target's position *)
  | ASelect (grace : bool)                            (* pending's select; the grace timer is armed *)
  | AStatusAt (round : Z)                             (* r.statusAt *)
  | AAdmit (id : Identity) (class : RequestClass) (best : Z) (* limiter.Admit *)
  | ATrack (t : nat)
  | AReported (t : nat) (e : Effort)
  | AExhausted (t : nat)
  | AResponding (t : nat) (status : Z) (retryAfter : string) (* the headers it adds *)
  | ADone (t : nat)
  | AOnHeader (t : nat) (client : string)             (* sw.onHeader, sw.client = ... *)
  | AWrite (w : WriteOp).                             (* one use of the ResponseWriter *)

Definition Resp (a : Act) : Type :=
  match a with
  | ANow => Time
  | AGone | AQuota | ACtxErr | ADraining | ACheckExternals => bool
  | AUntil => option Duration
  | ASnapshot => list Upstream * Z
  | AHeartbeatRound => Z
  | AWaitHeartbeat _ => Z * bool
  | AWaitLocal _ => option string
  | ARnd => option Z
  | ARecall _ => option string
  | AExchange _ _ _ _ => Exchange
  | ACopyBody => string * bool
  | AGet _ _ _ _ => option Response * string * option failure
  | ARecv => nat * fanResult
  | ASelect _ => Selected
  | AStatusAt _ => statusFetch
  | AAdmit _ _ _ => result (Denial float64) nat
  | AExhausted _ => Denial float64
  | AResponding _ _ _ => list (string * string)
  | _ => ()
  end.

(** A handler's run, call by call. *)
Abbreviation Event := (sigT Resp).
Abbreviation Trace := (list (sigT Resp)).

(** The monad of handlers. *)
Definition M : Type → Type := prog Resp.
Definition andThen {A B} (m : M A) (f : A → M B) : M B := bind f m.
Notation "'let*' x := m 'in' k" := (andThen m (λ x, k))
  (at level 10, x binder, m at level 200, k at level 200, format "'[v' 'let*'  x  :=  m  'in' '/' k ']'").
Notation "m ;; k" := (andThen m (λ _ : (), k)) (at level 100, k at level 200, right associativity) : mesh_scope.

Definition ret {A} (a : A) : M A := Ret a.
Definition crash {A} : M A := Crash.
Definition ask (a : Act) : M (Resp a) := Call a Ret.
Definition tell (a : Act) : M () := Call a (λ _, Ret ()).
Definition write (w : WriteOp) : M () := tell (AWrite w).

Definition gone : M bool := ask AGone.
Definition quotaExceeded : M bool := ask AQuota.
Definition ctxErr : M bool := ask ACtxErr.
Definition until : M (option Duration) := ask AUntil.
Definition snapshot : M (list Upstream * Z) := ask ASnapshot.
Definition checkExternals : M bool := ask ACheckExternals.
Definition now : M Time := ask ANow.

(** writeJSON and writeMessage. *)
Definition writeJSON (code : Z) (p : Payload) : M () :=
  write (WSet "Content-Type" "application/json");; write (WHead code);; write (WBody p).

Definition writeMessage (code : Z) (msg : string) : M () := writeJSON code (PMessage msg).
