(* ===== verification/Proxy.v ===== *)
(** * Proxy: one request to one upstream (internal/adapters/proxy/proxy.go)

    [Forward] sends a request through [httputil.ReverseProxy] and streams the
    answer back, except for the statuses the caller wants withheld.  Of the
    library, this file has what it does to the headers of the request and of
    the answer (hop-by-hop ones, those the Connection header names, the
    forwarding ones, an upgrade's) and to the run: informational answers are
    relayed as they come, the answer's headers and status are written once
    [ModifyResponse] accepts it, and a copy that fails midway aborts the handler
    with [http.ErrAbortHandler] when the request came through a server.  The
    request's method, path and query go with the call ([SetURL]) and are not
    written out; trailers, flushes, and the connection that a 101 answer hands
    over are not modelled. *)
From S2P Require Import Prelude GoStrings GoNet GoTime Ports Prog Http.
From stdpp Require Import pretty.
From Stdlib Require Import Ascii.
Open Scope Z_scope.
Open Scope mesh_scope.

(** strconv.Atoi; None is an error. *)
Definition Atoi (s : string) : option Z :=
  match s with
  | String a s' =>
      if Ascii.eqb a "-" then n ← parse_uint s'; if n <=? two63 then Some (- n) else None
      else n ← parse_uint (trim_prefix "+" s); if n <=? MaxInt64 then Some n else None
  | EmptyString => None
  end.

Definition retryAfter (v : string) : Duration :=
  match Atoi (trim_space v) with
  | Some n => if n <=? 0 then 0 else wi64 (n * Second)
  | None => 0
  end.

(** Where the forwarder sends one request. *)
Record Target := mkTarget {
  tg_BaseURL : string;
  tg_Token : string;
  tg_RetryStatus : list Z;
  tg_PassStatus : list Z;
  tg_OnResponse : option (Z → Header → M Header)
}.

Definition RetryableStatus : list Z := [502; 503; 504].

Definition listed (l : list Z) (status : Z) : bool := bool_decide (status ∈ l).

(** Whether an answer is kept from the client. *)
Definition withheld (t : Target) (status : Z) : bool :=
  (listed RetryableStatus status || listed (tg_RetryStatus t) status) && negb (listed (tg_PassStatus t) status).

(** ** Headers through the ReverseProxy *)

Definition lower (a : ascii) : ascii :=
  let n := N_of_ascii a in if ((65 <=? n) && (n <=? 90))%N then ascii_of_N (n + 32) else a.

Fixpoint to_lower (s : string) : string :=
  match s with String a s => String (lower a) (to_lower s) | EmptyString => "" end.

(** textproto's validHeaderFieldByte: the bytes of a token. *)
Definition token_byte (a : ascii) : bool :=
  is_alpha a || isSome (digit a) || existsb (Ascii.eqb a) (String.list_ascii_of_string "!#$%&'*+-.^_`|~").

Fixpoint canonical (up : bool) (s : string) : string :=
  match s with
  | String a s => String (if up then upper a else lower a) (canonical (Ascii.eqb a "-") s)
  | EmptyString => ""
  end.

(** textproto.CanonicalMIMEHeaderKey. *)
Definition CanonicalHeaderKey (s : string) : string := if all_bytes token_byte s then canonical true s else s.

(** The key a name has in a [Header], which spells the names the code uses as
    the code does. *)
Definition headerKey (s : string) : string :=
  let k := CanonicalHeaderKey s in
  default k (List.find (λ n, CanonicalHeaderKey n =s k) ["X-Algo-API-Token"; "RateLimit"; "RateLimit-Policy"]%string).

(** The parts of comma-separated values, trimmed. *)
Definition parts (vs : list string) : list string := trim_space <$> (vs ≫= split_on ",").

(** httpguts.HeaderValuesContainsToken, for a token in lower case. *)
Definition hasToken (vs : list string) (token : string) : bool := existsb (λ p, to_lower p =s token) (parts vs).

Definition hopByHop : list string :=
  ["Connection"; "Proxy-Connection"; "Keep-Alive"; "Proxy-Authenticate"; "Proxy-Authorization"; "Te"; "Trailer";
   "Transfer-Encoding"; "Upgrade"]%string.

Definition removeHopByHopHeaders (h : Header) : Header :=
  foldl hdel (foldl (λ h f, if f =s "" then h else hdel h (headerKey f)) h (parts (hvalues h "Connection"))) hopByHop.

Definition upgradeType (h : Header) : string := if hasToken (hvalues h "Connection") "upgrade" then hget h "Upgrade" else "".

Definition IsPrint (s : string) : bool := all_bytes (λ a, let n := N_of_ascii a in (32 <=? n) && (n <=? 126))%N s.

(** The outgoing request's headers before Rewrite. *)
Definition outgoing (h : Header) : Header :=
  let up := upgradeType h in
  let out := removeHopByHopHeaders h in
  let out := if hasToken (hvalues h "Te") "trailers" then hset out "Te" "trailers" else out in
  let out := if up <>s "" then hset (hset out "Connection" "Upgrade") "Upgrade" up else out in
  foldl hdel out ["Forwarded"; "X-Forwarded-For"; "X-Forwarded-Host"; "X-Forwarded-Proto"]%string.

(** The headers sent: Rewrite's, and no User-Agent of the library's. *)
Definition rewritten (t : Target) (h : Header) : Header :=
  let h := hdel (hset (outgoing h) "X-Algo-API-Token" (tg_Token t)) "X-Forwarded-For" in
  if isSome (h !! "User-Agent"%string) then h else hset h "User-Agent" "".

(** Why nothing is sent: the base URL does not parse, or the client asks for
    an upgrade to an unprintable protocol. *)
Definition unsendable (req : Request) (t : Target) : option failure :=
  match url_host (tg_BaseURL t) with
  | None => Some (mkFailure "parse" false)
  | Some _ =>
      if IsPrint (upgradeType (rq_Header req)) then None
      else Some (mkFailure "client tried to switch to invalid protocol" false)
  end.

Definition upstreamRejected (status : Z) : failure := mkFailure ("upstream status " +:+ pretty status) false.

(** The informational answers (the transport reports a status from 100 to 199
    other than 101 as one): headers and status, then a clean header map. *)
Definition informational (code : Z) : bool := (100 <=? code) && (code <=? 199) && negb (code =? 101).

Fixpoint relayInterim (l : list (Z * Header)) : M () :=
  match l with
  | [] => ret ()
  | (code, h) :: l =>
      (if informational code then write (WCopy h);; write (WHead code);; write WClear else ret ());;
      relayInterim l
  end.

(** The answer the upstream gave: streamed to the client, or withheld. *)
Definition answered (req : Request) (t : Target) (r : Response) : M (Z * Duration * option failure * bool) :=
  let status := rs_StatusCode r in
  let h := if status =? 101 then rs_Header r else removeHopByHopHeaders (rs_Header r) in
  let ra := retryAfter (hget h "Retry-After") in
  let* h := match tg_OnResponse t with Some f => f status h | None => ret h end in
  if withheld t status then ret (status, ra, Some (upstreamRejected status), false)
  else
    write (WCopy h);; write (WHead status);;
    let* '(sent, whole) := ask ACopyBody in
    write (WBody (PBytes sent));;
    if whole || negb (rq_Served req) then ret (status, ra, None, true) else crash.

(** The outcome, and what is left of the request's body. *)
Definition Forward (req : Request) (t : Target) : M (Outcome * ReqBody) :=
  let* start := now in
  match unsendable req t with
  | Some e =>
      let* finish := now in
      ret (mkOutcome 0 (Some e) false (time_sub finish start) 0, rq_Body req)
  | None =>
      let* x := ask (AExchange (tg_BaseURL t) (tg_Token t) (rewritten t (rq_Header req)) (rq_Body req)) in
      relayInterim (xc_Interim x);;
      let* '(status, ra, err, streamed) :=
        match xc_Result x with
        | Ok r => answered req t r
        | Err e => ret (0, 0, Some e, false)
        end in
      let* finish := now in
      let wrote := streamed || existsb (λ e, informational e.1) (xc_Interim x) in
      ret (mkOutcome status err wrote (time_sub finish start) ra, if rb_none (rq_Body req) then rq_Body req else xc_Rest x)
  end.
