(* ===== verification/Auth.v ===== *)
(** * Auth: who a request is, and whether it may proceed
    (Router.authorize and clientIP of internal/app/router.go, Identify and
    clientKey of internal/app/ratelimit.go)

    A client is its configured token, or its address.  Addresses are those of
    [net/netip]: four or sixteen bytes, the IPv4-mapped ones unmapped, zones
    dropped.  SHA-256 is a parameter. *)
From S2P Require Import Prelude GoStrings GoNet Types Classify Limiter Http.
From stdpp Require Import pretty.
From Stdlib Require Import Ascii.
Open Scope Z_scope.

(** ** Addresses *)
Inductive Addr := V4 (b : list Z) | V6 (b : list Z).

(** netip.ParseAddr(s), then Unmap and WithZone(""). *)
Definition ParseAddr (s : string) : option Addr :=
  match addr_kind s with
  | Some a =>
      if Ascii.eqb a "." then V4 <$> parse_ipv4 s
      else if Ascii.eqb a ":" then
        let '(host, zone, found) := cut "%" s in
        if found && (zone =s "") then None
        else ip ← parse_ipv6 host;
             Some (match To4 ip with Some b => V4 b | None => V6 ip end)
      else None
  | None => None
  end.

Definition parseAddr (s : string) : option Addr :=
  ParseAddr (match SplitHostPort s with Some (host, _) => host | None => s end).

Definition Addr_String (a : Addr) : string :=
  match a with V4 b => ipv4_string b | V6 b => ipv6_string b end.

(** A prefix: an address with how many of its bits count. *)
Record Prefix := mkPrefix { px_addr : Addr; px_bits : Z }.

Definition addr_bytes (a : Addr) : list Z := match a with V4 b | V6 b => b end.
Definition same_family (a b : Addr) : bool :=
  match a, b with V4 _, V4 _ | V6 _, V6 _ => true | _, _ => false end.

(** The address as a number, and the bits of it a prefix keeps. *)
Definition be_num (b : list Z) : Z := foldl (λ acc x, acc * 256 + x) 0 b.
Definition kept (bits : Z) (b : list Z) : Z := Z.shiftr (be_num b) (8 * Z.of_nat (length b) - bits).

Definition Contains (p : Prefix) (a : Addr) : bool :=
  same_family (px_addr p) a && (kept (px_bits p) (addr_bytes (px_addr p)) =? kept (px_bits p) (addr_bytes a)).

(** The bytes with every bit past the first n cleared. *)
Fixpoint mask_bytes (n : Z) (b : list Z) : list Z :=
  match b with
  | [] => []
  | x :: b => (if 8 <=? n then x else if n <=? 0 then 0 else Z.shiftl (Z.shiftr x (8 - n)) (8 - n)) :: mask_bytes (n - 8) b
  end.

(** addr.Prefix(bits).String(), for an IPv6 address; None: bits is out of range. *)
Definition prefix_string (bits : Z) (b : list Z) : option string :=
  if (bits <? 0) || (128 <? bits) then None
  else Some (ipv6_string (mask_bytes bits b) +:+ "/" +:+ pretty bits).

(** ** Identify *)
Record IdentifyOptions := mkIdentify {
  io_Tokens : list LimitToken;
  io_AnonymousPlan : string;
  io_TrustedProxies : list Prefix;
  io_IPv6Prefix : Z
}.

Definition loopbackAddr : string := "loopback".
Definition exempt : Identity := mkIdentity true "" "".

Section Identify.
Context (sha256 : string → string) (o : IdentifyOptions).

Definition trusted (a : Addr) : bool := existsb (λ p, Contains p a) (io_TrustedProxies o).

(** The loop over the X-Forwarded-For entries, last first. *)
Fixpoint walkHops (hops : list string) (addr : Addr) : Addr :=
  match hops with
  | [] => addr
  | h :: hops =>
      match parseAddr (trim_space h) with
      | None => addr
      | Some hop => if trusted hop then walkHops hops hop else hop
      end
  end.

Definition clientAddr (addr : Addr) (xff : list string) : Addr :=
  if trusted addr then walkHops (reverse (split_on "," (GoStrings.join "," xff))) addr else addr.

Definition addrKey (addr : Addr) : string :=
  match addr with
  | V6 b => default (Addr_String addr) (prefix_string (io_IPv6Prefix o) b)
  | V4 _ => Addr_String addr
  end.

Definition clientKey (req : Request) : string :=
  match parseAddr (rq_RemoteAddr req) with
  | None => rq_RemoteAddr req
  | Some addr => addrKey (clientAddr addr (hvalues (rq_Header req) "X-Forwarded-For"))
  end.

(** l.tokens[sha256.Sum256(token)]: the map NewLimiter filled in order. *)
Definition findToken (token : string) : option LimitToken :=
  List.find (λ t, sha256 (lt_Token t) =s sha256 token) (reverse (io_Tokens o)).

Definition Identify (req : Request) (token : string) : option Identity :=
  if rq_RemoteAddr req =s loopbackAddr then Some exempt
  else if token =s "" then
    if io_AnonymousPlan o =s "" then None
    else Some (mkIdentity false ("ip:" +:+ clientKey req) (io_AnonymousPlan o))
  else
    t ← findToken token;
    Some (mkIdentity false ("token:" +:+ lt_Name t) (lt_Plan t)).
End Identify.

(** ** clientIP, for the log *)
Definition trim_prefix_str (p s : string) : string := if has_prefix p s then str_drop (String.length p) s else s.

Definition clientIP (req : Request) : string :=
  let ip := trim_space (cut "," (hget (rq_Header req) "X-Forwarded-For")).1.1 in
  let ip := if ip =s "" then trim_space (hget (rq_Header req) "X-Real-IP") else ip in
  let ip := if ip =s "" then
              match SplitHostPort (rq_RemoteAddr req) with Some (host, _) => host | None => rq_RemoteAddr req end
            else ip in
  trim_prefix_str "::ffff:" ip.

(** ** authorize *)
Record AuthOptions := mkAuth {
  au_ClientToken : string;
  au_AdminToken : string;
  au_limiter : option IdentifyOptions   (* nil without rate limits *)
}.

(** A constant-time comparison: equality. *)
Definition tokenEqual (got want : string) : bool := got =s want.

Definition isHealth (req : Request) (class : RequestClass) : bool :=
  rc_Agent class && (trim_suffix "/" (rq_Path req) =s "/mesh/health").

(** What authorize decides: the identity billed, or the status refused with. *)
Inductive Verdict := Allowed (id : Identity) | Refused (code : Z) (msg : string).

Definition noAdminToken : string := "algod-mesh: /mesh endpoints need an admin token, and none is configured".
Definition invalidToken : string := "Invalid API Token".

Definition authorize (sha256 : string → string) (o : AuthOptions) (req : Request) (class : RequestClass) : Verdict :=
  let tok := hget (rq_Header req) "X-Algo-API-Token" in
  let admin := (au_AdminToken o <>s "") && tokenEqual tok (au_AdminToken o) in
  if admin || isHealth req class then Allowed exempt
  else if rc_Agent class && (au_AdminToken o =s "") && (au_ClientToken o =s "") && isNone (au_limiter o)
  then Allowed exempt
  else if rc_Agent class && (au_AdminToken o =s "") then Refused 403 noAdminToken
  else if rc_Agent class then Refused 401 invalidToken
  else match au_limiter o with
       | Some l =>
           match Identify sha256 l req tok with
           | Some id => Allowed id
           | None => Refused 401 invalidToken
           end
       | None =>
           if (au_ClientToken o =s "") || tokenEqual tok (au_ClientToken o) then Allowed exempt
           else Refused 401 invalidToken
       end.
