(* ===== verification/RateConfig.v ===== *)
(** * RateConfig: the rate limits of a configuration
    (type RateLimit of internal/config/config.go)

    [finish] applies the defaults and validates; [RateFinished] is what it
    promises.  Maps are ranged over in an order the language leaves open,
    which is a parameter ([MapOrder]); files are the environment's, a function
    from paths to contents.  An error is the code's text without the values it
    quotes. *)
From S2P Require Import Prelude GoFloat GoStrings GoNet Types Classify Effort Billing Limiter Auth.
From Stdlib Require Import Ascii SpecFloat.
Open Scope Z_scope.

(** The order a [range] over a map visits its entries in. *)
Record MapOrder := mkMapOrder {
  range {A} (m : gmap string A) : list (string * A);
  range_perm {A} (m : gmap string A) : range m ≡ₚ map_to_list m
}.

(** What os.ReadFile can fail with, as far as the code looks. *)
Inductive readError := ErrNotExist | ErrNotDir | ErrOther.

(** ** Data *)
Record PlanCaps := mkPlanCaps {
  pc_MaxGroups : Z;
  pc_MaxRounds : Z;
  pc_MaxExtraOpcodeBudget : Z;
  pc_UnnamedResources : option bool;
  pc_ExecTrace : option bool
}.

Record RatePlan := mkRatePlan { rp_PerMinute : float64; rp_PerDay : float64; rp_Simulate : PlanCaps }.

Record RateToken := mkRateToken { rt_Name : string; rt_Token : string; rt_TokenFile : string; rt_Plan : string }.

Record RateLimit := mkRateLimit {
  rl_Enabled : bool;
  rl_StateFile : string;
  rl_TrustedProxies : list string;
  rl_IPv6Prefix : Z;
  rl_MaxKeys : Z;
  rl_AnonymousPlan : option string;
  rl_SimulatePerSecond : option float64;
  rl_Weights : gmap string float64;
  rl_Effort : gmap string float64;
  rl_Plans : gmap string RatePlan;
  rl_Tokens : list RateToken
}.

Definition EffortKeys : list string :=
  ["opcodes_per_credit"; "lookups_per_credit"; "history_per_credit"; "scanned_per_credit"; "trace_kb_per_credit"]%string.

Definition EffortRates_map (r : EffortRates float64) : gmap string float64 :=
  list_to_map [("opcodes_per_credit"%string, er_OpcodesPerCredit r); ("lookups_per_credit"%string, er_LookupsPerCredit r);
    ("history_per_credit"%string, er_HistoryPerCredit r); ("scanned_per_credit"%string, er_ScannedPerCredit r);
    ("trace_kb_per_credit"%string, er_TraceKBPerCredit r)].

(** m[k]: zero when there is no such key. *)
Definition at_key (m : gmap string float64) (k : string) : float64 := default nzero (m !! k).

Definition EffortRatesOf (r : RateLimit) : EffortRates float64 :=
  let e := rl_Effort r in
  mkRates (at_key e "opcodes_per_credit") (at_key e "lookups_per_credit") (at_key e "history_per_credit")
    (at_key e "scanned_per_credit") (at_key e "trace_kb_per_credit").

(** v >= 0 && !math.IsInf(v, 1): false of a NaN. *)
Definition nonNegative (v : float64) : bool :=
  nleb nzero v && match v with S754_infinity false => false | _ => true end.

(** ** parsePrefix *)

(** netip.ParsePrefix: an address without a zone, and its bits in decimal
    without sign or leading zeros. *)
Definition netip_ParsePrefix (s : string) : option Prefix :=
  match last_index_byte "/" s with
  | None => None
  | Some i =>
      let host := str_take i s in
      let bitsStr := str_drop (S i) s in
      ip ← (match addr_kind host with
            | Some a =>
                if Ascii.eqb a "." then V4 <$> parse_ipv4 host
                else if Ascii.eqb a ":" && negb (contains "%" host) then V6 <$> parse_ipv6 host
                else None
            | None => None
            end);
      if (1 <? Z.of_nat (String.length bitsStr)) && has_prefix "0" bitsStr then None
      else
        bits ← parse_uint bitsStr;
        if (match ip with V4 _ => 32 | V6 _ => 128 end) <? bits then None else Some (mkPrefix ip bits)
  end.

Definition Masked (p : Prefix) : Prefix :=
  let mask b := mask_bytes (px_bits p) b in
  mkPrefix (match px_addr p with V4 b => V4 (mask b) | V6 b => V6 (mask b) end) (px_bits p).

Definition parsePrefix (s : string) : option Prefix :=
  let s := trim_space s in
  if contains "/" s then Masked <$> netip_ParsePrefix s
  else
    a ← ParseAddr s;
    Some (mkPrefix a (match a with V4 _ => 32 | V6 _ => 128 end)).

Definition TrustedPrefixes (r : RateLimit) : list Prefix := omap parsePrefix (rl_TrustedProxies r).

(** ** finish *)
Section Finish.
Context (ord : MapOrder) (readFile : string → result readError string).

Definition readSecret (path : string) : result readError string :=
  match readFile path with Ok b => Ok (trim_space b) | Err e => Err e end.

(** The switch on one plan; None: it is fine. *)
Definition planError (e : string * RatePlan) : option string :=
  let '(name, p) := e in
  let sim := rp_Simulate p in
  if name =s "" then Some "ratelimit.plans: a plan needs a name"%string
  else if negb (nonNegative (rp_PerMinute p)) || negb (nonNegative (rp_PerDay p))
  then Some "ratelimit.plans: per_minute and per_day must not be negative (0 is unlimited)"%string
  else if (pc_MaxGroups sim <? 0) || (pc_MaxRounds sim <? 0)
  then Some "ratelimit.plans.simulate: caps must not be negative"%string
  else None.

(** The first error of a loop that only checks. *)
Fixpoint firstError {A} (f : A → option string) (l : list A) : result string unit :=
  match l with
  | [] => Ok tt
  | x :: l => match f x with Some e => Err e | None => firstError f l end
  end.

(** The loop that puts the configured values over the defaults. *)
Fixpoint overlay (what : string) (given : list (string * float64)) (acc : gmap string float64) : result string (gmap string float64) :=
  match given with
  | [] => Ok acc
  | (k, v) :: given =>
      if isNone (acc !! k) then Err (what +:+ ": unknown")
      else if negb (nonNegative v) then Err (what +:+ ": want a number, 0 or more")
      else overlay what given (<[k := v]> acc)
  end.

Definition missing (plans : gmap string RatePlan) (name : string) : bool := isNone (plans !! name).

(** The token once its file is read, and the checks of one turn of the loop. *)
Definition fileToken (t : RateToken) : result string RateToken :=
  if rt_TokenFile t =s "" then Ok t
  else match readSecret (rt_TokenFile t) with
       | Err _ => Err "ratelimit.tokens: token_file"%string
       | Ok v =>
           if (rt_Token t <>s "") && (rt_Token t <>s v) then Err "ratelimit.tokens: set one of token and token_file"%string
           else Ok (mkRateToken (rt_Name t) v (rt_TokenFile t) (rt_Plan t))
       end.

Fixpoint tokensLoop (plans : gmap string RatePlan) (adminToken : string) (ts : list RateToken)
    (names : gset string) (values : gmap string string) : result string (list RateToken) :=
  match ts with
  | [] => Ok []
  | t :: ts =>
      if rt_Name t =s "" then Err "ratelimit.tokens: name is required"
      else if bool_decide (rt_Name t ∈ names) then Err "ratelimit.tokens: name is used twice"
      else if (rt_Token t =s "") && (rt_TokenFile t =s "") then Err "ratelimit.tokens: set one of token and token_file"
      else if missing plans (rt_Plan t) then Err "ratelimit.tokens: no such plan"
      else
        t ← fileToken t;
        if rt_Token t =s "" then Err "ratelimit.tokens: the token is empty"
        else if rt_Token t =s adminToken then Err "ratelimit.tokens: the token is the admin token"
        else if default ""%string (values !! rt_Token t) <>s "" then Err "ratelimit.tokens: the same token as another"
        else
          rest ← tokensLoop plans adminToken ts ({[rt_Name t]} ∪ names) (<[rt_Token t := rt_Name t]> values);
          Ok (t :: rest)
  end.

Definition finishSimulate (r : RateLimit) : result string RateLimit :=
  let v := default (nofZ 20) (rl_SimulatePerSecond r) in
  if negb (nonNegative v) then Err "ratelimit.simulate_per_second must not be negative"
  else Ok (r <| rl_SimulatePerSecond := Some v |>).

Definition finishKeys (r : RateLimit) : result string RateLimit :=
  let p := if rl_IPv6Prefix r =? 0 then 64 else rl_IPv6Prefix r in
  if (p <? 1) || (128 <? p) then Err "ratelimit.ipv6_prefix: want 1 to 128"
  else if rl_MaxKeys r <? 0 then Err "ratelimit.max_keys must not be negative"
  else
    let n := if rl_MaxKeys r =? 0 then 200000 else rl_MaxKeys r in
    Ok (r <| rl_IPv6Prefix := p |> <| rl_MaxKeys := n |>).

Definition finishAnonymous (r : RateLimit) : result string RateLimit :=
  let a := match rl_AnonymousPlan r with
           | Some a => a
           | None => if missing (rl_Plans r) "free" then "" else "free"
           end%string in
  if (a <>s "") && missing (rl_Plans r) a then Err "ratelimit.anonymous_plan: no such plan"
  else Ok (r <| rl_AnonymousPlan := Some a |>).

Definition finish (r : RateLimit) (clientToken adminToken : string) : result string RateLimit :=
  if negb (rl_Enabled r) then Ok r
  else if clientToken <>s "" then Err "ratelimit: client_token and client_token_file must be unset"
  else if Z.of_nat (size (rl_Plans r)) =? 0 then Err "ratelimit.plans: at least one plan is required"
  else
    _ ← firstError planError (range ord (rl_Plans r));
    weights ← overlay "ratelimit.weights" (range ord (rl_Weights r)) DefaultCostWeights;
    let r := r <| rl_Weights := weights |> in
    effort ← overlay "ratelimit.effort" (range ord (rl_Effort r)) (EffortRates_map DefaultEffortRates);
    let r := r <| rl_Effort := effort |> in
    r ← finishSimulate r;
    r ← finishKeys r;
    r ← finishAnonymous r;
    _ ← firstError (λ s, if isNone (parsePrefix s) then Some "ratelimit.trusted_proxies"%string else None) (rl_TrustedProxies r);
    tokens ← tokensLoop (rl_Plans r) adminToken (rl_Tokens r) ∅ ∅;
    Ok (r <| rl_Tokens := tokens |>).
End Finish.

(** ** What a finished section promises *)

Section Laws.
Context (ord : MapOrder) (readFile : string → result readError string).

(** One token of a finished section, next to the admin token. *)
Record tokenOk (plans : gmap string RatePlan) (adminToken : string) (t : RateToken) : Prop := {
  to_name : rt_Name t ≠ ""%string;
  to_token : rt_Token t ≠ ""%string;
  to_admin : rt_Token t ≠ adminToken;
  to_plan : is_Some (plans !! rt_Plan t);
  to_file : rt_TokenFile t ≠ ""%string → readSecret readFile (rt_TokenFile t) = Ok (rt_Token t)
}.

(** A map of float settings that has every key and only sane values. *)
Definition complete (keys : list string) (m : gmap string float64) : Prop :=
  (∀ k, is_Some (m !! k) ↔ k ∈ keys) ∧ (∀ k v, m !! k = Some v → nonNegative v = true).

Record RateFinished (r : RateLimit) (clientToken adminToken : string) : Prop := {
  rf_client : clientToken = ""%string;
  rf_some : rl_Plans r ≠ ∅;
  rf_plans name p : rl_Plans r !! name = Some p → planError (name, p) = None;
  rf_weights : complete CostKeys (rl_Weights r);
  rf_effort : complete EffortKeys (rl_Effort r);
  rf_simulate : ∃ v, rl_SimulatePerSecond r = Some v ∧ nonNegative v = true;
  rf_prefix : 1 <= rl_IPv6Prefix r <= 128;
  rf_keys : 0 < rl_MaxKeys r;
  rf_anonymous : ∃ a, rl_AnonymousPlan r = Some a ∧ (a = ""%string ∨ is_Some (rl_Plans r !! a));
  rf_proxies s : s ∈ rl_TrustedProxies r → is_Some (parsePrefix s);
  rf_tokens t : t ∈ rl_Tokens r → tokenOk (rl_Plans r) adminToken t;
  rf_names : NoDup (rt_Name <$> rl_Tokens r);
  rf_values : NoDup (rt_Token <$> rl_Tokens r)
}.

(** ** The loops *)

Lemma isSome_iff {A} (o : option A) : isSome o = true ↔ is_Some o.
Proof. destruct o; simpl; split; intros H; [by eexists | done | done | by destruct H]. Qed.

Lemma isNone_None {A} (o : option A) : isNone o = false ↔ is_Some o.
Proof. unfold isNone. rewrite negb_false_iff. apply isSome_iff. Qed.

Lemma firstError_ok {A} (f : A → option string) l : firstError f l = Ok tt ↔ ∀ x, x ∈ l → f x = None.
Proof.
  induction l as [|x l IH]; simpl; [split; [set_solver | done] |]. destruct (f x) eqn:E.
  - split; [done |]. intros H. rewrite (H x) in E; [done | left].
  - rewrite IH. split; [intros H y [->|?]%elem_of_cons; auto | intros H y Hy; apply H; by right].
Qed.

Lemma elem_of_range {A} (m : gmap string A) k v : (k, v) ∈ range ord m ↔ m !! k = Some v.
Proof. by rewrite range_perm, elem_of_map_to_list. Qed.

Lemma range_NoDup {A} (m : gmap string A) : NoDup (range ord m).*1.
Proof. rewrite range_perm. apply NoDup_fst_map_to_list. Qed.

Lemma range_map {A} (m : gmap string A) : list_to_map (range ord m) = m.
Proof. rewrite (list_to_map_proper _ _ (range_NoDup m) (range_perm ord m)). apply list_to_map_to_list. Qed.

(** The values written over the defaults. *)
Lemma overlay_ok what l acc r :
  NoDup l.*1 →
  overlay what l acc = Ok r ↔
  (∀ k v, (k, v) ∈ l → is_Some (acc !! k) ∧ nonNegative v = true) ∧ r = list_to_map l ∪ acc.
Proof.
  revert acc. induction l as [|[k v] l IH]; intros acc; cbn [overlay].
  { intros _. simpl. rewrite map_empty_union. split; [intros [= <-]; split; [set_solver | done] | by intros [_ ->]]. }
  rewrite fmap_cons. intros [Hk Hl]%NoDup_cons.
  assert (list_to_map ((k, v) :: l) ∪ acc = list_to_map l ∪ <[k := v]> acc) as ->.
  { simpl. rewrite <- insert_union_l. symmetry. rewrite <- insert_union_r; [done |]. by apply not_elem_of_list_to_map_1. }
  destruct (isNone (acc !! k)) eqn:Ek.
  { split; [done |]. intros [H _]. destruct (H k v (list_elem_of_here _ _)) as [Hs _]. apply isNone_None in Hs. congruence. }
  apply isNone_None in Ek. destruct (nonNegative v) eqn:Ev; simpl.
  - rewrite IH by done. split; intros [H ->]; split; [| done | | done].
    + intros k' v' [[= -> ->]|Hin]%elem_of_cons; [done |]. destruct (H k' v' Hin) as [H1 H2]. split; [| done].
      destruct (decide (k' = k)) as [->|]; [done |]. by rewrite lookup_insert_ne in H1.
    + intros k' v' Hin. destruct (H k' v') as [H1 H2]; [by right |]. split; [| done]. destruct (decide (k' = k)) as [->|]; [by rewrite lookup_insert_eq; eexists |]. by rewrite lookup_insert_ne.
  - split; [done |]. intros [H _]. destruct (H k v (list_elem_of_here _ _)). congruence.
Qed.

Lemma overlay_complete what keys m def r :
  complete keys def → overlay what (range ord m) def = Ok r → complete keys r.
Proof.
  intros [D1 D2] [H ->]%overlay_ok; [| apply range_NoDup]. rewrite range_map. setoid_rewrite elem_of_range in H. split.
  - intros k. rewrite lookup_union, <- D1. destruct (m !! k) as [v|] eqn:E; [| by destruct (def !! k)].
    destruct (H k v E) as [H1 _]. destruct H1 as [x Hx]. rewrite Hx. simpl. split; intros _; by eexists.
  - intros k v [Hm|[_ Hd]]%lookup_union_Some_raw; [by apply (H k) | by apply (D2 k)].
Qed.

Lemma overlay_again what keys m def :
  complete keys def → complete keys m → overlay what (range ord m) def = Ok m.
Proof.
  intros [D1 _] [M1 M2]. apply overlay_ok; [apply range_NoDup |]. setoid_rewrite elem_of_range. split.
  - intros k v E. split; [| by apply (M2 k)]. apply D1, M1. by eexists.
  - rewrite range_map. apply map_eq. intros k. rewrite lookup_union. destruct (m !! k) as [v|] eqn:E; [by destruct (def !! k) |].
    destruct (def !! k) eqn:Ed; [| done]. assert (is_Some (m !! k)) as [? ?]; [| congruence]. apply M1, D1. by eexists.
Qed.

(** The default tables are complete. *)
Lemma complete_list l : forallb (λ p, nonNegative p.2) l = true → complete l.*1 (list_to_map l).
Proof.
  intros H. rewrite forallb_forall in H. split.
  - intros k. by rewrite <- elem_of_dom, dom_list_to_map_L, elem_of_list_to_set.
  - intros k v E%elem_of_list_to_map_2. apply (H (k, v)). by apply list_elem_of_In.
Qed.

Lemma complete_weights : complete CostKeys (DefaultCostWeights (F := float64)).
Proof. unfold DefaultCostWeights. match goal with |- complete _ (list_to_map ?l) => apply (complete_list l) end. vm_compute. done. Qed.

Lemma complete_effort : complete EffortKeys (EffortRates_map DefaultEffortRates).
Proof. unfold EffortRates_map. match goal with |- complete _ (list_to_map ?l) => apply (complete_list l) end. vm_compute. done. Qed.

(** ** The tokens *)
Lemma fileToken_ok t t' :
  fileToken readFile t = Ok t' →
  t' = mkRateToken (rt_Name t) (rt_Token t') (rt_TokenFile t) (rt_Plan t) ∧
  (rt_TokenFile t ≠ ""%string → readSecret readFile (rt_TokenFile t) = Ok (rt_Token t')) ∧
  (rt_Token t ≠ ""%string → rt_Token t' = rt_Token t).
Proof.
  unfold fileToken. destruct (rt_TokenFile t =s "") eqn:Ef; [intros [= <-]; bprop; by destruct t |].
  destruct (readSecret _ _) as [v|]; [| done]. destruct (_ && _) eqn:Et; [done |]. intros [= <-]. simpl.
  split_and!; [done..|]. intros H. bprop. destruct Et as [Et|Et]; bprop; [done |]. by bprop.
Qed.

(** The names and values seen so far are in the way of a list of tokens. *)
Definition clear_of (names : gset string) (values : gmap string string) (ts : list RateToken) : Prop :=
  ∀ t, t ∈ ts → (rt_Name t ∉ names) ∧ default ""%string (values !! rt_Token t) = (""%string).

Lemma tokensLoop_sound plans adminToken ts names values ts' :
  tokensLoop readFile plans adminToken ts names values = Ok ts' →
  (∀ t, t ∈ ts' → tokenOk plans adminToken t) ∧ NoDup (rt_Name <$> ts') ∧ NoDup (rt_Token <$> ts') ∧
  clear_of names values ts' ∧ rt_Name <$> ts' = rt_Name <$> ts ∧ rt_Plan <$> ts' = rt_Plan <$> ts.
Proof.
  revert names values ts'. induction ts as [|t ts IH]; intros names values ts'; cbn [tokensLoop].
  { intros [= <-]. split_and!; [set_solver | constructor | constructor | by intros ? ?%elem_of_nil | done | done]. }
  destruct (rt_Name t =s "") eqn:En; [done |]. case_bool_decide as Hn; [done |].
  destruct (_ && _); [done |]. destruct (missing plans (rt_Plan t)) eqn:Ep; [done |].
  destruct (fileToken readFile t) as [u|] eqn:Ef; [| done]. simpl. apply fileToken_ok in Ef as (Eu & Hf & _).
  assert (rt_Name u = rt_Name t ∧ rt_Plan u = rt_Plan t ∧ rt_TokenFile u = rt_TokenFile t) as (E1 & E2 & E3) by (rewrite Eu; done). clear Eu.
  destruct (rt_Token u =s "") eqn:Et; [done |]. destruct (rt_Token u =s adminToken) eqn:Ea; [done |].
  destruct (negb (default ""%string (values !! rt_Token u) =s "")) eqn:Ev; [done |].
  destruct (tokensLoop _ _ _ ts _ _) as [rest|] eqn:Er; [| done]. intros [= <-]. bprop.
  apply IH in Er as (H1 & H2 & H3 & H4 & H5 & H6). rewrite E1 in H4.
  assert (∀ x, x ∈ rest → rt_Name x ≠ rt_Name t ∧ rt_Token x ≠ rt_Token u) as Hx.
  { intros x Hx. destruct (H4 x Hx) as [[Ha%not_elem_of_singleton _]%not_elem_of_union Hb]. split; [done |]. intros E. rewrite E, lookup_insert_eq in Hb. by simpl in Hb. }
  split_and!.
  - intros x [->|Hin]%elem_of_cons; [| auto]. constructor; rewrite ?E1, ?E2, ?E3; try done. by apply isNone_None.
  - rewrite fmap_cons. constructor; [| done]. rewrite E1. intros (x & E & Hin)%list_elem_of_fmap. by destruct (Hx x Hin).
  - rewrite fmap_cons. constructor; [| done]. intros (x & E & Hin)%list_elem_of_fmap. by destruct (Hx x Hin).
  - intros x [->|Hin]%elem_of_cons; [by rewrite E1 |]. destruct (H4 x Hin) as [[_ Ha]%not_elem_of_union Hb]. split; [done |].
    by rewrite lookup_insert_ne in Hb; [| intros E; destruct (Hx x Hin)].
  - by rewrite !fmap_cons, E1, H5.
  - by rewrite !fmap_cons, E2, H6.
Qed.

Lemma tokensLoop_again plans adminToken ts names values :
  (∀ t, t ∈ ts → tokenOk plans adminToken t) → NoDup (rt_Name <$> ts) → NoDup (rt_Token <$> ts) → clear_of names values ts →
  tokensLoop readFile plans adminToken ts names values = Ok ts.
Proof.
  revert names values. induction ts as [|t ts IH]; intros names values Hok; [done |].
  rewrite !fmap_cons. intros [N1 N2]%NoDup_cons [V1 V2]%NoDup_cons Hc. cbn [tokensLoop].
  destruct (Hok t) as [O1 O2 O3 O4 O5]; [left |]. destruct (Hc t) as [C1 C2]; [left |].
  rewrite (proj2 (String.eqb_neq _ _) O1), bool_decide_false, (proj2 (String.eqb_neq (rt_Token t) "") O2) by done. simpl.
  unfold missing. rewrite (proj2 (isNone_None _) O4).
  assert (fileToken readFile t = Ok t) as ->.
  { unfold fileToken. destruct (String.eqb_spec (rt_TokenFile t) ""); [done |]. rewrite O5 by done. rewrite seqb_refl.
    rewrite andb_false_r. by destruct t. }
  simpl. rewrite (proj2 (String.eqb_neq (rt_Token t) "") O2), (proj2 (String.eqb_neq _ _) O3), C2. simpl.
  rewrite IH; [done | intros; apply Hok; by right | done | done |].
  intros x Hx. destruct (Hc x) as [Ca Cb]; [by right |].
  assert (rt_Name x ≠ rt_Name t) by (intros E; apply N1; rewrite <- E; by apply list_elem_of_fmap_2).
  assert (rt_Token x ≠ rt_Token t) by (intros E; apply V1; rewrite <- E; by apply list_elem_of_fmap_2).
  split; [| by rewrite lookup_insert_ne]. by rewrite not_elem_of_union, not_elem_of_singleton.
Qed.

(** ** finish *)

Lemma bind_Ok {A B} (m : result string A) (f : A → result string B) y :
  (x ← m; f x) = Ok y ↔ ∃ x, m = Ok x ∧ f x = Ok y.
Proof. destruct m; simpl; split; [eauto | by intros (? & [= <-] & ?) | done | by intros (? & ? & ?)]. Qed.

Lemma bind_inv {A B} (m : result string A) (f : A → result string B) y :
  (x ← m; f x) = Ok y → ∃ x, m = Ok x ∧ f x = Ok y.
Proof. apply bind_Ok. Qed.

Lemma plans_some (m : gmap string RatePlan) : (Z.of_nat (size m) =? 0) = false ↔ m ≠ ∅.
Proof. rewrite <- map_size_non_empty_iff. lia. Qed.

(** What the middle steps leave of the section. *)
Lemma finishSimulate_ok r r' :
  finishSimulate r = Ok r' ↔
  ∃ v, v = default (nofZ 20) (rl_SimulatePerSecond r) ∧ nonNegative v = true ∧ r' = r <| rl_SimulatePerSecond := Some v |>.
Proof.
  unfold finishSimulate. destruct (nonNegative _) eqn:E; cbn [negb]; split.
  - intros [= <-]. eauto.
  - by intros (v & -> & _ & ->).
  - done.
  - intros (v & -> & ? & _). congruence.
Qed.

Lemma finishKeys_ok r r' :
  finishKeys r = Ok r' ↔
  ∃ p n, p = (if rl_IPv6Prefix r =? 0 then 64 else rl_IPv6Prefix r) ∧ n = (if rl_MaxKeys r =? 0 then 200000 else rl_MaxKeys r) ∧
    1 <= p <= 128 ∧ 0 < n ∧ r' = r <| rl_IPv6Prefix := p |> <| rl_MaxKeys := n |>.
Proof.
  unfold finishKeys. set (p := if rl_IPv6Prefix r =? 0 then _ else _). destruct ((p <? 1) || (128 <? p)) eqn:E1.
  - split; [done |]. intros (p' & n & -> & _ & ? & _). lia.
  - destruct (rl_MaxKeys r <? 0) eqn:E2; split; [done | | |].
    + intros (p' & n & _ & -> & _ & H & _). destruct (rl_MaxKeys r =? 0) eqn:E3; lia.
    + intros [= <-]. exists p, (if rl_MaxKeys r =? 0 then 200000 else rl_MaxKeys r). split_and!; try done; try lia. destruct (rl_MaxKeys r =? 0) eqn:E3; lia.
    + by intros (p' & n & -> & -> & _ & _ & ->).
Qed.

Lemma finishAnonymous_ok r r' :
  finishAnonymous r = Ok r' ↔
  ∃ a, a = match rl_AnonymousPlan r with Some a => a | None => if missing (rl_Plans r) "free" then ""%string else "free"%string end ∧
    (a = ""%string ∨ is_Some (rl_Plans r !! a)) ∧ r' = r <| rl_AnonymousPlan := Some a |>.
Proof.
  unfold finishAnonymous. set (a := match rl_AnonymousPlan r with Some a => a | None => _ end).
  destruct (String.eqb_spec a "") as [Ea|Ea]; simpl.
  - split; [intros [= <-]; eauto | by intros (a' & -> & _ & ->)].
  - unfold missing at 1. destruct (isNone (rl_Plans r !! a)) eqn:E.
    + split; [done |]. intros (a' & -> & [?|H%isNone_None] & _); [done | congruence].
    + apply isNone_None in E. split; [intros [= <-]; eauto | by intros (a' & -> & _ & ->)].
Qed.

Lemma proxies_ok l :
  firstError (λ s, if isNone (parsePrefix s) then Some "ratelimit.trusted_proxies"%string else None) l = Ok tt ↔
  ∀ s, s ∈ l → is_Some (parsePrefix s).
Proof.
  rewrite firstError_ok. apply forall_proper. intros s. rewrite <- isNone_None. destruct (isNone _); split; intros H Hs; specialize (H Hs); done.
Qed.

(** A finished rate-limit section is well formed: at least one plan and
    every plan sane, a price for exactly the cost keys and exactly the kinds of
    reported work, none of them negative, infinite or not a number, an
    anonymous plan that exists or none, a prefix length of an IPv6 address,
    room for at least one client, and tokens that are distinct by name and by
    value, none of them the admin token, each with its file's value and a plan
    that exists.  The tokens are the configured ones, in order. *)
Lemma finish_finished r clientToken adminToken r' :
  rl_Enabled r = true → finish ord readFile r clientToken adminToken = Ok r' →
  RateFinished r' clientToken adminToken ∧ rl_Plans r' = rl_Plans r ∧
  rt_Name <$> rl_Tokens r' = rt_Name <$> rl_Tokens r ∧ rt_Plan <$> rl_Tokens r' = rt_Plan <$> rl_Tokens r.
Proof.
  unfold finish. intros -> H. simpl in H. destruct (String.eqb_spec clientToken "") as [Ec|]; [| done]. simpl in H.
  destruct (Z.of_nat (size (rl_Plans r)) =? 0) eqn:Es; [done |]. apply plans_some in Es.
  apply bind_Ok in H as ([] & Hp & H). apply bind_Ok in H as (w & Hw & H). apply bind_Ok in H as (e & He & H).
  apply bind_Ok in H as (r1 & (v & _ & Hv & ->)%finishSimulate_ok & H).
  apply bind_Ok in H as (r2 & (p & n & _ & _ & Hpr & Hn & ->)%finishKeys_ok & H).
  apply bind_Ok in H as (r3 & (a & _ & Ha & ->)%finishAnonymous_ok & H).
  apply bind_Ok in H as ([] & Hx & H). pose proof (proj1 (proxies_ok _) Hx) as Hx'. apply bind_Ok in H as (ts & Ht & [= <-]).
  apply tokensLoop_sound in Ht as (T1 & T2 & T3 & _ & T4 & T5). rewrite firstError_ok in Hp.
  split_and!; [constructor | done | done | done]; try done; eauto.
  - intros name q E. apply (Hp (name, q)). by apply elem_of_range.
  - by eapply overlay_complete; [apply complete_weights |].
  - by eapply overlay_complete; [apply complete_effort |].
Qed.

(** Finishing a finished section changes nothing. *)
Lemma finish_again r clientToken adminToken :
  RateFinished r clientToken adminToken → finish ord readFile r clientToken adminToken = Ok r.
Proof.
  intros [F1 F2 F3 F4 F5 (v & F6 & F6') F7 F8 (a & F9 & F9') F10 F11 F12 F13]. unfold finish.
  destruct (rl_Enabled r) eqn:En; [| done]. simpl. rewrite F1. simpl. rewrite (proj2 (plans_some _) F2).
  apply bind_Ok. exists tt. split; [apply firstError_ok; intros [name p] E%elem_of_range; by apply F3 |].
  apply bind_Ok. exists (rl_Weights r). split; [by eapply overlay_again; [apply complete_weights |] |].
  apply bind_Ok. exists (rl_Effort r). split; [by eapply overlay_again; [apply complete_effort |] |].
  apply bind_Ok. exists r. split.
  { apply finishSimulate_ok. exists v. simpl. rewrite F6. split_and!; [done..|]. by destruct r; simpl in *; subst. }
  apply bind_Ok. exists r. split.
  { apply finishKeys_ok. exists (rl_IPv6Prefix r), (rl_MaxKeys r). split_and!; try done; try lia; try (destruct (_ =? 0) eqn:?; lia). by destruct r. }
  apply bind_Ok. exists r. split.
  { apply finishAnonymous_ok. exists a. rewrite F9. split_and!; [done..|]. by destruct r; simpl in *; subst. }
  apply bind_Ok. exists tt. split; [by apply proxies_ok |].
  apply bind_Ok. exists (rl_Tokens r). split; [| by destruct r].
  apply tokensLoop_again; [done..|]. intros t Ht. split; [set_solver | by rewrite lookup_empty].
Qed.
End Laws.
