(* ===== verification/Config.v ===== *)
(** * Config: loading and validating a configuration
    (internal/config/config.go)

    [Finish] is the code's, cut into the steps it takes in order, each a
    function from a configuration to the next or to an error (the code's text
    without the values it quotes).  Files and the host name are the
    environment's; decoding an Algorand address is the SDK's, a parameter.
    Decoding the YAML is the library's, so a [Config] starts as decoded.  The
    half-finished configuration next to an error, which every caller drops, is
    not modelled. *)
From S2P Require Import Prelude GoFloat GoStrings GoTime GoNet Types Addrs Auth RateConfig.
From Stdlib Require Import Ascii.
Open Scope Z_scope.

(** ** Data *)
Record Log := mkLog { lg_Level : string; lg_JSON : bool }.

Record Local := mkLocal {
  lc_ID : string;
  lc_DataDir : string;
  lc_Network : string;
  lc_AdvertiseEndpoints : list string;
  lc_Passthrough : Addrs;
  lc_Tier : Z;
  lc_Tags : list string;
  lc_Overrides : option CapabilityOverrides;
  lc_WaitTimeout : Duration;
  lc_VerifyInterval : Duration
}.

Record Reg := mkReg {
  rg_Type : string;
  rg_AppID : Z;
  rg_SyncKey : string;
  rg_SyncKeyFile : string;
  rg_SyncAddress : string;
  rg_AlgodURL : string;
  rg_AlgodToken : string;
  rg_Refresh : Duration;
  rg_AutoRegister : option bool;
  rg_Cache : string;
  rg_File : string;
  rg_Static : list NodeRecord
}.

Record Mesh := mkMesh {
  ms_Listen : Addrs;
  ms_Advertise : Addrs;
  ms_SharedSecret : string;
  ms_SuspectAfter : Duration;
  ms_DownAfter : Duration;
  ms_ProbeInterval : Duration;
  ms_KeepAlive : Duration;
  ms_PathProbeInterval : Duration;
  ms_PathTimeout : Duration;
  ms_PeerOverrides : gmap string (option Z)
}.

Record External := mkExternal {
  ex_Name : string;
  ex_URL : string;
  ex_Token : string;
  ex_Tier : Z;
  ex_Capabilities : option CapabilityOverrides;
  ex_HealthCheck : Duration
}.

Record Breaker := mkBreaker { bk_Threshold : Z; bk_OpenFor : Duration }.

Record Routing := mkRouting {
  cr_SyncTolerance : Z;
  cr_LagGrace : Duration;
  cr_ReturnHysteresisRounds : Z;
  cr_MultiBroadcast : bool;
  cr_RetryBudget : option Z;
  cr_UpstreamTimeout : Duration;
  cr_RequestTimeout : Duration;
  cr_PendingTTL : Duration;
  cr_DrainTimeout : Duration;
  cr_Breaker : Breaker;
  cr_Exclude : list string
}.

Record Config := mkConfig {
  cf_Role : string;
  cf_Mode : string;
  cf_Listen : Addrs;
  cf_ClientToken : string;
  cf_ClientTokenFile : string;
  cf_AdminToken : string;
  cf_AdminTokenFile : string;
  cf_Log : Log;
  cf_Local : Local;
  cf_Registry : Reg;
  cf_Mesh : Mesh;
  cf_Tiers : list External;
  cf_Routing : Routing;
  cf_RateLimit : RateLimit
}.

Definition Balancer (c : Config) : bool := cf_Role c =s RoleBalancer.

(** ** path/filepath, on Unix *)

(** One component of a path being cleaned; the stack is innermost first. *)
Definition cleanStep (rooted : bool) (stack : list string) (w : string) : list string :=
  if (w =s "") || (w =s ".") then stack
  else if w =s ".." then
    match stack with
    | top :: stack' => if top =s ".." then ".."%string :: stack else stack'
    | [] => if rooted then [] else [".."%string]
    end
  else w :: stack.

Definition Clean (path : string) : string :=
  let rooted := has_prefix "/" path in
  let body := GoStrings.join "/" (reverse (foldl (cleanStep rooted) [] (split_on "/" path))) in
  if rooted then "/" +:+ body else if body =s "" then "."%string else body.

(** filepath.Join of two elements: the empty ones do not count. *)
Definition Join (a b : string) : string :=
  match List.filter (λ s, s <>s "") [a; b] with
  | [] => ""%string
  | l => Clean (GoStrings.join "/" l)
  end.

(** ** Finish *)
Section Finish.
Context (ord : MapOrder) (readFile : string → result readError string).
Context (hostname : option string)             (* os.Hostname *)
        (DecodeAddress : string → option string).  (* types.DecodeAddress: the 32 bytes *)

Definition finishRole (c : Config) : result string Config :=
  role ← ParseRole (cf_Role c);
  _ ← ParseMode (cf_Mode c);
  let balancer := role =s RoleBalancer in
  let mode := if (cf_Mode c =s "") && balancer then ModeLoadBalancer else cf_Mode c in
  let mode := if mode =s "" then ModeFallback else mode in
  Ok (c <| cf_Role := role |> <| cf_Mode := mode |>).

(** A secret that is set, or its file's content. *)
Definition secretOr (what value file : string) : result string string :=
  if (value =s "") && (file <>s "") then
    match readSecret readFile file with
    | Ok t => Ok t
    | Err _ => Err what
    end
  else Ok value.

Definition defaultListen : string := "127.0.0.1:4000".
Definition defaultMeshListen : string := "0.0.0.0:4001".

Definition finishListen (c : Config) : result string Config :=
  listen ← resolve (cf_Listen c) "listen" defaultListen;
  token ← secretOr "client_token_file" (cf_ClientToken c) (cf_ClientTokenFile c);
  Ok (c <| cf_Listen := listen |> <| cf_ClientToken := token |>).

(** x, or its default when it is "". *)
Definition or_string (x def : string) : string := if x =s "" then def else x.

(** The default id; None: there is none. *)
Definition localID (l : Local) : option string :=
  if lc_ID l <>s "" then Some (lc_ID l)
  else match hostname with
       | Some h => if h =s "" then None else Some h
       | None => None
       end.

Definition finishLocal (c : Config) : result string Config :=
  let l := cf_Local c in
  match localID l with
  | None => Err "local.id is required (hostname unavailable)"
  | Some id =>
      if Balancer c && (lc_Network l =s "") then Err "local.network is required for role balancer"
      else if negb (Balancer c) && (lc_Network l <>s "") then Err "local.network is only for role balancer"
      else if negb (Balancer c) && (lc_DataDir l =s "") then Err "local.data_dir is required"
      else Ok (c <| cf_Log ::= (λ g, g <| lg_Level := or_string (lg_Level g) "info" |>) |>
                 <| cf_Local := l <| lc_ID := id |> |>)
  end.

Definition finishSchemes (c : Config) : Config :=
  c <| cf_Local ::= (λ l, l <| lc_AdvertiseEndpoints := withScheme <$> lc_AdvertiseEndpoints l |>) |>
    <| cf_Registry ::= (λ r, r <| rg_AlgodURL := withScheme (rg_AlgodURL r) |>
         <| rg_Static := (λ n, n <| nr_Endpoints := withScheme <$> nr_Endpoints n |>) <$> rg_Static r |>) |>
    <| cf_Tiers := (λ e, e <| ex_URL := withScheme (ex_URL e) |>) <$> cf_Tiers c |>.

Definition finishAdmin (c : Config) : result string Config :=
  let dir := lc_DataDir (cf_Local c) in
  if (cf_AdminToken c =s "") && ((cf_AdminTokenFile c <>s "") || (dir <>s "")) then
    let explicit := cf_AdminTokenFile c <>s "" in
    let path := if explicit then cf_AdminTokenFile c else Join dir "algod.admin.token" in
    match readSecret readFile path with
    | Ok t => Ok (c <| cf_AdminToken := t |>)
    | Err e =>
        if negb explicit && match e with ErrNotExist | ErrNotDir => true | ErrOther => false end then Ok c
        else Err "admin_token_file"
    end
  else Ok c.

Definition registryType (r : Reg) : string :=
  if rg_Type r <>s "" then rg_Type r
  else if negb (rg_AppID r =? 0) then "algorand"
  else if rg_File r <>s "" then "file"
  else "static".

(** The switch on the registry's type. *)
Definition registryError (balancer : bool) (r : Reg) : option string :=
  if rg_Type r =s "algorand" then
    if rg_AppID r =? 0 then Some "registry.app_id is required for type algorand"%string
    else if (rg_SyncKey r =s "") && (rg_SyncKeyFile r =s "") then Some "registry.sync_key or sync_key_file is required for type algorand"%string
    else if balancer && (rg_AlgodURL r =s "") then Some "registry.algod_url is required for role balancer"%string
    else if (rg_SyncAddress r <>s "") && isNone (DecodeAddress (rg_SyncAddress r)) then Some "registry.sync_address"%string
    else None
  else if rg_Type r =s "file" then
    if rg_File r =s "" then Some "registry.file is required for type file"%string else None
  else if rg_Type r =s "memory" then None
  else if rg_Type r =s "static" then
    match firstError (λ n, match Validate n with Ok _ => None | Err e => Some e end) (rg_Static r) with
    | Ok _ => None
    | Err e => Some e
    end
  else Some "registry.type: want algorand, file, memory or static"%string.

(** x, or its default when it is 0. *)
Definition or_dur (x def : Z) : Z := if x =? 0 then def else x.

Definition finishRegistry (c : Config) : result string Config :=
  let r := cf_Registry c in
  let r := r <| rg_Type := registryType r |> in
  match registryError (Balancer c) r with
  | Some e => Err e
  | None =>
      key ← secretOr "registry.sync_key_file" (rg_SyncKey r) (rg_SyncKeyFile r);
      let auto := default (rg_Type r <>s "static") (rg_AutoRegister r) in
      if auto && (rg_Type r <>s "static") && negb (Balancer c) && (Z.of_nat (length (lc_AdvertiseEndpoints (cf_Local c))) =? 0)
      then Err "local.advertise_endpoints is required when registry.auto_register is on"
      else Ok (c <| cf_Registry := r <| rg_SyncKey := key |> <| rg_Refresh := or_dur (rg_Refresh r) (5 * Minute) |>
                                     <| rg_AutoRegister := Some auto |> |>)
  end.

Definition finishMesh (c : Config) : result string Config :=
  let m := cf_Mesh c in
  listen ← resolve (ms_Listen m) "mesh.listen" defaultMeshListen;
  advertise ← resolvePeers (ms_Advertise m) "mesh.advertise";
  if (Z.of_nat (length advertise) =? 0) && default false (rg_AutoRegister (cf_Registry c)) && (rg_Type (cf_Registry c) <>s "static")
  then Err "mesh.advertise is required for auto_register"
  else Ok (c <| cf_Mesh := m <| ms_Listen := listen |> <| ms_Advertise := advertise |> |>).

(** A pass-through address and a client listener want one port. *)
Definition portConflict (pt l : string) : bool :=
  let '(ph, pp) := splitOrEmpty pt in
  let '(lh, lp) := splitOrEmpty l in
  if lp <>s pp then false
  else (l =s pt) || (wildcardHost lh && wildcardCovers l ph).

Definition finishPassthrough (c : Config) : result string Config :=
  passthrough ← resolveSpecific (lc_Passthrough (cf_Local c)) "local.passthrough" "a wildcard would take the port from algod";
  if Balancer c && (0 <? Z.of_nat (length passthrough)) then Err "local.passthrough: a balancer has no algod to pass through to"
  else if existsb (λ pt, existsb (portConflict pt) (cf_Listen c)) passthrough then Err "local.passthrough: listen already binds it"
  else Ok (c <| cf_Local ::= (λ l, l <| lc_Passthrough := passthrough |>) |>).

(** The loop over the externals. *)
Fixpoint finishExternals (es : list External) : result string (list External) :=
  match es with
  | [] => Ok []
  | e :: es =>
      if (ex_Name e =s "") || (ex_URL e =s "") then Err "tiers.external: name and url are required"
      else if ex_HealthCheck e <? 0 then Err "tiers.external: health_check must not be negative"
      else
        let e := e <| ex_HealthCheck := or_dur (ex_HealthCheck e) Minute |> <| ex_Tier := or_dur (ex_Tier e) 100 |> in
        rest ← finishExternals es;
        Ok (e :: rest)
  end.

(** The loop over routing.exclude. *)
Fixpoint finishExclude (self : string) (ids exclude : list string) (excluded : gset string) : result string (list string) :=
  match ids with
  | [] => Ok exclude
  | id :: ids =>
      let id := trim_space id in
      if (id =s "") || bool_decide (id ∈ excluded) then finishExclude self ids exclude excluded
      else if id =s self then Err "routing.exclude is this agent's own node (local.id)"
      else finishExclude self ids (exclude ++ [id]) ({[id]} ∪ excluded)
  end.

Definition finishTiers (c : Config) : result string Config :=
  let c := c <| cf_Mesh ::= (λ m, m <| ms_PathProbeInterval := or_dur (ms_PathProbeInterval m) (30 * Second) |>
                                    <| ms_PathTimeout := or_dur (ms_PathTimeout m) (2 * Second) |>) |> in
  es ← finishExternals (cf_Tiers c);
  exclude ← finishExclude (lc_ID (cf_Local c)) (cr_Exclude (cf_Routing c)) [] ∅;
  Ok (c <| cf_Tiers := es |> <| cf_Routing ::= (λ r, r <| cr_Exclude := exclude |>) |>).

Definition negativeBudget (r : Routing) : bool :=
  match cr_RetryBudget r with Some n => n <? 0 | None => false end.

Definition finishRouting (c : Config) : result string Config :=
  let r := cf_Routing c in
  let up := or_dur (cr_UpstreamTimeout r) (60 * Second) in
  if negativeBudget r then Err "routing.retry_budget must not be negative"
  else if cr_RequestTimeout r <? 0 then Err "routing.request_timeout must not be negative"
  else
    Ok (c <| cf_Routing := r <| cr_ReturnHysteresisRounds := or_dur (cr_ReturnHysteresisRounds r) 3 |>
                             <| cr_LagGrace := or_dur (cr_LagGrace r) (1500 * Millisecond) |>
                             <| cr_UpstreamTimeout := up |>
                             <| cr_RequestTimeout := or_dur (cr_RequestTimeout r) (wi64 (2 * up)) |>
                             <| cr_PendingTTL := or_dur (cr_PendingTTL r) (10 * Second) |>
                             <| cr_DrainTimeout := or_dur (cr_DrainTimeout r) (10 * Second) |>
                             <| cr_Breaker ::= (λ b, b <| bk_Threshold := or_dur (bk_Threshold b) 5 |>
                                                       <| bk_OpenFor := or_dur (bk_OpenFor b) (10 * Second) |>) |> |>
          <| cf_Local ::= (λ l, l <| lc_WaitTimeout := or_dur (lc_WaitTimeout l) (60 * Second) |>) |>).

Definition finishRateLimit (c : Config) : result string Config :=
  rl ← finish ord readFile (cf_RateLimit c) (cf_ClientToken c) (cf_AdminToken c);
  Ok (c <| cf_RateLimit := rl |>).

Definition Finish (c : Config) : result string Config :=
  c ← finishRole c;
  c ← finishListen c;
  c ← finishLocal c;
  let c := finishSchemes c in
  c ← finishAdmin c;
  c ← finishRegistry c;
  c ← finishMesh c;
  c ← finishPassthrough c;
  c ← finishTiers c;
  c ← finishRouting c;
  finishRateLimit c.
End Finish.

(** Load, with the YAML library's strict decoding. *)
Definition Load (ord : MapOrder) (readFile : string → result readError string) (hostname : option string)
    (DecodeAddress : string → option string) (Decode : string → result string Config) (path : string) : result string Config :=
  match readFile path with
  | Err _ => Err "cannot read the file"%string
  | Ok b => c ← Decode b; Finish ord readFile hostname DecodeAddress c
  end.

(** ** Warnings: which of them are given, in order *)
Inductive Warning :=
  | MeshWildcard (w : Addrs)
  | MeshPublic (p : Addrs)
  | AdvertisePublic (p : Addrs)
  | PassthroughPublic (p : Addrs)
  | PassthroughUnused (missing : Addrs)
  | SuspectEarly (suspectAfter threeKeepalives : Duration).

Definition warnAddrs (w : Addrs → Warning) (a : Addrs) : list Warning :=
  if 0 <? Z.of_nat (length a) then [w a] else [].

Definition Warnings (c : Config) : list Warning :=
  let m := cf_Mesh c in
  let pt := lc_Passthrough (cf_Local c) in
  let keepAlive := or_dur (ms_KeepAlive m) (5 * Second) in
  let suspectAfter := or_dur (ms_SuspectAfter m) (15 * Second) in
  warnAddrs MeshWildcard (Wildcard (ms_Listen m)) ++
  warnAddrs MeshPublic (Public (ms_Listen m)) ++
  warnAddrs AdvertisePublic (Public (ms_Advertise m)) ++
  warnAddrs PassthroughPublic (Public pt) ++
  warnAddrs PassthroughUnused (notIn pt (lc_AdvertiseEndpoints (cf_Local c))) ++
  (if suspectAfter <? wi64 (3 * keepAlive) then [SuspectEarly suspectAfter (wi64 (3 * keepAlive))] else []).
