(* ===== verification/ConfigLaws.v ===== *)
(** * ConfigLaws: what a finished configuration promises

    For each step of [Config.Finish] what holds after it ([done]), that the
    step establishes it, and that the step then has nothing left to do.  No
    later step touches the fields an earlier one settles, so [Finish] yields a
    [Finished] configuration, and a finished one is left alone: the agent
    finishes its configuration again each time it is handed on.  [WellFormed]
    says what that means without the code's own checks. *)
From S2P Require Import Prelude GoFloat GoStrings GoTime GoNet Types Classify Billing Addrs Auth RateConfig Config.
From Stdlib Require Import Ascii.
Open Scope Z_scope.

Section Laws.
Context (ord : MapOrder) (readFile : string → result readError string) (hostname : option string)
        (DecodeAddress : string → option string).

(** ** What each step leaves *)

(** A secret is set, has no file, or its file is empty. *)
Definition secretDone (value file : string) : Prop :=
  value = ""%string → file ≠ ""%string → readSecret readFile file = Ok ""%string.

Record doneRole (c : Config) : Prop := {
  dr_role : cf_Role c = RoleNode ∨ cf_Role c = RoleBalancer;
  dr_mode : cf_Mode c = ModeFallback ∨ cf_Mode c = ModeLoadBalancer
}.

Record doneListen (c : Config) : Prop := {
  dl_listen : resolve (cf_Listen c) "listen" defaultListen = Ok (cf_Listen c);
  dl_token : secretDone (cf_ClientToken c) (cf_ClientTokenFile c)
}.

Record doneLocal (c : Config) : Prop := {
  dc_id : lc_ID (cf_Local c) ≠ ""%string;
  dc_level : lg_Level (cf_Log c) ≠ ""%string;
  dc_network : Balancer c = true ↔ lc_Network (cf_Local c) ≠ ""%string;
  dc_data : Balancer c = false → lc_DataDir (cf_Local c) ≠ ""%string
}.

(** A URL that is empty or has a scheme, and no space around it. *)
Definition schemed (u : string) : Prop := withScheme u = u.

Record doneSchemes (c : Config) : Prop := {
  ds_advertise : Forall schemed (lc_AdvertiseEndpoints (cf_Local c));
  ds_algod : schemed (rg_AlgodURL (cf_Registry c));
  ds_static : Forall (λ n, Forall schemed (nr_Endpoints n)) (rg_Static (cf_Registry c));
  ds_tiers : Forall (λ e, schemed (ex_URL e)) (cf_Tiers c)
}.

(** Where the admin token is read from. *)
Definition adminPath (c : Config) : string :=
  if cf_AdminTokenFile c <>s "" then cf_AdminTokenFile c else Join (lc_DataDir (cf_Local c)) "algod.admin.token".

(** Without an admin token there is no file for it, or an empty one; only the
    default file may be missing. *)
Definition doneAdmin (c : Config) : Prop :=
  cf_AdminToken c = ""%string → cf_AdminTokenFile c ≠ ""%string ∨ lc_DataDir (cf_Local c) ≠ ""%string →
  readSecret readFile (adminPath c) = Ok ""%string ∨
  cf_AdminTokenFile c = ""%string ∧
    (readSecret readFile (adminPath c) = Err ErrNotExist ∨ readSecret readFile (adminPath c) = Err ErrNotDir).

(** The record is registered: it needs endpoints and addresses to tell. *)
Definition registers (c : Config) : bool :=
  default false (rg_AutoRegister (cf_Registry c)) && (rg_Type (cf_Registry c) <>s "static").

Record doneRegistry (c : Config) : Prop := {
  dg_type : rg_Type (cf_Registry c) ≠ ""%string;
  dg_valid : registryError DecodeAddress (Balancer c) (cf_Registry c) = None;
  dg_key : secretDone (rg_SyncKey (cf_Registry c)) (rg_SyncKeyFile (cf_Registry c));
  dg_refresh : rg_Refresh (cf_Registry c) ≠ 0;
  dg_auto : is_Some (rg_AutoRegister (cf_Registry c));
  dg_endpoints : registers c = true → Balancer c = false → lc_AdvertiseEndpoints (cf_Local c) ≠ []
}.

Record doneMesh (c : Config) : Prop := {
  dm_listen : resolve (ms_Listen (cf_Mesh c)) "mesh.listen" defaultMeshListen = Ok (ms_Listen (cf_Mesh c));
  dm_advertise : resolvePeers (ms_Advertise (cf_Mesh c)) "mesh.advertise" = Ok (ms_Advertise (cf_Mesh c));
  dm_told : registers c = true → ms_Advertise (cf_Mesh c) ≠ []
}.

Record donePassthrough (c : Config) : Prop := {
  dp_list : resolveSpecific (lc_Passthrough (cf_Local c)) "local.passthrough" "a wildcard would take the port from algod" =
            Ok (lc_Passthrough (cf_Local c));
  dp_node : Balancer c = true → lc_Passthrough (cf_Local c) = [];
  dp_free pt l : pt ∈ lc_Passthrough (cf_Local c) → l ∈ cf_Listen c → portConflict pt l = false
}.

Record doneExternal (e : External) : Prop := {
  de_name : ex_Name e ≠ ""%string;
  de_url : ex_URL e ≠ ""%string;
  de_check : 0 < ex_HealthCheck e;
  de_tier : ex_Tier e ≠ 0
}.

Record doneTiers (c : Config) : Prop := {
  dt_probe : ms_PathProbeInterval (cf_Mesh c) ≠ 0;
  dt_timeout : ms_PathTimeout (cf_Mesh c) ≠ 0;
  dt_tiers : Forall doneExternal (cf_Tiers c);
  dt_once : NoDup (cr_Exclude (cf_Routing c));
  dt_exclude id : id ∈ cr_Exclude (cf_Routing c) → trim_space id = id ∧ id ≠ ""%string ∧ id ≠ lc_ID (cf_Local c)
}.

Record doneRouting (c : Config) : Prop := {
  du_hysteresis : cr_ReturnHysteresisRounds (cf_Routing c) ≠ 0;
  du_grace : cr_LagGrace (cf_Routing c) ≠ 0;
  du_budget n : cr_RetryBudget (cf_Routing c) = Some n → 0 <= n;
  du_upstream : cr_UpstreamTimeout (cf_Routing c) ≠ 0;
  du_request : cr_RequestTimeout (cf_Routing c) ≠ 0 ∨ cr_RequestTimeout (cf_Routing c) = wi64 (2 * cr_UpstreamTimeout (cf_Routing c));
  du_pending : cr_PendingTTL (cf_Routing c) ≠ 0;
  du_drain : cr_DrainTimeout (cf_Routing c) ≠ 0;
  du_breaker : bk_Threshold (cr_Breaker (cf_Routing c)) ≠ 0 ∧ bk_OpenFor (cr_Breaker (cf_Routing c)) ≠ 0;
  du_wait : lc_WaitTimeout (cf_Local c) ≠ 0
}.

Definition doneRateLimit (c : Config) : Prop :=
  rl_Enabled (cf_RateLimit c) = true →
  RateFinished readFile (cf_RateLimit c) (cf_ClientToken c) (cf_AdminToken c).

Record Finished (c : Config) : Prop := {
  fi_role : doneRole c;
  fi_listen : doneListen c;
  fi_local : doneLocal c;
  fi_schemes : doneSchemes c;
  fi_admin : doneAdmin c;
  fi_registry : doneRegistry c;
  fi_mesh : doneMesh c;
  fi_passthrough : donePassthrough c;
  fi_tiers : doneTiers c;
  fi_routing : doneRouting c;
  fi_ratelimit : doneRateLimit c
}.

(** ** Defaults *)
Lemma or_dur_nonzero x d : d ≠ 0 → or_dur x d ≠ 0.
Proof. unfold or_dur. destruct (x =? 0) eqn:E; lia. Qed.

Lemma or_dur_id x d : x ≠ 0 → or_dur x d = x.
Proof. unfold or_dur. destruct (x =? 0) eqn:E; lia. Qed.

Lemma secretOr_done what v f t : secretOr readFile what v f = Ok t → secretDone t f.
Proof.
  unfold secretOr, secretDone. destruct (v =s "") eqn:Ev; simpl; [| intros [= <-] ->; done].
  destruct (String.eqb_spec f "") as [->|]; simpl; [done |]. destruct (readSecret _ _) as [x|]; [| done]. by intros [= <-] ->.
Qed.

Lemma secretOr_again what v f : secretDone v f → secretOr readFile what v f = Ok v.
Proof.
  unfold secretOr, secretDone. intros H. destruct (String.eqb_spec v "") as [->|]; simpl; [| done].
  destruct (String.eqb_spec f "") as [->|]; simpl; [done |]. by rewrite H.
Qed.

(** ** Each step: what it leaves, what it changes, and that once is enough *)

Lemma ParseRole_ok s r : ParseRole s = Ok r → r = RoleNode ∨ r = RoleBalancer.
Proof. unfold ParseRole. destruct (_ || _); [intros [= <-]; by left |]. destruct (_ =s _); [intros [= <-]; by right | done]. Qed.

Lemma ParseMode_ok s m : ParseMode s = Ok m → s = ""%string ∨ s = ModeFallback ∨ s = ModeLoadBalancer.
Proof.
  unfold ParseMode. destruct (_ || _) eqn:E; [intros _; right; bprop; destruct E; bprop; auto |].
  destruct (String.eqb_spec s ""); [by left | done].
Qed.

Lemma finishRole_done c c' :
  finishRole c = Ok c' → doneRole c' ∧ ∃ r m, c' = c <| cf_Role := r |> <| cf_Mode := m |>.
Proof.
  unfold finishRole. intros (r & Hr%ParseRole_ok & H)%bind_inv. apply bind_inv in H as (m0 & Hm%ParseMode_ok & [= <-]).
  split; [| eauto]. constructor; simpl; [done |].
  destruct Hm as [->|[->| ->]]; [| by destruct (r =s RoleBalancer); auto..]. simpl. destruct (r =s RoleBalancer); auto.
Qed.

Lemma finishRole_again c : doneRole c → finishRole c = Ok c.
Proof. destruct c. intros [Hr Hm]. simpl in *. by destruct Hr as [->| ->], Hm as [->| ->]. Qed.

Lemma default_listens :
  resolve [defaultListen] "listen" defaultListen = Ok [defaultListen] ∧
  resolve [defaultMeshListen] "mesh.listen" defaultMeshListen = Ok [defaultMeshListen].
Proof. vm_compute. done. Qed.

Lemma finishListen_done c c' :
  finishListen readFile c = Ok c' → doneListen c' ∧ ∃ l t, c' = c <| cf_Listen := l |> <| cf_ClientToken := t |>.
Proof.
  unfold finishListen. intros (l & Hl & H)%bind_inv. apply bind_inv in H as (t & Ht & [= <-]). split; [| eauto].
  constructor; simpl; [| by eapply secretOr_done]. by eapply resolve_twice; [apply default_listens |].
Qed.

Lemma finishListen_again c : doneListen c → finishListen readFile c = Ok c.
Proof. intros [Hl Ht]. unfold finishListen. rewrite Hl, (secretOr_again _ _ _ Ht). by destruct c. Qed.

Lemma localID_ok l id : localID hostname l = Some id → id ≠ ""%string.
Proof.
  unfold localID. destruct (String.eqb_spec (lc_ID l) ""); simpl; [| by intros [= <-]].
  destruct hostname as [h|]; [| done]. destruct (String.eqb_spec h ""); [done | by intros [= <-]].
Qed.

Lemma or_string_nonempty x d : d ≠ ""%string → or_string x d ≠ ""%string.
Proof. unfold or_string. by destruct (String.eqb_spec x ""). Qed.

Lemma or_string_id x d : x ≠ ""%string → or_string x d = x.
Proof. unfold or_string. by destruct (String.eqb_spec x ""). Qed.

Lemma finishLocal_done c c' :
  finishLocal hostname c = Ok c' → doneLocal c' ∧ ∃ g id, c' = c <| cf_Log := g |> <| cf_Local ::= (λ l, l <| lc_ID := id |>) |>.
Proof.
  unfold finishLocal. destruct (localID _ _) as [id|] eqn:Ei; [| done]. apply localID_ok in Ei.
  destruct (Balancer c && _) eqn:E1; [done |]. destruct (negb (Balancer c) && (_ <>s _)) eqn:E2; [done |].
  destruct (negb (Balancer c) && (_ =s _)) eqn:E3; [done |]. intros [= <-]. split; [| by eexists _, id].
  constructor; simpl; [done | by apply or_string_nonempty | |]; change (Balancer (c <| cf_Log ::= _ |> <| cf_Local := _ |>)) with (Balancer c);
    destruct (Balancer c); simpl in *; bprop; naive_solver.
Qed.

Lemma finishLocal_again c : doneLocal c → finishLocal hostname c = Ok c.
Proof.
  intros [Hi Hg Hn Hd]. unfold finishLocal, localID. rewrite (proj2 (String.eqb_neq _ _) Hi). simpl.
  assert (c <| cf_Log ::= (λ g, g <| lg_Level := or_string (lg_Level g) "info" |>) |> <| cf_Local := (cf_Local c) <| lc_ID := lc_ID (cf_Local c) |> |> = c) as E.
  { destruct c as [? ? ? ? ? ? ? [lev ?] []]. simpl in *. lazy -[or_string]. by rewrite or_string_id. }
  destruct (Balancer c) eqn:Eb; simpl.
  - rewrite (proj2 (String.eqb_neq _ _) (proj1 Hn eq_refl)). by rewrite E.
  - destruct (String.eqb_spec (lc_Network (cf_Local c)) "") as [|Hne]; simpl; [| by apply Hn in Hne].
    rewrite (proj2 (String.eqb_neq _ _) (Hd eq_refl)). by rewrite E.
Qed.

Lemma schemed_with u : schemed (withScheme u).
Proof. apply withScheme_twice. Qed.

Lemma schemed_map l : Forall schemed (withScheme <$> l).
Proof. apply Forall_fmap, Forall_forall. intros; apply schemed_with. Qed.

Lemma schemed_map_id l : Forall schemed l → withScheme <$> l = l.
Proof. induction 1 as [|u l Hu _ IH]; [done |]. by rewrite fmap_cons, Hu, IH. Qed.

Lemma finishSchemes_done c : doneSchemes (finishSchemes c).
Proof.
  constructor; simpl.
  - apply schemed_map.
  - apply schemed_with.
  - apply Forall_fmap, Forall_forall. intros n _. apply schemed_map.
  - apply Forall_fmap, Forall_forall. intros e _. apply schemed_with.
Qed.

(** A map that leaves every element as it is. *)
Lemma fmap_same {A} (f : A → A) l : Forall (λ x, f x = x) l → f <$> l = l.
Proof. induction 1 as [|x l Hx _ IH]; [done |]. by rewrite fmap_cons, Hx, IH. Qed.

Lemma finishSchemes_again c : doneSchemes c → finishSchemes c = c.
Proof.
  intros [H1 H2 H3 H4]. unfold finishSchemes.
  destruct c as [? ? ? ? ? ? ? ? [? ? ? eps] [? ? ? ? ? url ? ? ? ? ? st] ? ex]. simpl in *. lazy -[withScheme fmap list_fmap].
  rewrite (schemed_map_id eps) by done. rewrite H2.
  rewrite (fmap_same _ st), (fmap_same _ ex); [done | |].
  - eapply Forall_impl; [exact H4 |]. intros [] E. simpl in *. by rewrite E.
  - eapply Forall_impl; [exact H3 |]. intros [] E. simpl in *. by rewrite (schemed_map_id _ E).
Qed.

Lemma finishAdmin_done c c' :
  finishAdmin readFile c = Ok c' → doneAdmin c' ∧ ∃ t, c' = c <| cf_AdminToken := t |>.
Proof.
  unfold finishAdmin, doneAdmin, adminPath. destruct (_ && _) eqn:E0.
  - destruct (readSecret _ _) as [t|e] eqn:Er.
    + intros [= <-]. split; [| eauto]. intros Et _. change (t = ""%string) in Et. subst t. by left.
    + destruct (negb _ && _) eqn:Ee; [| done]. intros [= <-]. split; [| exists (cf_AdminToken c); by destruct c].
      intros _ _. right. bprop. split; [done |]. rewrite Er. destruct e; auto; done.
  - intros [= <-]. split; [| exists (cf_AdminToken c); by destruct c]. intros E [H|H].
    + rewrite E in E0. rewrite (proj2 (negb_true_iff _) (proj2 (String.eqb_neq _ _) H)) in E0. done.
    + rewrite E in E0. rewrite (proj2 (String.eqb_neq _ _) H), orb_true_r in E0. done.
Qed.

Lemma finishAdmin_again c : doneAdmin c → finishAdmin readFile c = Ok c.
Proof.
  unfold finishAdmin, doneAdmin, adminPath. intros H. destruct (cf_AdminToken c =s "") eqn:E0; [| done]. simpl.
  destruct ((cf_AdminTokenFile c <>s "") || (lc_DataDir (cf_Local c) <>s "")) eqn:E1; [| done]. bprop.
  assert (cf_AdminToken c = ""%string) as Et by (by bprop).
  destruct H as [H|[Hf [H|H]]]; [done | by destruct E1; bprop; auto | | |]; rewrite H; simpl.
  - destruct c; simpl in *; by subst.
  - rewrite Hf. done.
  - rewrite Hf. done.
Qed.

Lemma registryType_nonempty r : registryType r ≠ ""%string.
Proof.
  unfold registryType. destruct (String.eqb_spec (rg_Type r) ""); simpl; [| done].
  destruct (negb _); [done |]. by destruct (_ <>s _).
Qed.

Lemma registryType_id r : rg_Type r ≠ ""%string → registryType r = rg_Type r.
Proof. intros H. unfold registryType. by rewrite (proj2 (String.eqb_neq _ _) H). Qed.

(** Reading the sync key from its file does not invalidate the registry. *)
Lemma registryError_key what b r key f a :
  registryError DecodeAddress b r = None → secretOr readFile what (rg_SyncKey r) (rg_SyncKeyFile r) = Ok key →
  registryError DecodeAddress b (r <| rg_SyncKey := key |> <| rg_Refresh := f |> <| rg_AutoRegister := a |>) = None.
Proof.
  intros H Hk. assert ((key =s "") && (rg_SyncKeyFile r =s "") = true → (rg_SyncKey r =s "") && (rg_SyncKeyFile r =s "") = true) as Hs.
  { intros E. revert Hk. unfold secretOr. bprop. rewrite H1. simpl. rewrite andb_false_r. intros [= ->]. by subst. }
  set (r' := r <| rg_SyncKey := key |> <| rg_Refresh := f |> <| rg_AutoRegister := a |>).
  assert (rg_Type r' = rg_Type r ∧ rg_AppID r' = rg_AppID r ∧ rg_SyncKey r' = key ∧ rg_SyncKeyFile r' = rg_SyncKeyFile r ∧
    rg_AlgodURL r' = rg_AlgodURL r ∧ rg_SyncAddress r' = rg_SyncAddress r ∧ rg_File r' = rg_File r ∧ rg_Static r' = rg_Static r)
    as (E1 & E2 & E3 & E4 & E5 & E6 & E7 & E8) by done.
  unfold registryError in *. rewrite E1, E2, E3, E4, E5, E6, E7, E8. destruct (rg_Type r =s "algorand"); [| done].
  destruct (rg_AppID r =? 0); [done |]. destruct ((key =s "") && (rg_SyncKeyFile r =s "")); [by rewrite Hs in H |].
  by destruct ((rg_SyncKey r =s "") && _).
Qed.

Lemma length_zero {A} (l : list A) : (Z.of_nat (length l) =? 0) = true ↔ l = [].
Proof. destruct l; simpl; split; [done | done | lia | done]. Qed.

Lemma length_nonzero {A} (l : list A) : (Z.of_nat (length l) =? 0) = false ↔ l ≠ [].
Proof. destruct l; simpl; split; [done | done | done | lia]. Qed.

Lemma finishRegistry_done c c' :
  finishRegistry readFile DecodeAddress c = Ok c' →
  doneRegistry c' ∧ ∃ ty key f a, c' = c <| cf_Registry := (cf_Registry c) <| rg_Type := ty |> <| rg_SyncKey := key |>
                                            <| rg_Refresh := f |> <| rg_AutoRegister := a |> |>.
Proof.
  unfold finishRegistry. destruct (registryError _ _ _) eqn:Ee; [done |]. intros H. apply bind_inv in H as (key & Hk & H).
  destruct (_ && (Z.of_nat _ =? 0)) eqn:En; [done |]. injection H as <-. split; [| by eexists _, _, _, _].
  constructor.
  - exact (registryType_nonempty _).
  - exact (registryError_key _ _ _ _ _ _ Ee Hk).
  - exact (secretOr_done _ _ _ _ Hk).
  - exact (or_dur_nonzero _ (5 * Minute) ltac:(done)).
  - by eexists.
  - unfold registers. intros Hr Hb. apply length_nonzero.
    change (Balancer _) with (Balancer c) in Hb. rewrite Hb in En. simpl in *. by rewrite Hr in En.
Qed.

Lemma finishRegistry_again c : doneRegistry c → finishRegistry readFile DecodeAddress c = Ok c.
Proof.
  intros [H1 H2 H3 H4 [a H5] H6]. unfold finishRegistry. rewrite registryType_id by done.
  assert ((cf_Registry c) <| rg_Type := rg_Type (cf_Registry c) |> = cf_Registry c) as -> by (by destruct (cf_Registry c)).
  rewrite H2. rewrite (secretOr_again _ _ _ H3). cbn [mbind result_bind]. rewrite H5. cbn [from_option id].
  assert (a && (rg_Type (cf_Registry c) <>s "static") = registers c) as -> by (unfold registers; by rewrite H5).
  destruct (_ && (Z.of_nat _ =? 0)) eqn:En.
  - bprop. apply length_zero in H0. by destruct H6.
  - destruct c as [? ? ? ? ? ? ? ? ? [] ? ? ? ?]; simpl in *. lazy -[or_dur Z.mul]. rewrite or_dur_id by done. by subst.
Qed.

Lemma finishMesh_done c c' :
  finishMesh c = Ok c' → doneMesh c' ∧ ∃ l a, c' = c <| cf_Mesh := (cf_Mesh c) <| ms_Listen := l |> <| ms_Advertise := a |> |>.
Proof.
  unfold finishMesh. intros H. apply bind_inv in H as (l & Hl & H). apply bind_inv in H as (a & Ha & H).
  destruct (_ && _) eqn:E; [done |]. injection H as <-. split; [| by eexists _, _]. constructor.
  - exact (resolve_twice _ _ _ _ (proj2 default_listens) Hl).
  - exact (resolveSpecific_twice _ _ _ _ Ha).
  - unfold registers. simpl. intros Hr. apply length_nonzero. rewrite <- andb_assoc, Hr in E. by rewrite andb_true_r in E.
Qed.

Lemma finishMesh_again c : doneMesh c → finishMesh c = Ok c.
Proof.
  intros [H1 H2 H3]. unfold finishMesh. rewrite H1. cbn [mbind result_bind]. rewrite H2. cbn [mbind result_bind].
  rewrite <- andb_assoc. fold (registers c). destruct (_ && _) eqn:E.
  - apply andb_true_iff in E as [E%length_zero Hr]. by destruct H3.
  - by destruct c as [? ? ? ? ? ? ? ? ? ? [] ? ? ?].
Qed.

Lemma existsb_false {A} (f : A → bool) l : existsb f l = false ↔ ∀ x, x ∈ l → f x = false.
Proof.
  rewrite <- not_true_iff_false, existsb_exists. setoid_rewrite <- list_elem_of_In. split.
  - intros H x Hx. apply not_true_iff_false. eauto.
  - intros H (x & Hx & E). by rewrite H in E.
Qed.

Lemma finishPassthrough_done c c' :
  finishPassthrough c = Ok c' → donePassthrough c' ∧ ∃ p, c' = c <| cf_Local ::= (λ l, l <| lc_Passthrough := p |>) |>.
Proof.
  unfold finishPassthrough. intros H. apply bind_inv in H as (p & Hp & H).
  destruct (Balancer c && _) eqn:E1; [done |]. destruct (existsb _ p) eqn:E2; [done |]. injection H as <-. split; [| by eexists].
  constructor.
  - exact (resolveSpecific_twice _ _ _ _ Hp).
  - intros Hb. change (Balancer _) with (Balancer c) in Hb. rewrite Hb in E1. simpl in *. by destruct p.
  - intros pt l Hpt Hl. by apply (proj1 (existsb_false _ _) (proj1 (existsb_false _ _) E2 pt Hpt) l).
Qed.

Lemma finishPassthrough_again c : donePassthrough c → finishPassthrough c = Ok c.
Proof.
  intros [H1 H2 H3]. unfold finishPassthrough. rewrite H1. cbn [mbind result_bind].
  destruct (Balancer c && _) eqn:E1.
  - apply andb_true_iff in E1 as [Hb E1]. by rewrite (H2 Hb) in E1.
  - rewrite (proj2 (existsb_false _ _)); [by destruct c as [? ? ? ? ? ? ? ? [] ? ? ? ? ?] |].
    intros pt Hpt. apply existsb_false. intros l Hl. by apply H3.
Qed.

Lemma finishExternals_done es es' :
  finishExternals es = Ok es' → Forall doneExternal es' ∧ ex_URL <$> es' = ex_URL <$> es.
Proof.
  revert es'. induction es as [|e es IH]; intros es'; cbn [finishExternals]; [by intros [= <-] |].
  destruct (_ || _) eqn:E1; [done |]. destruct (_ <? 0) eqn:E2; [done |]. intros H. apply bind_inv in H as (rest & [IH1 IH2]%IH & [= <-]).
  split; [| by rewrite !fmap_cons, IH2]. constructor; [| done]. bprop. constructor; simpl; [done | done | |].
  - unfold RecordSettersUsingExistingGetters.const, or_dur. destruct (ex_HealthCheck e =? 0) eqn:E; [done | lia].
  - by apply or_dur_nonzero.
Qed.

Lemma finishExternals_again es : Forall doneExternal es → finishExternals es = Ok es.
Proof.
  induction 1 as [|e es [H1 H2 H3 H4] _ IH]; [done |]. cbn [finishExternals].
  rewrite (proj2 (String.eqb_neq _ _) H1), (proj2 (String.eqb_neq _ _) H2). simpl.
  destruct (_ <? 0) eqn:E; [lia |]. rewrite IH. simpl. destruct e; simpl in *. lazy -[or_dur Minute].
  by rewrite !or_dur_id by lia.
Qed.

(** The list of exclusions: the entries, each once, none of them this agent. *)
Lemma finishExclude_iff self ids out excluded r :
  self ∉ excluded →
  finishExclude self ids out excluded = Ok r ↔ (self ∉ entries ids) ∧ r = out ++ firsts excluded (entries ids).
Proof.
  revert out excluded. induction ids as [|id ids IH]; intros out excluded Hs; cbn [finishExclude].
  { simpl. rewrite app_nil_r. split; [intros [= <-]; split; [apply not_elem_of_nil | done] | by intros [_ ->]]. }
  rewrite entries_cons. set (t := trim_space id). destruct (t =s "") eqn:Et; simpl; [by apply IH |].
  case_bool_decide as He; simpl.
  - rewrite IH by done. rewrite not_elem_of_cons. split; [| tauto]. intros [H1 H2]. split_and!; [by intros -> | done..].
  - destruct (String.eqb_spec t self) as [E|E].
    + split; [done |]. intros [H _]. destruct H. rewrite E. left.
    + rewrite IH by set_solver. rewrite not_elem_of_cons, <- app_assoc. simpl. split; [intros [H1 H2]; split_and!; [congruence | done..] | tauto].
Qed.

Lemma finishTiers_done c c' :
  finishTiers c = Ok c' →
  doneTiers c' ∧ ∃ p t es ex, ex_URL <$> es = ex_URL <$> cf_Tiers c ∧
    c' = c <| cf_Mesh := (cf_Mesh c) <| ms_PathProbeInterval := p |> <| ms_PathTimeout := t |> |>
           <| cf_Tiers := es |> <| cf_Routing := (cf_Routing c) <| cr_Exclude := ex |> |>.
Proof.
  unfold finishTiers. intros H. apply bind_inv in H as (es & [Hes Hu]%finishExternals_done & H).
  apply bind_inv in H as (ex & Hex & [= <-]). apply finishExclude_iff in Hex as [Hs Hx]; [| set_solver].
  simpl in Hx. split; [| by eexists _, _, es, ex]. constructor.
  - exact (or_dur_nonzero _ (30 * Second) ltac:(done)).
  - exact (or_dur_nonzero _ (2 * Second) ltac:(done)).
  - exact Hes.
  - change (NoDup ex). rewrite Hx. apply firsts_NoDup.
  - intros id. change (id ∈ ex → trim_space id = id ∧ id ≠ ""%string ∧ id ≠ lc_ID (cf_Local c)). rewrite Hx. intros [Hid _]%elem_of_firsts.
    destruct (elem_of_entries _ _ Hid). split_and!; [done..|]. by intros ->.
Qed.

Lemma finishTiers_again c : doneTiers c → finishTiers c = Ok c.
Proof.
  intros [H1 H2 H3 H4 H5]. unfold finishTiers.
  assert (c <| cf_Mesh ::= (λ m, m <| ms_PathProbeInterval := or_dur (ms_PathProbeInterval m) (30 * Second) |>
                                   <| ms_PathTimeout := or_dur (ms_PathTimeout m) (2 * Second) |>) |> = c) as ->.
  { destruct c as [? ? ? ? ? ? ? ? ? ? [] ? ? ?]. simpl in *. lazy -[or_dur Z.mul Second]. by rewrite !or_dur_id. }
  rewrite finishExternals_again by done. cbn [mbind result_bind].
  assert (entries (cr_Exclude (cf_Routing c)) = cr_Exclude (cf_Routing c)) as He.
  { apply entries_id, Forall_forall. intros id Hid. destruct (H5 id Hid) as (? & ? & _). done. }
  rewrite (proj2 (finishExclude_iff _ _ _ _ (cr_Exclude (cf_Routing c)) (not_elem_of_empty _))).
  - by destruct c as [? ? ? ? ? ? ? ? ? ? ? ? [] ?].
  - rewrite He. split; [intros Hid; by destruct (H5 _ Hid) as (_ & _ & ?) |]. by rewrite firsts_id by set_solver.
Qed.

Lemma finishRouting_done c c' :
  finishRouting c = Ok c' →
  doneRouting c' ∧ ∃ r w, cr_Exclude r = cr_Exclude (cf_Routing c) ∧
    c' = c <| cf_Routing := r |> <| cf_Local := (cf_Local c) <| lc_WaitTimeout := w |> |>.
Proof.
  unfold finishRouting. destruct (negativeBudget _) eqn:Eb; [done |]. destruct (_ <? 0) eqn:Er; [done |]. intros [= <-].
  split; [| eexists _, (or_dur (lc_WaitTimeout (cf_Local c)) (60 * Second)); split; cycle 1; reflexivity]. constructor.
  - exact (or_dur_nonzero _ 3 ltac:(done)).
  - exact (or_dur_nonzero _ (1500 * Millisecond) ltac:(done)).
  - intros n. change (cr_RetryBudget (cf_Routing c) = Some n → 0 <= n). intros E. unfold negativeBudget in Eb. rewrite E in Eb. lia.
  - exact (or_dur_nonzero _ (60 * Second) ltac:(done)).
  - unfold or_dur at 1. destruct (cr_RequestTimeout (cf_Routing c) =? 0) eqn:E; [right | left]; simpl; unfold RecordSettersUsingExistingGetters.const, or_dur; rewrite E; [done | lia].
  - exact (or_dur_nonzero _ (10 * Second) ltac:(done)).
  - exact (or_dur_nonzero _ (10 * Second) ltac:(done)).
  - exact (conj (or_dur_nonzero _ 5 ltac:(done)) (or_dur_nonzero _ (10 * Second) ltac:(done))).
  - exact (or_dur_nonzero _ (60 * Second) ltac:(done)).
Qed.

Lemma finishRouting_again c : doneRouting c → 0 <= cr_RequestTimeout (cf_Routing c) → finishRouting c = Ok c.
Proof.
  intros [H1 H2 H3 H4 H5 H6 H7 [H8 H9] H10] Hr. unfold finishRouting.
  assert (negativeBudget (cf_Routing c) = false) as ->.
  { unfold negativeBudget. destruct (cr_RetryBudget (cf_Routing c)) eqn:E; [| done]. specialize (H3 _ eq_refl). lia. }
  destruct (_ <? 0) eqn:E; [lia |]. f_equal.
  assert (or_dur (cr_RequestTimeout (cf_Routing c)) (wi64 (2 * cr_UpstreamTimeout (cf_Routing c))) = cr_RequestTimeout (cf_Routing c)) as HR.
  { unfold or_dur. destruct (_ =? 0) eqn:E0; [| done]. destruct H5 as [H5|H5]; [lia | done]. }
  destruct c as [? ? ? ? ? ? ? ? [] ? ? ? [? ? ? ? ? ? ? ? ? [] ?] ?]. simpl in *. lazy -[or_dur Z.mul Second wi64 Millisecond].
  rewrite (or_dur_id cr_UpstreamTimeout) by done. rewrite HR. by rewrite !or_dur_id by done.
Qed.

Lemma finishRateLimit_done c c' :
  finishRateLimit ord readFile c = Ok c' → doneRateLimit c' ∧ ∃ rl, c' = c <| cf_RateLimit := rl |>.
Proof.
  unfold finishRateLimit. intros H. apply bind_inv in H as (rl & H & [= <-]). split; [| by eexists].
  unfold doneRateLimit. change (rl_Enabled rl = true → RateFinished readFile rl (cf_ClientToken c) (cf_AdminToken c)). intros He.
  destruct (rl_Enabled (cf_RateLimit c)) eqn:E.
  - by eapply finish_finished.
  - unfold finish in H. rewrite E in H. simpl in H. congruence.
Qed.

Lemma finishRateLimit_again c : doneRateLimit c → finishRateLimit ord readFile c = Ok c.
Proof.
  unfold doneRateLimit, finishRateLimit. intros H. destruct (rl_Enabled (cf_RateLimit c)) eqn:E.
  - rewrite finish_again by auto. by destruct c.
  - unfold finish. rewrite E. by destruct c.
Qed.

(** ** Finish *)

Lemma schemed_urls es es' :
  ex_URL <$> es' = ex_URL <$> es → Forall (λ e, schemed (ex_URL e)) es → Forall (λ e, schemed (ex_URL e)) es'.
Proof. intros E H. change (Forall (schemed ∘ ex_URL) es'). change (Forall (schemed ∘ ex_URL) es) in H. rewrite <- Forall_fmap in *. by rewrite E. Qed.

Lemma finishSchemes_frame c :
  ∃ eps url st es, finishSchemes c = c <| cf_Local := (cf_Local c) <| lc_AdvertiseEndpoints := eps |> |>
    <| cf_Registry := (cf_Registry c) <| rg_AlgodURL := url |> <| rg_Static := st |> |> <| cf_Tiers := es |>.
Proof. by eexists _, _, _, _. Qed.

(** The next configuration, as the record it is. *)
Ltac to_record E := lazy in E; match type of E with ?c = _ => subst c end.

(** What [Finish] accepts is a well-formed configuration: known role and
    mode, listeners that do not take each other's port, nothing passed through
    that a listener binds, a network exactly on a balancer, URLs with schemes,
    a complete registry section and somewhere to be reached when the agent
    registers, externals with name and URL, exclusions that do not name the
    agent itself, every default filled in, and a well-formed rate-limit section
    when rate limits are on. *)
Lemma Finish_leaves c c' : Finish ord readFile hostname DecodeAddress c = Ok c' → Finished c'.
Proof.
  unfold Finish. intros H. destruct c as [? ? ? ? ? ? ? [] [] [] [] ? [? ? ? ? ? ? ? ? ? [] ?] ?].
  apply bind_inv in H as (c1 & (D1 & r & m & E)%finishRole_done & H). to_record E.
  apply bind_inv in H as (c2 & (D2 & l & t & E)%finishListen_done & H). to_record E.
  apply bind_inv in H as (c3 & (D3 & g & id & E)%finishLocal_done & H). to_record E.
  match type of H with context [finishSchemes ?c] => pose proof (finishSchemes_done c) as D4; destruct (finishSchemes_frame c) as (eps & url & st & es0 & E) end.
  set (c4 := finishSchemes _) in *. clearbody c4. to_record E.
  apply bind_inv in H as (c5 & (D5 & at_ & E)%finishAdmin_done & H). to_record E.
  apply bind_inv in H as (c6 & (D6 & ty & key & rf & au & E)%finishRegistry_done & H). to_record E.
  apply bind_inv in H as (c7 & (D7 & ml & ma & E)%finishMesh_done & H). to_record E.
  apply bind_inv in H as (c8 & (D8 & p & E)%finishPassthrough_done & H). to_record E.
  apply bind_inv in H as (c9 & (D9 & pp & pt & es & ex & Hu & E)%finishTiers_done & H). to_record E.
  apply bind_inv in H as (c10 & (D10 & [] & w & Hx & E)%finishRouting_done & H). to_record E. simpl in Hx. subst.
  apply finishRateLimit_done in H as (D11 & rl & E). to_record E.
  (* No later step changes the fields a step is about. *)
  constructor.
  - constructor; [exact (dr_role _ D1) | exact (dr_mode _ D1)].
  - constructor; [exact (dl_listen _ D2) | exact (dl_token _ D2)].
  - constructor; [exact (dc_id _ D3) | exact (dc_level _ D3) | exact (dc_network _ D3) | exact (dc_data _ D3)].
  - constructor; [exact (ds_advertise _ D4) | exact (ds_algod _ D4) | exact (ds_static _ D4) | exact (schemed_urls _ _ Hu (ds_tiers _ D4))].
  - exact D5.
  - constructor; [exact (dg_type _ D6) | exact (dg_valid _ D6) | exact (dg_key _ D6) | exact (dg_refresh _ D6) | exact (dg_auto _ D6) | exact (dg_endpoints _ D6)].
  - constructor; [exact (dm_listen _ D7) | exact (dm_advertise _ D7) | exact (dm_told _ D7)].
  - constructor; [exact (dp_list _ D8) | exact (dp_node _ D8) | exact (dp_free _ D8)].
  - constructor; [exact (dt_probe _ D9) | exact (dt_timeout _ D9) | exact (dt_tiers _ D9) | exact (dt_once _ D9) | exact (dt_exclude _ D9)].
  - constructor; [exact (du_hysteresis _ D10) | exact (du_grace _ D10) | exact (du_budget _ D10) | exact (du_upstream _ D10) | exact (du_request _ D10) | exact (du_pending _ D10) | exact (du_drain _ D10) | exact (du_breaker _ D10) | exact (du_wait _ D10)].
  - exact D11.
Qed.

(** A finished configuration is left as it is, when its request timeout is
    not negative. *)
Lemma Finish_again c :
  Finished c → 0 <= cr_RequestTimeout (cf_Routing c) → Finish ord readFile hostname DecodeAddress c = Ok c.
Proof.
  intros [D1 D2 D3 D4 D5 D6 D7 D8 D9 D10 D11] Hr. unfold Finish.
  rewrite finishRole_again by done. cbn [mbind result_bind]. rewrite finishListen_again by done. cbn [mbind result_bind].
  rewrite finishLocal_again by done. cbn [mbind result_bind]. rewrite finishSchemes_again, finishAdmin_again by done. cbn [mbind result_bind].
  rewrite finishRegistry_again by done. cbn [mbind result_bind]. rewrite finishMesh_again by done. cbn [mbind result_bind].
  rewrite finishPassthrough_again by done. cbn [mbind result_bind]. rewrite finishTiers_again by done. cbn [mbind result_bind].
  rewrite finishRouting_again by done. cbn [mbind result_bind]. by apply finishRateLimit_again.
Qed.

(** The steps before the routing's leave its timeouts alone. *)
Definition timeouts (c : Config) : Duration * Duration :=
  (cr_UpstreamTimeout (cf_Routing c), cr_RequestTimeout (cf_Routing c)).

Lemma Finish_timeouts c c' :
  Finish ord readFile hostname DecodeAddress c = Ok c' →
  0 <= cr_RequestTimeout (cf_Routing c) ∧
  timeouts c' = (or_dur (cr_UpstreamTimeout (cf_Routing c)) (60 * Second),
    or_dur (cr_RequestTimeout (cf_Routing c)) (wi64 (2 * or_dur (cr_UpstreamTimeout (cf_Routing c)) (60 * Second)))).
Proof.
  unfold Finish. intros H. destruct c as [? ? ? ? ? ? ? [] [] [] [] ? [? ? ? ? ? ? ? ? ? [] ?] ?].
  apply bind_inv in H as (c1 & (_ & r & m & E)%finishRole_done & H). to_record E.
  apply bind_inv in H as (c2 & (_ & l & t & E)%finishListen_done & H). to_record E.
  apply bind_inv in H as (c3 & (_ & g & id & E)%finishLocal_done & H). to_record E.
  match type of H with context [finishSchemes ?c] => destruct (finishSchemes_frame c) as (eps & url & st & es0 & E) end.
  set (c4 := finishSchemes _) in *. clearbody c4. to_record E.
  apply bind_inv in H as (c5 & (_ & at_ & E)%finishAdmin_done & H). to_record E.
  apply bind_inv in H as (c6 & (_ & ty & key & rf & au & E)%finishRegistry_done & H). to_record E.
  apply bind_inv in H as (c7 & (_ & ml & ma & E)%finishMesh_done & H). to_record E.
  apply bind_inv in H as (c8 & (_ & p & E)%finishPassthrough_done & H). to_record E.
  apply bind_inv in H as (c9 & (_ & pp & pt & es & ex & _ & E)%finishTiers_done & H). to_record E.
  apply bind_inv in H as (c10 & Hr & H). unfold finishRouting in Hr. destruct (negativeBudget _); [done |]. destruct (_ <? 0) eqn:E; [done |].
  apply finishRateLimit_done in H as (_ & rl & ->). injection Hr as <-. simpl in *. split; [lia | done].
Qed.

(** ** Well-formedness, in the words of a configuration's reader *)

(** A host that means every interface, in the spellings the agent looks for. *)
Definition every_interface (h : string) : Prop := h ∈ [""; "0.0.0.0"; "::"]%string.

(** Binding the address w takes the port of s: w is on every interface and
    the ports are one, unless w is IPv4's and s one IPv6 address. *)
Definition claims (w s : string) : Prop :=
  ∃ wh h port, SplitHostPort w = Some (wh, port) ∧ SplitHostPort s = Some (h, port) ∧ every_interface wh ∧
    ¬ (wh = "0.0.0.0"%string ∧ ¬ every_interface h ∧ ∃ ip, ParseIP h = Some ip ∧ To4 ip = None).

(** An address without spaces around it and with a port. *)
Definition address (s h port : string) : Prop :=
  trim_space s = s ∧ SplitHostPort s = Some (h, port) ∧ port ≠ ""%string.

(** Addresses to bind: some, each once, and none that takes another's port. *)
Record binds (l : Addrs) : Prop := {
  bi_some : l ≠ [];
  bi_once : NoDup l;
  bi_address s : s ∈ l → ∃ h port, address s h port;
  bi_free w s : w ∈ l → s ∈ l → w ≠ s → ¬ claims w s
}.

(** Addresses others send to: each once, and each one interface's. *)
Record destinations (l : Addrs) : Prop := {
  de_once : NoDup l;
  de_address s : s ∈ l → ∃ h port, address s h port ∧ ¬ every_interface h
}.

(** A URL that was not given, or one with a scheme. *)
Definition url_text (u : string) : Prop :=
  trim_space u = u ∧ (u = ""%string ∨ ∃ scheme rest, u = scheme +:+ "://" +:+ rest).

(** A secret that is set, has no file, or has a blank one. *)
Definition blank_file (file : string) : Prop := ∃ b, readFile file = Ok b ∧ trim_space b = ""%string.
Definition secret (value file : string) : Prop := value ≠ ""%string ∨ file = ""%string ∨ blank_file file.

(** A registry record. *)
Record record_ok (n : NodeRecord) : Prop := {
  ro_id : nr_ID n ≠ ""%string ∧ (String.length (nr_ID n) <= 48)%nat;
  ro_network : nr_Network n ≠ ""%string;
  ro_role : nr_Role n ∈ [""; "node"; "balancer"]%string;
  ro_node : nr_Role n ≠ "balancer"%string → nr_Endpoints n ≠ [];
  ro_balancer : nr_Role n = "balancer"%string → ai_Addrs (nr_Agent n) ≠ [] ∨ ai_Addr (nr_Agent n) ≠ ""%string;
  ro_tier : 0 <= nr_Tier n
}.

Definition registry_ok (balancer : bool) (r : Reg) : Prop :=
  rg_Type r = "algorand"%string ∧ rg_AppID r ≠ 0 ∧ (rg_SyncKey r ≠ ""%string ∨ rg_SyncKeyFile r ≠ ""%string) ∧
    (balancer = true → rg_AlgodURL r ≠ ""%string) ∧ (rg_SyncAddress r ≠ ""%string → is_Some (DecodeAddress (rg_SyncAddress r))) ∨
  rg_Type r = "file"%string ∧ rg_File r ≠ ""%string ∨
  rg_Type r = "memory"%string ∨
  rg_Type r = "static"%string ∧ Forall record_ok (rg_Static r).

(** A number that is finite and not negative. *)
Definition amount (v : float64) : Prop := nleb nzero v = true ∧ v ≠ SpecFloat.S754_infinity false.

Definition plan_ok (name : string) (p : RatePlan) : Prop :=
  name ≠ ""%string ∧ amount (rp_PerMinute p) ∧ amount (rp_PerDay p) ∧
  0 <= pc_MaxGroups (rp_Simulate p) ∧ 0 <= pc_MaxRounds (rp_Simulate p).

(** An address, or a network. *)
Definition network_text (t : string) : Prop :=
  if contains "/" t then is_Some (netip_ParsePrefix t) else is_Some (ParseAddr t).

Record limits_ok (r : RateLimit) (clientToken adminToken : string) : Prop := {
  li_client : clientToken = ""%string;
  li_some : rl_Plans r ≠ ∅;
  li_plans name p : rl_Plans r !! name = Some p → plan_ok name p;
  li_weights : (∀ k, is_Some (rl_Weights r !! k) ↔ k ∈ CostKeys) ∧ ∀ k v, rl_Weights r !! k = Some v → amount v;
  li_effort : (∀ k, is_Some (rl_Effort r !! k) ↔ k ∈ EffortKeys) ∧ ∀ k v, rl_Effort r !! k = Some v → amount v;
  li_simulate : ∃ v, rl_SimulatePerSecond r = Some v ∧ amount v;
  li_prefix : 1 <= rl_IPv6Prefix r <= 128;
  li_keys : 0 < rl_MaxKeys r;
  li_anonymous : ∃ a, rl_AnonymousPlan r = Some a ∧ (a = ""%string ∨ is_Some (rl_Plans r !! a));
  li_proxies t : t ∈ rl_TrustedProxies r → network_text (trim_space t);
  li_tokens t : t ∈ rl_Tokens r →
    rt_Name t ≠ ""%string ∧ rt_Token t ≠ ""%string ∧ rt_Token t ≠ adminToken ∧ is_Some (rl_Plans r !! rt_Plan t) ∧
    (rt_TokenFile t ≠ ""%string → ∃ b, readFile (rt_TokenFile t) = Ok b ∧ trim_space b = rt_Token t);
  li_names : NoDup (rt_Name <$> rl_Tokens r);
  li_values : NoDup (rt_Token <$> rl_Tokens r)
}.

(** Where the admin token is read from. *)
Definition admin_file (c : Config) : string :=
  if decide (cf_AdminTokenFile c = ""%string) then Join (lc_DataDir (cf_Local c)) "algod.admin.token" else cf_AdminTokenFile c.

Record WellFormed (c : Config) : Prop := {
  cw_role : cf_Role c ∈ ["node"; "balancer"]%string;
  cw_mode : cf_Mode c ∈ [ModeFallback; ModeLoadBalancer];
  cw_listen : binds (cf_Listen c);
  cw_mesh : binds (ms_Listen (cf_Mesh c));
  cw_advertise : destinations (ms_Advertise (cf_Mesh c));
  cw_passthrough : destinations (lc_Passthrough (cf_Local c));
  cw_apart pt l : pt ∈ lc_Passthrough (cf_Local c) → l ∈ cf_Listen c → pt ≠ l ∧ ¬ claims l pt;
  cw_id : lc_ID (cf_Local c) ≠ ""%string;
  cw_level : lg_Level (cf_Log c) ≠ ""%string;
  cw_balancer : cf_Role c = "balancer"%string → lc_Network (cf_Local c) ≠ ""%string ∧ lc_Passthrough (cf_Local c) = [];
  cw_node : cf_Role c = "node"%string → lc_Network (cf_Local c) = ""%string ∧ lc_DataDir (cf_Local c) ≠ ""%string;
  cw_urls : Forall url_text (lc_AdvertiseEndpoints (cf_Local c)) ∧ url_text (rg_AlgodURL (cf_Registry c)) ∧
    Forall (λ n, Forall url_text (nr_Endpoints n)) (rg_Static (cf_Registry c)) ∧ Forall (λ e, url_text (ex_URL e)) (cf_Tiers c);
  cw_client : secret (cf_ClientToken c) (cf_ClientTokenFile c);
  cw_sync : secret (rg_SyncKey (cf_Registry c)) (rg_SyncKeyFile (cf_Registry c));
  cw_admin : cf_AdminToken c ≠ ""%string ∨ cf_AdminTokenFile c = ""%string ∧ lc_DataDir (cf_Local c) = ""%string ∨
    blank_file (admin_file c) ∨
    cf_AdminTokenFile c = ""%string ∧ readFile (admin_file c) ∈ [Err ErrNotExist; Err ErrNotDir];
  cw_registry : registry_ok (cf_Role c =s "balancer") (cf_Registry c);
  cw_refresh : rg_Refresh (cf_Registry c) ≠ 0;
  cw_register : ∃ auto, rg_AutoRegister (cf_Registry c) = Some auto ∧
    (auto = true → rg_Type (cf_Registry c) ≠ "static"%string →
     ms_Advertise (cf_Mesh c) ≠ [] ∧ (cf_Role c = "node"%string → lc_AdvertiseEndpoints (cf_Local c) ≠ []));
  cw_tiers e : e ∈ cf_Tiers c → ex_Name e ≠ ""%string ∧ ex_URL e ≠ ""%string ∧ 0 < ex_HealthCheck e ∧ ex_Tier e ≠ 0;
  cw_exclude : NoDup (cr_Exclude (cf_Routing c)) ∧
    ∀ id, id ∈ cr_Exclude (cf_Routing c) → trim_space id = id ∧ id ≠ ""%string ∧ id ≠ lc_ID (cf_Local c);
  cw_budget n : cr_RetryBudget (cf_Routing c) = Some n → 0 <= n;
  cw_defaults : Forall (λ x, x ≠ 0)
    [ms_PathProbeInterval (cf_Mesh c); ms_PathTimeout (cf_Mesh c); cr_ReturnHysteresisRounds (cf_Routing c);
     cr_LagGrace (cf_Routing c); cr_UpstreamTimeout (cf_Routing c); cr_PendingTTL (cf_Routing c); cr_DrainTimeout (cf_Routing c);
     bk_Threshold (cr_Breaker (cf_Routing c)); bk_OpenFor (cr_Breaker (cf_Routing c)); lc_WaitTimeout (cf_Local c)];
  cw_request : cr_RequestTimeout (cf_Routing c) ≠ 0 ∨
    cr_RequestTimeout (cf_Routing c) = wi64 (2 * cr_UpstreamTimeout (cf_Routing c));
  cw_limits : rl_Enabled (cf_RateLimit c) = true → limits_ok (cf_RateLimit c) (cf_ClientToken c) (cf_AdminToken c)
}.

(** *** Each of the code's checks establishes its part *)
Lemma wildcardHost_spec h : wildcardHost h = true ↔ every_interface h.
Proof. unfold wildcardHost, every_interface. rewrite !orb_true_iff, !String.eqb_eq. set_solver. Qed.

Lemma port_covered w wh port h :
  SplitHostPort w = Some (wh, port) → ¬ every_interface h →
  wildcardCovers w h = true ↔ ¬ (wh = "0.0.0.0"%string ∧ ∃ ip, ParseIP h = Some ip ∧ To4 ip = None).
Proof.
  intros Hw _. unfold wildcardCovers, splitOrEmpty. rewrite Hw. cbn [default id].
  destruct (String.eqb_spec wh "0.0.0.0") as [->|Hne]; cbn [negb]; [| naive_solver].
  destruct (ParseIP h) as [ip|]; [| naive_solver].
  destruct (To4 ip) eqn:E; cbn [isSome]; split; try done.
  - intros _ (_ & ? & [= <-] & ?). congruence.
  - intros Hn. exfalso. apply Hn. split; [done |]. by exists ip.
Qed.

Lemma claims_takes w s : w ≠ s → claims w s → takes w s = true.
Proof.
  intros Hne (wh & h & port & Hw & Hs & He & Hn). apply takes_true. exists h, port. split_and!; [done | | done |].
  - unfold wildOn. rewrite Hw. cbn. by rewrite (proj2 (wildcardHost_spec wh) He).
  - destruct (wildcardHost h) eqn:Eh; [by left | right]. assert (¬ every_interface h) as Heh by (rewrite <- wildcardHost_spec; by rewrite Eh).
    apply (port_covered w wh port h Hw Heh). intros (? & ?). apply Hn. by split_and!.
Qed.

Lemma resolved_binds l what def : trim_space def ≠ ""%string → resolve l what def = Ok l → binds l.
Proof.
  intros Hdef (Hb & Ht & El)%resolve_iff. rewrite forallb_forall in Hb.
  assert (entries l ≠ [] ∧ l = firsts ∅ (entries l)) as [Hne Hl].
  { unfold resolved in El. destruct (entries l) as [|x xs] eqn:E; [| by split].
    subst l. rewrite entries_cons in E. by destruct (String.eqb_spec (trim_space def) ""). }
  split.
  - intros ->. done.
  - rewrite Hl. apply firsts_NoDup.
  - intros s Hs. rewrite Hl in Hs. apply elem_of_firsts in Hs as [Hs _]. destruct (elem_of_entries _ _ Hs) as [? _].
    destruct (bindable_split s) as (h & port & ? & ?); [by apply Hb, list_elem_of_In |]. exists h, port. by split_and!.
  - intros w s Hw Hs Hd Hc. rewrite Hl in Hw, Hs. apply elem_of_firsts in Hw as [Hw _], Hs as [Hs _].
    pose proof (claims_takes w s Hd Hc) as E. by rewrite (Ht w s Hw Hs) in E.
Qed.

Lemma specific_destinations l what why : resolveSpecific l what why = Ok l → destinations l.
Proof.
  intros [Hb Hl]%resolveSpecific_iff. rewrite forallb_forall in Hb. split; [rewrite Hl; apply firsts_NoDup |].
  intros s Hs. rewrite Hl in Hs. apply elem_of_firsts in Hs as [Hs _]. destruct (elem_of_entries _ _ Hs) as [? _].
  apply list_elem_of_In, Hb, andb_true_iff in Hs as [Hs Hw]. destruct (bindable_split s Hs) as (h & port & E & ?).
  exists h, port. split; [by split_and! |]. rewrite <- wildcardHost_spec. unfold wildOn in Hw. rewrite E in Hw. cbn in Hw. by destruct (wildcardHost h).
Qed.

Lemma conflict_apart pt l hp port :
  address pt hp port → ¬ every_interface hp → portConflict pt l = false → pt ≠ l ∧ ¬ claims l pt.
Proof.
  intros (_ & Hs & Hp) Hne. unfold portConflict, splitOrEmpty. rewrite Hs. cbn [default id]. intros H. split.
  - intros <-. rewrite Hs in H. cbn [default id] in H. rewrite !seqb_refl in H. done.
  - intros (lh & h & q & Hl & Hs' & He & Hn). rewrite Hs in Hs'. injection Hs' as <- <-. rewrite Hl in H. cbn [default id] in H.
    rewrite seqb_refl in H. cbn [negb] in H. apply orb_false_iff in H as [_ H]. rewrite (proj2 (wildcardHost_spec lh) He) in H. cbn in H.
    apply not_true_iff_false in H. apply H. apply (port_covered l lh port hp Hl Hne). intros (? & ?). apply Hn. by split_and!.
Qed.

Lemma contains_split sub t : contains_str sub t = true → ∃ a b, t = a +:+ sub +:+ b.
Proof.
  induction t as [|x t IH]; cbn [contains_str].
  - rewrite orb_false_r. intros H. exists ""%string, ""%string. by destruct sub.
  - intros [H|H]%orb_true_iff.
    + exists ""%string. clear IH. revert H. generalize (String x t). clear. induction sub as [|y sub IH]; intros t H; [by exists t |].
      destruct t as [|z t]; [done |]. rewrite has_prefix_cons in H. apply andb_true_iff in H as [->%Ascii.eqb_eq H].
      destruct (IH t H) as [b ->]. by exists b.
    + destruct (IH H) as (a & b & ->). by exists (String x a), b.
Qed.

Lemma schemed_url u : schemed u → url_text u.
Proof.
  intros Hu. unfold schemed in Hu. rewrite <- Hu. unfold withScheme. set (t := trim_space u).
  assert (trim_space t = t) as Ht by apply trim_space_idem.
  destruct ((t =s "") || contains_str "://" t) eqn:E.
  - split; [done |]. apply orb_true_iff in E as [E%String.eqb_eq|E%contains_split]; [by left | by right].
  - split; [| right; by exists "http"%string, t]. apply orb_false_iff in E as [E%String.eqb_neq _].
    unfold trim_space. change (trim_left ("http://" +:+ t)) with ("http://" +:+ t).
    rewrite trim_right_app; unfold t in *; by rewrite trim_space_right.
Qed.

Lemma blank_read file : readSecret readFile file = Ok ""%string → blank_file file.
Proof. unfold readSecret, blank_file. destruct (readFile file) as [b|]; [| done]. intros [= E]. by exists b. Qed.

Lemma secretDone_secret v f : secretDone v f → secret v f.
Proof.
  unfold secretDone, secret. intros H. destruct (decide (v = ""%string)) as [E|]; [| by left].
  destruct (decide (f = ""%string)) as [|Hf]; [by right; left |]. right. right. by apply blank_read, H.
Qed.

Lemma Validate_ok n : Validate n = Ok tt → record_ok n.
Proof.
  unfold Validate, ParseRole. change RoleNode with "node"%string. change RoleBalancer with "balancer"%string.
  destruct (String.eqb_spec (nr_ID n) ""); [done |]. destruct (Z.ltb_spec 48 (Z.of_nat (String.length (nr_ID n)))); [done |].
  destruct (String.eqb_spec (nr_Network n) ""); [done |].
  intros Hv. assert (nr_Role n ∈ [""; "node"; "balancer"]%string ∧
    (nr_Role n ≠ "balancer"%string → nr_Endpoints n ≠ []) ∧
    (nr_Role n = "balancer"%string → ai_Addrs (nr_Agent n) ≠ [] ∨ ai_Addr (nr_Agent n) ≠ ""%string) ∧ 0 <= nr_Tier n) as (? & ? & ? & ?);
    [| split; [split; [done | lia] | done..]].
  revert Hv. clear. destruct n as [id role net eps tok [addrs addr key] tier tags decl ver upd]. cbn. unfold GossipAddrs. cbn.
  destruct (String.eqb_spec role "balancer") as [->|Hb]; cbn.
  - intros H. split_and!; [by do 2 right; left | done | intros _ | revert H; destruct (Z.ltb_spec tier 0); [by case_match | done]].
    destruct (String.eqb_spec addr ""); [left | by right]. by intros ->.
  - destruct (String.eqb_spec role "") as [->|]; [| destruct (String.eqb_spec role "node") as [->|]; [| done]]; cbn; intros H;
      (split_and!; [by (left || right; left) | by intros _ -> | done | revert H; destruct (Z.ltb_spec tier 0); [by case_match | done]]).
Qed.

Lemma firstError_none {A} (f : A → option string) l : firstError f l = Ok tt → Forall (λ x, f x = None) l.
Proof. intros H. apply Forall_forall. by apply firstError_ok. Qed.

Lemma registryError_ok b r : registryError DecodeAddress b r = None → registry_ok b r.
Proof.
  unfold registryError, registry_ok. destruct (String.eqb_spec (rg_Type r) "algorand").
  { destruct (Z.eqb_spec (rg_AppID r) 0); [done |].
    destruct (String.eqb_spec (rg_SyncKey r) ""), (String.eqb_spec (rg_SyncKeyFile r) ""); cbn [andb]; try done;
      destruct b, (String.eqb_spec (rg_AlgodURL r) ""); cbn [andb]; try done;
      destruct (String.eqb_spec (rg_SyncAddress r) ""); cbn [andb negb]; destruct (DecodeAddress (rg_SyncAddress r)) eqn:Ed; cbn; try done;
      intros _; left; split_and!; (done || auto || by intros). }
  destruct (String.eqb_spec (rg_Type r) "file").
  { destruct (String.eqb_spec (rg_File r) ""); [done |]. intros _. right. by left. }
  destruct (String.eqb_spec (rg_Type r) "memory"); [intros _; right; right; by left |].
  destruct (String.eqb_spec (rg_Type r) "static"); [| done]. intros H. right. right. right. split; [done |].
  destruct (firstError _ _) as [[]|] eqn:E; [| done]. apply firstError_none in E. eapply Forall_impl; [exact E |]. intros rec Hn.
  apply Validate_ok. cbn beta in Hn. revert Hn. by destruct (Validate rec) as [[]|].
Qed.

Lemma nonNegative_amount v : nonNegative v = true → amount v.
Proof. unfold nonNegative, amount. intros [H1 H2]%andb_true_iff. split; [done |]. by intros ->. Qed.

Lemma planError_ok name p : planError (name, p) = None → plan_ok name p.
Proof.
  unfold planError, plan_ok. destruct (String.eqb_spec name ""); [done |].
  destruct (nonNegative (rp_PerMinute p)) eqn:E1; [| done]. destruct (nonNegative (rp_PerDay p)) eqn:E2; [| done]. cbn [negb orb].
  destruct (Z.ltb_spec (pc_MaxGroups (rp_Simulate p)) 0); [done |]. destruct (Z.ltb_spec (pc_MaxRounds (rp_Simulate p)) 0); [done |].
  intros _. split_and!; [done | by apply nonNegative_amount.. | done | done].
Qed.

Lemma limits_fine r t a : RateFinished readFile r t a → limits_ok r t a.
Proof.
  intros [H1 H2 H3 [H4 H4'] [H5 H5'] (v & H6 & H6') H7 H8 H9 H10 H11 H12 H13]. split; try done.
  - intros name p Hp. by apply planError_ok, H3.
  - split; [done |]. intros k x Hx. by eapply nonNegative_amount, H4'.
  - split; [done |]. intros k x Hx. by eapply nonNegative_amount, H5'.
  - exists v. split; [done |]. by apply nonNegative_amount.
  - intros s Hs. specialize (H10 s Hs). unfold parsePrefix in H10. unfold network_text. destruct (contains "/" (trim_space s)).
    + by destruct (netip_ParsePrefix (trim_space s)); [| destruct H10].
    + by destruct (ParseAddr (trim_space s)); [| destruct H10].
  - intros s Hs. destruct (H11 s Hs) as [? ? ? ? Hf]. split_and!; try done. intros Hne. specialize (Hf Hne).
    unfold readSecret in Hf. destruct (readFile (rt_TokenFile s)) as [b|]; [| done]. injection Hf as E. by exists b.
Qed.

Lemma admin_fine c : doneAdmin c →
  cf_AdminToken c ≠ ""%string ∨ cf_AdminTokenFile c = ""%string ∧ lc_DataDir (cf_Local c) = ""%string ∨
  blank_file (admin_file c) ∨ cf_AdminTokenFile c = ""%string ∧ readFile (admin_file c) ∈ [Err ErrNotExist; Err ErrNotDir].
Proof.
  unfold doneAdmin. intros H. destruct (decide (cf_AdminToken c = ""%string)) as [Et|]; [right | by left].
  assert (adminPath c = admin_file c) as Ep.
  { unfold adminPath, admin_file. by destruct (String.eqb_spec (cf_AdminTokenFile c) ""), (decide _). }
  rewrite Ep in H. destruct (decide (cf_AdminTokenFile c = ""%string)) as [Ef|Ef], (decide (lc_DataDir (cf_Local c) = ""%string)) as [Ed|Ed];
    [by left | right..]; (destruct H as [H|(Hf & H)]; [done | by auto | left; by apply blank_read | right]); (split; [done |]);
    unfold readSecret in H; destruct (readFile (admin_file c)) as [|e]; destruct H; simplify_eq; set_solver.
Qed.

Lemma Finished_well c : Finished c → WellFormed c.
Proof.
  intros [[R1 R2] [L1 L2] [C1 C2 C3 C4] [S1 S2 S3 S4] A [G1 G2 G3 G4 [auto G5] G6] [M1 M2 M3] [P1 P2 P3] [T1 T2 T3 T4 T5]
          [U1 U2 U3 U4 U5 U6 U7 [U8 U8'] U9] D].
  pose proof (specific_destinations _ _ _ P1) as Hpt. unfold Balancer in *. change RoleBalancer with "balancer"%string in *.
  assert (cf_Role c = "node"%string → (cf_Role c =s "balancer") = false) as Hnode by by intros ->.
  split; try done.
  - destruct R1 as [->| ->]; set_solver.
  - destruct R2 as [->| ->]; set_solver.
  - eapply resolved_binds; [| exact L1]. by vm_compute.
  - eapply resolved_binds; [| exact M1]. by vm_compute.
  - by eapply specific_destinations.
  - intros pt l Hp Hl. destruct (de_address _ Hpt pt Hp) as (h & port & Ha & Hne). eapply conflict_apart; [exact Ha | exact Hne |]. by apply P3.
  - intros Hr. rewrite Hr in C3, P2. split; [by apply C3 | by apply P2].
  - intros Hr. apply Hnode in Hr as E. rewrite E in C3, C4. split; [| by apply C4].
    destruct (decide (lc_Network (cf_Local c) = ""%string)) as [|Hn]; [done |]. by apply C3 in Hn.
  - split_and!; [by eapply Forall_impl; [exact S1 | apply schemed_url] | by apply schemed_url | |
      by eapply Forall_impl; [exact S4 | intros; apply schemed_url]].
    eapply Forall_impl; [exact S3 |]. intros n Hn. eapply Forall_impl; [exact Hn | apply schemed_url].
  - by apply secretDone_secret.
  - by apply secretDone_secret.
  - by apply admin_fine.
  - by apply registryError_ok.
  - exists auto. split; [done |]. intros -> Ht. unfold registers in M3, G6. rewrite G5 in M3, G6. cbn [default andb] in M3, G6.
    rewrite (proj2 (String.eqb_neq _ _) Ht) in M3, G6. split; [by apply M3 |]. intros Hr. by apply G6; [| apply Hnode].
  - intros e He. rewrite Forall_forall in T3. by destruct (T3 e He).
  - by repeat constructor.
  - intros He. by apply limits_fine, D.
Qed.

(** C21: what [Finish] accepts is well formed, and finishing it again changes
    nothing.  Well formed: a known role and mode; addresses to listen on with
    ports, once each, none claiming another's port; addresses told to others
    and passed through that are one interface's, and nothing passed through
    that a listener claims (a host means every interface when it is empty,
    0.0.0.0 or ::, the spellings the code looks for); a network and nothing
    passed through exactly on a balancer, a data directory on a node; URLs with
    schemes; secrets set, without a file, or with a blank one; a complete
    registry section with valid static records, and somewhere to be reached
    when the agent registers; externals with name and URL; exclusions that do
    not name the agent; defaults filled in; and a complete rate-limit section
    when limits are on.  The agent finishes its configuration each time it is
    handed on: it stays as loaded when the configured upstream timeout is not
    negative and its double is a duration. *)
Theorem Finish_sound c c' :
  Finish ord readFile hostname DecodeAddress c = Ok c' →
  WellFormed c' ∧
  (0 <= cr_UpstreamTimeout (cf_Routing c) < 2 ^ 62 → Finish ord readFile hostname DecodeAddress c' = Ok c').
Proof.
  intros H. split; [by eapply Finished_well, Finish_leaves |]. intros Hu. apply Finish_again; [by eapply Finish_leaves |].
  apply Finish_timeouts in H as [Hr [= _ ->]]. unfold or_dur. destruct (cr_RequestTimeout _ =? 0) eqn:E1; [| lia].
  rewrite wi64_id; destruct (cr_UpstreamTimeout _ =? 0); unfold Second; mlia.
Qed.

(** A negative upstream timeout is accepted when the configuration is
    loaded, and makes the same configuration fail when the agent finishes it
    again: the request timeout derived from it is negative. *)
Theorem negative_timeout_fails_later c c' :
  Finish ord readFile hostname DecodeAddress c = Ok c' →
  - 2 ^ 62 <= cr_UpstreamTimeout (cf_Routing c) < 0 → cr_RequestTimeout (cf_Routing c) = 0 →
  is_ok (Finish ord readFile hostname DecodeAddress c') = false.
Proof.
  intros H Hu Hr. apply Finish_timeouts in H as [_ [= _ E]]. destruct (Finish ord readFile hostname DecodeAddress c') as [c2|] eqn:H2; [| done].
  apply Finish_timeouts in H2 as [H2 _]. rewrite E, Hr in H2. unfold or_dur in H2. simpl in H2.
  destruct (cr_UpstreamTimeout (cf_Routing c) =? 0) eqn:E0; [lia |]. rewrite wi64_id in H2; mlia.
Qed.
End Laws.

(** ** Examples *)

(** A map's entries in the order of its representation. *)
Definition someOrder : MapOrder := mkMapOrder (λ A m, map_to_list m) (λ A m, reflexivity _).

Definition sampleLimits : RateLimit :=
  mkRateLimit true "" ["10.0.0.0/8"]%string 0 0 None None {["simulate"%string := nofZ 4]} ∅
    {["free"%string := mkRatePlan (nofZ 60) (nofZ 1000) (mkPlanCaps 0 0 0 None None)]}
    [mkRateToken "alice" "" "/secrets/alice" "free"]%string.

(** A node that passes algod through, with rate limits and its token in a file. *)
Definition sampleConfig (up : Duration) (limits : RateLimit) : Config :=
  mkConfig "" "" [" 10.0.0.1:4000"; "10.0.0.1:4000"; ""]%string "" "" "" "" (mkLog "" false)
    (mkLocal "" "/var/lib/algod" "" ["10.0.0.1:8080"]%string ["10.0.0.1:8080"]%string 0 [] None 0 0)
    (mkReg "" 0 "" "" "" "" "" 0 None "" "" [])
    (mkMesh [] ["10.0.0.1:4001"]%string "" 0 0 0 0 0 0 ∅)
    [mkExternal "nodely" "mainnet.example" "" 0 None 0]
    (mkRouting 0 0 0 false None up 0 0 0 (mkBreaker 0 0) [" b "; "c"; "b"; ""]%string)
    limits.

Definition sampleFiles (path : string) : result readError string :=
  if path =s "/secrets/alice" then Ok (" s3cret" +:+ String "010" "") else Err ErrNotExist.

Definition noLimits : RateLimit := mkRateLimit false "" [] 0 0 None None ∅ ∅ ∅ [].

Definition runFinish (c : Config) : result string Config := Finish someOrder sampleFiles (Some "k44"%string) (λ _, None) c.

Definition runs_ok (r : result string Config) : Prop := is_ok r = true.

Lemma sample_ok : runs_ok (runFinish (sampleConfig 0 noLimits)) ∧ runs_ok (runFinish (sampleConfig 0 sampleLimits)) ∧
  runs_ok (runFinish (sampleConfig (-1) noLimits)).
Proof. vm_compute. done. Qed.

Lemma runs_ok_some r : runs_ok r → ∃ c, r = Ok c.
Proof. destruct r; [eauto | done]. Qed.

Lemma Finish_sound_witness :
  ∃ c', runFinish (sampleConfig 0 sampleLimits) = Ok c' ∧ WellFormed sampleFiles (λ _, None) c' ∧ runFinish c' = Ok c'.
Proof.
  destruct (runs_ok_some _ (proj1 (proj2 sample_ok))) as [c' E]. exists c'. split; [exact E |].
  destruct (Finish_sound someOrder sampleFiles (Some "k44"%string) (λ _, None) _ c' E) as [F H]. split; [exact F |]. apply H. simpl. lia.
Defined.

Lemma negative_timeout_fails_later_witness :
  ∃ c', runFinish (sampleConfig (-1) noLimits) = Ok c' ∧ is_ok (runFinish c') = false.
Proof.
  destruct (runs_ok_some _ (proj2 (proj2 sample_ok))) as [c' E]. exists c'. split; [exact E |].
  apply (negative_timeout_fails_later someOrder sampleFiles (Some "k44"%string) (λ _, None) _ c' E); simpl; lia.
Defined.
