(* ===== verification/Bundle.v ===== *)
(** * Bundle: key material and registry bundles
    (internal/config/bundle.go; SyncSeed and KeyMaterial of config.go)

    The bundle a new host joins an on-chain registry with: the application's
    id, the sync account's address when it is rekeyed, and the sync seed, in
    base64.  Byte slices are strings.  The mnemonic and address codecs are the
    SDK's and the ed25519 key is crypto's: parameters.  [bundle_roundtrip]: a
    printed bundle is read back, in either alphabet, padded or not. *)
From S2P Require Import Prelude GoStrings Codec RateConfig Config.
From Stdlib Require Import Ascii.
Open Scope Z_scope.

(** ** encoding/base64 *)
Definition b64_char (url : bool) (n : N) : ascii :=
  if (n <? 26)%N then ascii_of_N (65 + n)
  else if (n <? 52)%N then ascii_of_N (71 + n)
  else if (n <? 62)%N then ascii_of_N (n - 4)
  else if (n =? 62)%N then if url then "-"%char else "+"%char
  else if url then "_"%char else "/"%char.

Definition b64_val (url : bool) (a : ascii) : option N :=
  let n := N_of_ascii a in
  if ((65 <=? n)%N && (n <=? 90)%N) then Some (n - 65)%N
  else if ((97 <=? n)%N && (n <=? 122)%N) then Some (n - 71)%N
  else if ((48 <=? n)%N && (n <=? 57)%N) then Some (n + 4)%N
  else if Ascii.eqb a (if url then "-" else "+") then Some 62%N
  else if Ascii.eqb a (if url then "_" else "/") then Some 63%N
  else None.

(** EncodeToString: groups of three bytes, the last padded if asked to. *)
Fixpoint b64_encode (url pad : bool) (s : string) : string :=
  match s with
  | String a (String b (String c r)) =>
      let n := (N_of_ascii a * 65536 + N_of_ascii b * 256 + N_of_ascii c)%N in
      String (b64_char url (n / 262144)) (String (b64_char url ((n / 4096) mod 64))
        (String (b64_char url ((n / 64) mod 64)) (String (b64_char url (n mod 64)) (b64_encode url pad r))))
  | String a (String b EmptyString) =>
      let n := (N_of_ascii a * 65536 + N_of_ascii b * 256)%N in
      String (b64_char url (n / 262144)) (String (b64_char url ((n / 4096) mod 64))
        (String (b64_char url ((n / 64) mod 64)) (if pad then "=" else "")))
  | String a EmptyString =>
      let n := (N_of_ascii a * 65536)%N in
      String (b64_char url (n / 262144)) (String (b64_char url ((n / 4096) mod 64)) (if pad then "==" else ""))
  | EmptyString => ""
  end.

(** The decoder skips line breaks wherever they are. *)
Fixpoint skip_newlines (s : string) : string :=
  match s with
  | EmptyString => ""
  | String a r => if Ascii.eqb a "013" || Ascii.eqb a "010" then skip_newlines r else String a (skip_newlines r)
  end.

(** The bytes of a group of four, three or two digits; the bits left over in a
    short group are not looked at. *)
Definition group4 (v1 v2 v3 v4 : N) (rest : string) : string :=
  let n := (v1 * 262144 + v2 * 4096 + v3 * 64 + v4)%N in
  String (ascii_of_N (n / 65536)) (String (ascii_of_N ((n / 256) mod 256)) (String (ascii_of_N (n mod 256)) rest)).
Definition group3 (v1 v2 v3 : N) : string :=
  let n := (v1 * 262144 + v2 * 4096 + v3 * 64)%N in
  String (ascii_of_N (n / 65536)) (String (ascii_of_N ((n / 256) mod 256)) "").
Definition group2 (v1 v2 : N) : string :=
  String (ascii_of_N ((v1 * 262144 + v2 * 4096) / 65536)%N) "".

(** DecodeString without padding. *)
Fixpoint raw_decode (url : bool) (s : string) : option string :=
  match s with
  | EmptyString => Some ""%string
  | String a (String b EmptyString) => v1 ← b64_val url a; v2 ← b64_val url b; Some (group2 v1 v2)
  | String a (String b (String c EmptyString)) =>
      v1 ← b64_val url a; v2 ← b64_val url b; v3 ← b64_val url c; Some (group3 v1 v2 v3)
  | String a (String b (String c (String d r))) =>
      v1 ← b64_val url a; v2 ← b64_val url b; v3 ← b64_val url c; v4 ← b64_val url d;
      rest ← raw_decode url r; Some (group4 v1 v2 v3 v4 rest)
  | String _ EmptyString => None
  end.

(** DecodeString with padding. *)
Fixpoint std_decode (s : string) : option string :=
  match s with
  | EmptyString => Some ""%string
  | String a (String b (String c (String d r))) =>
      v1 ← b64_val false a; v2 ← b64_val false b;
      if Ascii.eqb d "=" then
        if negb (r =s "") then None
        else if Ascii.eqb c "=" then Some (group2 v1 v2)
        else v3 ← b64_val false c; Some (group3 v1 v2 v3)
      else
        v3 ← b64_val false c; v4 ← b64_val false d;
        rest ← std_decode r; Some (group4 v1 v2 v3 v4 rest)
  | _ => None
  end.

Definition RawDecodeString (url : bool) (s : string) : option string := raw_decode url (skip_newlines s).
Definition StdDecodeString (s : string) : option string := std_decode (skip_newlines s).

(** ** encoding/hex *)
Fixpoint hex_decode (s : string) : option string :=
  match s with
  | EmptyString => Some ""%string
  | String h (String l r) =>
      x ← hex_digit h; y ← hex_digit l; rest ← hex_decode r; Some (String (ascii_of_N (16 * x + y)) rest)
  | String _ EmptyString => None
  end.

(** ** The sync seed *)
Fixpoint count_char (c : ascii) (s : string) : nat :=
  match s with
  | EmptyString => O
  | String a s => if Ascii.eqb a c then S (count_char c s) else count_char c s
  end.

Definition keyLength (b : string) : bool := (String.length b =? 32)%nat || (String.length b =? 64)%nat.

Section Keys.
Context (ToPrivateKey : string → option string)   (* mnemonic.ToPrivateKey *)
        (sha256 : string → string).

(** nil when no sync key is set. *)
Definition SyncSeed (c : Config) : result string (option string) :=
  let k := trim_space (rg_SyncKey (cf_Registry c)) in
  if k =s "" then Ok None
  else if (24 <=? count_char " " k)%nat then
    match ToPrivateKey k with
    | Some sk => Ok (Some (upto 32 sk))
    | None => Err "sync_key mnemonic"%string
    end
  else
    let other :=
      match StdDecodeString k with
      | Some b => if keyLength b then Ok (Some (upto 32 b)) else Err "sync_key: want a 25-word mnemonic or base64/hex of 32 or 64 bytes"%string
      | None => Err "sync_key: want a 25-word mnemonic or base64/hex of 32 or 64 bytes"%string
      end in
    match hex_decode k with
    | Some b => if keyLength b then Ok (Some (upto 32 b)) else other
    | None => other
    end.

Definition secretPrefix : string := "algod-loadb-mesh-shared-secret:".

Definition KeyMaterial (c : Config) : result string string :=
  match SyncSeed c with
  | Err e => Err e
  | Ok (Some seed) => Ok seed
  | Ok None => Ok (sha256 (secretPrefix +:+ ms_SharedSecret (cf_Mesh c)))
  end.
End Keys.

(** ** Bundles *)
Record Bundle := mkBundle { bn_AppID : Z; bn_SyncAddress : string; bn_Seed : string }.

Definition bundleOf (ToPrivateKey : string → option string) (c : Config) : result string Bundle :=
  if rg_AppID (cf_Registry c) =? 0 then Err "registry.app_id is not set"%string
  else
    seed ← SyncSeed ToPrivateKey c;
    match seed with
    | None => Err "registry.sync_key is not set"%string
    | Some seed => Ok (mkBundle (rg_AppID (cf_Registry c)) (rg_SyncAddress (cf_Registry c)) seed)
    end.

(** binary.BigEndian: the n low bytes of z, and back. *)
Fixpoint be_bytes (n : nat) (z : Z) : string :=
  match n with
  | O => ""
  | S n => String (ascii_of_N (Z.to_N (Z.shiftr z (8 * Z.of_nat n) `mod` 256))) (be_bytes n z)
  end.

Fixpoint be_value (acc : Z) (s : string) : Z :=
  match s with
  | EmptyString => acc
  | String a s => be_value (acc * 256 + Z.of_N (N_of_ascii a)) s
  end.

(** strings.TrimRight(s, "="). *)
Fixpoint trim_eq (s : string) : string :=
  match s with
  | EmptyString => ""
  | String a s' =>
      match trim_eq s' with
      | EmptyString => if Ascii.eqb a "=" then "" else String a ""
      | r => String a r
      end
  end.

Section Bundles.
Context (DecodeAddress : string → option string)   (* the 32 bytes of an address *)
        (AddressString : string → string)
        (ownAddress : string → string).            (* the public key of a seed *)

(** The bytes of a bundle: the address only when it is not the seed's own. *)
Definition bundleBytes (b : Bundle) : string :=
  let addr :=
    if bn_SyncAddress b <>s "" then
      match DecodeAddress (bn_SyncAddress b) with
      | Some addr => if addr <>s ownAddress (bn_Seed b) then addr else ""
      | None => ""
      end
    else "" in
  be_bytes 8 (bn_AppID b) +:+ addr +:+ bn_Seed b.

Definition Bundle_String (b : Bundle) : string := b64_encode false true (bundleBytes b).

Definition ParseBundle (s : string) : result string Bundle :=
  let s := trim_eq (trim_space s) in
  match (match RawDecodeString false s with Some raw => Some raw | None => RawDecodeString true s end) with
  | None => Err "registry bundle"%string
  | Some raw =>
      let n := String.length raw in
      if negb ((n =? 40)%nat || (n =? 72)%nat) then Err "registry bundle: want 40 or 72 bytes"%string
      else
        let addr := if (n =? 72)%nat then AddressString (String.substring 8 32 raw) else ""%string in
        let id := be_value 0 (upto 8 raw) in
        if id =? 0 then Err "registry bundle: app id 0"%string
        else Ok (mkBundle id addr (from (n - 32) raw))
  end.
End Bundles.

(** ** Base64 *)

(** Digits: each is read back, is no padding and no space, and the standard
    alphabet reads a digit of the other one right or not at all. *)
Definition digit_ok (n : N) : bool :=
  let ok url := bool_decide (b64_val url (b64_char url n) = Some n) && negb (Ascii.eqb (b64_char url n) "=") && negb (is_space (b64_char url n)) in
  ok false && ok true &&
  (bool_decide (b64_val false (b64_char true n) = Some n) || bool_decide (b64_val false (b64_char true n) = None)).

Lemma digits_ok n : (n < 64)%N → digit_ok n = true.
Proof.
  intros H. assert (forallb digit_ok (N.of_nat <$> seq 0 64) = true) as Hall by (vm_compute; reflexivity).
  rewrite forallb_forall in Hall. apply Hall. apply list_elem_of_In, list_elem_of_fmap. exists (N.to_nat n).
  split; [lia |]. apply elem_of_seq. lia.
Qed.

Lemma val_char url n : (n < 64)%N → b64_val url (b64_char url n) = Some n.
Proof.
  intros H%digits_ok. unfold digit_ok in H. rewrite !andb_true_iff in H. destruct H as [[[[H1 _] _] [[H2 _] _]] _].
  apply bool_decide_eq_true in H1, H2. by destruct url.
Qed.

(** A digit of encoded text. *)
Definition plain (a : ascii) : bool := negb (Ascii.eqb a "=") && negb (is_space a).

Lemma plain_char url n : (n < 64)%N → plain (b64_char url n) = true.
Proof.
  intros H%digits_ok. unfold digit_ok in H. unfold plain. rewrite !andb_true_iff in H. destruct H as [[[[_ H1] H2] [[_ H3] H4]] _].
  destruct url; [by rewrite H3, H4 | by rewrite H1, H2].
Qed.

Lemma val_char_std url n : (n < 64)%N → b64_val false (b64_char url n) = Some n ∨ b64_val false (b64_char url n) = None.
Proof.
  intros H. destruct url; [| left; by apply val_char]. apply digits_ok in H. unfold digit_ok in H. apply andb_true_iff in H as [_ H].
  apply orb_true_iff in H as [H|H]; apply bool_decide_eq_true in H; auto.
Qed.

(** Strings three bytes at a time. *)
Lemma string_ind3 (P : string → Prop) :
  P ""%string → (∀ a, P (String a "")) → (∀ a b, P (String a (String b ""))) →
  (∀ a b c r, P r → P (String a (String b (String c r)))) → ∀ s, P s.
Proof.
  intros H0 H1 H2 H3. fix IH 1. intros [|a [|b [|c r]]]; [exact H0 | apply H1 | apply H2 | apply H3, IH].
Qed.

Lemma byte_range a : (N_of_ascii a < 256)%N.
Proof. apply N_ascii_bounded. Qed.

Ltac nlia := zify; Z.to_euclidean_division_equations; lia.

(** The digits of a group are below 64 and give the group back. *)
Lemma digit_bounds n : (n < 16777216)%N →
  (n / 262144 < 64)%N ∧ ((n / 4096) mod 64 < 64)%N ∧ ((n / 64) mod 64 < 64)%N ∧ (n mod 64 < 64)%N.
Proof. intros H. split_and!; nlia. Qed.

Lemma group_value n : (n < 16777216)%N →
  (n / 262144 * 262144 + (n / 4096) mod 64 * 4096 + (n / 64) mod 64 * 64 + n mod 64 = n)%N.
Proof. intros H. nlia. Qed.

Lemma group4_bytes a b c rest :
  let n := (N_of_ascii a * 65536 + N_of_ascii b * 256 + N_of_ascii c)%N in
  group4 (n / 262144) ((n / 4096) mod 64) ((n / 64) mod 64) (n mod 64) rest = String a (String b (String c rest)).
Proof.
  intros n. pose proof (byte_range a). pose proof (byte_range b). pose proof (byte_range c).
  unfold group4. rewrite group_value by (unfold n; lia). unfold n.
  replace ((N_of_ascii a * 65536 + N_of_ascii b * 256 + N_of_ascii c) / 65536)%N with (N_of_ascii a) by nlia.
  replace ((N_of_ascii a * 65536 + N_of_ascii b * 256 + N_of_ascii c) / 256 mod 256)%N with (N_of_ascii b) by nlia.
  replace ((N_of_ascii a * 65536 + N_of_ascii b * 256 + N_of_ascii c) mod 256)%N with (N_of_ascii c) by nlia.
  by rewrite !ascii_N_embedding.
Qed.

Lemma group3_bytes a b :
  let n := (N_of_ascii a * 65536 + N_of_ascii b * 256)%N in
  group3 (n / 262144) ((n / 4096) mod 64) ((n / 64) mod 64) = String a (String b "").
Proof.
  intros n. pose proof (byte_range a). pose proof (byte_range b). unfold group3.
  assert (n / 262144 * 262144 + (n / 4096) mod 64 * 4096 + (n / 64) mod 64 * 64 = n)%N as -> by (unfold n; nlia). unfold n.
  replace ((N_of_ascii a * 65536 + N_of_ascii b * 256) / 65536)%N with (N_of_ascii a) by nlia.
  replace ((N_of_ascii a * 65536 + N_of_ascii b * 256) / 256 mod 256)%N with (N_of_ascii b) by nlia.
  by rewrite !ascii_N_embedding.
Qed.

Lemma group2_bytes a : let n := (N_of_ascii a * 65536)%N in group2 (n / 262144) ((n / 4096) mod 64) = String a "".
Proof.
  intros n. pose proof (byte_range a). unfold group2.
  assert ((n / 262144 * 262144 + (n / 4096) mod 64 * 4096) / 65536 = N_of_ascii a)%N as -> by (unfold n; nlia).
  by rewrite ascii_N_embedding.
Qed.

Fixpoint all_plain (s : string) : bool := match s with EmptyString => true | String a s => plain a && all_plain s end.

Lemma encode_plain url s : all_plain (b64_encode url false s) = true.
Proof.
  induction s as [| a | a b | a b c r IH] using string_ind3; [done | | |];
    (pose proof (byte_range a); cbn [b64_encode]; cbn zeta; cbn [all_plain];
     match goal with |- context [(?n / 262144)%N] => destruct (digit_bounds n) as (B1 & B2 & B3 & B4) end;
     [try pose proof (byte_range b); try pose proof (byte_range c); lia |]);
    rewrite !plain_char by done; done.
Qed.

(** What decoding encoded text gives: itself; the standard decoder may also
    refuse text in the other alphabet. *)
Lemma raw_decode_encode url s : raw_decode url (b64_encode url false s) = Some s.
Proof.
  induction s as [| a | a b | a b c r IH] using string_ind3; [done | | |];
    (pose proof (byte_range a); cbn [b64_encode]; cbn zeta;
     match goal with |- context [(?n / 262144)%N] => destruct (digit_bounds n) as (B1 & B2 & B3 & B4) end;
     [try pose proof (byte_range b); try pose proof (byte_range c); lia |]); cbn [raw_decode].
  - rewrite !val_char by done. simpl. by rewrite group2_bytes.
  - rewrite !val_char by done. simpl. by rewrite group3_bytes.
  - rewrite IH. destruct (b64_encode url false r); rewrite !val_char by done; simpl; by rewrite group4_bytes.
Qed.

Lemma std_reads_url url s : raw_decode false (b64_encode url false s) = Some s ∨ raw_decode false (b64_encode url false s) = None.
Proof.
  induction s as [| a | a b | a b c r IH] using string_ind3; [by left | | |];
    (pose proof (byte_range a); cbn [b64_encode]; cbn zeta;
     match goal with |- context [(?n / 262144)%N] => destruct (digit_bounds n) as (B1 & B2 & B3 & B4) end;
     [try pose proof (byte_range b); try pose proof (byte_range c); lia |]); cbn [raw_decode];
    apply (val_char_std url) in B1 as [E1|E1], B2 as [E2|E2]; rewrite E1, ?E2; simpl; auto.
  - left. by rewrite group2_bytes.
  - apply (val_char_std url) in B3 as [E3|E3]; rewrite E3; simpl; auto. left. by rewrite group3_bytes.
  - apply (val_char_std url) in B3 as [E3|E3], B4 as [E4|E4]; rewrite E3, ?E4; simpl; auto.
    destruct IH as [IH|IH]; rewrite IH; simpl; auto. left. by rewrite group4_bytes.
Qed.

Lemma encode_padding url s : ∃ p, b64_encode url true s = b64_encode url false s +:+ p ∧ trim_eq p = ""%string ∧ trim_right p = p ∧ skip_newlines p = p.
Proof.
  induction s as [| a | a b | a b c r (p & IH & Hp)] using string_ind3.
  - by exists ""%string.
  - by exists "=="%string.
  - by exists "="%string.
  - exists p. split; [| done]. cbn [b64_encode]. cbn zeta. rewrite IH. done.
Qed.

Lemma plain_not a : plain a = true → Ascii.eqb a "=" = false ∧ is_space a = false ∧ Ascii.eqb a "013" || Ascii.eqb a "010" = false.
Proof.
  unfold plain. intros [H1%negb_true_iff H2%negb_true_iff]%andb_true_iff. split_and!; [done..|].
  apply orb_false_iff. split; apply Ascii.eqb_neq; intros ->; discriminate H2.
Qed.

Lemma skip_plain s p : all_plain s = true → skip_newlines (s +:+ p) = s +:+ skip_newlines p.
Proof.
  induction s as [|a s IH]; [done |]. cbn [all_plain]. intros [Ha Hs]%andb_true_iff.
  change (String a s +:+ p) with (String a (s +:+ p)). cbn [skip_newlines]. destruct (plain_not _ Ha) as (_ & _ & ->). by rewrite IH.
Qed.

Lemma trim_eq_plain s p : all_plain s = true → trim_eq p = ""%string → trim_eq (s +:+ p) = s.
Proof.
  intros H Hp. induction s as [|a s IH]; [done |]. cbn [all_plain] in H. apply andb_true_iff in H as [Ha Hs].
  change (String a s +:+ p) with (String a (s +:+ p)). cbn [trim_eq]. rewrite IH by done. destruct (plain_not _ Ha) as (-> & _ & _).
  by destruct s.
Qed.

Lemma trim_right_plain s p : all_plain s = true → trim_right p = p → trim_right (s +:+ p) = s +:+ p.
Proof.
  intros H Hp. induction s as [|a s IH]; [done |]. cbn [all_plain] in H. apply andb_true_iff in H as [Ha Hs].
  change (String a s +:+ p) with (String a (s +:+ p)). rewrite trim_right_nonspace by (by apply plain_not). by rewrite IH.
Qed.

Lemma trim_space_plain s p : s ≠ ""%string → all_plain s = true → trim_right p = p → trim_space (s +:+ p) = s +:+ p.
Proof.
  intros Hne H Hp. unfold trim_space. assert (trim_left (s +:+ p) = s +:+ p) as ->; [| by apply trim_right_plain].
  destruct s as [|a s]; [done |]. cbn [all_plain] in H. apply andb_true_iff in H as [Ha _].
  change (String a s +:+ p) with (String a (s +:+ p)). cbn [trim_left]. by destruct (plain_not _ Ha) as (_ & -> & _).
Qed.

Lemma app_empty s : s +:+ "" = s.
Proof. induction s as [|a s IH]; [done |]. change (String a s +:+ "") with (String a (s +:+ "")). by rewrite IH. Qed.

(** Encoded bytes, in either alphabet, padded or not, are decoded by the two
    attempts of ParseBundle. *)
Lemma decode_either url pad raw :
  raw ≠ ""%string →
  let s := trim_eq (trim_space (b64_encode url pad raw)) in
  match RawDecodeString false s with Some r => Some r | None => RawDecodeString true s end = Some raw.
Proof.
  intros Hne s. assert (s = b64_encode url false raw) as ->.
  { subst s. assert (b64_encode url false raw ≠ ""%string) as Hne' by (by destruct raw as [|a [|b [|c r]]]).
    pose proof (encode_plain url raw) as Hp. destruct pad.
    - destruct (encode_padding url raw) as (p & -> & Hp1 & Hp2 & _). rewrite trim_space_plain, trim_eq_plain; done.
    - rewrite <- (app_empty (b64_encode url false raw)). rewrite trim_space_plain, trim_eq_plain; try done. by rewrite app_empty. }
  unfold RawDecodeString. assert (skip_newlines (b64_encode url false raw) = b64_encode url false raw) as ->.
  { rewrite <- (app_empty (b64_encode url false raw)). rewrite skip_plain by apply encode_plain. done. }
  destruct (std_reads_url url raw) as [->|E]; [done |]. destruct url; rewrite E; [apply raw_decode_encode |].
  by rewrite raw_decode_encode in E.
Qed.

(** ** Bundles *)

Lemma be_bytes_length n z : String.length (be_bytes n z) = n.
Proof. induction n as [|n IH]; simpl; [done | by rewrite IH]. Qed.

Lemma be_value_app acc s t : be_value acc (s +:+ t) = be_value (be_value acc s) t.
Proof. revert acc. induction s as [|a s IH]; intros acc; [done |]. apply IH. Qed.

Lemma be_value_bytes n z acc : 0 <= z -> be_value acc (be_bytes n z) = acc * 256 ^ Z.of_nat n + z `mod` 256 ^ Z.of_nat n.
Proof.
  intros Hz. revert acc. induction n as [|n IH]; intros acc; cbn [be_bytes be_value].
  { change (256 ^ Z.of_nat 0) with 1. rewrite Z.mod_1_r. lia. }
  rewrite IH. rewrite N_ascii_embedding.
  2: { pose proof (Z.mod_pos_bound (Z.shiftr z (8 * Z.of_nat n)) 256 ltac:(lia)). lia. }
  rewrite Z2N.id by (apply Z.mod_pos_bound; lia). rewrite Z.shiftr_div_pow2 by lia.
  rewrite Z.pow_mul_r by lia. change (2 ^ 8) with 256. rewrite Nat2Z.inj_succ, Z.pow_succ_r by lia.
  set (p := 256 ^ Z.of_nat n). assert (0 < p) by (subst p; apply Z.pow_pos_nonneg; lia).
  rewrite (Z.mul_comm 256 p), (Z.rem_mul_r z p 256) by lia. ring.
Qed.

Section RoundTrip.
Context (DecodeAddress : string → option string) (AddressString ownAddress : string → string).
Context (decoded : ∀ s addr, DecodeAddress s = Some addr → String.length addr = 32%nat).

(** The address a bundle carries: a decodable one that is not the seed's own. *)
Definition carriedAddress (b : Bundle) : option string :=
  if bn_SyncAddress b =s "" then None
  else addr ← DecodeAddress (bn_SyncAddress b); if addr =s ownAddress (bn_Seed b) then None else Some addr.

Lemma bundleBytes_carried b :
  bundleBytes DecodeAddress ownAddress b = be_bytes 8 (bn_AppID b) +:+ default ""%string (carriedAddress b) +:+ bn_Seed b.
Proof.
  unfold bundleBytes, carriedAddress. generalize (be_bytes 8 (bn_AppID b)). intros w. destruct (bn_SyncAddress b =s ""); [done |]. simpl.
  destruct (DecodeAddress _) as [addr|]; [| done]. simpl. by destruct (addr =s ownAddress (bn_Seed b)).
Qed.

(** A printed bundle is read back, in the standard or the URL-safe
    alphabet, padded or not: the same application and seed, and the sync
    account's address exactly when it is not the seed's own. *)
Theorem bundle_roundtrip b url pad :
  0 < bn_AppID b < two64 → String.length (bn_Seed b) = 32%nat →
  Bundle_String DecodeAddress ownAddress b = b64_encode false true (bundleBytes DecodeAddress ownAddress b) ∧
  ParseBundle AddressString (b64_encode url pad (bundleBytes DecodeAddress ownAddress b)) =
    Ok (mkBundle (bn_AppID b) (match carriedAddress b with Some addr => AddressString addr | None => "" end) (bn_Seed b)).
Proof.
  intros Hid Hseed. split; [done |]. rewrite bundleBytes_carried.
  pose proof (be_bytes_length 8 (bn_AppID b)) as H8.
  assert (be_value 0 (be_bytes 8 (bn_AppID b)) = bn_AppID b) as Hval.
  { rewrite be_value_bytes by lia. change (256 ^ Z.of_nat 8) with two64. rewrite Z.mod_small by lia. lia. }
  revert H8 Hval. generalize (be_bytes 8 (bn_AppID b)). intros w H8 Hval. unfold ParseBundle. rewrite decode_either.
  2: { intros E. apply (f_equal String.length) in E. rewrite str_length_app, H8 in E. simpl in E. lia. }
  assert (upto 8 (w +:+ default ""%string (carriedAddress b) +:+ bn_Seed b) = w) as -> by (by apply substring_take).
  rewrite Hval. destruct (bn_AppID b =? 0) eqn:E0; [lia |].
  destruct (carriedAddress b) as [addr|] eqn:Ec; cbn [from_option Datatypes.id].
  - assert (String.length addr = 32%nat) as Ha.
    { unfold carriedAddress in Ec. destruct (_ =s ""); [done |]. destruct (DecodeAddress _) as [x|] eqn:Ed; [| done]. simpl in Ec.
      destruct (_ =s _); [done |]. injection Ec as ->. by eapply decoded. }
    rewrite !str_length_app, H8, Ha, Hseed. cbn [Nat.add Nat.eqb orb negb Nat.sub].
    rewrite (substring_skip w) by done. rewrite substring_take by done.
    rewrite <- str_app_assoc, from_app; [done |]. by rewrite str_length_app, H8, Ha.
  - change (""%string +:+ bn_Seed b) with (bn_Seed b). rewrite !str_length_app, H8, Hseed. cbn [Nat.add Nat.eqb orb negb Nat.sub].
    by rewrite from_app.
Qed.
End RoundTrip.

(** ** The sync seed *)

Lemma std_decode_encode s : std_decode (b64_encode false true s) = Some s.
Proof.
  induction s as [| a | a b | a b c r IH] using string_ind3; [done | | |];
    (pose proof (byte_range a); cbn [b64_encode]; cbn zeta;
     match goal with |- context [(?n / 262144)%N] => destruct (digit_bounds n) as (B1 & B2 & B3 & B4) end;
     [try pose proof (byte_range b); try pose proof (byte_range c); lia |]); cbn [std_decode];
    rewrite !val_char by done; cbn [mbind option_bind].
  - simpl. by rewrite group2_bytes.
  - destruct (plain_not _ (plain_char false _ B3)) as (-> & _ & _). simpl. by rewrite group3_bytes.
  - destruct (plain_not _ (plain_char false _ B4)) as (-> & _ & _). rewrite IH. cbn [mbind option_bind]. by rewrite group4_bytes.
Qed.

Lemma hex_no_padding s b : hex_decode s = Some b → contains "=" s = false.
Proof.
  revert b. assert (∀ n s, (String.length s <= n)%nat → ∀ b, hex_decode s = Some b → contains "=" s = false) as H; [| by eapply H].
  clear. induction n as [|n IH]; intros [|h [|l r]] Hl b; try done; simpl in Hl; try lia.
  cbn [hex_decode contains]. destruct (hex_digit h) eqn:Eh; [| done]. destruct (hex_digit l) eqn:El; [| done]. simpl.
  destruct (hex_decode r) as [rest|] eqn:Er; [| done]. intros _. rewrite (IH r ltac:(lia) rest Er).
  assert (Ascii.eqb h "=" = false ∧ Ascii.eqb l "=" = false) as [-> ->]; [| done].
  split; apply Ascii.eqb_neq; by intros ->.
Qed.

Lemma encode_has_padding s : (String.length s mod 3 ≠ 0)%nat → contains "=" (b64_encode false true s) = true.
Proof.
  induction s as [| a | a b | a b c r IH] using string_ind3.
  - done.
  - intros _. cbn [b64_encode contains]. cbn zeta. by rewrite !orb_true_r.
  - intros _. cbn [b64_encode contains]. cbn zeta. by rewrite !orb_true_r.
  - intros Hm. cbn [b64_encode contains]. cbn zeta. cbn [contains]. rewrite IH; [by rewrite !orb_true_r |].
    cbn [String.length] in Hm. intros E. apply Hm. change (S (S (S (String.length r)))) with (3 + String.length r)%nat.
    rewrite <- Nat.Div0.add_mod_idemp_r, E. done.
Qed.

Lemma count_plain s p : all_plain s = true → count_char " " (s +:+ p) = count_char " " p.
Proof.
  induction s as [|a s IH]; [done |]. cbn [all_plain]. intros [Ha Hs]%andb_true_iff.
  change (String a s +:+ p) with (String a (s +:+ p)). cbn [count_char]. destruct (plain_not _ Ha) as (_ & Hsp & _).
  destruct (Ascii.eqb_spec a " "); [by subst a | by apply IH].
Qed.

Lemma padding_chars s : ∃ p, b64_encode false true s = b64_encode false false s +:+ p ∧ trim_right p = p ∧ count_char " " p = 0%nat ∧ skip_newlines p = p.
Proof.
  induction s as [| a | a b | a b c r (p & IH & Hp)] using string_ind3.
  - by exists ""%string.
  - by exists "=="%string.
  - by exists "="%string.
  - exists p. split; [| done]. cbn [b64_encode]. cbn zeta. by rewrite IH.
Qed.

(** A sync key given as the base64 of a seed, or of a whole private key, is
    that seed, whatever the mnemonic reader accepts; and key material is the
    seed when there is a sync key, the hash of the shared secret when there is
    none. *)
Theorem sync_key_base64 ToPrivateKey sha256 c key :
  String.length key = 32%nat ∨ String.length key = 64%nat →
  (trim_space (rg_SyncKey (cf_Registry c)) = b64_encode false true key →
   SyncSeed ToPrivateKey c = Ok (Some (upto 32 key)) ∧ KeyMaterial ToPrivateKey sha256 c = Ok (upto 32 key)) ∧
  (trim_space (rg_SyncKey (cf_Registry c)) = ""%string →
   KeyMaterial ToPrivateKey sha256 c = Ok (sha256 (secretPrefix +:+ ms_SharedSecret (cf_Mesh c)))).
Proof.
  intros Hlen. split.
  - intros Hk. assert (SyncSeed ToPrivateKey c = Ok (Some (upto 32 key))) as E; [| by unfold KeyMaterial; rewrite E].
    unfold SyncSeed. rewrite Hk. assert (keyLength key = true) as HL by (unfold keyLength; destruct Hlen as [-> | ->]; done).
    assert (contains "=" (b64_encode false true key) = true) as Hc by (apply encode_has_padding; destruct Hlen as [-> | ->]; done).
    destruct (String.eqb_spec (b64_encode false true key) "") as [Ee|]; [by rewrite Ee in Hc |].
    destruct (hex_decode _) eqn:Eh; [apply hex_no_padding in Eh; congruence |].
    destruct (padding_chars key) as (p & Ep & _ & Hcount & Hskip). pose proof (encode_plain false key) as Hp.
    assert (count_char " " (b64_encode false true key) = 0%nat) as -> by (by rewrite Ep, count_plain). simpl.
    unfold StdDecodeString. assert (skip_newlines (b64_encode false true key) = b64_encode false true key) as -> by (by rewrite Ep, skip_plain, Hskip).
    by rewrite std_decode_encode, HL.
  - intros Hk. unfold KeyMaterial, SyncSeed. by rewrite Hk.
Qed.

(** ** Examples *)
Definition sampleSeed : string := "0123456789abcdef0123456789ABCDEF".

(** A toy address codec: an address is its bytes. *)
Definition toyDecode (s : string) : option string := if (String.length s =? 32)%nat then Some s else None.

Lemma bundle_roundtrip_witness :
  ParseBundle (λ a, a) (b64_encode true false (bundleBytes toyDecode (λ s, s) (mkBundle 742 "the-rekeyed-account-of-the-fleet" sampleSeed))) =
    Ok (mkBundle 742 "the-rekeyed-account-of-the-fleet" sampleSeed).
Proof.
  apply (bundle_roundtrip toyDecode (λ a, a) (λ s, s)).
  - intros s addr. unfold toyDecode. destruct (Nat.eqb_spec (String.length s) 32); [by intros [= <-] | done].
  - split; reflexivity.
  - reflexivity.
Defined.

(** A configuration with this sync key. *)
Definition keyConfig (key : string) : Config :=
  mkConfig "" "" [] "" "" "" "" (mkLog "" false) (mkLocal "" "" "" [] [] 0 [] None 0 0)
    (mkReg "algorand" 742 key "" "" "" "" 0 None "" "" []) (mkMesh [] [] "" 0 0 0 0 0 0 ∅) []
    (mkRouting 0 0 0 false None 0 0 0 0 (mkBreaker 0 0) []) (mkRateLimit false "" [] 0 0 None None ∅ ∅ ∅ []).

Lemma sync_key_base64_witness :
  SyncSeed (λ _, None) ((keyConfig "MDEyMzQ1Njc4OWFiY2RlZjAxMjM0NTY3ODlBQkNERUY=")) = Ok (Some sampleSeed).
Proof.
  apply (proj1 (sync_key_base64 (λ _, None) (λ s, s) _ sampleSeed (or_introl eq_refl))). reflexivity.
Defined.
