(* ===== verification/AuthLaws.v ===== *)
(** * AuthLaws: what authorization and client identity guarantee

    Which token each allowed request showed; the address a client is billed
    under, however the proxies it came through record it ([adds], [reached]);
    the clients of one IPv6 prefix share a key. *)
From S2P Require Import Prelude GoStrings GoNet Types Classify Limiter Http Auth.
From stdpp Require Import pretty.
From Stdlib Require Import Ascii.
Open Scope Z_scope.

(** ** Who a request is *)
Section Laws.
Context (sha256 : string → string).

(** Who the limiter bills a request with token tok to. *)
Definition billed_to (l : IdentifyOptions) (req : Request) (tok : string) (id : Identity) : Prop :=
  (rq_RemoteAddr req = loopbackAddr ∧ id = exempt) ∨
  (tok = ""%string ∧ io_AnonymousPlan l ≠ ""%string ∧
   id = mkIdentity false ("ip:" +:+ clientKey l req) (io_AnonymousPlan l)) ∨
  (tok ≠ ""%string ∧ ∃ t, t ∈ io_Tokens l ∧ sha256 (lt_Token t) = sha256 tok ∧
   id = mkIdentity false ("token:" +:+ lt_Name t) (lt_Plan t)).

Lemma Identify_billed l req tok id : Identify sha256 l req tok = Some id → billed_to l req tok id.
Proof.
  unfold Identify. destruct (String.eqb_spec (rq_RemoteAddr req) loopbackAddr); [intros [= <-]; by left |].
  destruct (String.eqb_spec tok "").
  { destruct (String.eqb_spec (io_AnonymousPlan l) ""); [done | intros [= <-]; right; left; auto]. }
  destruct (findToken sha256 l tok) as [t|] eqn:E; cbn; [| done]. intros [= <-]. right. right. split; [done |].
  exists t. apply find_some in E as [Hin E]. apply String.eqb_eq in E. split_and!; [| done | done].
  by rewrite <- elem_of_reverse, list_elem_of_In.
Qed.

(** C20: what a request that may proceed has shown.  One for the agent's own
    endpoints, health apart, shows the admin token, unless no token and no
    rate limit is configured at all; any other shows the admin token, or,
    without rate limits, the client token if there is one; with rate limits it
    is billed to the configured token it shows, or to the anonymous plan (if
    there is one) under its address, or is the agent's own. *)
Theorem authorize_sound o req class id :
  authorize sha256 o req class = Allowed id → isHealth req class = false →
  let tok := hget (rq_Header req) "X-Algo-API-Token" in
  (tok = au_AdminToken o ∧ tok ≠ ""%string ∧ id = exempt) ∨
  match au_limiter o with
  | None => id = exempt ∧ if rc_Agent class then au_AdminToken o = ""%string ∧ au_ClientToken o = ""%string
                          else au_ClientToken o = ""%string ∨ tok = au_ClientToken o
  | Some l => rc_Agent class = false ∧ billed_to l req tok id
  end.
Proof.
  unfold authorize. intros H Hh. rewrite Hh, orb_false_r in H. set (tok := hget _ _) in *. cbn zeta.
  destruct ((au_AdminToken o <>s "") && tokenEqual tok (au_AdminToken o)) eqn:Ea.
  { injection H as <-. left. unfold tokenEqual in Ea. bprop. subst. split_and!; congruence. }
  right. destruct (rc_Agent class); cbn [andb] in H.
  - destruct (String.eqb_spec (au_AdminToken o) ""); cbn [andb] in H; [| done].
    destruct (String.eqb_spec (au_ClientToken o) ""); cbn [andb] in H; [| done].
    destruct (au_limiter o); cbn in H; [done |]. by injection H as <-.
  - destruct (au_limiter o) as [l|].
    + destruct (Identify sha256 l req tok) eqn:E; [| done]. injection H as ->. split; [done |]. by apply Identify_billed.
    + unfold tokenEqual in H. destruct (_ || _) eqn:E; [| done]. injection H as <-. split; [done |]. bprop. naive_solver.
Qed.
End Laws.

(** ** Where a request comes from *)
(** The entries of the header lines ls. *)
Definition pieces (ls : list string) : list string := ls ≫= split_on ",".

Lemma split_lines l ls : split_on "," (GoStrings.join "," (l :: ls)) = pieces (l :: ls).
Proof.
  revert l. induction ls as [| l' ls IH]; intros l; [by cbn; rewrite app_nil_r |].
  change (GoStrings.join "," (l :: l' :: ls)) with (l +:+ String "," (GoStrings.join "," (l' :: ls))).
  by rewrite split_on_app, IH.
Qed.

(** Entries that differ in the spaces around them are the same hops. *)
Definition same_hops (xs ys : list string) : Prop := trim_space <$> xs = trim_space <$> ys.

Lemma same_hops_app xs xs' ys : same_hops xs xs' → same_hops (ys ++ xs) (ys ++ xs').
Proof. unfold same_hops. rewrite !fmap_app. by intros ->. Qed.

Lemma split_space s : same_hops (split_on "," (String " " s)) (split_on "," s).
Proof.
  destruct (split_on_cons "," s) as (w & ws & E). cbn [split_on]. by rewrite E.
Qed.

Lemma pieces_spaced l ls : same_hops (split_on "," (GoStrings.join ", " (l :: ls))) (pieces (l :: ls)).
Proof.
  revert l. induction ls as [| l' ls IH]; intros l; [unfold same_hops; cbn; by rewrite app_nil_r |].
  change (GoStrings.join ", " (l :: l' :: ls)) with (l +:+ String "," (String " " (GoStrings.join ", " (l' :: ls)))).
  rewrite split_on_app. change (pieces (l :: l' :: ls)) with (split_on "," l ++ pieces (l' :: ls)).
  apply same_hops_app. exact (eq_trans (split_space _) (IH l')).
Qed.

Lemma walkHops_same o xs ys a : same_hops xs ys → walkHops o xs a = walkHops o ys a.
Proof.
  unfold same_hops. revert ys a. induction xs as [| x xs IH]; intros [| y ys] a; try done. intros [= E H]. cbn [walkHops]. rewrite E.
  destruct (parseAddr _); [| done]. by rewrite (IH ys).
Qed.

Lemma walk_pieces o ls a : walkHops o (reverse (split_on "," (GoStrings.join "," ls))) a = walkHops o (reverse (pieces ls)) a.
Proof. destruct ls as [| l ls]; [by vm_compute | by rewrite split_lines]. Qed.

(** A proxy records the peer it was reached from, [hop], in the header lines it
    passes on: as a line of its own, after a comma in the last line, or with
    all lines made one (as net/http/httputil's proxy does). *)
Inductive adds (hop : string) : list string → list string → Prop :=
| adds_line ls : adds hop ls (ls ++ [hop])
| adds_comma ls l sep : sep = "," ∨ sep = ", " → adds hop (ls ++ [l]) (ls ++ [l +:+ sep +:+ hop])
| adds_joined ls : adds hop ls [GoStrings.join ", " (ls ++ [hop])].

(** A client at addr sent the header lines [sent], and the agent is reached from
    peer with the lines ls: directly, or through proxies the agent trusts, each
    of which records the one it was reached from. *)
Inductive reached (o : IdentifyOptions) (addr : Addr) (sent : list string) : list string → Addr → Prop :=
| reached_directly : reached o addr sent sent addr
| reached_through ls peer hop ls' proxy :
    reached o addr sent ls peer → parseAddr (trim_space hop) = Some peer → contains "," hop = false →
    adds hop ls ls' → trusted o proxy = true → reached o addr sent ls' proxy.

Lemma adds_pieces hop ls ls' : contains "," hop = false → adds hop ls ls' → same_hops (pieces ls') (pieces ls ++ [hop]).
Proof.
  intros Hc [ls1 | ls1 l sep Hs | ls1]; unfold pieces.
  - rewrite bind_app. cbn. rewrite split_on_none by done. done.
  - rewrite !bind_app, <- app_assoc. apply same_hops_app. cbn. rewrite !app_nil_r.
    destruct Hs as [-> | ->].
    + change ("," +:+ hop) with (String "," hop). rewrite split_on_app, (split_on_none _ hop) by done. done.
    + change (", " +:+ hop) with (String "," (String " " hop)). rewrite split_on_app. apply same_hops_app.
      rewrite <- (split_on_none "," hop) by done. apply split_space.
  - cbn. rewrite app_nil_r. destruct ls1 as [| l ls1]; cbn [app].
    + cbn. rewrite split_on_none by done. done.
    + pose proof (pieces_spaced l (ls1 ++ [hop])) as H. unfold pieces in H. rewrite app_comm_cons, bind_app in H.
      assert (Eh : ([hop] ≫= split_on ",") = [hop]) by (cbn; by rewrite (split_on_none _ hop)). rewrite Eh in H. exact H.
Qed.

Lemma reached_client o addr sent ls peer :
  trusted o addr = false → reached o addr sent ls peer →
  clientAddr o peer ls = addr ∧ (trusted o peer = false → peer = addr).
Proof.
  intros Ha. unfold clientAddr. induction 1 as [| ls peer hop ls' proxy _ [IH Hu] Hp Hc Hadd Ht].
  - by rewrite Ha.
  - split; [| congruence]. rewrite Ht, walk_pieces.
    rewrite (walkHops_same o _ (hop :: reverse (pieces ls))).
    2: { rewrite <- reverse_snoc. unfold same_hops. rewrite !fmap_reverse. f_equal. by apply adds_pieces. }
    cbn [walkHops]. rewrite Hp. destruct (trusted o peer) eqn:E; [by rewrite <- IH, walk_pieces | by apply Hu].
Qed.

(** C34: the address a client is billed under cannot be chosen by it.  A client
    at an address that is not a trusted proxy's is billed under that address
    (its IPv6 prefix), whatever X-Forwarded-For lines it sends, whether it
    reaches the agent directly or through any number of trusted proxies that
    each record the address they were reached from: in a line of its own, or
    after a comma in the last line, or with the lines joined into one. *)
Theorem clientKey_unspoofable o req addr sent peer :
  parseAddr (rq_RemoteAddr req) = Some peer → trusted o addr = false →
  reached o addr sent (hvalues (rq_Header req) "X-Forwarded-For") peer →
  clientKey o req = addrKey o addr.
Proof. intros Hp Ha Hr. unfold clientKey. rewrite Hp. f_equal. by apply (reached_client o addr sent). Qed.

(** ** IPv6 prefixes *)
Lemma be_num_cons x b : be_num (x :: b) = x * 2 ^ (8 * Z.of_nat (length b)) + be_num b.
Proof.
  unfold be_num. cbn [foldl]. change (0 * 256 + x) with x.
  assert (∀ acc, foldl (λ a y, a * 256 + y) acc b = acc * 2 ^ (8 * Z.of_nat (length b)) + foldl (λ a y, a * 256 + y) 0 b) as H.
  { induction b as [|y b IH]; intros acc; cbn [foldl length]; [lia |]. rewrite (IH (acc * 256 + y)), (IH (0 * 256 + y)).
    replace (8 * Z.of_nat (S (length b))) with (8 + 8 * Z.of_nat (length b)) by lia. rewrite Z.pow_add_r by lia. nia. }
  apply H.
Qed.

Definition byte (x : Z) : Prop := 0 <= x < 256.

Lemma be_num_range b : Forall byte b → 0 <= be_num b < 2 ^ (8 * Z.of_nat (length b)).
Proof.
  induction 1 as [|x b Hx Hb IH]; [done |]. rewrite be_num_cons. cbn [length].
  replace (8 * Z.of_nat (S (length b))) with (8 + 8 * Z.of_nat (length b)) by lia. rewrite Z.pow_add_r by lia.
  unfold byte in Hx. nia.
Qed.

Lemma mask_none n b : n <= 0 → mask_bytes n b = replicate (length b) 0.
Proof.
  revert n. induction b as [|x b IH]; intros n Hn; cbn; [done |].
  rewrite (proj2 (Z.leb_gt 8 n)), (proj2 (Z.leb_le n 0)) by lia. by rewrite IH by lia.
Qed.

(** The bits kept of an address, byte by byte. *)
Lemma kept_whole n x b : Forall byte (x :: b) → 8 <= n <= 8 * Z.of_nat (S (length b)) →
  kept n (x :: b) = x * 2 ^ (n - 8) + kept (n - 8) b ∧ 0 <= kept (n - 8) b < 2 ^ (n - 8).
Proof.
  intros [Hx Hb]%Forall_cons Hn. unfold kept. cbn [length]. rewrite be_num_cons.
  pose proof (be_num_range b Hb) as Hr. set (L := 8 * Z.of_nat (length b)) in *.
  replace (8 * Z.of_nat (S (length b)) - n) with (L - (n - 8)) by lia. rewrite !Z.shiftr_div_pow2 by lia.
  replace (2 ^ L) with (2 ^ (n - 8) * 2 ^ (L - (n - 8))) in * by (rewrite <- Z.pow_add_r by lia; f_equal; lia).
  assert (0 < 2 ^ (L - (n - 8))) as Hpos by (apply Z.pow_pos_nonneg; lia). split.
  - rewrite Z.mul_assoc, Z.div_add_l by lia. done.
  - split; [apply Z.div_pos; lia | apply Z.div_lt_upper_bound; lia].
Qed.

Lemma kept_part n x b : Forall byte (x :: b) → 0 < n < 8 → kept n (x :: b) = Z.shiftr x (8 - n).
Proof.
  intros [Hx Hb]%Forall_cons Hn. unfold kept. cbn [length]. rewrite be_num_cons.
  pose proof (be_num_range b Hb) as Hr. set (L := 8 * Z.of_nat (length b)) in *.
  replace (8 * Z.of_nat (S (length b)) - n) with (L + (8 - n)) by lia. rewrite <- Z.shiftr_shiftr by lia. f_equal.
  rewrite Z.shiftr_div_pow2 by lia. rewrite Z.div_add_l by lia. rewrite (Z.div_small (be_num b)) by lia. lia.
Qed.

Lemma mask_kept n b1 b2 :
  Forall byte b1 → Forall byte b2 → length b1 = length b2 → n <= 8 * Z.of_nat (length b1) →
  kept n b1 = kept n b2 → mask_bytes n b1 = mask_bytes n b2.
Proof.
  revert n b2. induction b1 as [|x b1 IH]; intros n [|y b2]; try done. intros H1 H2 Hl Hn Hk. injection Hl as Hl.
  destruct (Z.le_gt_cases n 0); [by rewrite !mask_none by done; cbn; rewrite Hl |].
  cbn [mask_bytes]. destruct (Z.leb_spec 8 n).
  - destruct (kept_whole n x b1 H1) as [E1 R1]; [cbn [length] in Hn; lia |].
    destruct (kept_whole n y b2 H2) as [E2 R2]; [cbn [length] in Hn; rewrite <- Hl; lia |]. rewrite E1, E2 in Hk.
    assert (x = y ∧ kept (n - 8) b1 = kept (n - 8) b2) as [-> Hk'] by (apply (Z.div_mod_unique (2 ^ (n - 8))); lia).
    f_equal. apply Forall_cons in H1 as [_ H1]. apply Forall_cons in H2 as [_ H2]. cbn [length] in Hn. apply IH; try done. lia.
  - rewrite (proj2 (Z.leb_gt n 0)) by done. rewrite !kept_part in Hk by (done || lia). rewrite Hk, !mask_none by lia. by rewrite Hl.
Qed.

(** IPv6 clients that share the configured prefix (a host commonly holds a
    whole /64) share one allowance, whatever the rest of their addresses. *)
Theorem prefix_shares_key o b1 b2 :
  Forall byte b1 → Forall byte b2 → length b1 = 16%nat → length b2 = 16%nat →
  0 <= io_IPv6Prefix o <= 128 → kept (io_IPv6Prefix o) b1 = kept (io_IPv6Prefix o) b2 →
  addrKey o (V6 b1) = addrKey o (V6 b2).
Proof.
  intros H1 H2 L1 L2 Hp Hk. unfold addrKey, prefix_string.
  rewrite (mask_kept (io_IPv6Prefix o) b1 b2) by (done || congruence || (rewrite L1; lia)).
  destruct (_ || _) eqn:E; [| done]. exfalso. lia.
Qed.

(** *** Witnesses *)
Definition sampleIdentify : IdentifyOptions :=
  mkIdentify [mkLimitToken "alice" "secret" "gold"] "anon" [mkPrefix (V4 [10; 0; 0; 0]) 8] 64.

Definition proxied : Request :=
  mkRequest "GET" "/v2/status" "" "/v2/status"
    {["X-Forwarded-For" := ["1.2.3.4, 9.9.9.9"; "203.0.113.7"; "10.0.0.2"]]}%string "10.0.0.1:4711" noBody 0 true.

Lemma authorize_sound_witness :
  authorize (λ s, s) (mkAuth "" "" (Some sampleIdentify)) proxied zeroClass = Allowed (mkIdentity false "ip:203.0.113.7" "anon") ∧
  (hget (rq_Header proxied) "X-Algo-API-Token" = ""%string ∧ ""%string ≠ ""%string ∧ mkIdentity false "ip:203.0.113.7" "anon" = exempt ∨
   false = false ∧ billed_to (λ s, s) sampleIdentify proxied "" (mkIdentity false "ip:203.0.113.7" "anon")).
Proof.
  split; [by vm_compute |].
  apply (authorize_sound (λ s, s) (mkAuth "" "" (Some sampleIdentify)) proxied zeroClass); by vm_compute.
Defined.

(** The same client through two proxies, the second of which appends to the line
    of the first. *)
Definition appended : Request :=
  mkRequest "GET" "/v2/status" "" "/v2/status"
    {["X-Forwarded-For" := ["1.2.3.4, 9.9.9.9, 203.0.113.7, 10.0.0.2"]]}%string "10.0.0.1:4711" noBody 0 true.

Lemma clientKey_unspoofable_witness :
  clientKey sampleIdentify proxied = "203.0.113.7"%string ∧ clientKey sampleIdentify appended = "203.0.113.7"%string.
Proof.
  split.
  - apply (clientKey_unspoofable sampleIdentify proxied (V4 [203; 0; 113; 7]) ["1.2.3.4, 9.9.9.9"]%string (V4 [10; 0; 0; 1])); [by vm_compute.. |].
    apply (reached_through _ _ _ ["1.2.3.4, 9.9.9.9"; "203.0.113.7"]%string (V4 [10; 0; 0; 2]) "10.0.0.2"); [| by vm_compute.. | apply (adds_line _ [_; _]) | by vm_compute].
    apply (reached_through _ _ _ ["1.2.3.4, 9.9.9.9"]%string (V4 [203; 0; 113; 7]) "203.0.113.7"); [apply reached_directly | by vm_compute.. | apply (adds_line _ [_]) | by vm_compute].
  - apply (clientKey_unspoofable sampleIdentify appended (V4 [203; 0; 113; 7]) ["1.2.3.4"; "9.9.9.9"]%string (V4 [10; 0; 0; 1])); [by vm_compute.. |].
    apply (reached_through _ _ _ ["1.2.3.4, 9.9.9.9, 203.0.113.7"]%string (V4 [10; 0; 0; 2]) "10.0.0.2"); [| by vm_compute.. | apply (adds_comma _ [] "1.2.3.4, 9.9.9.9, 203.0.113.7" ", "); by right | by vm_compute].
    apply (reached_through _ _ _ ["1.2.3.4"; "9.9.9.9"]%string (V4 [203; 0; 113; 7]) "203.0.113.7"); [apply reached_directly | by vm_compute.. | exact (adds_joined "203.0.113.7" ["1.2.3.4"; "9.9.9.9"]%string) | by vm_compute].
Defined.

Definition net64 (host : Z) : list Z := [32; 1; 13; 184; 0; 0; 0; 7; 0; 0; 0; 0; 0; 0; 0; host].

Lemma prefix_shares_key_witness :
  addrKey sampleIdentify (V6 (net64 1)) = addrKey sampleIdentify (V6 (net64 2)) ∧
  addrKey sampleIdentify (V6 (net64 1)) = "2001:db8:0:7::/64"%string.
Proof.
  split; [| by vm_compute].
  apply (prefix_shares_key sampleIdentify (net64 1) (net64 2)); try done; repeat constructor; done.
Defined.
