(* ===== verification/Forwarding.v ===== *)
(** * Forwarding: one request to the upstreams that can serve it
    (internal/app/router.go)

    Selection, the attempts and what each is recorded as, the externals as a
    last resort, and the answer when every attempt failed.  The billed
    ticket a request's context carries is the argument [tk]; metrics and log
    lines are not modelled. *)
From S2P Require Import Prelude GoFloat GoStrings GoTime Types Classify Eligible Select Effort Ports Limiter Prog Http Proxy Auth.
From stdpp Require Import pretty.
Open Scope Z_scope.
Open Scope mesh_scope.

(** ** RouterOptions *)
Record RouterOptions := mkRouter {
  ro_Mode : string;
  ro_Balancer : bool;
  ro_ClientToken : string;
  ro_AdminToken : string;
  ro_SyncTolerance : Z;
  ro_UpstreamTimeout : Duration;
  ro_RequestTimeout : Duration;
  ro_StatusTimeout : Duration;
  ro_WaitTimeout : Duration;
  ro_PendingTTL : Duration;
  ro_RetryBudget : Z;
  ro_MultiBroadcast : bool;
  ro_Weights : Weights;
  ro_RateLimit : option IdentifyOptions
}.

Definition or_else (d z : Z) : Z := if z =? 0 then d else z.

Definition routerDefaults (o : RouterOptions) : RouterOptions :=
  let up := or_else (60 * Second) (ro_UpstreamTimeout o) in
  mkRouter (if ro_Mode o =s "" then ModeFallback else ro_Mode o) (ro_Balancer o) (ro_ClientToken o) (ro_AdminToken o)
    (ro_SyncTolerance o) up (or_else (wi64 (2 * up)) (ro_RequestTimeout o)) (or_else (10 * Second) (ro_StatusTimeout o))
    (or_else (60 * Second) (ro_WaitTimeout o)) (or_else (10 * Second) (ro_PendingTTL o))
    (ro_RetryBudget o) (ro_MultiBroadcast o) (ro_Weights o) (ro_RateLimit o).

(** ** What the candidates say *)
Definition anySimulateLimits (us : list Upstream) : bool :=
  existsb (λ u, isSome (cap_Simulate (up_Caps u)) && negb (up_Excluded u)) us.
Definition anyBusy (us : list Upstream) : bool :=
  existsb (λ u, st_Busy (up_Stats u) && negb (up_Excluded u)) us.
Definition anyTimeTravel (us : list Upstream) : bool :=
  existsb (λ u, cap_TimeTravel (up_Caps u) && negb (up_Excluded u)) us.

Definition isExternal (u : Upstream) : bool := bool_decide (up_Kind u = KindExternal).

Definition mayUseExternals (class : RequestClass) : bool := negb (rc_LocalOnly class).

(** ** Bodies that can be sent again *)
Definition maxReplayBody : Z := Z.shiftl 4 20.

(** The request, the reset that installs a fresh copy of its body, and
    whether it can be sent more than once.  A body that cannot is put back
    together: it reads as it did. *)
Definition replayable (req : Request) : Request * (Request → Request) * bool :=
  if rb_none (rq_Body req) || (rq_ContentLength req =? 0) then (req, λ r, r, true)
  else
    let '(data, failed) := readAll (rq_Body req) (maxReplayBody + 1) in
    if failed || (maxReplayBody <? Z.of_nat (String.length data)) then (req, λ r, r, false)
    else
      let reset r := r <| rq_Body := bytesBody data |> in
      (reset (req <| rq_ContentLength := Z.of_nat (String.length data) |>), reset, true).

Definition minAttempt : Duration := Second.
Definition maxBusy : Duration := 10 * Second.

(** timeLeft(ctx). *)
Definition timeLeft : M bool :=
  let* ended := ctxErr in
  if ended then ret false
  else
    let* d := until in
    ret (match d with Some remaining => minAttempt <=? remaining | None => true end).

(** Denial.Write. *)
Fixpoint putHeaders (h : list (string * string)) : M () :=
  match h with
  | [] => ret ()
  | (k, v) :: h => write (WPut k [v]);; putHeaders h
  end.

Definition writeDenial (d : Denial float64) : M () :=
  putHeaders (dn_Header d);;
  (if 0 <? dn_RetryAfter d then write (WSet "Retry-After" (pretty (ceilSeconds (F := float64) (dn_RetryAfter d)))) else ret ());;
  writeJSON (dn_Status d) (PDenial (dn_Message d)).

(** answerQuotaExceeded(ctx, w). *)
Definition answerQuotaExceeded (tk : option nat) : M () :=
  match tk with
  | Some t => let* d := ask (AExhausted t) in writeDenial d
  | None => writeMessage 429 "algod-mesh: rate limit exceeded"
  end.

(** writeMessage with a status in its text. *)
Definition upstreamAnswered (status : Z) : string := "algod-mesh: upstream answered " +:+ pretty status.

(** answerFailure. *)
Definition answerFailure (class : RequestClass) (out : Outcome) : M () :=
  if out_HeadersSent out then ret ()
  else
    let* client_left := gone in
    if client_left then ret ()
    else if match out_Err out with Some e => fl_Deadline e | None => false end
    then writeMessage 504 "algod-mesh: upstream timeout"
    else if Heavy class && (out_Status out =? 503) && (0 <? out_RetryAfter out) then
      write (WSet "Retry-After" (pretty (ceilSeconds (F := float64) (out_RetryAfter out))));;
      writeMessage 503 "algod-mesh: every node able to serve this request is busy"
    else if (500 <=? out_Status out) || (out_Status out =? 429) then writeMessage 502 (upstreamAnswered (out_Status out))
    else writeMessage 502 "algod-mesh: upstream unreachable".

Section Forwarding.
Context (IntN : Z → Z → Z * Z) (o : RouterOptions).

(** noUpstream. *)
Definition noUpstream (class : RequestClass) (cands : list Upstream) : M () :=
  if rc_LocalOnly class && ro_Balancer o then
    writeMessage 503 "algod-mesh: this agent is a balancer with no local node, and this request is only answered by one"
  else if rc_TimeTravel class && negb (anyTimeTravel cands) then
    writeMessage 503 "algod-mesh: this request needs a time-travel node and the fleet has none"
  else if Heavy class && anyBusy cands then
    write (WSet "Retry-After" "1");;
    writeMessage 503 "algod-mesh: every node able to serve this request is busy"
  else writeMessage 503 "algod-mesh: no eligible upstream for this request".

(** sel; the selection panics on a random source out of range. *)
Definition sel (cands : list Upstream) (class : RequestClass) (best : Z) : M (option Selection) :=
  let* rnd := ask ARnd in
  match Select IntN (ro_Mode o) cands class best (ro_SyncTolerance o) (ro_Weights o) rnd with
  | Some (s, _) => ret s
  | None => crash
  end.

(** pick: the selection, and the candidates and best round it saw. *)
Definition pick (class : RequestClass) (cands : list Upstream) (best : Z) : M (option Selection * list Upstream * Z) :=
  let* s := sel cands class best in
  match s with
  | Some _ => ret (s, cands, best)
  | None =>
      let* found := (if mayUseExternals class then checkExternals else ret false) in
      if negb found then ret (None, cands, best)
      else
        let* '(cands, best) := snapshot in
        let* s := sel cands class best in
        ret (s, cands, best)
  end.

(** ** One attempt *)

(** effortReader's callback. *)
Definition effortReader (t : nat) (u : Upstream) (status : Z) (h : Header) : M Header :=
  match hvalues h "X-Algod-Effort" with
  | [] => ret h
  | vs =>
      let h := hdel h "X-Algod-Effort" in
      if isExternal u then ret h
      else match ParseEffort (GoStrings.join "," vs) with
           | Some e => tell (AReported t e);; ret h
           | None => ret h
           end
  end.

Definition timeLimited (class : RequestClass) : bool := rc_Simulate class || rc_Deltas class || rc_Versions class.

(** What forward tells the statistics about an attempt. *)
Definition recordAttempt (u : Upstream) (class : RequestClass) (out : Outcome) : M () :=
  let* client_left := gone in
  let* quota := (if client_left then ret true else quotaExceeded) in
  if quota then ret ()
  else if timeLimited class && (out_Status out =? 504) then ret ()
  else if Heavy class && (out_Status out =? 503) && (0 <? out_RetryAfter out)
  then tell (ABusy (up_ID u) (Z.min (out_RetryAfter out) maxBusy))
  else tell (ARecord (up_ID u) (StatKey class) out).

Definition targetOf (tk : option nat) (u : Upstream) (class : RequestClass) (retry : list Z) : Target :=
  mkTarget (up_BaseURL u) (up_Token u) retry (if timeLimited class then [504] else [])
    ((λ t, effortReader t u) <$> tk).

(** forward: the outcome, and the request with what is left of its body. *)
Definition forward (tk : option nat) (req : Request) (u : Upstream) (class : RequestClass) (retry : list Z)
    : M (Outcome * Request) :=
  write (WSet "X-Algod-Mesh-Upstream" (up_ID u));;
  write (WSet "X-Algod-Mesh-Tier" (pretty (up_Tier u)));;
  tell (ABegin (up_ID u));;
  let* '(out, rest) := Forward req (targetOf tk u class retry) in
  tell (AFinish (up_ID u));;
  recordAttempt u class out;;
  ret (out, req <| rq_Body := rest |>).

(** ** Every attempt *)

(** Whether an attempt ends the request: an answer, a started answer, or no
    client left to answer. *)
Definition settled (out : Outcome) : M bool :=
  if negb (Failed out) || out_HeadersSent out then ret true else gone.

(** What a round of attempts came to: the request is over, or the last
    outcome failed and the request may go on. *)
Inductive Tried := Over | Unanswered (last : Outcome) (req : Request).

(** The end of one failed attempt in the loop of forwardSelected. *)
Definition afterAttempt (tk : option nat) (class : RequestClass) (out : Outcome) : M bool :=
  let* over := settled out in
  if over then ret true
  else
    let* quota := quotaExceeded in
    if quota then answerQuotaExceeded tk;; ret true
    else if rc_Simulate class && match out_Err out with Some e => fl_Deadline e | None => false end
    then answerFailure class out;; ret true
    else ret false.

(** The loop's further turns: each alternate while there is time. *)
Fixpoint retryEach (tk : option nat) (class : RequestClass) (reset : Request → Request)
    (tries : list Upstream) (last : Outcome) (req : Request) : M Tried :=
  match tries with
  | [] => ret (Unanswered last req)
  | u :: tries =>
      let* go := timeLeft in
      if negb go then ret (Unanswered last req)
      else
        let* '(out, req) := forward tk (reset req) u class [] in
        let* over := afterAttempt tk class out in
        if over then ret Over else retryEach tk class reset tries out req
  end.

(** The upstreams tried: the chosen one, always first, and its alternates,
    within the budget. *)
Definition triesOf (s : Selection) (replay : bool) : list Upstream :=
  let tries := sel_Chosen s :: sel_Alternates s in
  let b := ro_RetryBudget o in
  let tries := if (0 <=? b) && (1 + b <? Z.of_nat (length tries)) then take (Z.to_nat (1 + b)) tries else tries in
  if replay then tries else take 1 tries.

(** externalFallback. *)
Definition externalFallback (class : RequestClass) (tried : list Upstream) : M (option Upstream) :=
  if negb (mayUseExternals class) || existsb isExternal tried then ret None
  else
    let* found := checkExternals in
    if negb found then ret None
    else
      let* '(cands, best) := snapshot in
      let* s := sel (List.filter isExternal cands) class best in
      ret (sel_Chosen <$> s).

(** The externals after the loop: true when the request is over. *)
Definition lastResort (tk : option nat) (class : RequestClass) (reset : Request → Request) (tries : list Upstream)
    (last : Outcome) (req : Request) : M Tried :=
  let* ext := externalFallback class tries in
  match ext with
  | None => ret (Unanswered last req)
  | Some u =>
      let* time := timeLeft in
      if negb time then ret (Unanswered last req)
      else
        let* '(out, req) := forward tk (reset req) u class [] in
        let* over := settled out in
        if over then ret Over
        else
          let* quota := quotaExceeded in
          if quota then answerQuotaExceeded tk;; ret Over else ret (Unanswered out req)
  end.

(** The attempts after a failed first one: the alternates, then an external. *)
Definition carryOn (tk : option nat) (class : RequestClass) (reset : Request → Request) (replay : bool)
    (tries : list Upstream) (last : Outcome) (req : Request) : M Tried :=
  let* t := retryEach tk class reset (tail tries) last req in
  match t with
  | Over => ret Over
  | Unanswered last req =>
      let* time := (if replay then timeLeft else ret false) in
      if time then lastResort tk class reset tries last req else ret (Unanswered last req)
  end.

(** Every attempt, mesh then external. *)
Definition attempts (tk : option nat) (class : RequestClass) (s : Selection) (req : Request) : M Tried :=
  let '(req, reset, replay) := replayable req in
  let tries := triesOf s replay in
  let* '(out, req) := forward tk req (sel_Chosen s) class [] in
  let* over := afterAttempt tk class out in
  if over then ret Over else carryOn tk class reset replay tries out req.

(** forwardSelected. *)
Definition forwardSelected (tk : option nat) (req : Request) (class : RequestClass) (s : Selection) : M () :=
  let* t := attempts tk class s req in
  match t with
  | Over => ret ()
  | Unanswered last _ =>
      let* quota := quotaExceeded in
      if quota then answerQuotaExceeded tk else answerFailure class last
  end.

(** ** handleDefault *)

(** The loop over the relaxed classes: the first with a selection. *)
Fixpoint relax (cands : list Upstream) (best : Z) (prev : RequestClass) (l : list RequestClass)
    : M (option (Selection * RequestClass)) :=
  match l with
  | [] => ret None
  | rc :: l =>
      if CouldServe cands prev then ret None
      else
        let* s := sel cands rc best in
        match s with
        | Some s => ret (Some (s, rc))
        | None => relax cands best rc l
        end
  end.

(** The answer when nothing can serve the request. *)
Definition unserved (class : RequestClass) (cands : list Upstream) : M () :=
  let top := BestRound cands in
  if (rp_Status (rc_Ahead class) =? 0) || negb (0 <? top) then noUpstream class cands
  else match rc_Round class with
       | None => crash
       | Some r =>
           if top <? r then writeMessage (rp_Status (rc_Ahead class)) (rp_Message (rc_Ahead class))
           else noUpstream class cands
       end.

Definition handleDefault (tk : option nat) (req : Request) (class : RequestClass) (cands : list Upstream) (best : Z) : M () :=
  let* '(s, cands, best) := pick class cands best in
  let* chosen := match s with
           | Some s => ret (Some (s, class))
           | None => relax cands best class (Relaxed class)
           end in
  match chosen with
  | Some (s, class) => forwardSelected tk req class s
  | None =>
      let* quota := quotaExceeded in
      if quota then answerQuotaExceeded tk else unserved class cands
  end.
End Forwarding.
