(* ===== verification/Serve.v ===== *)
(** * Serve: broadcasts, pending transactions and waits
    (internal/app/router.go, internal/app/pending.go)

    Waiting for a block, broadcasting a transaction and looking a pending one
    up, with the fan-out the last two share.  A fan-out's goroutines are
    programs of their own ([fanOne]); the handler that started them receives
    their results in any order. *)
From S2P Require Import Prelude GoFloat GoStrings GoTime GoNet Types Classify Eligible Select Ports Limiter Prog Http Proxy Auth Forwarding.
From stdpp Require Import pretty.
From Stdlib Require Import Ascii.
Open Scope Z_scope.
Open Scope mesh_scope.

(** What encoding/json and the msgpack codec make of the bodies the router
    reads and writes. *)
Record BodyCodec := mkBodyCodec {
  render : Payload → string;                         (* the bytes json.Encoder writes *)
  msgpackSimulate : string → option SimulateBody;
  jsonSimulate : string → option SimulateBody;
  jsonTxID : string → option string;                 (* the field txId *)
  msgpackPending : string → option (Z * string);     (* confirmed-round, pool-error *)
  jsonPending : string → option (Z * string)
}.

(** ** captureWriter *)
Record Captured := mkCaptured { cp_status : Z; cp_buf : string; cp_header : Header }.

(** The header map after one use of the writer. *)
Definition headerAfter (h : Header) (w : WriteOp) : Header :=
  match w with
  | WSet k v => hset h k v
  | WAdd k v => hadd h k v
  | WPut k vs => <[k := vs]> h
  | WCopy h' => map_fold (λ k vs h, <[k := hvalues h k ++ vs]> h) h h'
  | WClear => ∅
  | WHead _ | WBody _ => h
  end.

Definition captureLimit : Z := Z.shiftl 8 10.

Section Serve.
Context (codec : BodyCodec).

Definition captureOp (c : Captured) (w : WriteOp) : Captured :=
  let c := c <| cp_header := headerAfter (cp_header c) w |> in
  match w with
  | WHead code => if (cp_status c =? 0) && (200 <=? code) then c <| cp_status := code |> else c
  | WBody p =>
      let c := if cp_status c =? 0 then c <| cp_status := 200 |> else c in
      let n := captureLimit - Z.of_nat (String.length (cp_buf c)) in
      if 0 <? n then c <| cp_buf := cp_buf c +:+ String.substring 0 (Z.to_nat n) (render codec p) |> else c
  | _ => c
  end.

(** m, writing through a captureWriter. *)
Fixpoint capture {A} (c : Captured) (m : M A) : M (A * Captured) :=
  match m with
  | Ret a => ret (a, c)
  | Crash => crash
  | Call a k => Call a (λ r, capture (match a with AWrite w => captureOp c w | _ => c end) (k r))
  end.

Definition freshCapture : Captured := mkCaptured 0 "" ∅.

(** txIDFrom. *)
Definition txIDFrom (body : string) : string := default ""%string (jsonTxID codec body).

(** sortByRoundDesc: insertion by adjacent swaps. *)
Definition roundAbove (a b : Upstream) : bool := up_LastRound b <? up_LastRound a.
Definition sortByRoundDesc (us : list Upstream) : list Upstream := insertion_sort roundAbove us.

(** ** Fan-out *)
Definition withheldStatus (code : Z) : bool := (code =? 502) || (code =? 503) || (code =? 504).

Definition fan_status (r : fanResult) : Z := match fan_resp r with Some r => rs_StatusCode r | None => 0 end.

Definition fanRank (r : fanResult) : Z :=
  if isSome (fan_err r) then 0 else if withheldStatus (fan_status r) then 1 else 2.

Definition meshFirst (us : list Upstream) : list Upstream :=
  match List.filter (λ u, negb (isExternal u)) us with [] => us | mesh => mesh end.

(** dedupeByURL: the first upstream of each address. *)
Fixpoint dedupe (seen : gset string) (us : list Upstream) : list Upstream :=
  match us with
  | [] => []
  | u :: us => if bool_decide (up_BaseURL u ∈ seen) then dedupe seen us else u :: dedupe ({[up_BaseURL u]} ∪ seen) us
  end.
Definition dedupeByURL (us : list Upstream) : list Upstream := dedupe ∅ us.

(** The headers of an upstream's answer that are not end-to-end. *)
Definition hopHeaders : list string :=
  ["Connection"; "Keep-Alive"; "Transfer-Encoding"; "Content-Length"; "Trailer"; "Upgrade"; "X-Algod-Effort"]%string.

Definition endToEnd (h : Header) : Header := filter (λ kv, elem kv.1 hopHeaders = false) h.

(** writeFan; a result with an error has no answer to give. *)
Fixpoint putAll (l : list (string * list string)) : M () :=
  match l with
  | [] => ret ()
  | (k, vs) :: l => write (WPut k vs);; putAll l
  end.

Definition writeFan (r : fanResult) : M () :=
  match fan_resp r with
  | None => crash
  | Some rs =>
      putAll (map_to_list (endToEnd (rs_Header rs)));;
      write (WSet "X-Algod-Mesh-Upstream" (up_ID (fan_u r)));;
      write (WSet "X-Algod-Mesh-Tier" (pretty (up_Tier (fan_u r))));;
      write (WHead (rs_StatusCode rs));;
      write (WBody (PBytes (fan_body r)))
  end.

(** One goroutine of fanOut.  The error of http.NewRequestWithContext is
    dropped: a URL that does not parse leaves no request, and the next line
    dereferences it. *)
Definition fanOne (req : Request) (body : string) (u : Upstream) (class : RequestClass) : M fanResult :=
  let* start := now in
  let url := trim_suffix "/" (up_BaseURL u) +:+ rq_RequestURI req in
  match url_host url with
  | None => crash
  | Some _ =>
      tell (ABegin (up_ID u));;
      let* '(resp, data, err) := ask (AGet url (up_Token u) (hget (rq_Header req) "Content-Type") body) in
      tell (AFinish (up_ID u));;
      let* finish := now in
      let status := match resp with Some r => rs_StatusCode r | None => 0 end in
      let* ended := ctxErr in
      (if ended then ret ()
       else tell (ARecord (up_ID u) (StatKey class) (mkOutcome status err false (time_sub finish start) 0)));;
      ret (mkFan u resp data err)
  end.

(** ** Broadcasts *)
Section Router.
Context (IntN : Z → Z → Z * Z) (o : RouterOptions).

(** What the fan-out came to: a success was relayed, or the best failure and
    how many nodes did not answer. *)
Inductive Collected := Relayed | Worst (fallback : option fanResult) (unanswered : nat).

Fixpoint collect (n : nat) (fallback : option fanResult) (unanswered : nat) : M Collected :=
  match n with
  | O => ret (Worst fallback unanswered)
  | S n =>
      let* '(_, res) := ask ARecv in
      if isNone (fan_err res) && (fan_status res =? 200) then
        tell (ARemember (txIDFrom (fan_body res)) (up_ID (fan_u res)));;
        writeFan res;;
        ret Relayed
      else
        let unanswered := if isSome (fan_err res) || withheldStatus (fan_status res) then S unanswered else unanswered in
        let fallback := match fallback with
                        | None => Some res
                        | Some f => if fanRank f <? fanRank res then Some res else fallback
                        end in
        collect n fallback unanswered
  end.

(** The externals after a broadcast no node answered: true when the request
    is over. *)
Definition broadcastExternal (tk : option nat) (req : Request) (body : string) (class : RequestClass)
    (targets : list Upstream) : M bool :=
  let* ext := externalFallback IntN o class targets in
  match ext with
  | None => ret false
  | Some u =>
      let* time := timeLeft in
      if negb time then ret false
      else
        let req := req <| rq_Body := bytesBody body |> <| rq_ContentLength := Z.of_nat (String.length body) |> in
        let* '(out, _, cw) := capture freshCapture (forward tk req u class []) in
        let* over := settled out in
        if over then
          (if cp_status cw =? 200 then tell (ARemember (txIDFrom (cp_buf cw)) (up_ID u)) else ret ());;
          ret true
        else ret false
  end.

Definition failedOnEvery (e : failure) : string := "algod-mesh: broadcast failed on every node: " +:+ fl_Text e.

(** What follows the fan-out: the externals when no node answered at all,
    then the best failure. *)
Definition afterCollect (tk : option nat) (req : Request) (body : string) (class : RequestClass) (targets : list Upstream)
    (fallback : option fanResult) (unanswered : nat) : M () :=
  let* time := (if (unanswered =? length targets)%nat then timeLeft else ret false) in
  let* over := (if time then broadcastExternal tk req body class targets else ret false) in
  if over then ret ()
  else match fallback with
       | None => crash
       | Some f =>
           match fan_err f with
           | Some e => writeMessage 502 (failedOnEvery e)
           | None => writeFan f
           end
       end.

Definition multiBroadcast (tk : option nat) (req : Request) (class : RequestClass) (s : Selection) : M () :=
  let '(body, failed) := readAll (rq_Body req) maxReplayBody in
  if failed then writeMessage 400 "algod-mesh: cannot read body"
  else
    let targets := dedupeByURL (meshFirst (sel_Chosen s :: sel_Alternates s)) in
    tell (AFanOut targets);;
    let* c := collect (length targets) None O in
    match c with
    | Relayed => ret ()
    | Worst fallback unanswered => afterCollect tk req body class targets fallback unanswered
    end.

Definition handleBroadcast (tk : option nat) (req : Request) (class : RequestClass) (cands : list Upstream) (best : Z) : M () :=
  let* '(s, cands, best) := pick IntN o class cands best in
  match s with
  | None => noUpstream o class cands
  | Some s =>
      if ro_MultiBroadcast o then multiBroadcast tk req class s
      else
        let* '(_, cw) := capture freshCapture (forwardSelected IntN o tk req class s) in
        if cp_status cw =? 200
        then tell (ARemember (txIDFrom (cp_buf cw)) (hget (cp_header cw) "X-Algod-Mesh-Upstream"))
        else ret ()
  end.

(** ** Pending transactions (pending.go) *)
Definition pendingFailed : Z := 0.
Definition pendingOther : Z := 1.
Definition pendingNotFound : Z := 2.
Definition pendingInPool : Z := 3.
Definition pendingPoolError : Z := 4.
Definition pendingConfirmed : Z := 5.

(** strings.Contains(s, sub). *)
Fixpoint has_infix (sub s : string) : bool :=
  has_prefix sub s || match s with String _ s' => has_infix sub s' | EmptyString => false end.

Definition pendingRank (r : fanResult) : Z :=
  let st := fan_status r in
  if isSome (fan_err r) then pendingFailed
  else if (500 <=? st) || (st =? 429) then pendingFailed
  else if st =? 404 then pendingNotFound
  else if negb (st =? 200) then pendingOther
  else
    let ctype := match fan_resp r with Some rs => hget (rs_Header rs) "Content-Type" | None => ""%string end in
    match (if has_infix "msgpack" ctype then msgpackPending codec (fan_body r) else jsonPending codec (fan_body r)) with
    | None => pendingInPool
    | Some (confirmed, poolError) =>
        if 0 <? confirmed then pendingConfirmed
        else if poolError <>s "" then pendingPoolError
        else pendingInPool
    end.

(** The loop's state: the best answer with its rank, -1 before the first. *)
Definition better (pos : gmap string Z) (chosen : option fanResult) (rank : Z) (res : fanResult) : bool :=
  let k := pendingRank res in
  let at_ r := default 0 (pos !! up_ID (fan_u r)) in
  (rank <? k) || (k =? rank) && match chosen with Some c => at_ res <? at_ c | None => false end.

(** The collect loop: None when the client left. *)
Fixpoint collectPending (n : nat) (pos : gmap string Z) (chosen : option fanResult) (rank : Z) (grace : bool)
    : M (option (option fanResult * Z)) :=
  match n with
  | O => ret (Some (chosen, rank))
  | S n =>
      let* x := ask (ASelect grace) in
      match x with
      | GotGrace => ret (Some (chosen, rank))
      | GotGone => ret None
      | GotResult _ res =>
          let '(chosen, rank) := if better pos chosen rank res then (Some res, pendingRank res) else (chosen, rank) in
          if rank =? pendingConfirmed then ret (Some (chosen, rank))
          else collectPending n pos chosen rank (grace || (pendingInPool <=? rank))
      end
  end.

(** The lookup at the node the transaction is pinned to: None when the
    request is over, else its outcome and the nodes left. *)
Definition pinnedLookup (tk : option nat) (req : Request) (class : RequestClass) (order : list Upstream)
    : M (option (option Outcome * list Upstream * Request)) :=
  let* pin := ask (ARecall (rc_PendingID class)) in
  match pin with
  | None => ret (Some (None, order, req))
  | Some id =>
      match list_find (λ u, up_ID u = id) order with
      | None => ret (Some (None, order, req))
      | Some (i, u) =>
          let* '(out, req) := forward tk req u class [404] in
          let* over := (if out_HeadersSent out then ret true else gone) in
          if over then ret None else ret (Some (Some out, take i order ++ drop (S i) order, req))
      end
  end.

(** The position of each upstream in the order, the last of equal ids. *)
Definition positions (order : list Upstream) : gmap string Z :=
  foldl (λ m '(i, u), <[up_ID u := i]> m) ∅ (zip (Z.of_nat <$> seq 0 (length order)) order).

Definition lookupFailed (e : failure) : string := "algod-mesh: pending lookup failed on every node: " +:+ fl_Text e.

(** The answer of a finished collection; pendingAnswer[rank] and chosen are
    dereferenced. *)
Definition answerPending (class : RequestClass) (chosen : option fanResult) (rank : Z) : M () :=
  match chosen with
  | None => crash
  | Some c =>
      (if (rank =? pendingInPool) || (rank =? pendingPoolError)
       then tell (ARemember (rc_PendingID class) (up_ID (fan_u c))) else ret ());;
      match (if rank =? pendingFailed then fan_err c else None) with
      | Some e => writeMessage 502 (lookupFailed e)
      | None => writeFan c
      end
  end.

(** Every node of [order] at once. *)
Definition askAll (class : RequestClass) (order : list Upstream) : M () :=
  tell (AFanOut order);;
  let* r := collectPending (length order) (positions order) None (-1) false in
  match r with
  | None => ret ()
  | Some (chosen, rank) => answerPending class chosen rank
  end.

Definition handlePending (tk : option nat) (req : Request) (class : RequestClass) (cands : list Upstream) (best : Z) : M () :=
  let* '(s, cands, best) := pick IntN o class cands best in
  match s with
  | None => noUpstream o class cands
  | Some s =>
      let order := sortByRoundDesc (sel_Chosen s :: sel_Alternates s) in
      let* p := pinnedLookup tk req class order in
      match p with
      | None => ret ()
      | Some (pinned, order, req) =>
          match order with
          | [] =>
              match pinned with
              | None => crash
              | Some out =>
                  if out_Status out =? 404 then writeMessage 404 "algod-mesh: transaction not found on any node"
                  else answerFailure class out
              end
          | _ => askAll class order
          end
      end
  end.

(** ** Waiting for a block *)
Definition writeStatusBody (id : string) (tier : Z) (body : string) : M () :=
  write (WSet "X-Algod-Mesh-Upstream" id);;
  write (WSet "X-Algod-Mesh-Tier" (pretty tier));;
  write (WSet "Content-Type" "application/json");;
  write (WHead 200);;
  write (WBody (PBytes body)).

(** The answer from a coalesced status fetch; a fetch without an upstream has
    the zero one. *)
Definition answerFetch (f : statusFetch) : M () :=
  match sf_upstream f with
  | Some u => writeStatusBody (up_ID u) (up_Tier u) (sf_body f)
  | None => writeStatusBody "" 0 (sf_body f)
  end.

(** worthWaiting. *)
Definition worthWaiting (cands : list Upstream) (class : RequestClass) (best : Z) : bool :=
  let class := class <| rc_WaitAfter := None |> in
  existsb (λ u, negb (isExternal u) && Eligible u class best (ro_SyncTolerance o)) cands.

(** The nodes of the mesh past a round. *)
Definition pastRound (after : Z) (cands : list Upstream) : list Upstream :=
  List.filter (λ u, negb (isExternal u) && (after <? up_LastRound u)) cands.

Definition handlePeerWait (req : Request) (class : RequestClass) (after : Z) (cands : list Upstream) (best : Z) : M () :=
  if negb (worthWaiting cands class best) then handleDefault IntN o None req class cands best
  else
    let* _ := ask AHeartbeatRound in
    let* '(round, timedOut) := ask (AWaitHeartbeat after) in
    let* client_left := gone in
    if client_left then ret ()
    else
      let* '(cands, best) := snapshot in
      if negb (timedOut : bool) then
        let* s := sel IntN o (pastRound after cands) class best in
        match s with
        | Some s => forwardSelected IntN o None req class s
        | None => handleDefault IntN o None req class cands best
        end
      else
        let* f := ask (AStatusAt round) in
        if isSome (sf_err f) then handleDefault IntN o None req class cands best else answerFetch f.

Definition handleBalancerWait (req : Request) (class : RequestClass) (after : Z) : M () :=
  let* '(round, _) := ask (AWaitHeartbeat after) in
  let* client_left := gone in
  if client_left then ret ()
  else
    let* f := ask (AStatusAt round) in
    if isSome (sf_err f) then
      let* '(cands, best) := snapshot in
      handleDefault IntN o None req class cands best
    else answerFetch f.

(** handleWait: coalesced on the local monitor, held for a peer, or a
    balancer's. *)
Definition localWait (cands : list Upstream) (class : RequestClass) (best : Z) : option Upstream :=
  match cands with
  | u :: _ => if bool_decide (up_Kind u = KindLocal) && Eligible u class best (ro_SyncTolerance o) then Some u else None
  | [] => None
  end.

Definition handleWait (req : Request) (class : RequestClass) (after : Z) (cands : list Upstream) (best : Z) : M () :=
  if ro_Balancer o then handleBalancerWait req class after
  else match localWait cands class best with
       | Some u =>
           let* body := ask (AWaitLocal after) in
           let* client_left := gone in
           if client_left then ret ()
           else match body with
                | None => writeMessage 503 "algod-mesh: local node status unavailable"
                | Some body => writeStatusBody (up_ID u) (up_Tier u) body
                end
       | None => handlePeerWait req class after cands best
       end.
End Router.
End Serve.
