(* ===== verification/Router.v ===== *)
(** * Router: ServeHTTP (internal/app/router.go)

    The agent's own endpoints, the order in which a request is classified,
    authorized, billed and dispatched, and the [statusWriter] every answer
    goes through: it stops the client's meter and adds the CORS headers as
    the final status goes out. *)
From S2P Require Import Prelude GoFloat GoStrings Types Classify Eligible Select Ports Limiter Prog Http Proxy Auth Forwarding Serve.
From Stdlib Require Import Ascii.
Open Scope Z_scope.
Open Scope mesh_scope.

(** ** statusWriter *)
Record statusWriter := mkStatusWriter {
  sw_origin : bool;
  sw_status : Z;
  sw_header : Header;                  (* w.Header() *)
  sw_onHeader : option nat;            (* the ticket whose Responding it is *)
  sw_client : string
}.

Definition exposedHeaders : string :=
  "Retry-After, RateLimit, RateLimit-Policy, X-Algod-Mesh-Cost, X-Algod-Mesh-Upstream, X-Algod-Mesh-Tier".

(** One use of the header map below the writer. *)
Definition pass (s : statusWriter) (w : WriteOp) : M statusWriter :=
  write w;; ret (s <| sw_header := headerAfter (sw_header s) w |>).

Definition cors (s : statusWriter) : M statusWriter :=
  let* s := (if elem "Origin" (hvalues (sw_header s) "Vary") then ret s else pass s (WAdd "Vary" "Origin")) in
  if sw_origin s then
    let* s := pass s (WSet "Access-Control-Allow-Origin" "*") in
    pass s (WSet "Access-Control-Expose-Headers" exposedHeaders)
  else ret s.

(** The headers Responding adds. *)
Fixpoint passAll (s : statusWriter) (h : list (string * string)) : M statusWriter :=
  match h with
  | [] => ret s
  | (k, v) :: h => let* s := pass s (WPut k [v]) in passAll s h
  end.

Definition begin (s : statusWriter) (code : Z) : M statusWriter :=
  let s := s <| sw_status := code |> in
  let* s := match sw_onHeader s with
            | Some t => let* h := ask (AResponding t code (hget (sw_header s) "Retry-After")) in passAll s h
            | None => ret s
            end in
  cors s.

Definition swWrite (s : statusWriter) (w : WriteOp) : M statusWriter :=
  match w with
  | WHead code =>
      let* s := (if (sw_status s =? 0) && (200 <=? code) then begin s code else ret s) in pass s w
  | WBody _ =>
      let* s := (if sw_status s =? 0 then begin s 200 else ret s) in pass s w
  | _ => pass s w
  end.

(** A handler's call, made through the writer. *)
Definition swCall (s : statusWriter) (a : Act) : M (Resp a * statusWriter) :=
  match a return M (Resp a * statusWriter) with
  | AWrite w => let* s := swWrite s w in ret ((), s)
  | AOnHeader t client => ret ((), s <| sw_onHeader := Some t |> <| sw_client := client |>)
  | b => let* r := ask b in ret (r, s)
  end.

Fixpoint withStatus {A} (s : statusWriter) (m : M A) : M (A * statusWriter) :=
  match m with
  | Ret a => ret (a, s)
  | Crash => crash
  | Call a k => andThen (swCall s a) (λ p, withStatus p.2 (k p.1))
  end.

Definition freshWriter (req : Request) : statusWriter :=
  mkStatusWriter (hget (rq_Header req) "Origin" <>s "") 0 ∅ None "".

(** ** refineSimulate: None when the body could not be read *)
Definition refineSimulate (codec : BodyCodec) (req : Request) (class : RequestClass) : option (Request * RequestClass) :=
  if rb_none (rq_Body req) then Some (req, class)
  else
    let '(prefix, failed) := readAll (rq_Body req) (maxReplayBody + 1) in
    if failed then None
    else if maxReplayBody <? Z.of_nat (String.length prefix) then Some (req, class)
    else
      let req := req <| rq_Body := bytesBody prefix |> <| rq_ContentLength := Z.of_nat (String.length prefix) |> in
      match msgpackSimulate codec prefix with
      | Some body => Some (req, ApplySimulate class body)
      | None =>
          match jsonSimulate codec prefix with
          | Some body => Some (req, ApplySimulate class body)
          | None => Some (req, class)
          end
      end.

(** preflight. *)
Definition preflight (req : Request) : M () :=
  write (WAdd "Vary" "Origin");;
  (if hget (rq_Header req) "Origin" <>s "" then
     write (WAdd "Vary" "Access-Control-Request-Method");;
     write (WAdd "Vary" "Access-Control-Request-Headers");;
     write (WSet "Access-Control-Allow-Methods" "GET,POST,PUT,DELETE,OPTIONS");;
     write (WSet "Access-Control-Allow-Headers" "X-Algo-API-Token,Content-Type")
   else ret ());;
  write (WHead 204).

Section Router.
Context (IntN : Z → Z → Z * Z) (codec : BodyCodec) (sha256 : string → string) (o : RouterOptions) (metrics : bool).

Definition authOptions : AuthOptions := mkAuth (ro_ClientToken o) (ro_AdminToken o) (ro_RateLimit o).

(** ** serveAgent *)
Definition anyEligible (cands : list Upstream) (best : Z) : bool :=
  existsb (λ u, Eligible u zeroClass best (ro_SyncTolerance o)) cands.

Definition draining : M bool := ask ADraining.

Definition serveHealth (cands : list Upstream) (best : Z) : M () :=
  let* d := draining in
  if d then writeMessage 503 "draining"
  else
    let* found := (if anyEligible cands best then ret false else checkExternals) in
    let* '(cands, best) := (if found then snapshot else ret (cands, best)) in
    if anyEligible cands best then writeJSON 200 (PHealth best)
    else writeMessage 503 "no eligible upstream".

Definition serveAgent (req : Request) : M () :=
  let* '(cands, best) := snapshot in
  let path := trim_suffix "/" (rq_Path req) in
  if path =s "/mesh/health" then serveHealth cands best
  else if path =s "/mesh/status" then
    writeJSON 200 (PStatus (if ro_Balancer o then RoleBalancer else RoleNode) best cands)
  else if path =s "/mesh/peers" then writeJSON 200 (PUpstreams cands)
  else if path =s "/mesh/metrics" then
    if metrics then write (WSet "Content-Type" "text/plain; version=0.0.4");; write (WBody PMetrics)
    else writeMessage 404 "metrics disabled"
  else writeMessage 404 "unknown agent endpoint".

(** ** serve *)

(** What serve does with an admitted request. *)
Definition dispatch (tk : option nat) (req : Request) (class : RequestClass) (cands : list Upstream) (best : Z) : M () :=
  write (WSet "X-Algod-Mesh-Mode" (ro_Mode o));;
  let limits := if rc_SimulateLimits class then FleetSimulateLimits cands best (ro_SyncTolerance o) else None in
  match limits with
  | Some lim => writeJSON 200 (PLimits lim)
  | None =>
      if rc_SimulateLimits class && anySimulateLimits cands then
        writeMessage 503 "algod-mesh: no node that reports simulate limits is available"
      else match rc_WaitAfter class with
           | Some after => handleWait IntN o req class after cands best
           | None =>
               (match tk with Some t => if rc_Simulate class then tell (ATrack t) else ret () | None => ret () end);;
               if rc_Broadcast class then handleBroadcast codec IntN o tk req class cands best
               else if rc_PendingID class <>s "" then handlePending codec IntN o tk req class cands best
               else handleDefault IntN o tk req class cands best
           end
  end.

Definition serve (req : Request) (class : RequestClass) : M () :=
  if rq_Method req =s "OPTIONS" then preflight req
  else match authorize sha256 authOptions req class with
       | Refused code msg => writeMessage code msg
       | Allowed id =>
           if rc_Agent class then serveAgent req
           else
             let* '(cands, best) := snapshot in
             if id_Exempt id then dispatch None req class cands best
             else
               let* admitted := ask (AAdmit id class best) in
               match admitted with
               | Err d => writeDenial d
               | Ok t =>
                   finally (tell (AOnHeader t (id_Key id));; dispatch (Some t) req class cands best) (tell (ADone t))
               end
       end.

(** ServeHTTP: None of Classify is a panic. *)
Definition handle (req : Request) : M () :=
  match Classify (rq_Method req) (rq_Path req) (rq_RawQuery req) with
  | None => crash
  | Some class =>
      if rc_Simulate class then
        match refineSimulate codec req class with
        | None => writeMessage 400 "algod-mesh: cannot read request body"
        | Some (req, class) => serve req class
        end
      else serve req class
  end.

Definition ServeHTTP (req : Request) : M statusWriter :=
  tell (AInflight 1);;
  finally (let* '(_, s) := withStatus (freshWriter req) (handle req) in ret s) (tell (AInflight (-1))).
End Router.
