(* ===== verification/Runs.v ===== *)
(** * Runs: what the runs of handlers look like

    Inversion of [runs] for the handlers' monad, the tactic [run] built on
    it, and the measures of a trace the theorems are about: the answers
    started, the upstreams tried, the requests in flight. *)
From S2P Require Import Prelude GoFloat Types Classify Ports Limiter Prog Http Proxy.
Open Scope Z_scope.
Open Scope mesh_scope.

(** ** Inversion *)
Section Inversion.
Context {A : Type}.
Implicit Types (t : Trace) (x : option A).

Lemma runs_ask a (f : Resp a → M A) t x :
  runs (andThen (ask a) f) t x ↔ ∃ r t', t = existT a r :: t' ∧ runs (f r) t' x.
Proof. reflexivity. Qed.

Lemma runs_tell a (f : () → M A) t x :
  runs (andThen (tell a) f) t x ↔ ∃ r t', t = existT a r :: t' ∧ runs (f ()) t' x.
Proof. reflexivity. Qed.

Lemma runs_ret {B} (b : B) (f : B → M A) t x : runs (andThen (ret b) f) t x ↔ runs (f b) t x.
Proof. reflexivity. Qed.

Lemma runs_crash {B} (f : B → M A) t x : runs (andThen crash f) t x ↔ t = [] ∧ x = None.
Proof. reflexivity. Qed.

Lemma runs_andThen {B} (m : M B) (f : B → M A) t x :
  runs (andThen m f) t x ↔
  (∃ t1 t2 b, t = t1 ++ t2 ∧ runs m t1 (Some b) ∧ runs (f b) t2 x) ∨ (runs m t None ∧ x = None).
Proof. apply runs_bind. Qed.

Lemma runs_assoc {B C} (m : M B) (g : B → M C) (f : C → M A) t x :
  runs (andThen (andThen m g) f) t x ↔ runs (andThen m (λ b, andThen (g b) f)) t x.
Proof.
  unfold andThen. split; intros H; apply runs_bind in H; apply runs_bind.
  - destruct H as [(t1 & t2 & c & -> & H1 & H2)|[H1 ->]]; apply runs_bind in H1.
    + destruct H1 as [(u1 & u2 & b & -> & H3 & H4)|[_ [=]]]. left. exists u1, (u2 ++ t2), b.
      rewrite app_assoc. split_and!; [done | done |]. apply runs_bind. left. eauto 10.
    + destruct H1 as [(u1 & u2 & b & -> & H3 & H4)|[H3 _]]; [left | by right].
      exists u1, u2, b. split_and!; [done | done |]. apply runs_bind. by right.
  - destruct H as [(t1 & t2 & b & -> & H1 & H2)|[H1 ->]].
    + apply runs_bind in H2 as [(u1 & u2 & c & -> & H3 & H4)|[H3 ->]].
      * left. exists (t1 ++ u1), u2, c. rewrite <- app_assoc. split_and!; [done | | done].
        apply runs_bind. left. eauto 10.
      * right. split; [| done]. apply runs_bind. left. eauto 10.
    + right. split; [| done]. apply runs_bind. by right.
Qed.
End Inversion.

Lemma run_ret {A} (a : A) t x : runs (ret a) t x ↔ t = [] ∧ x = Some a.
Proof. reflexivity. Qed.
Lemma run_crash {A} t (x : option A) : runs crash t x ↔ t = [] ∧ x = None.
Proof. reflexivity. Qed.

Lemma run_ask a t x : runs (ask a) t x ↔ ∃ r, t = [existT a r] ∧ x = Some r.
Proof.
  split; [intros (r & t' & -> & -> & ->); by exists r | intros (r & -> & ->); by exists r, []].
Qed.

Lemma run_tell a t x : runs (tell a) t x ↔ ∃ r, t = [existT a r] ∧ x = Some ().
Proof.
  split; [intros (r & t' & -> & -> & ->); by exists r | intros (r & -> & ->); by exists r, []].
Qed.

(** The value a run ended with. *)
Ltac run_value H :=
  match type of H with
  | ?x = _ => is_var x; subst x
  | _ => first [discriminate H | injection H as H; subst | clear H]
  end.

(** One step into a run: its next call, branch or value. *)
Ltac run_step H :=
  unfold gone, quotaExceeded, ctxErr, until, snapshot, checkExternals, now, write in H; cbn beta iota in H;
  lazymatch type of H with
  | runs (andThen (ask _) _) _ _ =>
      let r := fresh "r" in let t := fresh "t" in apply (proj1 (runs_ask _ _ _ _)) in H as (r & t & -> & H)
  | runs (andThen (tell _) _) _ _ =>
      let r := fresh "r" in let t := fresh "t" in apply (proj1 (runs_tell _ _ _ _)) in H as (r & t & -> & H)
  | runs (andThen (ret _) _) _ _ => apply (proj1 (runs_ret _ _ _ _)) in H
  | runs (andThen crash _) _ _ => apply (proj1 (runs_crash _ _ _)) in H as [-> H]; run_value H
  | runs (andThen (andThen _ _) _) _ _ => apply (proj1 (runs_assoc _ _ _ _ _)) in H
  | runs (andThen (match ?y with _ => _ end) _) _ _ => let E := fresh "E" in destruct y eqn:E
  | runs (ask ?a) ?t ?x => let r := fresh "r" in apply (proj1 (run_ask a t x)) in H as (r & -> & H); run_value H
  | runs (tell ?a) ?t ?x => let r := fresh "r" in apply (proj1 (run_tell a t x)) in H as (r & -> & H); run_value H
  | runs (ret _) _ _ => apply (proj1 (run_ret _ _ _)) in H as [-> H]; run_value H
  | runs crash _ _ => apply (proj1 (run_crash _ _)) in H as [-> H]; run_value H
  | runs (match ?y with _ => _ end) _ _ => let E := fresh "E" in destruct y eqn:E
  end.

Ltac run H := repeat run_step H.

(** A run of a sequence: its first part ended in [a], or panicked. *)
Ltac split_run H t1 t2 a H1 :=
  apply (proj1 (runs_andThen _ _ _ _)) in H as [(t1 & t2 & a & -> & H1 & H)|[H1 H]]; [| run_value H].

(** ** A calm environment: nobody leaves, nothing is limited, nothing answers *)
Definition unreachable : failure := mkFailure "unreachable" false.
Definition zeroUpstream : Upstream :=
  mkUpstream "" KindPeer 0 "" "" HealthOffline 0 zeroCapabilities false false zeroStats "" nzero.
Definition noDenial : Denial float64 := mkDenial 429 MsgExhausted 0 [].

Definition calm (a : Act) : Resp a :=
  match a with
  | ANow => 0
  | AGone | AQuota | ACtxErr | ADraining | ACheckExternals => false
  | AUntil => None
  | ASnapshot => ([], 0)
  | AHeartbeatRound => 0
  | AWaitHeartbeat _ => (0, true)
  | AWaitLocal _ => None
  | ARnd => None
  | ARecall _ => None
  | AExchange _ _ _ b => mkExchange [] (Err unreachable) b
  | ACopyBody => (""%string, true)
  | AGet _ _ _ _ => (None, ""%string, Some unreachable)
  | ARecv => (O, mkFan zeroUpstream None "" (Some unreachable))
  | ASelect _ => GotGone
  | AStatusAt r => mkFetch r 0 None "" (Some unreachable)
  | AAdmit _ _ _ => Err noDenial
  | AExhausted _ => noDenial
  | AResponding _ _ _ => []
  | _ => ()
  end.

(** So every handler has a run. *)
Lemma runs_exist {A} (m : M A) : ∃ t x, runs m t x.
Proof. apply (runs_total (λ _, calm)). Qed.

(** ** Answers *)

(** An event that starts the client's answer: a final status line, or the
    metrics text, which is written without one. *)
Definition answer_start (e : Event) : bool :=
  match e with
  | existT (AWrite (WHead c)) _ => 200 <=? c
  | existT (AWrite (WBody PMetrics)) _ => true
  | _ => false
  end.

Definition answers (t : Trace) : nat := length (List.filter answer_start t).

(** An event that excuses a handler from answering: the client left, or what
    came from outside as an answer was an informational one (or one was
    relayed first). *)
Definition excuse (e : Event) : bool :=
  match e with
  | existT AGone left_ => left_
  | existT (ASelect _) GotGone => true
  | existT (AExchange _ _ _ _) x =>
      existsb (λ e, informational e.1) (xc_Interim x) ||
      match xc_Result x with Ok r => rs_StatusCode r <? 200 | Err _ => false end
  | existT ARecv (_, r) => match fan_resp r with Some r => rs_StatusCode r <? 200 | None => false end
  | existT (ASelect _) (GotResult _ r) => match fan_resp r with Some r => rs_StatusCode r <? 200 | None => false end
  | existT (AAdmit _ _ _) (Err d) => dn_Status d <? 200
  | existT (AExhausted _) d => dn_Status d <? 200
  | _ => false
  end.

Definition excused (t : Trace) : bool := existsb excuse t.

Lemma answers_app t1 t2 : answers (t1 ++ t2) = (answers t1 + answers t2)%nat.
Proof. unfold answers. by rewrite List.filter_app, length_app. Qed.
Lemma excused_app t1 t2 : excused (t1 ++ t2) = excused t1 || excused t2.
Proof. apply existsb_app. Qed.
Lemma answers_cons e t : answers (e :: t) = ((if answer_start e then 1 else 0) + answers t)%nat.
Proof. unfold answers. cbn. by destruct (answer_start e). Qed.
Lemma excused_cons e t : excused (e :: t) = excuse e || excused t.
Proof. done. Qed.
