(* ===== verification/Answers.v ===== *)
(** * Answers: how often a client is answered

    For every handler: no run starts two answers, and a run that returns has
    started one unless it is excused ([Runs.excuse]).  Proved handler by
    handler, each from the lemmas of the handlers it calls. *)
From S2P Require Import Prelude GoNet GoStrings Types Classify Eligible Select Ports Limiter Prog Http Proxy Auth Forwarding Serve Router Runs.
Open Scope Z_scope.
Open Scope mesh_scope.

(** A helper that does not answer. *)
Definition silent {A} (m : M A) : Prop := always m (λ t _, answers t = O).

(** A handler that answers once. *)
Definition answers_once {A} (m : M A) : Prop :=
  always m (λ t x, (answers t <= 1)%nat ∧ (isSome x = true → answers t = 1%nat ∨ excused t = true)).

(** The measures of a concrete trace. *)
Ltac measure :=
  repeat match goal with
  | |- context [answers ?l] =>
      lazymatch l with
      | ?t1 ++ ?t2 => rewrite (answers_app t1 t2)
      | ?e :: ?t => rewrite (answers_cons e t)
      | [] => change (answers l) with O
      end
  | |- context [excused ?l] =>
      lazymatch l with
      | ?t1 ++ ?t2 => rewrite (excused_app t1 t2)
      | ?e :: ?t => rewrite (excused_cons e t)
      | [] => change (excused l) with false
      end
  end; cbn [answer_start excuse orb Nat.add]; rewrite ?orb_true_r, ?orb_false_r, ?Nat.add_0_r.

(** [measure], with what is known of the parts. *)
Ltac tally :=
  measure;
  repeat match goal with
  | H : answers ?t = _ |- context [answers ?t] => rewrite H
  | H : excused ?t = _ |- context [excused ?t] => rewrite H
  end; cbn [Nat.add orb]; rewrite ?orb_true_r, ?orb_false_r, ?Nat.add_0_r.

Ltac or_true := rewrite ?orb_true_iff in *; tauto.

Lemma relayInterim_silent l : silent (relayInterim l).
Proof.
  intros t x H. revert t H. induction l as [|[c h] l IH]; intros t H; cbn [relayInterim] in H.
  - by run H.
  - destruct (informational c) eqn:E; run H; apply IH in H; measure; [| done].
    unfold informational in E. destruct (Z.leb_spec 200 c); [lia |]. by rewrite H.
Qed.

Lemma relayInterim_returns l t x : runs (relayInterim l) t x → x = Some ().
Proof.
  revert t. induction l as [|[c h] l IH]; intros t H; cbn [relayInterim] in H; [by run H |].
  destruct (informational c); run H; eauto.
Qed.

(** OnResponse only reads and edits the headers. *)
Definition quiet_target (tg : Target) : Prop :=
  ∀ f, tg_OnResponse tg = Some f → ∀ status h, silent (f status h).

Lemma answered_answers req tg r t x :
  quiet_target tg → runs (answered req tg r) t x →
  (answers t <= 1)%nat ∧
  ∀ status ra err streamed, x = Some (status, ra, err, streamed) →
    (streamed = false → answers t = O ∧ isSome err = true) ∧
    (streamed = true → answers t = 1%nat ∨ rs_StatusCode r < 200).
Proof.
  intros Hq H. unfold answered in H. apply runs_andThen in H as [(t1 & t2 & h & -> & H1 & H)|[H ->]].
  - assert (answers t1 = O) as Ha.
    { destruct (tg_OnResponse tg) eqn:E; [by eapply (Hq _ E) | by run H1]. }
    run H; measure; rewrite Ha; destruct (Z.leb_spec 200 (rs_StatusCode r)); simpl; (split; [lia |]);
      intros ???? [=]; subst; split; intros; try done; first [by left | right; lia | lia].
  - split; [| done]. destruct (tg_OnResponse tg) eqn:E; [| by run H].
    assert (answers t = O) as -> by (by eapply (Hq _ E)). lia.
Qed.

(** What one attempt does to the client's answer, by its outcome. *)
Record attempt_answer (t : Trace) (out : Outcome) : Prop := {
  aa_unsent : out_HeadersSent out = false → answers t = O ∧ Failed out = true;
  aa_sent : out_HeadersSent out = true → answers t = 1%nat ∨ excused t = true
}.

Lemma Forward_answers req tg t x :
  quiet_target tg → runs (Forward req tg) t x →
  (answers t <= 1)%nat ∧ ∀ out rest, x = Some (out, rest) → attempt_answer t out.
Proof.
  intros Hq H. unfold Forward in H. run_step H. destruct (unsendable req tg).
  { run H. measure. split; [lia |]. intros ?? [= <- <-]. by split. }
  run_step H. apply runs_andThen in H as [(t1 & t2 & [] & -> & H1 & H)|[H1 ->]].
  2: { by apply relayInterim_returns in H1. }
  apply relayInterim_silent in H1.
  apply runs_andThen in H as [(t3 & t4 & [[[status ra] err] streamed] & -> & H2 & H)|[H2 ->]].
  - run H. measure. rewrite H1. simpl. destruct (xc_Result r0) as [rs|e] eqn:E.
    + apply answered_answers in H2 as [Hle Hs]; [| done]. destruct (Hs _ _ _ _ eq_refl) as [Hf Ht].
      split; [lia |]. intros ?? [= <- <-]. split; unfold Failed; cbn [out_HeadersSent out_Err out_Status].
      * intros [-> _]%orb_false_iff. destruct (Hf eq_refl) as [Ha ->]. by tally.
      * tally. rewrite E. destruct streamed.
        -- destruct (Ht eq_refl) as [->|Hlt]; [by left |]. right.
           assert ((rs_StatusCode rs <? 200) = true) as -> by lia. by rewrite !orb_true_r.
        -- cbn [orb]. intros ->. by right.
    + run H2. measure. split; [lia |]. intros ?? [= <- <-]. split; unfold Failed; cbn [out_HeadersSent out_Err out_Status].
      * intros _. by tally.
      * cbn [orb]. intros Hi. right. measure. by rewrite Hi.
  - measure. rewrite H1. destruct (xc_Result r0) as [rs|e] eqn:E; [| by run H2].
    apply answered_answers in H2 as [Hle _]; [| done]. split; [lia | done].
Qed.

Lemma effortReader_silent tk u status h : silent (effortReader tk u status h).
Proof. intros t x H. unfold effortReader in H. run H; done. Qed.

Lemma targetOf_quiet tk u class retry : quiet_target (targetOf tk u class retry).
Proof. intros f. simpl. destruct tk; simpl; [| done]. intros [= <-] status h. apply effortReader_silent. Qed.

Lemma recordAttempt_silent u class out : silent (recordAttempt u class out).
Proof. intros t x H. unfold recordAttempt in H. run H; done. Qed.

Lemma recordAttempt_returns u class out t x : runs (recordAttempt u class out) t x → x = Some ().
Proof. intros H. unfold recordAttempt in H. run H; done. Qed.

Lemma forward_answers tk req u class retry t x :
  runs (forward tk req u class retry) t x →
  (answers t <= 1)%nat ∧ ∀ out req', x = Some (out, req') → attempt_answer t out.
Proof.
  intros H. unfold forward in H. do 3 run_step H.
  apply runs_andThen in H as [(t3 & t4 & [out rest] & -> & H1 & H)|[H1 ->]];
    apply Forward_answers in H1 as [Hle Ha]; try apply targetOf_quiet.
  - run_step H. apply runs_andThen in H as [(t5 & t6 & [] & -> & H2 & H)|[H2 ->]].
    2: { by apply recordAttempt_returns in H2. }
    apply recordAttempt_silent in H2. run H. measure. rewrite H2. simpl. split; [lia |].
    intros ?? [= <- <-]. destruct (Ha _ _ eq_refl) as [Hu Hs]. split; measure; rewrite ?H2; simpl.
    + intros E. by destruct (Hu E) as [-> ?].
    + intros E. destruct (Hs E) as [->| ->]; [by left | by right].
  - measure. split; [lia | done].
Qed.

(** ** What follows an attempt *)
Lemma putHeaders_silent h : silent (putHeaders h).
Proof.
  intros t x H. revert t H. induction h as [|[k v] h IH]; intros t H; cbn [putHeaders] in H; run H; [done |].
  apply IH in H. by measure.
Qed.
Lemma putHeaders_returns h t x : runs (putHeaders h) t x → x = Some ().
Proof. revert t. induction h as [|[k v] h IH]; intros t H; cbn [putHeaders] in H; run H; eauto. Qed.

Lemma writeMessage_answers code msg : 200 <= code → answers_once (writeMessage code msg).
Proof.
  intros Hc t x H. unfold writeMessage, writeJSON in H. run H. measure.
  destruct (Z.leb_spec 200 code); [| lia]. simpl. split; [lia | by left].
Qed.

Lemma writeDenial_answers d t x :
  runs (writeDenial d) t x → x = Some () ∧ (answers t <= 1)%nat ∧ (answers t = 1%nat ∨ dn_Status d < 200).
Proof.
  intros H. unfold writeDenial in H. apply runs_andThen in H as [(t1 & t2 & [] & -> & H1 & H)|[H1 ->]].
  2: { by apply putHeaders_returns in H1. }
  apply putHeaders_silent in H1. unfold writeJSON in H.
  run H; tally; destruct (Z.leb_spec 200 (dn_Status d)); (split; [done |]); (split; [lia |]); first [by left | by right].
Qed.

Lemma answerQuotaExceeded_answers tk t x :
  runs (answerQuotaExceeded tk) t x → x = Some () ∧ (answers t <= 1)%nat ∧ (answers t = 1%nat ∨ excused t = true).
Proof.
  intros H. destruct tk as [tk|]; cbn [answerQuotaExceeded] in H.
  - run_step H. apply writeDenial_answers in H as (-> & H & Ha). measure. split; [done |]. split; [done |].
    destruct Ha as [->|Hd]; [by left |]. right. by assert ((dn_Status r <? 200) = true) as -> by lia.
  - unfold writeMessage, writeJSON in H. run H. split; [done |]. split; [done | by left].
Qed.

Lemma answerFailure_answers class out t x :
  runs (answerFailure class out) t x →
  x = Some () ∧ (answers t <= 1)%nat ∧
  (out_HeadersSent out = false → answers t = 1%nat ∨ excused t = true) ∧ (out_HeadersSent out = true → answers t = O).
Proof.
  intros H. unfold answerFailure, writeMessage, writeJSON in H.
  run H; (split; [done |]); cbn; (split; [lia |]); (split; [intros E' | done]); try congruence; auto.
Qed.

Lemma settled_spec out t x :
  runs (settled out) t x →
  answers t = O ∧ ∃ b, x = Some b ∧ (b = false → Failed out = true ∧ out_HeadersSent out = false) ∧
    (b = true → Failed out = false ∨ out_HeadersSent out = true ∨ excused t = true).
Proof.
  intros H. unfold settled in H. run H; (split; [done |]); eexists; (split; [done |]); split; intros; try done.
  - apply orb_true_iff in E as [E|E]; [left | by right; left]. by apply negb_true_iff in E.
  - apply orb_false_iff in E as [E ->]. by apply negb_false_iff in E.
  - right. right. cbn. by destruct r.
Qed.

(** An attempt and what ended it: the answer is started, or excused, exactly
    when the request is over. *)
Lemma attempt_over t1 t2 out :
  attempt_answer t1 out → answers t2 = O →
  Failed out = false ∨ out_HeadersSent out = true ∨ excused t2 = true →
  answers (t1 ++ t2) = 1%nat ∨ excused (t1 ++ t2) = true.
Proof.
  intros [Hu Hs] H2 Hor. tally. destruct (out_HeadersSent out) eqn:E.
  - destruct (Hs eq_refl) as [->| ->]; [by left | by right].
  - destruct (Hu eq_refl) as [_ Hf]. destruct Hor as [?|[?| ->]]; [congruence | done | right]. by rewrite orb_true_r.
Qed.

Lemma afterAttempt_answers tk class out t1 t x :
  attempt_answer t1 out → (answers t1 <= 1)%nat → runs (afterAttempt tk class out) t x →
  ∃ b, x = Some b ∧ (answers (t1 ++ t) <= 1)%nat ∧
    (b = true → answers (t1 ++ t) = 1%nat ∨ excused (t1 ++ t) = true) ∧ (b = false → answers (t1 ++ t) = O).
Proof.
  intros Ha Hle H. unfold afterAttempt in H.
  apply runs_andThen in H as [(t2 & t3 & b & -> & H1 & H)|[H1 ->]].
  2: { apply settled_spec in H1 as (_ & ? & [=] & _). }
  apply settled_spec in H1 as (H2 & b' & [= <-] & Hf & Ht). destruct b.
  { run H. exists true. split; [done |]. rewrite app_nil_r. split; [by tally |].
    split; [intros _ | done]. by eapply attempt_over; eauto. }
  destruct (Hf eq_refl) as [Hfail Hu]. destruct (aa_unsent _ _ Ha Hu) as [Hz _]. run_step H.
  run_step H.
  - apply runs_andThen in H as [(t4 & t5 & [] & -> & H1 & H)|[H1 ->]];
      apply answerQuotaExceeded_answers in H1 as (? & Hq & Hor); [| done]. run H. exists true. split; [done |].
    tally. split; [done |]. split; [intros _ | done]. destruct Hor as [->| ->]; [by left | right]. by rewrite !orb_true_r.
  - run_step H.
    + apply runs_andThen in H as [(t4 & t5 & [] & -> & H1 & H)|[H1 ->]];
        apply answerFailure_answers in H1 as (? & Hq & Hor & _); [| done]. run H. exists true. split; [done |].
      tally. split; [done |]. split; [intros _ | done]. destruct (Hor Hu) as [->| ->]; [by left | right]. by rewrite !orb_true_r.
    + run H. exists false. split; [done |]. tally. split; [lia |]. by split.
Qed.

(** ** Every attempt *)
Lemma silent_if {A} (b : bool) (m : M A) a : silent m → silent (if b then m else ret a).
Proof. intros Hm t x H. destruct b; [by apply Hm in H | by run H]. Qed.

Lemma timeLeft_silent : silent timeLeft.
Proof. intros t x H. unfold timeLeft in H. run H; done. Qed.

Section Router.
Context (IntN : Z → Z → Z * Z) (o : RouterOptions).

Lemma sel_silent cands class best : silent (sel IntN o cands class best).
Proof. intros t x H. unfold sel in H. run H; done. Qed.

(** What a stretch of attempts does to the client's answer. *)
Definition tried_answer (t : Trace) (x : option Tried) : Prop :=
  (answers t <= 1)%nat ∧
  match x with
  | Some Over => answers t = 1%nat ∨ excused t = true
  | Some (Unanswered last _) => answers t = O ∧ out_HeadersSent last = false
  | None => True
  end.

Lemma tried_stop last req : out_HeadersSent last = false → tried_answer [] (Some (Unanswered last req)).
Proof. intros H. unfold tried_answer. cbn. auto. Qed.

Lemma tried_cons e t x : answer_start e = false → tried_answer t x → tried_answer (e :: t) x.
Proof.
  intros He [Hle H]. unfold tried_answer. measure. rewrite He. split; [done |].
  destruct x as [[]|]; [| done..]. destruct H as [->| ->]; [by left | right]. by rewrite orb_true_r.
Qed.

Lemma tried_app t1 t2 x : answers t1 = O → tried_answer t2 x → tried_answer (t1 ++ t2) x.
Proof.
  intros H1 [Hle H]. unfold tried_answer. tally. split; [done |].
  destruct x as [[]|]; [| done..]. destruct H as [->| ->]; [by left | right]. by rewrite orb_true_r.
Qed.

(** One attempt, and whether the loop goes on with what is known of it. *)
Lemma attempt_then tk class req u retry (k : Outcome * Request → M Tried) t x :
  (∀ out req', out_HeadersSent out = false → always (k (out, req')) tried_answer) →
  runs (let* '(out, req) := forward tk req u class retry in
        let* over := afterAttempt tk class out in if over then ret Over else k (out, req)) t x →
  tried_answer t x.
Proof.
  intros Hk H. apply runs_andThen in H as [(t1 & t2 & [out req'] & -> & H1 & H)|[H1 ->]];
    apply forward_answers in H1 as [Hle Ha]; [| by split].
  specialize (Ha _ _ eq_refl). apply runs_andThen in H as [(t3 & t4 & b & -> & H1 & H)|[H1 ->]];
    destruct (afterAttempt_answers _ _ _ _ _ _ Ha Hle H1) as (b' & [= <-] & Hle' & Ht & Hf).
  destruct b.
  - run H. split; rewrite app_nil_r; auto.
  - specialize (Hf eq_refl). rewrite app_assoc. apply tried_app; [done |]. apply (Hk out req'); [| done].
    destruct (out_HeadersSent out) eqn:E; [| done].
    unfold afterAttempt, settled in H1. rewrite E, orb_true_r in H1. by run H1.
Qed.

Lemma retryEach_answers tk class reset tries last req t x :
  out_HeadersSent last = false → runs (retryEach tk class reset tries last req) t x → tried_answer t x.
Proof.
  revert last req t x. induction tries as [|u tries IH]; intros last req t x Hl H; cbn [retryEach] in H.
  - run H. by apply tried_stop.
  - apply runs_andThen in H as [(t1 & t2 & b & -> & H1 & H)|[H1 ->]]; apply timeLeft_silent in H1.
    2: { split; [lia | done]. }
    apply tried_app; [done |]. destruct b; cbn [negb] in H.
    + revert H. apply (attempt_then tk class (reset req) u [] (λ p, retryEach tk class reset tries p.1 p.2)).
      intros out req' Ho t x'. by apply IH.
    + run H. by apply tried_stop.
Qed.

Lemma externalFallback_silent class tried : silent (externalFallback IntN o class tried).
Proof. intros t x H. unfold externalFallback, sel in H. run H; done. Qed.

Lemma lastResort_answers tk class reset tries last req t x :
  out_HeadersSent last = false → runs (lastResort IntN o tk class reset tries last req) t x → tried_answer t x.
Proof.
  intros Hl H. unfold lastResort in H.
  apply runs_andThen in H as [(t1 & t2 & ext & -> & H1 & H)|[H1 ->]]; apply externalFallback_silent in H1.
  2: { split; [lia | done]. }
  apply tried_app; [done |]. destruct ext as [u|]; [| run H; by apply tried_stop].
  apply runs_andThen in H as [(t3 & t4 & b & -> & H2 & H)|[H2 ->]]; apply timeLeft_silent in H2.
  2: { split; [lia | done]. }
  apply tried_app; [done |]. destruct b; cbn [negb] in H; [| run H; by apply tried_stop].
  apply runs_andThen in H as [(t5 & t6 & [out req'] & -> & H3 & H)|[H3 ->]];
    apply forward_answers in H3 as [Hle Ha]; [| by split].
  specialize (Ha _ _ eq_refl). apply runs_andThen in H as [(t7 & t8 & over & -> & H4 & H)|[H4 ->]];
    apply settled_spec in H4 as (Hz & b & [=] & Hf & Ht). subst b.
  destruct over; [run H; rewrite app_nil_r; split; [by tally | by eapply attempt_over; eauto] |].
  destruct (Hf eq_refl) as [Hfail Hu]. destruct (aa_unsent _ _ Ha Hu) as [Hz' _].
  apply tried_app; [done |]. apply tried_app; [done |]. run_step H. apply tried_cons; [done |]. run_step H.
  - apply runs_andThen in H as [(t9 & t10 & [] & -> & H4 & H)|[H4 ->]];
      apply answerQuotaExceeded_answers in H4 as (? & Hq & Hor); [| done]. run H. rewrite app_nil_r. by split.
  - run H. by apply tried_stop.
Qed.

(** The chosen upstream is always tried first. *)
Lemma triesOf_chosen s replay : ∃ more, triesOf o s replay = sel_Chosen s :: more.
Proof.
  unfold triesOf. set (b := ro_RetryBudget o).
  assert (∃ more, (if (0 <=? b) && (1 + b <? Z.of_nat (length (sel_Chosen s :: sel_Alternates s)))
                   then take (Z.to_nat (1 + b)) (sel_Chosen s :: sel_Alternates s)
                   else sel_Chosen s :: sel_Alternates s) = sel_Chosen s :: more) as [more ->].
  { destruct (Z.leb_spec 0 b); cbn [andb]; [| by eexists]. destruct (_ <? _); [| by eexists].
    destruct (Z.to_nat (1 + b)) eqn:E; [lia |]. by eexists. }
  destruct replay; [by eexists | by exists []].
Qed.

Lemma carryOn_answers tk class reset replay tries last req t x :
  out_HeadersSent last = false → runs (carryOn IntN o tk class reset replay tries last req) t x → tried_answer t x.
Proof.
  intros Hl0 H. unfold carryOn in H.
  apply runs_andThen in H as [(t1 & t2 & tr & -> & H1 & H)|[H1 ->]]; apply (retryEach_answers _ _ _ _ _ _ _ _ Hl0) in H1 as [Hle Hx].
  2: { by split. }
  destruct tr as [|last' req2]; [run H; rewrite app_nil_r; by split |]. destruct Hx as [Hz Hl].
  apply tried_app; [done |]. apply runs_andThen in H as [(t3 & t4 & b & -> & H2 & H)|[H2 ->]].
  - apply tried_app; [destruct replay; [by apply timeLeft_silent in H2 | by run H2] |].
    destruct b; [by eapply lastResort_answers | run H; by apply tried_stop].
  - destruct replay; [apply timeLeft_silent in H2; split; [lia | done] | by run H2].
Qed.

Lemma attempts_answers tk class s req t x : runs (attempts IntN o tk class s req) t x → tried_answer t x.
Proof.
  intros H. unfold attempts in H. destruct (replayable req) as [[req1 reset] replay]. revert H.
  apply (attempt_then tk class req1 (sel_Chosen s) [] (λ p, carryOn IntN o tk class reset replay _ p.1 p.2)).
  intros out req' Ho t' x'. by apply carryOn_answers.
Qed.

Lemma forwardSelected_answers tk req class s : answers_once (forwardSelected IntN o tk req class s).
Proof.
  intros t x H. unfold forwardSelected in H.
  apply runs_andThen in H as [(t1 & t2 & tr & -> & H1 & H)|[H1 ->]]; apply attempts_answers in H1 as [Hle Hx]; [| done].
  destruct tr as [|last req2]; [run H; rewrite app_nil_r; done |]. destruct Hx as [Hz Hl]. run_step H. run_step H.
  - apply answerQuotaExceeded_answers in H as (_ & Hq & Hor). tally. split; [done |]. intros _.
    destruct Hor as [->| ->]; [by left | right]. by rewrite !orb_true_r.
  - apply answerFailure_answers in H as (_ & Hq & Hor & _). tally. split; [done |]. intros _.
    destruct (Hor Hl) as [->| ->]; [by left | right]. by rewrite !orb_true_r.
Qed.

(** ** handleDefault *)
Lemma pick_silent class cands best : silent (pick IntN o class cands best).
Proof. intros t x H. unfold pick, sel in H. run H; done. Qed.

Lemma relax_silent cands best prev l : silent (relax IntN o cands best prev l).
Proof.
  revert prev. induction l as [|rc l IH]; intros prev t x H; cbn [relax] in H; run H; try done.
  apply runs_andThen in H as [(t1 & t2 & s & -> & H1 & H)|[H1 ->]]; apply sel_silent in H1; [| done].
  destruct s; [run H; by tally | apply IH in H; by tally].
Qed.

Lemma noUpstream_answers class cands : answers_once (noUpstream o class cands).
Proof.
  intros t x H. unfold noUpstream, writeMessage, writeJSON in H.
  run H; cbn; (split; [lia | by left]).
Qed.

(** The reply to a request ahead of the fleet is a final one. *)
Definition ahead_final (class : RequestClass) : Prop := rp_Status (rc_Ahead class) = 0 ∨ 200 <= rp_Status (rc_Ahead class).

Lemma unserved_answers class cands : ahead_final class → answers_once (unserved o class cands).
Proof.
  intros Ha t x H. unfold unserved in H.
  destruct (_ || _) eqn:E; [by apply noUpstream_answers in H |]. apply orb_false_iff in E as [E _].
  destruct (rc_Round class); [| run H; split; [cbn; lia | done]].
  destruct (_ <? _); [| by apply noUpstream_answers in H].
  eapply writeMessage_answers; [| done]. destruct Ha; lia.
Qed.

Lemma once_after {A} t1 t2 (x : option A) : answers t1 = O →
  (answers t2 <= 1)%nat ∧ (isSome x = true → answers t2 = 1%nat ∨ excused t2 = true) →
  (answers (t1 ++ t2) <= 1)%nat ∧ (isSome x = true → answers (t1 ++ t2) = 1%nat ∨ excused (t1 ++ t2) = true).
Proof.
  intros H1 [Hle H]. tally. split; [done |]. intros Hx. destruct (H Hx) as [->| ->]; [by left | right]. by rewrite orb_true_r.
Qed.

(** A silent step before a handler. *)
Lemma once_bind {A B} (m : M A) (f : A → M B) : silent m → (∀ a, answers_once (f a)) → answers_once (andThen m f).
Proof.
  intros Hm Hf t x H. apply runs_andThen in H as [(t1 & t2 & a & -> & H1 & H)|[H1 ->]]; apply Hm in H1.
  - apply once_after; [done |]. by apply (Hf a).
  - rewrite H1. split; [lia | done].
Qed.

Lemma once_ask {A} a (f : Resp a → M A) :
  (∀ r, answer_start (existT a r) = false) → (∀ r, answers_once (f r)) → answers_once (andThen (ask a) f).
Proof.
  intros Ha Hf. apply once_bind; [| done]. intros t x (r & t' & -> & -> & _). by rewrite answers_cons, Ha.
Qed.

Lemma handleDefault_answers tk req class cands best :
  ahead_final class → answers_once (handleDefault IntN o tk req class cands best).
Proof.
  intros Ha. unfold handleDefault. apply once_bind; [apply pick_silent |]. intros [[s cands'] best'].
  apply once_bind; [destruct s; [by intros t x [-> _] | apply relax_silent] |].
  intros [[s' class']|]; [apply forwardSelected_answers |].
  apply once_ask; [done |]. intros [|]; [| by apply unserved_answers].
  intros t x H. apply answerQuotaExceeded_answers in H as (_ & Hq & Hor). auto.
Qed.
End Router.
