(* ===== verification/AnswersServe.v ===== *)
(** * AnswersServe: one answer for every request

    The handlers of [Serve] and [Router] on top of [Answers], up to
    [ServeHTTP]. *)
From S2P Require Import Prelude GoStrings Types Classify Eligible Select Ports Limiter Prog Http Proxy Auth Forwarding Serve Router Runs Answers.
Open Scope Z_scope.
Open Scope mesh_scope.

Section Serve.
Context (codec : BodyCodec).

(** A captureWriter sees what is written and changes none of it. *)
Lemma capture_runs {A} c (m : M A) t x :
  runs (capture codec c m) t x → ∃ y, runs m t y ∧ (isSome x = isSome y) ∧ ∀ a c', x = Some (a, c') → y = Some a.
Proof.
  revert c t. induction m as [a| |a k IH]; intros c t H; cbn [capture] in H.
  - destruct H as [-> ->]. exists (Some a). split_and!; [done | done |]. by intros ? ? [= <- _].
  - destruct H as [-> ->]. by exists None.
  - destruct H as (r & t' & -> & H). apply IH in H as (y & H & Hs & Hy). exists y. split; [by exists r, t' | done].
Qed.

(** *** The answers of a fan-out *)
Lemma putAll_silent l : silent (putAll l).
Proof.
  intros t x H. revert t H. induction l as [|[k v] l IH]; intros t H; cbn [putAll] in H; run H; [done |].
  apply IH in H. by measure.
Qed.

Lemma writeFan_answers r t x :
  runs (writeFan r) t x → (answers t <= 1)%nat ∧
  (isSome x = true → answers t = 1%nat ∨ ∃ rs, fan_resp r = Some rs ∧ rs_StatusCode rs < 200).
Proof.
  intros H. unfold writeFan in H. destruct (fan_resp r) as [rs|]; [| by run H; split; [cbn; lia |]].
  apply runs_andThen in H as [(t1 & t2 & [] & -> & H1 & H)|[H1 ->]]; apply putAll_silent in H1.
  - run H. tally. destruct (Z.leb_spec 200 (rs_StatusCode rs)); (split; [lia |]); intros _; [by left | right; eauto].
  - rewrite H1. split; [lia | done].
Qed.

Lemma settled_silent out : silent (settled out).
Proof. intros t x H. by apply settled_spec in H as [? _]. Qed.

Lemma fanOne_silent req body u class : silent (fanOne req body u class).
Proof. intros t x H. unfold fanOne in H. run H; done. Qed.

Section Router.
Context (IntN : Z → Z → Z * Z) (o : RouterOptions).

(** ** Broadcasts *)

(** A failure kept for the end may be one with an informational status: then
    its event excuses. *)
Definition fallback_ok (t : Trace) (f : option fanResult) : Prop :=
  ∀ r rs, f = Some r → fan_resp r = Some rs → rs_StatusCode rs < 200 → excused t = true.

Lemma collect_answers n f un t0 t x :
  fallback_ok t0 f → runs (collect codec n f un) t x →
  (answers t <= 1)%nat ∧
  match x with
  | Some Relayed => answers t = 1%nat ∨ excused t = true
  | Some (Worst f' _) => answers t = O ∧ fallback_ok (t0 ++ t) f'
  | None => True
  end.
Proof.
  revert f un t0 t. induction n as [|n IH]; intros f un t0 t Hf H; cbn [collect] in H.
  - run H. rewrite app_nil_r. split; [cbn; lia | done].
  - run_step H. destruct r as [i res]. destruct (_ && _) eqn:E.
    + run_step H. apply runs_andThen in H as [(t1 & t2 & [] & -> & H1 & H)|[H1 ->]];
        apply writeFan_answers in H1 as [Hle Ha].
      * run H. rewrite app_nil_r. measure. split; [done |].
        destruct (Ha eq_refl) as [->|(rs & -> & Hlt)]; [by left | right].
        by assert ((rs_StatusCode rs <? 200) = true) as -> by lia.
      * measure. by split.
    + apply (IH _ _ (t0 ++ [existT ARecv (i, res)])) in H.
      * destruct H as [Hle H]. measure. split; [done |]. destruct x as [[]|]; [| | done].
        -- destruct H as [->| ->]; [by left | right]. by rewrite orb_true_r.
        -- destruct H as [-> H]. split; [done |]. by rewrite <- app_assoc in H.
      * intros r rs Hr Hrs Hlt. measure. assert (∀ r', Some r' = Some r → res = r' →
          excused t0 || (match fan_resp res with Some r1 => rs_StatusCode r1 <? 200 | None => false end) = true) as Hres.
        { intros r' [= ->] ->. rewrite Hrs. assert ((rs_StatusCode rs <? 200) = true) as -> by lia. apply orb_true_r. }
        destruct f as [f|]; [destruct (_ <? _) in Hr |]; [by eapply Hres | | by eapply Hres].
        injection Hr as ->. by rewrite (Hf r rs eq_refl Hrs Hlt).
Qed.

Lemma broadcastExternal_answers tk req body class targets t x :
  runs (broadcastExternal codec IntN o tk req body class targets) t x →
  (answers t <= 1)%nat ∧
  match x with
  | Some true => answers t = 1%nat ∨ excused t = true
  | Some false => answers t = O
  | None => True
  end.
Proof.
  intros H. unfold broadcastExternal in H.
  apply runs_andThen in H as [(t1 & t2 & ext & -> & H1 & H)|[H1 ->]]; apply externalFallback_silent in H1.
  2: { rewrite H1. split; [lia | done]. }
  destruct ext as [u|]; [| run H; tally; by split; [lia |]].
  apply runs_andThen in H as [(t3 & t4 & b & -> & H2 & H)|[H2 ->]]; apply timeLeft_silent in H2.
  2: { tally. split; [lia | done]. }
  destruct b; cbn [negb] in H; [| run H; tally; by split; [lia |]].
  apply runs_andThen in H as [(t5 & t6 & [[out req'] cw] & -> & H3 & H)|[H3 ->]];
    apply capture_runs in H3 as (y & H3 & Hs & Hy); apply forward_answers in H3 as [Hle Ha].
  2: { tally. by split. }
  specialize (Ha _ _ (Hy _ _ eq_refl)).
  apply runs_andThen in H as [(t7 & t8 & over & -> & H4 & H)|[H4 ->]];
    apply settled_spec in H4 as (Hz & b & [=] & Hf & Ht). subst b. destruct over.
  - assert (answers t8 = O ∧ x = Some true) as [H8 ->].
    { destruct (cp_status cw =? 200); run H; by split. }
    pose proof (attempt_over _ _ _ Ha Hz (Ht eq_refl)) as Hor. revert Hor. tally. intros Hor. split; [done |].
    destruct Hor as [Hor|Hor]; [left; lia | right; or_true].
  - run H. destruct (Hf eq_refl) as [_ Hu]. destruct (aa_unsent _ _ Ha Hu) as [Hz' _]. tally. split; [lia | done].
Qed.

Lemma afterCollect_answers tk req body class targets f un t0 t x :
  fallback_ok t0 f → runs (afterCollect codec IntN o tk req body class targets f un) t x →
  (answers t <= 1)%nat ∧ (isSome x = true → answers t = 1%nat ∨ excused t0 = true ∨ excused t = true).
Proof.
  intros Hf H. unfold afterCollect in H. split_run H t1 t2 b H1;
    apply (silent_if _ _ _ timeLeft_silent) in H1; [| rewrite H1; split; [lia | done]].
  split_run H t3 t4 over H2.
  - assert ((answers t3 <= 1)%nat ∧ (if over then answers t3 = 1%nat ∨ excused t3 = true else answers t3 = O)) as [Hle Ho].
    { destruct b; [by apply broadcastExternal_answers in H2 as [? H2]; destruct over | run H2; by split; [cbn; lia |]]. }
    destruct over.
    + run H. tally. split; [lia |]. intros _. destruct Ho as [Ho|Ho]; [left; lia | right; or_true].
    + destruct f as [f|]; [| run H; tally; split; [lia | done]]. destruct (fan_err f).
      * apply writeMessage_answers in H as [Hle' H]; [| done]. tally. split; [lia |].
        intros Hx. destruct (H Hx); [left; lia | right; or_true].
      * apply writeFan_answers in H as [Hle' H]. tally. split; [lia |].
        intros Hx. destruct (H Hx) as [->|(rs & Hrs & Hlt)]; [by left |]. right. left. by eapply Hf.
  - destruct b; [apply broadcastExternal_answers in H2 as [? _] | by run H2]. tally. by split.
Qed.

Lemma multiBroadcast_answers tk req class s : answers_once (multiBroadcast codec IntN o tk req class s).
Proof.
  unfold multiBroadcast. destruct (readAll _ _) as [body failed].
  destruct failed; [by apply writeMessage_answers |]. intros t x H. run_step H.
  split_run H t1 t2 c H1; apply (collect_answers _ _ _ []) in H1 as [Hle Hc]; try (by intros ? ? [=]); [| by measure].
  destruct c as [|f un]; [run H; rewrite app_nil_r; measure; auto |]. destruct Hc as [Hz Hf].
  apply (afterCollect_answers _ _ _ _ _ _ _ _ _ _ Hf) in H as [Hle' H]. tally. split; [done |].
  intros Hx. destruct (H Hx) as [->|H']; [by left | right; cbn [app] in H'; or_true].
Qed.

Lemma handleBroadcast_answers tk req class cands best : answers_once (handleBroadcast codec IntN o tk req class cands best).
Proof.
  unfold handleBroadcast. apply once_bind; [apply pick_silent |]. intros [[[s|] cands'] best']; [| apply noUpstream_answers].
  destruct (ro_MultiBroadcast o); [apply multiBroadcast_answers |]. intros t x H.
  split_run H t1 t2 p H1; apply capture_runs in H1 as (y & H1 & Hs & _); apply forwardSelected_answers in H1 as [Hle Ha].
  - destruct p as [[] cw]. assert (answers t2 = O) as H2 by (destruct (cp_status cw =? 200); by run H).
    tally. split; [done |]. intros _. destruct y as [[]|]; [| done]. destruct (Ha eq_refl); [by left | right; or_true].
  - by split.
Qed.

(** ** Pending transactions *)
Lemma collectPending_answers n pos chosen rank grace t x :
  runs (collectPending codec n pos chosen rank grace) t x →
  answers t = O ∧ (x = Some None → excused t = true) ∧
  ∀ c r, x = Some (Some (c, r)) → c = chosen ∨ fallback_ok t c.
Proof.
  revert chosen rank grace t. induction n as [|n IH]; intros chosen rank grace t H; cbn [collectPending] in H.
  { run H. split_and!; [done.. |]. intros ?? [= <- <-]. by left. }
  run_step H. destruct r as [i res| |].
  - assert (∀ t, fallback_ok (existT (ASelect grace) (GotResult i res) :: t) (Some res)) as Hres.
    { intros t' r rs [= <-] Hrs Hlt. measure. rewrite Hrs. by assert ((rs_StatusCode rs <? 200) = true) as -> by lia. }
    destruct (better codec pos chosen rank res) eqn:E; cbn beta iota in H.
    + run_step H; [run H; split_and!; [done.. |]; intros ?? [= <- <-]; right; apply Hres |].
      apply IH in H as (Hz & Hn & Hs). measure. split; [done |]. split; [intros Hx; rewrite (Hn Hx); apply orb_true_r |].
      intros c r Hx. right. destruct (Hs c r Hx) as [->|Hf]; [apply Hres |].
      intros r' rs Hr Hrs Hlt. measure. rewrite (Hf r' rs Hr Hrs Hlt). apply orb_true_r.
    + run_step H; [run H; split_and!; [done.. |]; intros ?? [= <- <-]; by left |].
      apply IH in H as (Hz & Hn & Hs). measure. split; [done |]. split; [intros Hx; rewrite (Hn Hx); apply orb_true_r |].
      intros c r Hx. destruct (Hs c r Hx) as [->|Hf]; [by left | right].
      intros r' rs Hr Hrs Hlt. measure. rewrite (Hf r' rs Hr Hrs Hlt). apply orb_true_r.
  - run H. split_and!; [done.. |]. intros ?? [= <- <-]. by left.
  - run H. by split_and!.
Qed.

Lemma pinnedLookup_answers tk req class order t x :
  runs (pinnedLookup tk req class order) t x →
  (answers t <= 1)%nat ∧
  match x with
  | Some None => answers t = 1%nat ∨ excused t = true
  | Some (Some (pinned, order', req')) =>
      answers t = O ∧ (∀ out, pinned = Some out → out_HeadersSent out = false) ∧ (order' = [] → order = [] ∨ isSome pinned = true)
  | None => True
  end.
Proof.
  intros H. unfold pinnedLookup in H. run_step H. run_step H.
  - destruct (list_find _ order) as [[i u]|] eqn:El.
    + split_run H t1 t2 p H1; apply forward_answers in H1 as [Hle Ha]; [| by measure].
      destruct p as [out req']. specialize (Ha _ _ eq_refl). destruct (out_HeadersSent out) eqn:E0.
      * run H. rewrite app_nil_r. measure. split; [done |]. by apply (aa_sent _ _ Ha).
      * destruct (aa_unsent _ _ Ha E0) as [Hz _]. run_step H. run H; tally; (split; [lia |]).
        -- right. by measure.
        -- split_and!; [done | by intros ? [= <-] | by right].
    + run H. split; [cbn; lia |]. split_and!; [done | done | by left].
  - run H. split; [cbn; lia |]. split_and!; [done | done | by left].
Qed.

Lemma answerPending_answers class c rank t0 t x :
  fallback_ok t0 c → runs (answerPending class c rank) t x →
  (answers t <= 1)%nat ∧ (isSome x = true → answers t = 1%nat ∨ excused t0 = true ∨ excused t = true).
Proof.
  intros Hf H. unfold answerPending in H. destruct c as [c|]; [| run H; split; [cbn; lia | done]].
  split_run H t1 t2 b H1.
  - assert (answers t1 = O) as Hz by (destruct (_ || _) in H1; by run H1).
    destruct (if rank =? pendingFailed then fan_err c else None).
    + apply writeMessage_answers in H as [Hle H]; [| done]. tally. split; [done |].
      intros Hx. destruct (H Hx); [by left | right; or_true].
    + apply writeFan_answers in H as [Hle H]. tally. split; [done |].
      intros Hx. destruct (H Hx) as [->|(rs & Hrs & Hlt)]; [by left |]. right. left. by eapply Hf.
  - destruct (_ || _) in H1; by run H1.
Qed.

Lemma handlePending_answers tk req class cands best : answers_once (handlePending codec IntN o tk req class cands best).
Proof.
  unfold handlePending. apply once_bind; [apply pick_silent |]. intros [[[s|] cands'] best']; [| apply noUpstream_answers].
  intros t x H. split_run H t1 t2 p H1; apply pinnedLookup_answers in H1 as [Hle Hp]; [| by split].
  destruct p as [[[pinned order] req']|]; [| run H; rewrite app_nil_r; auto]. destruct Hp as (Hz & Hpin & _).
  apply once_after; [done |]. destruct order as [|u more].
  - destruct pinned as [out|]; [| by run H; split; [cbn; lia |]]. run_step H.
    + by apply writeMessage_answers in H.
    + apply answerFailure_answers in H as (_ & Hle' & Hor & _). split; [done |]. intros _. by apply Hor, Hpin.
  - unfold askAll in H. run_step H. split_run H t3 t4 r' H3; apply collectPending_answers in H3 as (Hz' & Hn & Hs); [| measure; rewrite Hz'; split; [lia | done]].
    destruct r' as [[c rank]|]; [| run H; rewrite app_nil_r; measure; rewrite Hz'; split; [lia |]; intros _; right; by apply Hn].
    apply (answerPending_answers _ _ _ t3) in H as [Hle' H].
    + tally. split; [lia |]. intros Hx. destruct (H Hx) as [->|H']; [by left | right; or_true].
    + destruct (Hs _ _ eq_refl) as [->|Hf]; [by intros ?? | done].
Qed.

(** ** Waits *)
Lemma writeStatusBody_answers id tier body : answers_once (writeStatusBody id tier body).
Proof. intros t x H. unfold writeStatusBody in H. run H. split; [cbn; lia | by left]. Qed.

Lemma answerFetch_answers f : answers_once (answerFetch f).
Proof. unfold answerFetch. destruct (sf_upstream f); apply writeStatusBody_answers. Qed.

(** A handler that stops when the client has left. *)
Lemma once_gone {A} (f : M A) (a : A) : answers_once f → answers_once (let* client_left := gone in if client_left then ret a else f).
Proof.
  intros Hf t x H. run_step H. destruct r; cbn beta iota in H.
  - run H. split; [cbn; lia |]. intros _. by right.
  - apply Hf in H as [Hle H]. measure. split; [done |]. intros Hx. destruct (H Hx); [by left | right; or_true].
Qed.

Lemma handlePeerWait_answers req class after cands best :
  ahead_final class → answers_once (handlePeerWait IntN o req class after cands best).
Proof.
  intros Ha. unfold handlePeerWait. destruct (negb _); [by apply handleDefault_answers |].
  apply once_ask; [done |]. intros _. apply once_ask; [done |]. intros [round timedOut]. apply once_gone.
  apply once_ask; [done |]. intros [cands' best']. destruct (negb timedOut).
  - apply once_bind; [apply sel_silent |]. intros [s|]; [apply forwardSelected_answers | by apply handleDefault_answers].
  - apply once_ask; [done |]. intros f. destruct (isSome _); [by apply handleDefault_answers | apply answerFetch_answers].
Qed.

Lemma handleBalancerWait_answers req class after : ahead_final class → answers_once (handleBalancerWait IntN o req class after).
Proof.
  intros Ha. unfold handleBalancerWait. apply once_ask; [done |]. intros [round timedOut]. apply once_gone.
  apply once_ask; [done |]. intros f. destruct (isSome _); [| apply answerFetch_answers].
  apply once_ask; [done |]. intros [cands' best']. by apply handleDefault_answers.
Qed.

Lemma handleWait_answers req class after cands best :
  ahead_final class → answers_once (handleWait IntN o req class after cands best).
Proof.
  intros Ha. unfold handleWait. destruct (ro_Balancer o); [by apply handleBalancerWait_answers |].
  destruct (localWait o cands class best); [| by apply handlePeerWait_answers].
  apply once_ask; [done |]. intros body. apply once_gone.
  destruct body; [apply writeStatusBody_answers | by apply writeMessage_answers].
Qed.

(** ** One request *)
Lemma writeJSON_answers code p : 200 <= code → p ≠ PMetrics → answers_once (writeJSON code p).
Proof.
  intros Hc Hp t x H. unfold writeJSON in H. run H. measure.
  destruct (Z.leb_spec 200 code); [| lia]. destruct p; simpl; try done; (split; [lia | by left]).
Qed.

Lemma dispatch_answers tk req class cands best : ahead_final class → answers_once (dispatch IntN codec o tk req class cands best).
Proof.
  intros Ha. unfold dispatch. apply (once_ask (AWrite _)); [done |]. intros [].
  destruct (if rc_SimulateLimits class then _ else _); [by apply writeJSON_answers |].
  destruct (_ && _); [by apply writeMessage_answers |].
  destruct (rc_WaitAfter class); [by apply handleWait_answers |].
  apply once_bind. { intros t x H. destruct tk; [destruct (rc_Simulate class) |]; by run H. }
  intros []. destruct (rc_Broadcast class); [apply handleBroadcast_answers |].
  destruct (_ <>s _); [apply handlePending_answers | by apply handleDefault_answers].
Qed.

Context (sha256 : string → string) (metrics : bool).

Lemma serveHealth_answers cands best : answers_once (serveHealth o cands best).
Proof.
  unfold serveHealth. apply once_ask; [done |]. intros [|]; [by apply writeMessage_answers |].
  apply once_bind. { intros t x H. destruct (anyEligible o cands best); by run H. }
  intros b. apply once_bind. { intros t x H. destruct b; by run H. }
  intros [cands' best']. destruct (anyEligible o cands' best'); [by apply writeJSON_answers | by apply writeMessage_answers].
Qed.

Lemma serveAgent_answers req : answers_once (serveAgent o metrics req).
Proof.
  unfold serveAgent. apply once_ask; [done |]. intros [cands best].
  repeat match goal with |- answers_once (if ?b then _ else _) => destruct b end;
    try apply serveHealth_answers; try (by apply writeJSON_answers); try (by apply writeMessage_answers).
  intros t x H. run H. split; [cbn; lia | by left].
Qed.

Lemma preflight_answers req : answers_once (preflight req).
Proof. intros t x H. unfold preflight in H. run H; (split; [cbn; lia | by left]). Qed.

Lemma once_finally {A} (m : M A) a : answers_once m → (∀ r, answer_start (existT a r) = false) → answers_once (finally m (tell a)).
Proof.
  intros Hm Ha t x H. apply runs_finally in H as (t1 & t2 & y & z & -> & H1 & H2 & ->). apply Hm in H1 as [Hle H].
  run H2. assert (answers [existT a r] = O) as Hz by (by rewrite answers_cons, Ha).
  rewrite answers_app, excused_app, Hz, Nat.add_0_r. split; [done |].
  intros Hx. destruct (H Hx); [by left | right; or_true].
Qed.

Lemma authorize_refused a req class code msg : authorize sha256 a req class = Refused code msg → code = 401 ∨ code = 403.
Proof. unfold authorize. repeat case_match; intros [=]; subst; auto. Qed.

Lemma serve_answers req class : ahead_final class → answers_once (serve IntN codec sha256 o metrics req class).
Proof.
  intros Ha. unfold serve. destruct (_ =s _); [apply preflight_answers |].
  destruct (authorize _ _ _ _) as [id|code msg] eqn:E.
  2: { apply authorize_refused in E. apply writeMessage_answers. lia. }
  destruct (rc_Agent class); [apply serveAgent_answers |]. apply once_ask; [done |]. intros [cands best].
  destruct (id_Exempt id); [by apply dispatch_answers |]. intros t x H. run_step H.
  destruct r as [tk|d]; cbn beta iota in H.
  - rewrite answers_cons, excused_cons. revert H. apply once_finally; [| done]. apply (once_ask (AOnHeader _ _)); [done |].
    intros _. by apply dispatch_answers.
  - apply writeDenial_answers in H as (-> & Hle & Hor). measure. split; [done |]. intros _.
    destruct Hor as [->|Hd]; [by left | right]. by assert ((dn_Status d <? 200) = true) as -> by lia.
Qed.
End Router.
End Serve.
