(* ===== verification/Discipline.v ===== *)
(** * Discipline: which calls a handler can make

    [acts P m]: every call of every run of m satisfies P.  A handler's calls
    are the ordinary ones, exchanges with the upstream's own token, and, for
    a request an external may serve, checks of the externals ([permits]);
    so whatever holds of those holds of every handler. *)
From S2P Require Import Prelude GoStrings GoNet Types Classify Eligible Select Ports Limiter Prog Http Proxy Auth Forwarding Serve Router Runs.
Open Scope Z_scope.
Open Scope mesh_scope.

Definition acts {A} (P : Act → Prop) (m : M A) : Prop := always m (λ t _, Forall (λ e : Event, P (projT1 e)) t).

Section Acts.
Context (P : Act → Prop).

Lemma acts_ret {A} (a : A) : acts P (ret a).
Proof. intros t x H. by run H. Qed.
Lemma acts_crash {A} : acts P (crash (A := A)).
Proof. intros t x H. by run H. Qed.
Lemma acts_ask a : P a → acts P (ask a).
Proof. intros Ha t x H. run H. by constructor. Qed.
Lemma acts_tell a : P a → acts P (tell a).
Proof. intros Ha t x H. run H. by constructor. Qed.
Lemma acts_bind {A B} (m : M A) (f : A → M B) : acts P m → (∀ a, acts P (f a)) → acts P (andThen m f).
Proof.
  intros Hm Hf t x H. split_run H t1 t2 a H1; apply Hm in H1; [| done]. apply Forall_app. split; [done |]. by eapply Hf.
Qed.
(** With what is known of the first part's value. *)
Lemma acts_bind_post {A B} (m : M A) (f : A → M B) :
  acts P m → (∀ a t, runs m t (Some a) → acts P (f a)) → acts P (andThen m f).
Proof.
  intros Hm Hf t x H. split_run H t1 t2 a H1; pose proof (Hm _ _ H1) as H2; [| done].
  apply Forall_app. split; [done |]. by eapply Hf.
Qed.
Lemma acts_finally {A} (m : M A) d : acts P m → acts P d → acts P (finally m d).
Proof.
  intros Hm Hd t x H. apply runs_finally in H as (t1 & t2 & y & z & -> & H1 & H2 & ->).
  apply Forall_app. split; [by eapply Hm | by eapply Hd].
Qed.
End Acts.

(** The calls every handler may make. *)
Definition ordinary (a : Act) : bool :=
  match a with
  | ABegin _ | AFinish _ | ARecord _ _ _ | ABusy _ _
  | AExchange _ _ _ _ | AGet _ _ _ _ | AFanOut _ | ACheckExternals | AAdmit _ _ _ | ADone _ | AInflight _ | AOnHeader _ _ | AResponding _ _ _ => false
  | _ => true
  end.

(** The calls that keep the statistics of an attempt. *)
Definition keeps_stats (a : Act) : bool :=
  match a with ABegin _ | AFinish _ | ARecord _ _ _ | ABusy _ _ => true | _ => false end.

(** A property of calls that the ordinary ones have, those that keep the
    statistics, exchanges as [Forward] makes them, fan-outs, and checks of the
    externals if the class allows them. *)
Record permits (ext : bool) (P : Act → Prop) : Prop := {
  pm_ordinary a : ordinary a = true → P a;
  pm_stats a : keeps_stats a = true → P a;
  pm_exchange tg req : P (AExchange (tg_BaseURL tg) (tg_Token tg) (rewritten tg (rq_Header req)) (rq_Body req));
  pm_fanout us : P (AFanOut us);
  pm_externals : ext = true → P ACheckExternals
}.

(** One step of a proof that a handler's calls are permitted. *)
Create HintDb acts.
Ltac acts_step :=
  lazymatch goal with
  | |- acts _ (andThen _ _) => apply acts_bind; [| intros ?]
  | |- acts _ (ret _) => apply acts_ret
  | |- acts _ crash => apply acts_crash
  | |- acts ?P (ask ?a) => apply (acts_ask P a)
  | |- acts ?P (tell ?a) => apply (acts_tell P a)
  | |- acts ?P (write ?w) => apply (acts_tell P (AWrite w))
  | |- acts _ gone => apply (acts_ask _ AGone)
  | |- acts _ quotaExceeded => apply (acts_ask _ AQuota)
  | |- acts _ ctxErr => apply (acts_ask _ ACtxErr)
  | |- acts _ until => apply (acts_ask _ AUntil)
  | |- acts _ snapshot => apply (acts_ask _ ASnapshot)
  | |- acts _ checkExternals => apply (acts_ask _ ACheckExternals)
  | |- acts _ now => apply (acts_ask _ ANow)
  | |- acts _ draining => apply (acts_ask _ ADraining)
  | |- acts _ (writeMessage _ _) => unfold writeMessage
  | |- acts _ (writeJSON _ _) => unfold writeJSON
  | |- acts _ (match ?x with _ => _ end) => destruct x eqn:?
  | |- acts _ (finally _ _) => apply acts_finally
  end.
Ltac acts_go := repeat (acts_step; cbn beta iota); eauto with acts.

(** *** The parts that make only ordinary calls *)
Section Ordinary.
Context (P : Act → Prop) (HO : ∀ a, ordinary a = true → P a).
Local Hint Extern 1 (P _) => (apply HO; reflexivity) : acts.

Lemma acts_relay l : acts P (relayInterim l).
Proof. induction l as [|[c h] l IH]; cbn [relayInterim]; acts_go. Qed.
Hint Resolve acts_relay : acts.

Lemma acts_Forward req tg :
  (∀ f status h, tg_OnResponse tg = Some f → acts P (f status h)) →
  P (AExchange (tg_BaseURL tg) (tg_Token tg) (rewritten tg (rq_Header req)) (rq_Body req)) → acts P (Forward req tg).
Proof.
  intros Hf He. unfold Forward. acts_go. unfold answered.
  apply acts_bind; [destruct (tg_OnResponse tg) eqn:E; [by eapply Hf | apply acts_ret] |]. intros h. acts_go.
Qed.

Lemma acts_target tk u class retry f status h : tg_OnResponse (targetOf tk u class retry) = Some f → acts P (f status h).
Proof.
  unfold targetOf. cbn [tg_OnResponse]. destruct tk; [| done]. intros [= <-]. unfold effortReader. acts_go.
Qed.

Lemma acts_settled out : acts P (settled out).
Proof. unfold settled. acts_go. Qed.
Lemma acts_putHeaders h : acts P (putHeaders h).
Proof. induction h as [|[k v] h IH]; cbn [putHeaders]; acts_go. Qed.
Hint Resolve acts_settled acts_putHeaders : acts.
Lemma acts_writeDenial d : acts P (writeDenial d).
Proof. unfold writeDenial. acts_go. Qed.
Hint Resolve acts_writeDenial : acts.
Lemma acts_answerQuota tk : acts P (answerQuotaExceeded tk).
Proof. unfold answerQuotaExceeded. acts_go. Qed.
Lemma acts_answerFailure class out : acts P (answerFailure class out).
Proof. unfold answerFailure. acts_go. Qed.
Lemma acts_timeLeft : acts P timeLeft.
Proof. unfold timeLeft. acts_go. Qed.
Hint Resolve acts_answerQuota acts_answerFailure acts_timeLeft : acts.
Lemma acts_afterAttempt tk class out : acts P (afterAttempt tk class out).
Proof. unfold afterAttempt. acts_go. Qed.
Lemma acts_putAll l : acts P (putAll l).
Proof. induction l as [|[k v] l IH]; cbn [putAll]; acts_go. Qed.
Hint Resolve acts_putAll : acts.
Lemma acts_writeFan r : acts P (writeFan r).
Proof. unfold writeFan. acts_go. Qed.
Hint Resolve acts_writeFan : acts.
Lemma acts_collect codec n f un : acts P (collect codec n f un).
Proof. revert f un. induction n as [|n IH]; intros f un; cbn [collect]; acts_go. Qed.
Lemma acts_collectPending codec n pos chosen rank grace : acts P (collectPending codec n pos chosen rank grace).
Proof. revert chosen rank grace. induction n as [|n IH]; intros chosen rank grace; cbn [collectPending]; acts_go. Qed.
Lemma acts_answerFetch f : acts P (answerFetch f).
Proof. unfold answerFetch, writeStatusBody. acts_go. Qed.

Context (IntN : Z → Z → Z * Z) (o : RouterOptions).

Lemma acts_sel cands class best : acts P (sel IntN o cands class best).
Proof. unfold sel. acts_go. Qed.
Hint Resolve acts_sel : acts.
Lemma acts_noUpstream class cands : acts P (noUpstream o class cands).
Proof. unfold noUpstream. acts_go. Qed.
Lemma acts_relax cands best prev l : acts P (relax IntN o cands best prev l).
Proof. revert prev. induction l as [|rc l IH]; intros prev; cbn [relax]; acts_go. Qed.
End Ordinary.

Lemma relax_in IntN o cands best prev l t s rc : runs (relax IntN o cands best prev l) t (Some (Some (s, rc))) → rc ∈ l.
Proof.
  revert prev t. induction l as [|c l IH]; intros prev t H; cbn [relax] in H; [by run H |].
  destruct (CouldServe cands prev); [by run H |]. split_run H t1 t2 s' H1.
  destruct s' as [s'|]; [run H; left | right; by eapply IH].
Qed.

Lemma Relaxed_local c c' : c' ∈ Relaxed c → rc_LocalOnly c' = rc_LocalOnly c.
Proof.
  unfold Relaxed. destruct (rc_SimNeeds c); [| by intros ?%elem_of_nil].
  destruct (sn_RoundsSpan _); rewrite ?elem_of_cons, ?elem_of_nil; [intros [->|[->|[]]] | intros [->|[]]]; done.
Qed.

(** *** The handlers *)
Section Handlers.
Context (ext : bool) (P : Act → Prop) (HP : permits ext P).
Let HO := pm_ordinary _ _ HP.
Local Hint Extern 1 (P _) => (first [apply HO; reflexivity | apply (pm_stats _ _ HP); reflexivity | apply (pm_fanout _ _ HP)]) : acts.
Local Hint Extern 2 (acts P _) =>
  (first [apply (acts_settled P HO) | apply (acts_writeDenial P HO) | apply (acts_answerQuota P HO)
         | apply (acts_answerFailure P HO) | apply (acts_timeLeft P HO) | apply (acts_afterAttempt P HO) | apply (acts_writeFan P HO)
         | apply (acts_collect P HO) | apply (acts_collectPending P HO) | apply (acts_answerFetch P HO)
         | apply (acts_sel P HO) | apply (acts_noUpstream P HO) | apply (acts_relax P HO)]) : acts.

Lemma acts_forward tk req u class retry : acts P (forward tk req u class retry).
Proof.
  unfold forward. acts_go.
  - apply (acts_Forward _ HO); [apply (acts_target _ HO) | apply (pm_exchange _ _ HP)].
  - unfold recordAttempt. acts_go.
Qed.
Hint Resolve acts_forward : acts.

Section Router.
Context (IntN : Z → Z → Z * Z) (o : RouterOptions) (codec : BodyCodec).

Lemma acts_retryEach tk class reset tries last req : acts P (retryEach tk class reset tries last req).
Proof. revert last req. induction tries as [|u tries IH]; intros last req; cbn [retryEach]; acts_go. Qed.
Hint Resolve acts_retryEach : acts.

Lemma acts_pick class cands best : (mayUseExternals class = true → ext = true) → acts P (pick IntN o class cands best).
Proof. intros He. unfold pick. acts_go. apply (pm_externals _ _ HP). auto. Qed.

Lemma acts_externalFallback class tried : (mayUseExternals class = true → ext = true) → acts P (externalFallback IntN o class tried).
Proof.
  intros He. unfold externalFallback. acts_go. apply (pm_externals _ _ HP), He.
  match goal with E : _ || _ = false |- _ => apply orb_false_iff in E as [E _]; by apply negb_false_iff in E end.
Qed.
Hint Resolve acts_pick acts_externalFallback : acts.

Lemma acts_forwardSelected tk req class s :
  (mayUseExternals class = true → ext = true) → acts P (forwardSelected IntN o tk req class s).
Proof.
  intros He. unfold forwardSelected, attempts. destruct (replayable req) as [[req1 reset] replay].
  unfold carryOn, lastResort. acts_go.
Qed.
Hint Resolve acts_forwardSelected : acts.

Lemma acts_handleDefault tk req class cands best :
  mayUseExternals class = ext → acts P (handleDefault IntN o tk req class cands best).
Proof.
  intros He. unfold handleDefault. apply acts_bind; [apply acts_pick; congruence |]. intros [[s cands'] best'].
  apply acts_bind_post; [acts_go |]. intros [[s' class']|] t Hc.
  - apply acts_forwardSelected. intros Hm. rewrite <- He. destruct s as [s|]; [by run Hc |].
    apply relax_in in Hc. unfold mayUseExternals in *. by rewrite <- (Relaxed_local class class').
  - unfold unserved. acts_go.
Qed.
Hint Resolve acts_handleDefault : acts.

(** *** Serve *)
Lemma acts_capture {A} c (m : M A) : acts P m → acts P (capture codec c m).
Proof.
  revert c. induction m as [a| |a k IH]; intros c Hm; cbn [capture]; [apply acts_ret | apply acts_crash |].
  intros t x (r & t' & -> & H). constructor.
  - destruct (runs_exist (k r)) as (t2 & y & H2).
    assert (runs (Call a k) (existT a r :: t2) y) as H3 by (by exists r, t2). apply Hm in H3. by inversion H3.
  - eapply (IH r); [| exact H]. intros t2 y H2.
    assert (runs (Call a k) (existT a r :: t2) y) as H3 by (by exists r, t2). apply Hm in H3. by inversion H3.
Qed.
Hint Resolve acts_capture : acts.

Lemma acts_handleBroadcast tk req class cands best :
  (mayUseExternals class = true → ext = true) → acts P (handleBroadcast codec IntN o tk req class cands best).
Proof.
  intros He. unfold handleBroadcast, multiBroadcast, afterCollect, broadcastExternal. acts_go.
Qed.

Lemma acts_handlePending tk req class cands best :
  (mayUseExternals class = true → ext = true) → acts P (handlePending codec IntN o tk req class cands best).
Proof. intros He. unfold handlePending, pinnedLookup, askAll, answerPending. acts_go. Qed.

Lemma acts_handleWait req class after cands best :
  mayUseExternals class = ext → acts P (handleWait IntN o req class after cands best).
Proof.
  intros He. unfold handleWait, handleBalancerWait, handlePeerWait, writeStatusBody. acts_go;
    apply acts_forwardSelected; congruence.
Qed.

Lemma acts_dispatch tk req class cands best :
  mayUseExternals class = ext → acts P (dispatch IntN codec o tk req class cands best).
Proof.
  intros He. unfold dispatch. acts_go;
    first [by apply acts_handleWait | apply acts_handleBroadcast; congruence | apply acts_handlePending; congruence].
Qed.
End Router.
End Handlers.
