(* ===== verification/Attempts.v ===== *)
(** * Attempts: which upstreams a request is sent to, in which order, with
    what body, and how the statistics count them (forward and forwardSelected
    of internal/app/router.go) *)
From S2P Require Import Prelude GoFloat GoStrings GoNet GoTime Types Classify Eligible Select Ports StatsBook Limiter Prog Http Proxy Auth Forwarding Serve Router Runs Answers Discipline.
Open Scope Z_scope.
Open Scope mesh_scope.

(** ** What a run shows *)

(** The upstreams attempted, in order. *)
Definition begun_by (e : Event) : option string := match e with existT (ABegin id) _ => Some id | _ => None end.
Definition begun (t : Trace) : list string := omap begun_by t.

(** The attempts whose end was counted. *)
Definition ended_by (e : Event) : option string := match e with existT (AFinish id) _ => Some id | _ => None end.
Definition ended (t : Trace) : list string := omap ended_by t.

(** The body each exchange was given. *)
Definition sends (b : ReqBody) (a : Act) : Prop := match a with AExchange _ _ _ b' => b' = b | _ => True end.

(** The request's time ran out. *)
Definition late_event (e : Event) : bool :=
  match e with
  | existT ACtxErr ended => ended
  | existT AUntil (Some left_) => left_ <? minAttempt
  | _ => false
  end.
Definition late (t : Trace) : bool := existsb late_event t.

Lemma begun_app t1 t2 : begun (t1 ++ t2) = begun t1 ++ begun t2.
Proof. apply omap_app. Qed.
Lemma ended_app t1 t2 : ended (t1 ++ t2) = ended t1 ++ ended t2.
Proof. apply omap_app. Qed.
Lemma begun_cons e t : begun (e :: t) = match begun_by e with Some id => [id] | None => [] end ++ begun t.
Proof. unfold begun. cbn. by destruct (begun_by e). Qed.
Lemma ended_cons e t : ended (e :: t) = match ended_by e with Some id => [id] | None => [] end ++ ended t.
Proof. unfold ended. cbn. by destruct (ended_by e). Qed.
Lemma late_app t1 t2 : late (t1 ++ t2) = late t1 || late t2.
Proof. apply existsb_app. Qed.

(** A part with no attempt in it. *)
Definition idle (a : Act) : Prop := match a with ABegin _ | AFinish _ => False | _ => True end.

Lemma idle_ordinary a : ordinary a = true → idle a.
Proof. by destruct a. Qed.

Lemma idle_run t : Forall (λ e : Event, idle (projT1 e)) t → begun t = [] ∧ ended t = [].
Proof.
  induction 1 as [|[a r] t Ha _ [IH1 IH2]]; [done |]. rewrite begun_cons, ended_cons, IH1, IH2. by destruct a.
Qed.

Lemma idle_parts t {A} (m : M A) x : acts idle m → runs m t x → begun t = [] ∧ ended t = [].
Proof. intros Hm H. apply idle_run. by eapply Hm. Qed.

(** ** One attempt *)
Lemma Forward_idle tk u class retry req : acts idle (Forward req (targetOf tk u class retry)).
Proof. apply (acts_Forward _ idle_ordinary); [apply (acts_target _ idle_ordinary) | done]. Qed.

Lemma recordAttempt_idle u class out : acts idle (recordAttempt u class out).
Proof. unfold recordAttempt. acts_go; done. Qed.

Lemma recordAttempt_ret u class out t x : runs (recordAttempt u class out) t x → x = Some ().
Proof. apply recordAttempt_returns. Qed.

(** An attempt is begun, ends in an outcome or an abort, and is counted as
    ended only in the first case. *)
Lemma forward_counts tk req u class retry t x :
  runs (forward tk req u class retry) t x →
  begun t = [up_ID u] ∧ ended t = (if isSome x then [up_ID u] else []).
Proof.
  intros H. unfold forward in H. do 3 run_step H. rewrite !begun_cons, !ended_cons. cbn [begun_by ended_by app].
  split_run H t3 t4 p H1; apply (idle_parts _ _ _ (Forward_idle tk u class retry req)) in H1 as [Hb He].
  - destruct p as [out rest]. run_step H. split_run H t5 t6 y H2; [| by apply recordAttempt_returns in H2].
    apply (idle_parts _ _ _ (recordAttempt_idle u class out)) in H2 as [Hb' He']. run H.
    rewrite !begun_app, !ended_app, !begun_cons, !ended_cons, !begun_app, !ended_app, Hb, He, Hb', He'. done.
  - by rewrite Hb, He.
Qed.

Lemma sends_ordinary b a : ordinary a = true → sends b a.
Proof. by destruct a. Qed.

(** An attempt sends the request's body as it stands; a request without one
    is left without one. *)
Lemma forward_sends tk req u class retry t x :
  runs (forward tk req u class retry) t x →
  Forall (λ e : Event, sends (rq_Body req) (projT1 e)) t ∧
  ∀ out req', x = Some (out, req') → ∃ b, req' = req <| rq_Body := b |> ∧ (rb_none (rq_Body req) = true → b = rq_Body req).
Proof.
  intros H. unfold forward in H. do 3 run_step H.
  assert (acts (sends (rq_Body req)) (Forward req (targetOf tk u class retry))) as HF.
  { apply (acts_Forward _ (sends_ordinary _)); [apply (acts_target _ (sends_ordinary _)) | done]. }
  split_run H t3 t4 p H1; pose proof (HF _ _ H1) as Hs.
  - destruct p as [out rest]. run_step H. split_run H t5 t6 y H2; [| by apply recordAttempt_returns in H2].
    assert (acts (sends (rq_Body req)) (recordAttempt u class out)) as HR by (unfold recordAttempt; acts_go; done).
    apply HR in H2. run H. split.
    + do 3 (constructor; [done |]). apply Forall_app. split; [done |]. constructor; [done |]. apply Forall_app. by split.
    + intros ?? [= <- <-]. exists rest. split; [done |]. intros Hn. clear -H1 Hn. unfold Forward in H1.
      run_step H1. destruct (unsendable _ _); [by run H1 |]. run_step H1. split_run H1 u1 u2 z Hr.
      split_run H1 u3 u4 w Ha. destruct w as [[[? ?] ?] ?]. run H1. by rewrite Hn.
  - split; [| done]. do 3 (constructor; [done |]). done.
Qed.

(** ** A run of attempts at the upstreams us, each sent the body b *)
Record ran (b : ReqBody) (us : list Upstream) (t : Trace) (whole : bool) : Prop := {
  ran_begun : begun t = up_ID <$> us;
  ran_sends : Forall (λ e : Event, sends b (projT1 e)) t;
  ran_ended : ended t = begun t ∨ whole = false ∧ ∃ id, begun t = ended t ++ [id]
}.

Lemma ran_app b us1 us2 t1 t2 w : ran b us1 t1 true → ran b us2 t2 w → ran b (us1 ++ us2) (t1 ++ t2) w.
Proof.
  intros [B1 S1 E1] [B2 S2 E2]. destruct E1 as [E1|[? _]]; [| done]. split.
  - by rewrite begun_app, B1, B2, fmap_app.
  - by apply Forall_app.
  - rewrite begun_app, ended_app, E1. destruct E2 as [->|[-> [id ->]]]; [by left | right].
    split; [done |]. exists id. by rewrite app_assoc.
Qed.

Lemma ran_nil b w : ran b [] [] w.
Proof. split; [done | done | by left]. Qed.

Lemma ran_any b us t w : ran b us t true → ran b us t w.
Proof. intros [B S E]. split; [done | done |]. by destruct E as [E|[? _]]; [left |]. Qed.

(** What neither attempts nor exchanges. *)
Definition inert (b : ReqBody) (a : Act) : Prop := idle a ∧ sends b a.

Lemma inert_ordinary b a : ordinary a = true → inert b a.
Proof. by destruct a. Qed.

Lemma inert_ran b {A} (m : M A) t x w : acts (inert b) m → runs m t x → ran b [] t w.
Proof.
  intros Hm H. specialize (Hm _ _ H). cbn beta in Hm. destruct (idle_run t) as [H1 H2].
  - eapply Forall_impl; [exact Hm |]. by intros e [].
  - split; [done | | left; congruence]. eapply Forall_impl; [exact Hm |]. by intros e [].
Qed.

Lemma forward_ran tk req u class retry t x :
  runs (forward tk req u class retry) t x → ran (rq_Body req) [u] t (isSome x).
Proof.
  intros H. pose proof (forward_counts _ _ _ _ _ _ _ H) as [Hb He]. apply forward_sends in H as [Hs _].
  split; [done | done |]. rewrite He, Hb. destruct x; [by left | right]. split; [done |]. by exists (up_ID u).
Qed.

(** The body a request that cannot lose it still has. *)
Definition body_known (b : ReqBody) (req : Request) : Prop := rb_none b = true → rq_Body req = b.

Lemma forward_known tk req u class retry t out req' :
  runs (forward tk req u class retry) t (Some (out, req')) → body_known (rq_Body req) req'.
Proof. intros H Hn. apply forward_sends in H as [_ H]. destruct (H _ _ eq_refl) as (b & -> & Hb). by apply Hb. Qed.

Lemma timeLeft_late t : runs timeLeft t (Some false) → late t = true.
Proof.
  intros H. unfold timeLeft in H. run H; cbn; [by rewrite <- E |]. destruct r0 as [d|]; [| done].
  by rewrite orb_false_r, Z.ltb_antisym, <- H.
Qed.

(** A selection is made of eligible candidates. *)
Lemma sel_members IntN o cands class best t s u :
  runs (sel IntN o cands class best) t (Some (Some s)) → u ∈ sel_Chosen s :: sel_Alternates s →
  ∃ v, v ∈ cands ∧ Eligible v class best (ro_SyncTolerance o) = true ∧ u = rescored class best (ro_Weights o) v.
Proof.
  intros H Hu. unfold sel in H. run_step H.
  match type of H with context [Select ?a ?b ?c ?d ?e ?f ?g ?h] => destruct (Select a b c d e f g h) as [[s' rnd]|] eqn:Es end; run H.
  by eapply Select_members.
Qed.

Section Router.
Context (IntN : Z → Z → Z * Z) (o : RouterOptions) (b : ReqBody) (reset : Request → Request).
Hypothesis reset_body : ∀ req, body_known b req → rq_Body (reset req) = b.

Lemma retryEach_ran tk class tries last req t x :
  body_known b req → runs (retryEach tk class reset tries last req) t x →
  ∃ n, (n <= length tries)%nat ∧ ran b (take n tries) t (isSome x) ∧
    ∀ last' req', x = Some (Unanswered last' req') → body_known b req' ∧ (n = length tries ∨ late t = true).
Proof.
  revert last req t. induction tries as [|u tries IH]; intros last req t Hk H; cbn [retryEach] in H.
  - run H. exists O. split_and!; [done | apply ran_nil | intros ?? [= <- <-]; auto].
  - split_run H t1 t2 go H1; pose proof (inert_ran b _ _ _ true (acts_timeLeft _ (inert_ordinary b)) H1) as R1.
    2: { exists O. split_and!; [simpl; lia | by apply ran_any | done]. }
    destruct go; cbn [negb] in H.
    + split_run H t3 t4 p H2; pose proof (forward_ran _ _ _ _ _ _ _ H2) as R2; rewrite reset_body in R2 by done.
      2: { exists 1%nat. split_and!; [simpl; lia | | done]. by apply (ran_app b [] [u]). }
      destruct p as [out req']. apply forward_known in H2. rewrite reset_body in H2 by done.
      split_run H t5 t6 over H3; pose proof (inert_ran b _ _ _ true (acts_afterAttempt _ (inert_ordinary b) _ _ _) H3) as R3.
      2: { exists 1%nat. split_and!; [simpl; lia | | done]. apply (ran_app b [] [u]); [done |]. apply (ran_app b [u] []); [done |].
           by apply ran_any. }
      destruct over.
      * run H. exists 1%nat. split_and!; [simpl; lia | | done]. rewrite app_nil_r. apply (ran_app b [] [u]); [done |]. by apply (ran_app b [u] []).
      * apply (IH _ _ _ H2) in H as (n & Hn & R & Hx). exists (S n). split_and!; [simpl; lia | |].
        -- apply (ran_app b [] (u :: take n tries)); [done |]. apply (ran_app b [u] (take n tries)); [done |]. by apply (ran_app b []).
        -- intros last' req'' E. destruct (Hx _ _ E) as [? [->| Hl]]; [by auto |]. split; [done | right].
           rewrite !late_app, Hl. by rewrite !orb_true_r.
    + run H. exists O. split_and!; [simpl; lia | by rewrite app_nil_r |]. intros ?? [= <- <-]. split; [done | right].
      rewrite app_nil_r. by apply timeLeft_late.
Qed.

(** The fallback is an external, and there is one only when none was tried. *)
Lemma externalFallback_external class tried t u :
  runs (externalFallback IntN o class tried) t (Some (Some u)) →
  isExternal u = true ∧ mayUseExternals class = true ∧ existsb isExternal tried = false.
Proof.
  intros H. unfold externalFallback in H. destruct (negb _ || _) eqn:E; [by run H |].
  apply orb_false_iff in E as [E1 E2]. apply negb_false_iff in E1. run_step H. run_step H; [by run H |].
  run_step H. run_step H. split_run H t3 t4 s H1. run H. destruct s as [s|]; [| done]. injection H as ->.
  split; [| done]. destruct (sel_members _ _ _ _ _ _ _ (sel_Chosen s) H1) as (v & Hv & _ & ->); [by left |].
  by apply list_elem_of_In, filter_In in Hv as [_ Hv].
Qed.
Lemma externalFallback_inert b' class tried : acts (inert b') (externalFallback IntN o class tried).
Proof.
  unfold externalFallback. acts_go; try done. apply (acts_sel _ (inert_ordinary b')).
Qed.

Lemma lastResort_ran tk class tries last req t x :
  body_known b req → runs (lastResort IntN o tk class reset tries last req) t x →
  ∃ ext, ran b ext t (isSome x) ∧ (length ext <= 1)%nat ∧
    (ext ≠ [] → Forall (λ u, isExternal u = true) ext ∧ mayUseExternals class = true ∧ existsb isExternal tries = false).
Proof.
  intros Hk H. unfold lastResort in H.
  split_run H t1 t2 ext H1; pose proof (inert_ran b _ _ _ true (externalFallback_inert b class tries) H1) as R1.
  2: { exists []. split_and!; [by apply ran_any | simpl; lia | done]. }
  destruct ext as [u|]; [| run H; exists []; rewrite app_nil_r; split_and!; [by apply ran_any | simpl; lia | done]].
  apply externalFallback_external in H1.
  split_run H t3 t4 go H2; pose proof (inert_ran b _ _ _ true (acts_timeLeft _ (inert_ordinary b)) H2) as R2.
  2: { exists []. split_and!; [| simpl; lia | done]. apply (ran_app b [] []); [done | by apply ran_any]. }
  destruct go; cbn [negb] in H.
  2: { run H. exists []. rewrite app_nil_r. split_and!; [| simpl; lia | done]. apply (ran_app b [] []); [done | by apply ran_any]. }
  exists [u]. split_and!; [| simpl; lia | intros _; split_and!; try apply H1; by constructor; [apply H1 |]].
  apply (ran_app b [] [u]); [done |]. apply (ran_app b [] [u]); [done |].
  split_run H t5 t6 p H3; pose proof (forward_ran _ _ _ _ _ _ _ H3) as R3; rewrite reset_body in R3 by done; [| done].
  destruct p as [out req']. apply (ran_app b [u] []); [done |].
  assert (acts (inert b) (let* over := settled out in
            if over then ret Over else let* quota := quotaExceeded in
              if quota then answerQuotaExceeded tk;; ret Over else ret (Unanswered out req'))) as Ha.
  { acts_go; try done; [apply (acts_settled _ (inert_ordinary b)) | apply (acts_answerQuota _ (inert_ordinary b))]. }
  by apply (inert_ran b _ _ _ (isSome x) Ha) in H.
Qed.

(** The upstreams attempted are a prefix of the tries, then at most one
    external. *)
Definition in_order (class : RequestClass) (tries : list Upstream) (replay : bool) (n : nat) (ext : list Upstream) (t : Trace) : Prop :=
  (1 <= n <= length tries)%nat ∧ (length ext <= 1)%nat ∧
  (ext ≠ [] → Forall (λ u, isExternal u = true) ext ∧ replay = true ∧ mayUseExternals class = true ∧
              existsb isExternal tries = false ∧ (n = length tries ∨ late t = true)).

Lemma carryOn_ran tk class replay u more last req t0 t x :
  (replay = true ∨ more = []) → body_known b req → ran b [u] t0 true →
  runs (carryOn IntN o tk class reset replay (u :: more) last req) t x →
  ∃ n ext, in_order class (u :: more) replay n ext (t0 ++ t) ∧ ran b (take n (u :: more) ++ ext) (t0 ++ t) (isSome x).
Proof.
  intros Hr Hk R0 H. unfold carryOn in H. cbn [tail] in H.
  assert (∀ n t' w, (n <= length more)%nat → ran b (take n more) t' w →
    in_order class (u :: more) replay (S n) [] (t0 ++ t') ∧ ran b (take (S n) (u :: more) ++ []) (t0 ++ t') w) as Hplain.
  { intros n t' w Hn R. split; [split; [simpl; lia | split; [simpl; lia | done]] |]. rewrite app_nil_r. by apply (ran_app b [u] (take n more)). }
  split_run H t1 t2 tr H1; apply (retryEach_ran _ _ _ _ _ _ _ Hk) in H1 as (n & Hn & R1 & Hx).
  2: { exists (S n), []. by apply Hplain. }
  destruct tr as [|last' req'].
  { run H. rewrite app_nil_r. exists (S n), []. by apply Hplain. }
  destruct (Hx _ _ eq_refl) as [Hk' Hlate].
  assert (acts (inert b) (if replay then timeLeft else ret false)) as Ha.
  { destruct replay; [apply (acts_timeLeft _ (inert_ordinary b)) | apply acts_ret]. }
  split_run H t3 t4 go H2; pose proof (inert_ran b _ _ _ true Ha H2) as R2; pose proof (ran_app b _ [] _ _ _ R1 R2) as R12;
    rewrite app_nil_r in R12.
  2: { exists (S n), []. apply Hplain; [done | by apply ran_any]. }
  destruct go.
  - destruct replay; [| by run H2]. apply lastResort_ran in H as (ext & R3 & Hl & Hext); [| done].
    exists (S n), ext. split.
    + split; [simpl; lia |]. split; [done |]. intros Hne. destruct (Hext Hne) as (? & ? & ?). split_and!; try done.
      destruct Hlate as [->|Hlate]; [by left | right]. by rewrite !late_app, Hlate, !orb_true_r.
    + cbn [take app]. apply (ran_app b [u]); [done |]. rewrite (app_assoc t1). by apply ran_app.
  - run H. rewrite app_nil_r. exists (S n), []. apply Hplain; [done | by apply ran_any].
Qed.
End Router.

(** A request whose body is absent when its length says so. *)
Definition length_honest (req : Request) : Prop := rq_ContentLength req = 0 → rb_none (rq_Body req) = true.

Lemma substring_length n s : (n <= String.length s)%nat → String.length (String.substring 0 n s) = n.
Proof. revert s. induction n as [|n IH]; intros [|a s] H; simpl in *; [done | done | lia | rewrite IH; lia]. Qed.

(** A body held for replay is the whole body, and reset puts it back. *)
Lemma replayable_spec req req1 reset replay :
  length_honest req → replayable req = (req1, reset, replay) →
  rb_data (rq_Body req1) = rb_data (rq_Body req) ∧
  (replay = true → ∀ r, body_known (rq_Body req1) r → rq_Body (reset r) = rq_Body req1).
Proof.
  intros Hh. unfold replayable. destruct (rb_none (rq_Body req)) eqn:En.
  { cbn [orb]. intros [= <- <- <-]. split; [done |]. intros _ r Hr. by apply Hr. }
  cbn [orb]. destruct (Z.eqb_spec (rq_ContentLength req) 0) as [E|_]; [rewrite Hh in En by done; done |].
  unfold readAll. rewrite En. generalize maxReplayBody as max. intros max.
  destruct (Z.leb_spec (max + 1) (Z.of_nat (String.length (rb_data (rq_Body req))))) as [Hle|Hlt]; cbn [orb].
  - destruct (Z.ltb_spec max (Z.of_nat (String.length (String.substring 0 (Z.to_nat (max + 1)) (rb_data (rq_Body req)))))) as [_|Hs].
    + intros [= <- <- <-]. done.
    + rewrite substring_length in Hs by lia. lia.
  - destruct (rb_fails (rq_Body req)); [by intros [= <- <- <-] |]. cbn [orb].
    destruct (_ <? _); [by intros [= <- <- <-] |]. intros [= <- <- <-]. done.
Qed.

Lemma in_order_app class tries replay n ext t t' : in_order class tries replay n ext t → in_order class tries replay n ext (t ++ t').
Proof.
  intros (H1 & H2 & H3). split_and!; [apply H1 | apply H1 | done |]. intros Hne.
  destruct (H3 Hne) as (? & ? & ? & ? & Hl). split_and!; try done. destruct Hl as [?|Hl]; [by left | right].
  by rewrite late_app, Hl.
Qed.

Section Theorems.
Context (IntN : Z → Z → Z * Z) (o : RouterOptions).

Lemma attempts_ran tk class s req req1 reset replay t x :
  length_honest req → replayable req = (req1, reset, replay) → runs (attempts IntN o tk class s req) t x →
  ∃ n ext, in_order class (triesOf o s replay) replay n ext t ∧
    ran (rq_Body req1) (take n (triesOf o s replay) ++ ext) t (isSome x).
Proof.
  intros Hh Er H. unfold attempts in H. rewrite Er in H. apply replayable_spec in Er as [_ Hres]; [| done].
  set (tries := triesOf o s replay) in *. set (b := rq_Body req1) in *.
  destruct (triesOf_chosen IntN o s replay) as [more Hm]. fold tries in Hm.
  assert (replay = true ∨ more = []) as Hr.
  { destruct replay; [by left | right]. unfold tries, triesOf in Hm.
    match type of Hm with take 1 ?l = _ => by destruct l; inversion Hm end. }
  rewrite Hm in *. set (u := sel_Chosen s) in *.
  assert (∀ t' w, ran b [u] t' w → in_order class (u :: more) replay 1 [] t' ∧ ran b (take 1 (u :: more) ++ []) t' w) as Hone.
  { intros t' w R. split; [| done]. split; [simpl; lia |]. split; [simpl; lia | done]. }
  split_run H t1 t2 p H1; pose proof (forward_ran _ _ _ _ _ _ _ H1) as R1; [| exists 1%nat, []; by apply Hone].
  destruct p as [out req']. pose proof (forward_known _ _ _ _ _ _ _ _ H1) as Hk.
  split_run H t3 t4 over H3; pose proof (inert_ran b _ _ _ true (acts_afterAttempt _ (inert_ordinary b) _ _ _) H3) as R3;
    pose proof (ran_app b [u] [] _ _ _ R1 R3) as R13; rewrite app_nil_r in R13.
  2: { exists 1%nat, []. apply Hone. by apply ran_any. }
  destruct over; [run H; exists 1%nat, []; rewrite app_nil_r; by apply Hone |].
  rewrite app_assoc. destruct replay.
  - eapply (carryOn_ran IntN o b reset (Hres eq_refl)); [by left | exact Hk | exact R13 | exact H].
  - destruct Hr as [?| ->]; [done |]. unfold carryOn in H. cbn [tail retryEach] in H. run H.
    exists 1%nat, []. rewrite app_nil_r. by apply Hone.
Qed.

(** A request that can be sent again: it has no body, or one read whole within
    4 MiB. *)
Definition repeatable (req : Request) : Prop :=
  rb_none (rq_Body req) = true ∨
  rb_fails (rq_Body req) = false ∧ Z.of_nat (String.length (rb_data (rq_Body req))) <= 4 * 1024 * 1024.

Lemma replayable_iff req : length_honest req → (replayable req).2 = true ↔ repeatable req.
Proof.
  intros Hh. unfold replayable, repeatable. destruct (rb_none (rq_Body req)) eqn:En; [split; [by left | done] |].
  destruct (Z.eqb_spec (rq_ContentLength req) 0) as [E|_]; [by rewrite Hh in En |]. cbn [orb]. unfold readAll. rewrite En.
  change (4 * 1024 * 1024) with maxReplayBody. generalize maxReplayBody as max. intros max.
  destruct (Z.leb_spec (max + 1) (Z.of_nat (String.length (rb_data (rq_Body req))))) as [Hle|Hlt]; cbn [orb].
  - destruct (Z.ltb_spec max (Z.of_nat (String.length (String.substring 0 (Z.to_nat (max + 1)) (rb_data (rq_Body req)))))) as [_|Hs].
    + split; [done | intros [?|[_ ?]]; [done | lia]].
    + rewrite substring_length in Hs by lia. lia.
  - destruct (rb_fails (rq_Body req)); [split; [done | by intros [?|[? _]]] |]. cbn [orb].
    destruct (Z.ltb_spec max (Z.of_nat (String.length (rb_data (rq_Body req))))); cbn [snd]; [lia |].
    split; [intros _; right; by split; [| lia] | done].
Qed.

(** How many of the selected upstreams the retry budget allows. *)
Definition allowed (s : Selection) : nat :=
  let all := S (length (sel_Alternates s)) in
  if 0 <=? ro_RetryBudget o then Nat.min all (S (Z.to_nat (ro_RetryBudget o))) else all.

Lemma triesOf_all s : triesOf o s true = take (allowed s) (sel_Chosen s :: sel_Alternates s).
Proof.
  unfold triesOf, allowed. set (us := sel_Chosen s :: sel_Alternates s). assert (S (length (sel_Alternates s)) = length us) as -> by done.
  destruct (Z.leb_spec 0 (ro_RetryBudget o)); cbn [andb]; [| by rewrite take_ge].
  destruct (Z.ltb_spec (1 + ro_RetryBudget o) (Z.of_nat (length us))).
  - f_equal. lia.
  - rewrite take_ge; [done | lia].
Qed.

Lemma triesOf_one s : triesOf o s false = [sel_Chosen s].
Proof. unfold triesOf. case_match; [| done]. destruct (Z.to_nat (1 + ro_RetryBudget o)) eqn:E; [bprop; lia | done]. Qed.

Lemma allowed_bounds s : (1 <= allowed s <= S (length (sel_Alternates s)))%nat.
Proof. unfold allowed. destruct (0 <=? _); lia. Qed.


(** *** Informational answers *)

(** An exchange that relays an informational answer (100 Continue, say) and
    then fails: a transport error, or a status kept from the client. *)
Definition fails_early (e : Event) : Prop :=
  match e with
  | existT (AExchange _ _ _ _) x =>
      existsb (λ i, informational i.1) (xc_Interim x) = true ∧
      match xc_Result x with Err _ => True | Ok r => rs_StatusCode r = 502 ∨ rs_StatusCode r = 503 end
  | _ => True
  end.

Lemma early_withheld tk u class st : st = 502 ∨ st = 503 → withheld (targetOf tk u class []) st = true.
Proof. unfold withheld, listed, targetOf. cbn. intros [->| ->]; by destruct (timeLimited class). Qed.

Lemma Forward_early tk u class req t out rest :
  unsendable req (targetOf tk u class []) = None → Forall fails_early t →
  runs (Forward req (targetOf tk u class [])) t (Some (out, rest)) → out_HeadersSent out = true ∧ answers t = O.
Proof.
  intros Hu Ht H. assert (quiet_target (targetOf tk u class [])) as Hq by apply targetOf_quiet. unfold Forward in H.
  run_step H. rewrite Hu in H.
  run_step H. split_run H t1 t2 y H1. apply relayInterim_silent in H1. split_run H t3 t4 p H3. destruct p as [[[st ra] err] streamed].
  run H. cbn [out_HeadersSent]. apply Forall_cons in Ht as [_ Ht]. apply Forall_cons in Ht as [[Hi Hr] _]. rewrite Hi, orb_true_r.
  split; [done |]. destruct (xc_Result _) as [rs|e]; [| run H3; by tally].
  apply answered_answers in H3 as H4; [| done]. destruct H4 as [_ H4].
  unfold answered in H3. split_run H3 t5 t6 h H5. rewrite early_withheld in H3 by done. run H3.
  destruct (H4 _ _ _ _ eq_refl) as [[Hz _] _]; [done |]. rewrite app_nil_r in Hz |- *. by tally.
Qed.

(** once an informational answer of an upstream has been relayed, a failure
    of that upstream is final: however many alternates are left, nothing else
    is tried, and the client is sent no answer, though it never left. *)
Theorem informational_ends_attempts tk req class s t :
  unsendable (replayable req).1.1 (targetOf tk (sel_Chosen s) class []) = None → Forall fails_early t →
  runs (forwardSelected IntN o tk req class s) t (Some ()) →
  answers t = O ∧ begun t = [up_ID (sel_Chosen s)].
Proof.
  intros Hu Ht H. unfold forwardSelected, attempts in H. destruct (replayable req) as [[req1 reset] replay].
  split_run H t1 t2 tr H1. split_run H1 t3 t4 p H3. destruct p as [out req'].
  destruct (forward_counts _ _ _ _ _ _ _ H3) as [Hb _].
  apply Forall_app in Ht as [Ht _]. apply Forall_app in Ht as [Ht _].
  assert (out_HeadersSent out = true ∧ answers t3 = O) as [Hs Hz].
  { unfold forward in H3. do 3 run_step H3. split_run H3 t5 t6 q H5. destruct q as [out' rest].
    do 3 (apply Forall_cons in Ht as [_ Ht]). apply Forall_app in Ht as [Ht _].
    destruct (Forward_early _ _ _ _ _ _ _ Hu Ht H5) as [Hs Hz].
    run_step H3. split_run H3 t7 t8 y H7. apply recordAttempt_silent in H7. run H3. split; [done |]. by tally. }
  unfold afterAttempt, settled in H1. rewrite Hs, orb_true_r in H1. run H1. run H. rewrite !app_nil_r. by split.
Qed.
End Theorems.
