(* ===== verification/Inflight.v ===== *)
(** * Inflight: the in-flight counts behind the router's attempts

    The statistics calls of an attempt ([Forwarding.forward]) interpreted as
    operations of the book they are made on ([StatsBook]): the two components
    together.  An attempt that returns leaves the book's in-flight counts as
    they were; one whose copy to the client fails midway leaves the upstream's
    one higher for good, since the panic passes over the release. *)
From S2P Require Import Prelude GoFloat GoStrings GoNet GoTime Types Classify Ports StatsBook Prog Http Proxy Forwarding Runs Answers Discipline Attempts.
Open Scope Z_scope.
Open Scope mesh_scope.

(** The book operations of a request's calls, at the time [at_], when k funcs
    were returned by Begin before: a release calls the last one, the attempts
    of a request being one after the other. *)
Fixpoint bookOps (at_ : Time) (k : nat) (t : Trace) : list bookOp :=
  match t with
  | [] => []
  | existT (ABegin id) _ :: t => OpBegin id :: bookOps at_ (S k) t
  | existT (AFinish _) _ :: t => OpFinish (Nat.pred k) :: bookOps at_ k t
  | existT (ARecord id key out) _ :: t => OpRecord at_ id key out :: bookOps at_ k t
  | existT (ABusy id d) _ :: t => OpBusy at_ id d :: bookOps at_ k t
  | _ :: t => bookOps at_ k t
  end.

(** How many funcs a run of operations has been given. *)
Definition begins (ops : list bookOp) : nat :=
  length (List.filter (λ op, match op with OpBegin _ => true | _ => false end) ops).

Definition finishes (k : nat) (op : bookOp) : bool := match op with OpFinish k' => (k' =? k)%nat | _ => false end.

(** ** The funcs of the book *)
Lemma bookStep_funcs w op w' k id :
  bookStep w op = Some w' → finishes k op = false → w.2 !! k = Some (id, false) → w'.2 !! k = Some (id, false).
Proof.
  destruct w as [b fs]. simpl. intros H Hf Hk. destruct op as [now id' key out|id'|k'|now id' d]; simpl in *.
  - destruct (RecordOutcome b now id' key out); simplify_eq/=. done.
  - destruct (Begin b id'); simplify_eq/=. by rewrite lookup_app_l by (by eapply lookup_lt_Some).
  - destruct (fs !! k') as [[id' fired]|] eqn:E; [| by simplify_eq/=].
    destruct (Finish b id' fired) as [[b' fired']|]; simplify_eq/=.
    apply Nat.eqb_neq in Hf. by rewrite list_lookup_insert_ne.
  - destruct (Busy b now id' d); simplify_eq/=. done.
Qed.

Lemma bookRun_funcs ops w w' k id :
  bookRun w ops = Some w' → existsb (finishes k) ops = false → w.2 !! k = Some (id, false) → w'.2 !! k = Some (id, false).
Proof.
  revert w. induction ops as [|op ops IH]; intros w; simpl; [by intros [= ->] |]. intros H [Hf Hfs]%orb_false_iff Hk.
  destruct (bookStep w op) as [w1|] eqn:E; [| done]. by eapply (IH w1); eauto using bookStep_funcs.
Qed.

Lemma bookRun_length ops w w' : bookRun w ops = Some w' → length w'.2 = (length w.2 + begins ops)%nat.
Proof.
  unfold begins. revert w. induction ops as [|op ops IH]; intros w; simpl; [intros [= ->]; lia |]. intros H.
  destruct (bookStep w op) as [w1|] eqn:E; [| done]. simpl in H. rewrite (IH _ H). destruct w as [b fs]. destruct op; simpl in *.
  - destruct (RecordOutcome _ _ _ _ _); by simplify_eq/=.
  - destruct (Begin _ _); simplify_eq/=. rewrite length_app. simpl. lia.
  - destruct (fs !! k) as [[]|]; [| by simplify_eq/=]. destruct (Finish _ _ _) as [[]|]; simplify_eq/=. by rewrite length_insert.
  - destruct (Busy _ _ _ _); by simplify_eq/=.
Qed.

Lemma bookRun_app w ops1 ops2 : bookRun w (ops1 ++ ops2) = (w ← bookRun w ops1; bookRun w ops2).
Proof. revert w. induction ops1 as [|op ops1 IH]; intros w; simpl; [done |]. destruct (bookStep w op); simpl; auto. Qed.

(** ** The operations of one attempt *)
Definition no_stats (a : Act) : Prop := keeps_stats a = false.
Lemma no_stats_ordinary a : ordinary a = true → no_stats a.
Proof. by destruct a. Qed.

Lemma bookOps_quiet at_ k t t' : Forall (λ e : Event, no_stats (projT1 e)) t → bookOps at_ k (t ++ t') = bookOps at_ k t'.
Proof. induction 1 as [|[a r] t Ha _ IH]; [done |]. cbn [app bookOps]. rewrite IH. by destruct a. Qed.

Lemma Forward_no_stats tk u class retry req : acts no_stats (Forward req (targetOf tk u class retry)).
Proof. apply (acts_Forward _ no_stats_ordinary); [apply (acts_target _ no_stats_ordinary) | done]. Qed.

Lemma aborted_ops at_ k tk req u class retry t :
  runs (forward tk req u class retry) t None → bookOps at_ k t = [OpBegin (up_ID u)].
Proof.
  intros H. unfold forward in H. do 3 run_step H. cbn [bookOps].
  apply runs_andThen in H as [(t3 & t4 & [out rest] & -> & H1 & H)|[H1 _]].
  - run_step H. split_run H t5 t6 y H2; [by run H |]. by apply recordAttempt_returns in H2.
  - apply Forward_no_stats in H1. match goal with |- context [bookOps _ _ ?t'] => rewrite <- (app_nil_r t') end.
    by rewrite bookOps_quiet.
Qed.

(** C40: an attempt whose answer is cut off while it is copied to the client (the
    upstream broke off, or the client left) panics past the release of its
    upstream's in-flight count: whatever happens before and after, the
    selector sees that upstream with a request in flight from then on. *)
Theorem aborted_copy_leaks opts ops ops' tk req u class retry t at_ now :
  br_Threshold opts ≠ 0 → 0 < br_Window opts → 0 <= now →
  runs (forward tk req u class retry) t None →
  existsb (finishes (begins ops)) ops' = false →
  let all := ops ++ bookOps at_ (begins ops) t ++ ops' in
  Z.of_nat (length all) < 2 ^ 62 →
  ∃ b fs, bookRun (NewStatsBook opts, []) all = Some (b, fs) ∧
    1 <= st_Inflight (Snapshot b now (up_ID u)).
Proof.
  intros HT HW Hnow H Hf all Hlen. unfold all in *. rewrite (aborted_ops _ _ _ _ _ _ _ _ H) in *.
  destruct (bookRun_new opts (ops ++ [OpBegin (up_ID u)] ++ ops') HT HW Hlen) as ([b fs] & Hrun & Ho & _ & Hid).
  exists b, fs. split; [done |]. destruct (Hid (up_ID u)) as (s & Hg & Ht).
  destruct (Snapshot_spec opts b now _ _ _ s HW Hnow Ho Hg Ht) as (_ & -> & _).
  rewrite bookRun_app in Hrun. destruct (bookRun (NewStatsBook opts, []) ops) as [[b1 fs1]|] eqn:E1; [| done].
  cbn [mbind option_bind app bookRun] in Hrun. destruct (bookStep (b1, fs1) (OpBegin (up_ID u))) as [w2|] eqn:E2; [| done].
  assert (w2.2 !! begins ops = Some (up_ID u, false)) as Hk.
  { simpl in E2. destruct (Begin b1 (up_ID u)); simplify_eq/=. apply bookRun_length in E1. simpl in E1.
    rewrite lookup_app_r, E1, Nat.sub_diag; [done | by rewrite E1]. }
  apply (bookRun_funcs _ _ _ _ _ Hrun Hf) in Hk. unfold inflightOf. simpl in *.
  assert ((up_ID u, false) ∈ unfinished (up_ID u) fs) as Hin.
  { apply list_elem_of_In, filter_In. split; [by eapply list_elem_of_In, list_elem_of_lookup_2 | by rewrite seqb_refl]. }
  destruct (unfinished (up_ID u) fs); [by apply elem_of_nil in Hin | simpl; lia].
Qed.
