(* ===== verification/RouterLaws.v ===== *)
(** * RouterLaws: what holds of every request (internal/app/router.go)

    The statusWriter changes only headers, every request is answered once,
    nothing is asked of an upstream for a request that is refused, and every
    billed request's account is closed. *)
From S2P Require Import Prelude GoStrings Types Classify Eligible Select Ports Limiter Prog Http Proxy Auth Forwarding Serve Router Runs Answers AnswersServe Discipline.
From Stdlib Require Import Ascii.
Open Scope Z_scope.
Open Scope mesh_scope.

(** ** The statusWriter *)

(** What the writer may add or take away: header operations, the meter's
    stop, and the callback it is given. *)
Definition header_only (e : Event) : bool :=
  match e with
  | existT (AWrite (WHead _ | WBody _)) _ => false
  | existT (AWrite _) _ | existT (AResponding _ _ _) _ | existT (AOnHeader _ _) _ => true
  | _ => false
  end.

(** A run without the header operations. *)
Definition substance (t : Trace) : Trace := List.filter (λ e, negb (header_only e)) t.

Lemma substance_app t1 t2 : substance (t1 ++ t2) = substance t1 ++ substance t2.
Proof. apply List.filter_app. Qed.
Lemma substance_cons e t : substance (e :: t) = (if header_only e then [] else [e]) ++ substance t.
Proof. unfold substance. cbn. by destruct (header_only e). Qed.

(** A step that only touches headers and returns. *)
Definition header_step {A} (m : M A) : Prop := always m (λ t x, substance t = [] ∧ isSome x = true).

Lemma header_bind {A B} (m : M A) (f : A → M B) : header_step m → (∀ a, header_step (f a)) → header_step (andThen m f).
Proof.
  intros Hm Hf t x H. split_run H t1 t2 a H1; apply Hm in H1 as [Ht Hx]; [| done].
  apply Hf in H as [Ht' Hx']. by rewrite substance_app, Ht, Ht'.
Qed.

Lemma header_ret {A} (a : A) : header_step (ret a).
Proof. intros t x H. by run H. Qed.

Lemma header_pass s w : (∀ r, header_only (existT (AWrite w) r) = true) → header_step (pass s w).
Proof. intros Hw t x H. unfold pass in H. run H. by rewrite substance_cons, Hw. Qed.

Lemma header_begin s code : header_step (begin s code).
Proof.
  unfold begin. apply header_bind.
  - destruct (sw_onHeader _) as [tk|]; [| apply header_ret]. intros t x H. run_step H. rewrite substance_cons. simpl.
    revert t0 x H. generalize (s <| sw_status := code |>) as s'. induction r as [|[k v] h IH]; intros s' t x H; cbn [passAll] in H; [by run H |].
    revert t x H. apply header_bind; [by apply header_pass |]. intros s'' t x. apply IH.
  - intros s'. unfold cors. apply header_bind; [destruct (elem _ _); [apply header_ret | by apply header_pass] |].
    intros s''. destruct (sw_origin s''); [| apply header_ret].
    apply header_bind; [by apply header_pass |]. intros s3. by apply header_pass.
Qed.

Lemma swWrite_substance s w t x :
  runs (swWrite s w) t x → isSome x = true ∧ ∃ r, substance t = substance [existT (AWrite w) r].
Proof.
  intros H.
  assert (∀ (m : M statusWriter), header_step m → ∀ t, runs (let* s := m in pass s w) t x →
            isSome x = true ∧ ∃ r, substance t = substance [existT (AWrite w) r]) as Hgen.
  { intros m Hm t' H'. split_run H' t1 t2 s' H1; apply Hm in H1 as [Ht Hx]; [| done].
    unfold pass in H'. run H'. split; [done |]. exists r. by rewrite substance_app, Ht. }
  destruct w; cbn [swWrite] in H;
    try (unfold pass in H; run H; split; [done |]; by exists r);
    (eapply Hgen; [| exact H]); destruct (_ : bool); first [apply header_begin | apply header_ret].
Qed.

(** Writing through the statusWriter leaves the substance of a run alone. *)
Lemma withStatus_substance {A} s (m : M A) t x :
  runs (withStatus s m) t x →
  ∃ t0 y, runs m t0 y ∧ substance t = substance t0 ∧ fst <$> x = y.
Proof.
  revert s t. induction m as [a| |a k IH]; intros s t H; cbn [withStatus] in H.
  - run H. by exists [], (Some a).
  - run H. by exists [], None.
  - assert (∀ t1 z, runs (swCall s a) t1 z → ∃ r s', z = Some (r, s') ∧ substance t1 = substance [existT a r]) as Hc.
    { intros t1 z Hr. destruct a; cbn [swCall] in Hr; try (run Hr; by eexists _, _).
      split_run Hr u1 u2 s' Hw; apply swWrite_substance in Hw as (Hx & [] & Hsub); [| done].
      run Hr. rewrite app_nil_r. by eexists _, _. }
    split_run H t1 t2 p H1; apply Hc in H1 as (r & s' & E & Hsub); [| done]. injection E as ->.
    apply IH in H as (t0 & y & H & Hs & Hy). exists (existT a r :: t0), y. split; [by exists r, t0 |].
    split; [| done]. by rewrite substance_app, Hsub, Hs, <- substance_app.
Qed.

Lemma answers_substance t : answers (substance t) = answers t.
Proof.
  induction t as [|e t IH]; [done |]. rewrite substance_cons, answers_app, IH, answers_cons.
  rewrite <- (Nat.add_0_r (if answer_start e then _ else _)). change O with (answers []). rewrite <- answers_cons.
  destruct e as [[] r]; try done. by destruct w.
Qed.

Lemma excused_substance t : excused (substance t) = excused t.
Proof.
  induction t as [|e t IH]; [done |]. rewrite substance_cons, excused_app, IH, excused_cons.
  destruct e as [[] r]; try done. all: try (by destruct w). all: cbn [header_only]; unfold excused; simpl; by rewrite orb_false_r.
Qed.

(** ** One request *)
Section Laws.
Context (IntN : Z → Z → Z * Z) (codec : BodyCodec) (sha256 : string → string) (o : RouterOptions) (metrics : bool).
Abbreviation ServeHTTP := (ServeHTTP IntN codec sha256 o metrics).
Abbreviation serve := (serve IntN codec sha256 o metrics).
Abbreviation handle := (handle IntN codec sha256 o metrics).

(** A run of ServeHTTP is one of [handle], but for header operations, between
    the two steps of the in-flight counter. *)
Lemma ServeHTTP_runs req t x :
  runs (ServeHTTP req) t x →
  ∃ t0 y r1 r2, runs (handle req) t0 y ∧ isSome x = isSome y ∧
    substance t = existT (AInflight 1) r1 :: substance t0 ++ [existT (AInflight (-1)) r2].
Proof.
  intros H. unfold ServeHTTP in H. run_step H. apply runs_finally in H as (t1 & t2 & y & z & -> & H1 & H2 & ->).
  run H2. split_run H1 u1 u2 p Hw; apply withStatus_substance in Hw as (t0 & y0 & Hm & Hs & Hy).
  - destruct p as [[] s]. run H1. simpl in Hy. subst y0. exists t0, (Some ()), r, r0. split_and!; [done | done |].
    by rewrite app_nil_r, substance_cons, substance_app, Hs.
  - simpl in Hy. subst y0. exists t0, None, r, r0. split_and!; [done | done |].
    by rewrite substance_cons, substance_app, Hs.
Qed.

(** The request as it is served, and its class once its body refined it. *)
Definition classified (req : Request) : option (Request * RequestClass) :=
  class ← Classify (rq_Method req) (rq_Path req) (rq_RawQuery req);
  if rc_Simulate class then refineSimulate codec req class else Some (req, class).

Lemma handle_runs req t x :
  runs (handle req) t x →
  match classified req with
  | Some (req', class) => runs (serve req' class) t x
  | None => runs crash t x ∨ runs (writeMessage 400 "algod-mesh: cannot read request body") t x
  end.
Proof.
  unfold handle, classified. destruct (Classify _ _ _) as [class|]; simpl; [| by left].
  destruct (rc_Simulate class); [| done]. destruct (refineSimulate codec req class) as [[req' class']|]; [done | by right].
Qed.

Lemma classified_final req req' class : classified req = Some (req', class) → ahead_final class.
Proof.
  unfold classified. destruct (Classify _ _ _) as [c|] eqn:E; simpl; [| done].
  apply Classify_line_wf in E as [W _]. pose proof (wf_final c W) as Hf. destruct (rc_Simulate c); [| by intros [= <- <-]].
  unfold refineSimulate. assert (∀ b, ahead_final (ApplySimulate c b)) as Ha.
  { intros b. pose proof (ApplySimulate_frame c b) as F. unfold line_fields in F. injection F as Fah _ _ _ _ _ _ _ _ _ _ _ _.
    unfold ahead_final. by rewrite Fah. }
  repeat case_match; intros [=]; subst; auto.
Qed.

(** C5: every request is answered at most once, whatever its upstreams do and
    however it is routed; and when it has been served without a panic it has
    been answered, unless the client left or what came in its place was an
    informational status. *)
Theorem request_answered_once req t x :
  runs (ServeHTTP req) t x →
  (answers t <= 1)%nat ∧ (isSome x = true → answers t = 1%nat ∨ excused t = true).
Proof.
  intros H. apply ServeHTTP_runs in H as (t0 & y & r1 & r2 & H & Hx & Hs). rewrite Hx.
  rewrite <- answers_substance, <- excused_substance, Hs. measure. rewrite answers_substance, excused_substance.
  apply handle_runs in H. destruct (classified req) as [[req' class]|] eqn:E.
  - eapply serve_answers; [| exact H]. by eapply classified_final.
  - destruct H as [H|H]; [by run H; split; [cbn; lia |] | by apply writeMessage_answers in H].
Qed.

(** ** Refused requests *)

(** The calls of a run, header operations aside. *)
Definition calls (t : Trace) : list Act := projT1 <$> substance t.

(** C8: a request that is not authorized reaches nothing: neither the
    directory nor the limiter nor any upstream is asked anything, the client
    is sent the refusal's status and message, and that is all the run does.
    A preflight is answered 204 before authorization, and as locally. *)
Theorem refused_reaches_nothing req req' class code msg t x :
  classified req = Some (req', class) →
  authorize sha256 (authOptions o) req' class = Refused code msg →
  runs (ServeHTTP req) t x →
  calls t = if rq_Method req' =s "OPTIONS" then [AInflight 1; AWrite (WHead 204); AInflight (-1)]
            else [AInflight 1; AWrite (WHead code); AWrite (WBody (PMessage msg)); AInflight (-1)].
Proof.
  intros Hc Ha H. apply ServeHTTP_runs in H as (t0 & y & r1 & r2 & H & _ & Hs).
  apply handle_runs in H. rewrite Hc in H. unfold Router.serve in H. unfold calls. rewrite Hs.
  destruct (rq_Method req' =s "OPTIONS").
  - unfold preflight in H. run H; done.
  - rewrite Ha in H. unfold writeMessage, writeJSON in H. by run H.
Qed.

(** ** Billing *)
Definition ticket_in (e : Event) : option nat :=
  match e with existT (AAdmit _ _ _) (Ok tk) => Some tk | _ => None end.
Definition ticket_out (e : Event) : option nat :=
  match e with existT (ADone tk) _ => Some tk | _ => None end.

Definition admitted (t : Trace) : list nat := omap ticket_in t.
Definition closed (t : Trace) : list nat := omap ticket_out t.

Lemma admitted_app t1 t2 : admitted (t1 ++ t2) = admitted t1 ++ admitted t2.
Proof. apply omap_app. Qed.
Lemma closed_app t1 t2 : closed (t1 ++ t2) = closed t1 ++ closed t2.
Proof. apply omap_app. Qed.
Lemma admitted_cons e t : admitted (e :: t) = match ticket_in e with Some k => [k] | None => [] end ++ admitted t.
Proof. unfold admitted. cbn. by destruct (ticket_in e). Qed.
Lemma closed_cons e t : closed (e :: t) = match ticket_out e with Some k => [k] | None => [] end ++ closed t.
Proof. unfold closed. cbn. by destruct (ticket_out e). Qed.

(** Calls that go beyond the router for the request: to upstreams, to the
    externals to check them, or to wait on the mesh or the local node. *)
Definition contacts (a : Act) : bool :=
  match a with
  | AExchange _ _ _ _ | AGet _ _ _ _ | AFanOut _ | ACheckExternals | AWaitHeartbeat _ | AWaitLocal _ | AStatusAt _ => true
  | _ => false
  end.

(** The check of the externals a health probe may cause. *)
Definition checks (a : Act) : Prop := contacts a = true → a = ACheckExternals.

Definition unbilled (a : Act) : bool :=
  match a with AAdmit _ _ _ | ADone _ => false | _ => true end.

Lemma admitted_substance t : admitted (substance t) = admitted t ∧ closed (substance t) = closed t.
Proof.
  induction t as [|e t [IH1 IH2]]; [done |]. rewrite substance_cons, admitted_app, closed_app, IH1, IH2.
  destruct e as [[] r]; try done; [by destruct r | by destruct w].
Qed.

Lemma admitted_none t : Forall (λ e : Event, unbilled (projT1 e) = true) t → admitted t = [] ∧ closed t = [].
Proof.
  induction 1 as [|[a r] t Ha _ [IH1 IH2]]; [done |]. rewrite admitted_cons, closed_cons, IH1, IH2. by destruct a.
Qed.

Lemma dispatch_unbilled tk req class cands best t x :
  runs (dispatch IntN codec o tk req class cands best) t x → admitted t = [] ∧ closed t = [].
Proof.
  intros H. apply admitted_none. revert H. apply (acts_dispatch (mayUseExternals class) (λ a, unbilled a = true)); [| done].
  split; [intros []; done | intros []; done | done | done | done].
Qed.

(** The calls of the handlers that neither bill nor contact. *)
Definition aloof (a : Act) : Prop := unbilled a = true ∧ contacts a = false.
Local Hint Extern 1 (aloof _) => (split; reflexivity) : acts.

Lemma aloof_putHeaders h : acts aloof (putHeaders h).
Proof. induction h as [|[k v] h IH]; cbn [putHeaders]; acts_go. Qed.
Local Hint Resolve aloof_putHeaders : acts.
Lemma aloof_writeDenial d : acts aloof (writeDenial d).
Proof. unfold writeDenial. acts_go. Qed.
Lemma unbilled_serveAgent req : acts (λ a, unbilled a = true ∧ checks a) (serveAgent o metrics req).
Proof. unfold serveAgent, serveHealth, checks. acts_go; done. Qed.
Lemma aloof_serveAgent req : trim_suffix "/" (rq_Path req) ≠ "/mesh/health"%string → acts aloof (serveAgent o metrics req).
Proof. intros Hp%String.eqb_neq. unfold serveAgent. acts_go. congruence. Qed.
Lemma aloof_preflight req : acts aloof (preflight req).
Proof. unfold preflight. acts_go. Qed.
Lemma aloof_message code msg : acts aloof (writeMessage code msg).
Proof. acts_go. Qed.

(** A stretch of a run with no billing and no contact in it. *)
Lemma aloof_run t : Forall (λ e : Event, aloof (projT1 e)) t →
  admitted t = [] ∧ closed t = [] ∧ ¬ Exists (λ e : Event, contacts (projT1 e) = true) t.
Proof.
  intros Ht. split_and!; try (apply admitted_none; eapply Forall_impl; [exact Ht |]; by intros e []).
  rewrite Exists_exists. intros (e & Hin & He). rewrite Forall_forall in Ht. destruct (Ht e Hin). congruence.
Qed.

(** What serve does about billing. *)
Definition billed_well (req : Request) (class : RequestClass) (t : Trace) : Prop :=
  closed t = admitted t ∧ (length (admitted t) <= 1)%nat ∧
  (Exists (λ e : Event, contacts (projT1 e) = true) t →
   ∃ id, authorize sha256 (authOptions o) req class = Allowed id ∧
     if rc_Agent class
     then trim_suffix "/" (rq_Path req) = "/mesh/health"%string ∧ Forall (λ e : Event, checks (projT1 e)) t ∧ admitted t = []
     else id_Exempt id = true ∨ admitted t ≠ []).

Lemma aloof_billed req class t : Forall (λ e : Event, aloof (projT1 e)) t → billed_well req class t.
Proof. intros (H1 & H2 & H3)%aloof_run. unfold billed_well. rewrite H1, H2. split_and!; [done | simpl; lia | done]. Qed.

Lemma serve_billed req class t x : runs (serve req class) t x → billed_well req class t.
Proof.
  intros H. unfold Router.serve in H.
  destruct (rq_Method req =s "OPTIONS"); [apply aloof_billed; by apply aloof_preflight in H |].
  destruct (authorize _ _ req class) as [id|code msg] eqn:Ea; [| apply aloof_billed; by apply aloof_message in H].
  destruct (rc_Agent class) eqn:Eg.
  { destruct (decide (trim_suffix "/" (rq_Path req) = "/mesh/health"%string)) as [Ep|Ep];
      [| apply aloof_billed; by eapply aloof_serveAgent].
    apply unbilled_serveAgent in H. destruct (admitted_none t) as [H1 H2]; [by eapply Forall_impl; [exact H |]; intros e [] |].
    unfold billed_well. rewrite H1, H2, Eg. split_and!; [done | simpl; lia |]. intros _. exists id. split_and!; [done | done | | done].
    eapply Forall_impl; [exact H |]. by intros e []. }
  run_step H. destruct r as [cands best]. destruct (id_Exempt id) eqn:Ee.
  - apply dispatch_unbilled in H as [H1 H2]. unfold billed_well.
    assert (admitted (existT ASnapshot (cands, best) :: t0) = [] ∧ closed (existT ASnapshot (cands, best) :: t0) = []) as [-> ->] by done.
    rewrite Eg. split_and!; [done | simpl; lia |]. intros _. exists id. split; [done | by left].
  - run_step H. destruct r as [tk|d].
    + apply runs_finally in H as (t1 & t2 & y & z & -> & H1 & H2 & ->). run H2. run_step H1.
      apply dispatch_unbilled in H1 as [H1 H2]. unfold billed_well.
      set (tt := existT ASnapshot (cands, best) :: _).
      assert (admitted tt = [tk] ∧ closed tt = [tk]) as [-> ->].
      { unfold tt. cbn [app]. by rewrite ?admitted_cons, ?closed_cons, ?admitted_app, ?closed_app, ?admitted_cons, ?closed_cons, H1, H2. }
      rewrite Eg. split_and!; [done | simpl; lia |]. intros _. exists id. split; [done | by right].
    + apply aloof_writeDenial, aloof_run in H as (H1 & H2 & H3). unfold billed_well.
      rewrite !admitted_cons, !closed_cons, H1, H2. split_and!; [done | simpl; lia |].
      intros He. destruct H3. apply Exists_cons in He as [He|He]; [done |]. by apply Exists_cons in He as [He|He].
Qed.

(** C7: the account of a billed request is always closed: a ticket the limiter
    gave out is done exactly once, also when the handler panics, and no other;
    and a request makes the agent turn to upstreams, externals or the mesh only
    if it was authorized and is exempt or admitted, or, of the requests for the
    agent itself, only a /mesh/health and then only to check the externals. *)
Theorem billing_closed req req' class t x :
  classified req = Some (req', class) →
  runs (ServeHTTP req) t x →
  closed t = admitted t ∧ (length (admitted t) <= 1)%nat ∧
  (Exists (λ e : Event, contacts (projT1 e) = true) t →
   ∃ id, authorize sha256 (authOptions o) req' class = Allowed id ∧
     if rc_Agent class
     then trim_suffix "/" (rq_Path req') = "/mesh/health"%string ∧
       Forall (λ e : Event, contacts (projT1 e) = true → projT1 e = ACheckExternals) t ∧ admitted t = []
     else id_Exempt id = true ∨ admitted t ≠ []).
Proof.
  intros Hc H. apply ServeHTTP_runs in H as (t0 & y & r1 & r2 & H & _ & Hs).
  apply handle_runs in H. rewrite Hc in H. apply serve_billed in H as (H1 & H2 & H3).
  destruct (admitted_substance t) as [<- <-]. rewrite Hs.
  destruct (admitted_substance t0) as [E1 E2].
  assert (admitted (substance t) = admitted t0 ∧ closed (substance t) = closed t0) as [Ea Ed].
  { rewrite Hs. by rewrite admitted_cons, closed_cons, admitted_app, closed_app, E1, E2, !app_nil_r. }
  rewrite <- Hs, Ea, Ed. split_and!; [done | done |]. intros He.
  assert (∀ e : Event, e ∈ t → contacts (projT1 e) = true → e ∈ t0) as Hup.
  { intros [a r] Hin Ha. assert (existT a r ∈ substance t) as Hin'
      by (apply list_elem_of_In, filter_In; split; [by apply list_elem_of_In | by destruct a]).
    rewrite Hs in Hin'. apply elem_of_cons in Hin' as [E|Hin']; [by simplify_eq |].
    apply elem_of_app in Hin' as [Hin'|Hin']; [| apply list_elem_of_singleton in Hin'; by simplify_eq].
    apply list_elem_of_In, filter_In in Hin' as [Hin' _]. by apply list_elem_of_In. }
  apply Exists_exists in He as (e & Hin & Ha). destruct H3 as (id & Hid & Hcase).
  { apply Exists_exists. exists e. split; [by apply Hup | done]. }
  exists id. split; [done |]. destruct (rc_Agent class); [| done]. destruct Hcase as (Hp & Hf & Hn). split_and!; [done | | done].
  apply Forall_forall. intros e' Hin' Ha'. rewrite Forall_forall in Hf. exact (Hf e' (Hup e' Hin' Ha') Ha').
Qed.
End Laws.
