(* ===== verification/FanLaws.v ===== *)
(** * FanLaws: which of several answers the client gets
    (handleBroadcast, handlePending and the helpers of fanOut, internal/app/router.go
    and internal/app/pending.go)

    The results of a fan-out come in any order; what is relayed is the best
    of those that came, whole, and an external is only tried when no node
    answered.  What a broadcast is sent to is stated apart from the code's own
    functions ([broadcast_to]). *)
From S2P Require Import Prelude GoFloat GoStrings GoTime GoNet Types Classify Eligible Select Endpoint Ports Limiter Prog Http Proxy Auth Forwarding Serve Router Runs Answers AnswersServe Discipline Attempts.
From stdpp Require Import pretty.
From Stdlib Require Import Ascii.
Open Scope Z_scope.
Open Scope mesh_scope.

(** ** Lists of upstreams *)

(** the order a pending transaction is looked up in is the selection's,
    sorted by round: a permutation of it, highest round first, and upstreams
    at one round stay in the order they had. *)
Theorem sortByRoundDesc_sorts us :
  sortByRoundDesc us ≡ₚ us ∧
  StronglySorted (λ a b, up_LastRound b <= up_LastRound a) (sortByRoundDesc us) ∧
  ∀ r, List.filter (λ u, up_LastRound u =? r) (sortByRoundDesc us) = List.filter (λ u, up_LastRound u =? r) us.
Proof.
  split_and!.
  - apply insertion_sort_perm.
  - assert (StrictWeak (λ _, True) roundAbove) as Hw.
    { unfold roundAbove. split; [intros a b | intros a b c]; intros; lia. }
    assert (StronglySorted (sort_le roundAbove) (sortByRoundDesc us)) as Hs
      by (apply (insertion_sort_sorted roundAbove _ Hw); by apply Forall_true).
    induction Hs as [|u l Hs IH Hl]; constructor; [done |]. eapply Forall_impl; [exact Hl |].
    unfold sort_le, roundAbove. intros a H. lia.
  - intros r. apply insertion_sort_stable. unfold roundAbove. intros. lia.
Qed.

(** The targets of a broadcast: one per address, the first selected of each,
    and none that the selection does not hold. *)
Lemma dedupe_spec seen us :
  NoDup (up_BaseURL <$> dedupe seen us) ∧
  (∀ u, u ∈ dedupe seen us → u ∈ us ∧ up_BaseURL u ∉ seen) ∧
  (∀ u, u ∈ us → up_BaseURL u ∉ seen → up_BaseURL u ∈ up_BaseURL <$> dedupe seen us).
Proof.
  revert seen. induction us as [|u us IH]; intros seen; cbn [dedupe].
  - split_and!; [constructor | by intros ? ?%elem_of_nil | by intros ? ?%elem_of_nil].
  - destruct (bool_decide (up_BaseURL u ∈ seen)) eqn:E.
    + apply bool_decide_eq_true in E. destruct (IH seen) as (H1 & H2 & H3). split_and!; [done | |].
      * intros v Hv. destruct (H2 v Hv). split; [by right | done].
      * intros v [->|Hv]%elem_of_cons Hs; [done | by apply H3].
    + apply bool_decide_eq_false in E. destruct (IH ({[up_BaseURL u]} ∪ seen)) as (H1 & H2 & H3). split_and!.
      * rewrite fmap_cons. constructor; [| done]. intros Hin. apply list_elem_of_fmap in Hin as (v & Ev & Hv).
        destruct (H2 v Hv) as [_ Hn]. apply Hn. set_solver.
      * intros v [->|Hv]%elem_of_cons; [split; [by left | done] |]. destruct (H2 v Hv). split; [by right | set_solver].
      * intros v [->|Hv]%elem_of_cons Hs; rewrite fmap_cons; [by left |].
        destruct (decide (up_BaseURL v = up_BaseURL u)) as [->|]; [by left | right]. apply H3; set_solver.
Qed.

Lemma dedupe_sublist seen us : dedupe seen us `sublist_of` us.
Proof.
  revert seen. induction us as [|u us IH]; intros seen; cbn [dedupe]; [done |].
  destruct (bool_decide _); [by apply sublist_cons | by apply sublist_skip].
Qed.

(** Who a broadcast to the upstreams us goes to: some of us, in their order,
    an address once; when there are nodes of the mesh among us every one of
    them (by address) and no external, and else every external. *)
Record broadcast_to (us targets : list Upstream) : Prop := {
  bt_sub : targets `sublist_of` us;
  bt_once : NoDup (up_BaseURL <$> targets);
  bt_mesh : (∃ u, u ∈ us ∧ up_Kind u ≠ KindExternal) →
    (∀ u, u ∈ us → up_Kind u ≠ KindExternal → up_BaseURL u ∈ up_BaseURL <$> targets) ∧
    (∀ u, u ∈ targets → up_Kind u ≠ KindExternal);
  bt_external : (∀ u, u ∈ us → up_Kind u = KindExternal) → ∀ u, u ∈ us → up_BaseURL u ∈ up_BaseURL <$> targets
}.

Lemma isExternal_spec u : negb (isExternal u) = true ↔ up_Kind u ≠ KindExternal.
Proof. unfold isExternal. by destruct (up_Kind u). Qed.

Lemma targets_broadcast us : broadcast_to us (dedupeByURL (meshFirst us)).
Proof.
  destruct (dedupe_spec ∅ (meshFirst us)) as (H1 & H2 & H3).
  assert (Hin : ∀ u, u ∈ List.filter (λ u, negb (isExternal u)) us ↔ u ∈ us ∧ up_Kind u ≠ KindExternal).
  { intros u. by rewrite list_elem_of_In, filter_In, isExternal_spec, <- list_elem_of_In. }
  assert (Hm : meshFirst us = List.filter (λ u, negb (isExternal u)) us ∨
    meshFirst us = us ∧ List.filter (λ u, negb (isExternal u)) us = []).
  { unfold meshFirst. destruct (List.filter _ us); [by right | by left]. }
  split.
  - etrans; [apply dedupe_sublist |]. destruct Hm as [->|[-> _]]; [| done].
    clear. induction us as [|u us IH]; cbn; [done |]. destruct (negb _); [by apply sublist_skip | by apply sublist_cons].
  - done.
  - intros (v & Hv). apply Hin in Hv. destruct Hm as [Hm|[_ Hm]]; [| by rewrite Hm in Hv; apply elem_of_nil in Hv].
    unfold dedupeByURL. rewrite Hm in *. split.
    + intros u Hu He. apply H3; [by apply Hin | set_solver].
    + intros u Hu. apply H2 in Hu as [Hu _]. by apply Hin in Hu as [_ ?].
  - intros Ha u Hu. destruct Hm as [Hm|[Hm _]]; unfold dedupeByURL; rewrite Hm in *.
    + assert (List.filter (λ u, negb (isExternal u)) us = []) as E.
      { destruct (List.filter _ us) as [|w ws] eqn:E; [done |]. assert (w ∈ w :: ws) as Hw by left.
        apply Hin in Hw as [Hw Hn]. by destruct (Hn (Ha w Hw)). }
      assert (meshFirst us = us) as Hus by (unfold meshFirst; by rewrite E). rewrite Hus in Hm. by rewrite Hm, E in Hu; apply elem_of_nil in Hu.
    + apply H3; [done | set_solver].
Qed.

Lemma targets_nonempty u us : dedupeByURL (meshFirst (u :: us)) ≠ [].
Proof.
  assert (∃ v, v ∈ meshFirst (u :: us)) as [v Hv].
  { unfold meshFirst. destruct (List.filter _ _) as [|v vs]; [exists u | exists v]; by left. }
  unfold dedupeByURL. intros E. destruct (dedupe_spec ∅ (meshFirst (u :: us))) as (_ & _ & H).
  rewrite E in H. specialize (H v Hv). apply (list_elem_of_fmap up_BaseURL [] (up_BaseURL v)) in H as (? & _ & H); [by apply elem_of_nil in H | set_solver].
Qed.

(** ** What a run shows *)

(** The statuses of the answers started. *)
Definition code_of (e : Event) : option Z :=
  match e with existT (AWrite (WHead c)) _ => if 200 <=? c then Some c else None | _ => None end.
Definition codes (t : Trace) : list Z := omap code_of t.

(** The results a fan-out's handler received, in the order they came. *)
Definition received_in (e : Event) : option fanResult :=
  match e with existT ARecv (_, r) => Some r | existT (ASelect _) (GotResult _ r) => Some r | _ => None end.
Definition received (t : Trace) : list fanResult := omap received_in t.

(** What is written to the client, in order. *)
Definition written_in (e : Event) : option WriteOp := match e with existT (AWrite w) _ => Some w | _ => None end.
Definition writes (t : Trace) : list WriteOp := omap written_in t.

(** The fan-outs started. *)
Definition fanned_in (e : Event) : option (list Upstream) := match e with existT (AFanOut us) _ => Some us | _ => None end.
Definition fanned (t : Trace) : list (list Upstream) := omap fanned_in t.

(** The transactions pinned, and to whom. *)
Definition pin_in (e : Event) : option (string * string) :=
  match e with existT (ARemember txid id) _ => Some (txid, id) | _ => None end.
Definition pins (t : Trace) : list (string * string) := omap pin_in t.

Lemma codes_app t1 t2 : codes (t1 ++ t2) = codes t1 ++ codes t2.
Proof. apply omap_app. Qed.
Lemma received_app t1 t2 : received (t1 ++ t2) = received t1 ++ received t2.
Proof. apply omap_app. Qed.
Lemma pins_app t1 t2 : pins (t1 ++ t2) = pins t1 ++ pins t2.
Proof. apply omap_app. Qed.
Lemma writes_app t1 t2 : writes (t1 ++ t2) = writes t1 ++ writes t2.
Proof. apply omap_app. Qed.
Lemma fanned_app t1 t2 : fanned (t1 ++ t2) = fanned t1 ++ fanned t2.
Proof. apply omap_app. Qed.

Lemma codes_cons e t : codes (e :: t) = match code_of e with Some c => [c] | None => [] end ++ codes t.
Proof. unfold codes. cbn. by destruct (code_of e). Qed.
Lemma received_cons e t : received (e :: t) = match received_in e with Some c => [c] | None => [] end ++ received t.
Proof. unfold received. cbn. by destruct (received_in e). Qed.
Lemma pins_cons e t : pins (e :: t) = match pin_in e with Some c => [c] | None => [] end ++ pins t.
Proof. unfold pins. cbn. by destruct (pin_in e). Qed.
Lemma writes_cons e t : writes (e :: t) = match written_in e with Some c => [c] | None => [] end ++ writes t.
Proof. unfold writes. cbn. by destruct (written_in e). Qed.
Lemma fanned_cons e t : fanned (e :: t) = match fanned_in e with Some c => [c] | None => [] end ++ fanned t.
Proof. unfold fanned. cbn. by destruct (fanned_in e). Qed.

(** What a concrete trace shows. *)
Ltac watch :=
  repeat first [rewrite codes_app | rewrite codes_cons | rewrite received_app | rewrite received_cons
               | rewrite pins_app | rewrite pins_cons | rewrite begun_app | rewrite begun_cons
               | rewrite writes_app | rewrite writes_cons | rewrite fanned_app | rewrite fanned_cons];
  cbn [code_of received_in pin_in begun_by written_in fanned_in app].

Lemma codes_silent t : answers t = O → codes t = [].
Proof.
  induction t as [|e t IH]; [done |]. rewrite answers_cons, codes_cons. intros H. rewrite IH by lia. destruct e as [[] r]; try done. destruct w; try done.
  simpl in *. by destruct (200 <=? code).
Qed.

(** A stretch in which nothing is received, pinned, written or attempted. *)
Definition unmoved (a : Act) : Prop :=
  match a with
  | AWrite _ | ARecv | ASelect _ | ARemember _ _ | ABegin _ | AFinish _ | AFanOut _ => False
  | _ => True
  end.

(** What a part that only writes, or does not even that, shows. *)
Record only_writes (t : Trace) (ws : list WriteOp) : Prop := {
  ow_writes : writes t = ws;
  ow_received : received t = [];
  ow_pins : pins t = [];
  ow_begun : begun t = [];
  ow_fanned : fanned t = []
}.

Lemma only_writes_nil : only_writes [] [].
Proof. done. Qed.
Lemma only_writes_cons w r t ws : only_writes t ws → only_writes (existT (AWrite w) r :: t) (w :: ws).
Proof. intros [A1 A2 A3 A4 A5]. split; watch; by rewrite ?A1, ?A2, ?A3, ?A4, ?A5. Qed.
Lemma only_writes_app t1 t2 ws1 ws2 : only_writes t1 ws1 → only_writes t2 ws2 → only_writes (t1 ++ t2) (ws1 ++ ws2).
Proof.
  intros [A1 A2 A3 A4 A5] [B1 B2 B3 B4 B5].
  split; watch; by rewrite ?A1, ?A2, ?A3, ?A4, ?A5, ?B1, ?B2, ?B3, ?B4, ?B5.
Qed.

Lemma unmoved_run t : Forall (λ e : Event, unmoved (projT1 e)) t → only_writes t [].
Proof.
  induction 1 as [|[a r] t Ha _ [H1 H2 H3 H4 H5]]; [done |]. split; watch; rewrite ?H1, ?H2, ?H3, ?H4, ?H5; by destruct a.
Qed.

(** The statuses the writes start. *)
Definition started (ws : list WriteOp) : list Z :=
  omap (λ w, match w with WHead c => if 200 <=? c then Some c else None | _ => None end) ws.
Lemma codes_writes t : codes t = started (writes t).
Proof.
  unfold codes, started, writes. induction t as [|[a r] t IH]; [done |]. cbn. destruct a; cbn; [.. |]; try done.
  destruct w; cbn; [done.. | | done]. destruct (_ <=? _); cbn; congruence.
Qed.

(** What a handler that writes a buffered answer starts. *)
Definition final (c : Z) : list Z := if 200 <=? c then [c] else [].

(** *** One node's answer, relayed
    The status and the body are the node's; its headers are, but for the ones
    that hold for one connection, and the mesh's own two name it. *)
Definition oneHop : list string :=
  ["Connection"; "Keep-Alive"; "Transfer-Encoding"; "Content-Length"; "Trailer"; "Upgrade"; "X-Algod-Effort"]%string.
Definition header_write (w : WriteOp) : bool := match w with WHead _ | WBody _ => false | _ => true end.

Definition relays (r : fanResult) (ws : list WriteOp) : Prop :=
  ∃ hs rs, fan_resp r = Some rs ∧ ws = hs ++ [WHead (rs_StatusCode rs); WBody (PBytes (fan_body r))] ∧
    Forall (λ w, header_write w = true) hs ∧
    ∀ h0, let h := foldl headerAfter h0 hs in
      hvalues h "X-Algod-Mesh-Upstream" = [up_ID (fan_u r)] ∧ hvalues h "X-Algod-Mesh-Tier" = [pretty (up_Tier (fan_u r))] ∧
      ∀ k, k ∉ ["X-Algod-Mesh-Upstream"; "X-Algod-Mesh-Tier"]%string →
        h !! k = if decide (k ∈ oneHop) then h0 !! k
                 else match rs_Header rs !! k with Some vs => Some vs | None => h0 !! k end.

Definition put (kv : string * list string) : WriteOp := WPut kv.1 kv.2.

Lemma putAll_runs l t : runs (putAll l) t (Some ()) → only_writes t (put <$> l).
Proof.
  revert t. induction l as [|[k vs] l IH]; intros t H; cbn [putAll] in H; [by run H |].
  run_step H. destruct r. apply only_writes_cons. by apply IH.
Qed.

Lemma puts_lookup l h0 k :
  NoDup l.*1 →
  foldl headerAfter h0 (put <$> l) !! k = match (list_to_map l : Header) !! k with Some vs => Some vs | None => h0 !! k end.
Proof.
  revert h0. induction l as [|[k' vs] l IH]; intros h0 Hn; [done |]. apply NoDup_cons in Hn as [Hk Hn].
  cbn [fmap list_fmap foldl put headerAfter fst snd list_to_map]. unfold put in IH. rewrite IH by done. cbn [list_to_map foldr fst snd].
  destruct (decide (k = k')) as [->|Hd].
  - rewrite !lookup_insert_eq. destruct ((list_to_map l : Header) !! k') eqn:E; [| done].
    exfalso. apply Hk. apply list_elem_of_fmap. eexists (_, _). split; [| by apply elem_of_list_to_map_2 in E]. done.
  - rewrite !(lookup_insert_ne _ k' k) by done. done.
Qed.

Lemma elem_oneHop k : elem k hopHeaders = false ↔ k ∉ oneHop.
Proof. rewrite <- not_true_iff_false, elem_In. done. Qed.

Lemma writeFan_writes r t : runs (writeFan r) t (Some ()) → ∃ ws, only_writes t ws ∧ relays r ws.
Proof.
  intros H. unfold writeFan in H. destruct (fan_resp r) as [rs|] eqn:Er; [| by run H].
  split_run H t1 t2 y H1. destruct y. apply putAll_runs in H1. run H.
  eexists. split; [eapply only_writes_app; [exact H1 |]; repeat apply only_writes_cons; apply only_writes_nil |].
  set (l := map_to_list (endToEnd (rs_Header rs))).
  exists ((put <$> l) ++ [WSet "X-Algod-Mesh-Upstream" (up_ID (fan_u r)); WSet "X-Algod-Mesh-Tier" (pretty (up_Tier (fan_u r)))]), rs.
  split_and!; [done | by rewrite <- app_assoc | |].
  { apply Forall_app. split; [by apply Forall_fmap, Forall_true | by repeat constructor]. }
  intros h0. cbn zeta. rewrite foldl_app. cbn [foldl headerAfter]. unfold hset, hvalues. split_and!.
  - by rewrite lookup_insert_ne, lookup_insert_eq.
  - by rewrite lookup_insert_eq.
  - intros k Hk. rewrite !lookup_insert_ne by (intros <-; apply Hk; set_solver).
    rewrite puts_lookup by apply NoDup_fst_map_to_list. unfold l. rewrite list_to_map_to_list. unfold endToEnd.
    destruct (decide (k ∈ oneHop)) as [Hd|Hd].
    + rewrite (proj2 (map_lookup_filter_None _ _ k)); [done |]. right. intros vs _ He. cbn in He. by apply elem_oneHop in He.
    + destruct (rs_Header rs !! k) as [vs|] eqn:Ek.
      * rewrite (proj2 (map_lookup_filter_Some _ _ k vs)); [done |]. split; [done | by apply elem_oneHop].
      * rewrite (proj2 (map_lookup_filter_None _ _ k)); [done | by left].
Qed.

Lemma relays_started r ws : relays r ws → started ws = final (fan_status r).
Proof.
  intros (hs & rs & Er & -> & Hh & _). unfold started, final, fan_status. rewrite Er, omap_app.
  assert (omap (λ w, match w with WHead c => if 200 <=? c then Some c else None | _ => None end) hs = []) as ->.
  { induction Hh as [|w hs Hw _ IH]; [done |]. cbn. rewrite IH. by destruct w. }
  cbn. by destruct (200 <=? _).
Qed.

Lemma writeFan_codes r t :
  runs (writeFan r) t (Some ()) →
  isSome (fan_resp r) = true ∧ codes t = final (fan_status r) ∧ received t = [] ∧ pins t = [] ∧ begun t = [].
Proof.
  intros H. apply writeFan_writes in H as (ws & [] & Hr). rewrite codes_writes, ow_writes0, (relays_started r) by done.
  split_and!; [| done..]. destruct Hr as (? & ? & -> & _). done.
Qed.

(** ** Broadcasts *)
Section Serve.
Context (codec : BodyCodec).
Definition success (r : fanResult) : bool := isNone (fan_err r) && (fan_status r =? 200).
Definition unanswered (r : fanResult) : bool := isSome (fan_err r) || withheldStatus (fan_status r).

Lemma rank_answered r : unanswered r = negb (fanRank r =? 2).
Proof. unfold unanswered, fanRank. destruct (isSome _), (withheldStatus _); done. Qed.

(** A node's answer came and was not a withheld one, and which of two
    results says more: an answer over a withheld status or an error, and a
    withheld status over an error. *)
Definition answered_for (r : fanResult) : Prop := fan_err r = None ∧ fan_status r ∉ [502; 503; 504].
Definition outranks (a b : fanResult) : Prop :=
  answered_for a ∧ ¬ answered_for b ∨ fan_err a = None ∧ fan_err b ≠ None.

Lemma withheld_in c : withheldStatus c = true ↔ c ∈ [502; 503; 504].
Proof. unfold withheldStatus. rewrite !orb_true_iff, !Z.eqb_eq. set_solver. Qed.

Lemma answered_rank r : answered_for r ↔ fanRank r = 2.
Proof.
  unfold answered_for, fanRank. rewrite <- withheld_in. destruct (fan_err r); simpl; [by split; [intros [] | lia] |].
  destruct (withheldStatus _); naive_solver lia.
Qed.

Lemma outranks_rank a b : outranks a b ↔ fanRank b < fanRank a.
Proof.
  unfold outranks. rewrite !answered_rank. unfold fanRank.
  destruct (fan_err a), (fan_err b), (withheldStatus (fan_status a)), (withheldStatus (fan_status b)); simpl; naive_solver lia.
Qed.

(** The best of several results: none outranks it, and it outranks those
    that came before it. *)
Definition best_result (rs : list fanResult) (b : fanResult) : Prop :=
  ∃ pre post, rs = pre ++ b :: post ∧ Forall (outranks b) pre ∧ Forall (λ r, ¬ outranks r b) post.

(** The best failure of those received so far: the first of the highest rank. *)
Definition keepBest (f : option fanResult) (r : fanResult) : option fanResult :=
  match f with
  | None => Some r
  | Some f0 => if fanRank f0 <? fanRank r then Some r else f
  end.

Lemma keepBest_from f rs : ∃ b, foldl keepBest (Some f) rs = Some b ∧ best_result (f :: rs) b.
Proof.
  induction rs as [|r rs IH] using rev_ind; [exists f; split; [done |]; by exists [], [] |].
  destruct IH as (b & Eb & pre & post & E & H1 & H2). rewrite foldl_app, Eb. cbn [foldl keepBest].
  rewrite app_comm_cons, E. destruct (Z.ltb_spec (fanRank b) (fanRank r)) as [Hl|Hl].
  - exists r. split; [done |]. exists (pre ++ b :: post), []. split_and!; [done | | done].
    apply Forall_app. split; [| constructor].
    + eapply Forall_impl; [exact H1 |]. intros x. rewrite !outranks_rank. lia.
    + by apply outranks_rank.
    + eapply Forall_impl; [exact H2 |]. intros x. rewrite !outranks_rank. lia.
  - exists b. split; [done |]. exists pre, (post ++ [r]). split_and!; [by rewrite <- app_assoc | done |].
    apply Forall_app. split; [done |]. constructor; [| done]. rewrite outranks_rank. lia.
Qed.

Lemma keepBest_spec rs b : foldl keepBest None rs = Some b → best_result rs b.
Proof.
  destruct rs as [|r rs]; [done |]. cbn [foldl keepBest]. destruct (keepBest_from r rs) as (b' & -> & H). by intros [= <-].
Qed.

Lemma best_member rs b : best_result rs b → b ∈ rs.
Proof. intros (pre & post & -> & _). apply elem_of_app. right. by left. Qed.

Lemma best_answered rs b r : best_result rs b → r ∈ rs → answered_for r → answered_for b.
Proof.
  intros (pre & post & -> & H1 & H2) Hr. rewrite Forall_forall in H1, H2.
  apply elem_of_app in Hr as [Hr|[->|Hr]%elem_of_cons]; [| done |].
  - specialize (H1 _ Hr). revert H1. rewrite outranks_rank, !answered_rank. unfold fanRank. repeat case_match; lia.
  - specialize (H2 _ Hr). revert H2. rewrite outranks_rank, !answered_rank. unfold fanRank. repeat case_match; lia.
Qed.

Lemma collect_spec n f un t c :
  runs (collect codec n f un) t (Some c) →
  match c with
  | Relayed => ∃ rs r, received t = rs ++ [r] ∧ success r = true ∧ Forall (λ r, success r = false) rs ∧
      relays r (writes t) ∧ pins t = [(txIDFrom codec (fan_body r), up_ID (fan_u r))]
  | Worst f' un' => length (received t) = n ∧ Forall (λ r, success r = false) (received t) ∧
      f' = foldl keepBest f (received t) ∧ un' = (un + length (List.filter unanswered (received t)))%nat ∧
      writes t = [] ∧ pins t = []
  end ∧ begun t = [] ∧ fanned t = [].
Proof.
  revert f un t. induction n as [|n IH]; intros f un t H; cbn [collect] in H.
  { run H. by rewrite Nat.add_0_r. }
  run_step H. destruct r as [i res]. fold (success res) (unanswered res) in H. watch.
  destruct (success res) eqn:Es.
  - run_step H. split_run H t2 t3 y H1. destruct y. apply writeFan_writes in H1 as (ws & [E1 E2 E3 E4 E5] & Hrel). run H.
    watch. rewrite E2, E3, E4, E5, !app_nil_r. split; [| done]. exists [], res. by split_and!.
  - apply IH in H as [H Hb]. cbn [app]. split; [| exact Hb]. destruct c as [|f' un'].
    + destruct H as (rs & r & -> & Hr & Hrs & Hc & Hp). exists (res :: rs), r. split_and!; try done. by constructor.
    + destruct H as (Hl & Hs & Hf & Hu & Hc & Hp). cbn [app length foldl List.filter]. split_and!; try done.
      * by rewrite Hl.
      * by constructor.
      * rewrite Hu. destruct (unanswered res); simpl; lia.
Qed.

Lemma unanswered_all rs : length (List.filter unanswered rs) = length rs → ∀ r, r ∈ rs → ¬ answered_for r.
Proof.
  induction rs as [|r rs IH]; intros Hl q Hq; [by apply elem_of_nil in Hq |]. simpl in Hl.
  pose proof (List.filter_length_le unanswered rs). destruct (unanswered r) eqn:Er; simpl in Hl; [| lia].
  apply elem_of_cons in Hq as [->|Hq]; [| apply IH; [lia | done]].
  rewrite answered_rank. rewrite rank_answered in Er. lia.
Qed.

(** *** The external after a broadcast no node answered *)
Section External.
Context (IntN : Z → Z → Z * Z) (o : RouterOptions).

Lemma timeLeft_unmoved : acts unmoved timeLeft.
Proof. unfold timeLeft. acts_go; done. Qed.
Lemma externalFallback_unmoved class tried : acts unmoved (externalFallback IntN o class tried).
Proof. unfold externalFallback, sel. acts_go; done. Qed.

(** No result is received, and none of the mesh's nodes is asked again. *)
Definition unheard (a : Act) : Prop := match a with ARecv | ASelect _ | AFanOut _ => False | _ => True end.

Lemma unheard_run t : Forall (λ e : Event, unheard (projT1 e)) t → received t = [] ∧ fanned t = [].
Proof. induction 1 as [|[a r] t Ha _ [IH1 IH2]]; [done |]. watch. rewrite IH1, IH2. by destruct a. Qed.

Lemma relay_unheard l : acts unheard (relayInterim l).
Proof. induction l as [|[c h] l IH]; cbn [relayInterim]; acts_go; done. Qed.

Lemma forward_unheard tk req u class retry : acts unheard (forward tk req u class retry).
Proof.
  pose proof relay_unheard. unfold forward, Forward, answered, recordAttempt. acts_go; try done.
  match goal with E : tg_OnResponse _ = Some _ |- _ => revert E end.
  unfold targetOf. cbn [tg_OnResponse]. destruct tk; [| done]. intros [= <-].
  unfold effortReader. acts_go; done.
Qed.

(** At most one more attempt, at an external where no external was tried. *)
Lemma broadcastExternal_seen tk req body class targets t over :
  runs (broadcastExternal codec IntN o tk req body class targets) t (Some over) →
  received t = [] ∧ fanned t = [] ∧
  (begun t = [] ∧ pins t = [] ∧ writes t = [] ∧ over = false ∨
   ∃ e, begun t = [up_ID e] ∧ up_Kind e = KindExternal ∧ existsb isExternal targets = false).
Proof.
  intros H. unfold broadcastExternal in H. split_run H t1 t2 ext H1. pose proof H1 as H1e.
  apply externalFallback_unmoved, unmoved_run in H1 as [W1 R1 P1 B1 F1].
  destruct ext as [u|]; [| run H; watch; rewrite W1, R1, P1, B1, F1; split_and!; [done.. |]; by left].
  apply externalFallback_external in H1e as (He & _ & Ht).
  split_run H t3 t4 time H3. apply timeLeft_unmoved, unmoved_run in H3 as [W3 R3 P3 B3 F3].
  destruct time; cbn [negb] in H.
  2: { run H; watch; rewrite W1, R1, P1, B1, F1, W3, R3, P3, B3, F3; split_and!; [done.. |]; by left. }
  split_run H t5 t6 p H5. destruct p as [[out req'] cw]. apply capture_runs in H5 as (y & H5 & _ & _).
  pose proof (forward_counts _ _ _ _ _ _ _ H5) as [B5 _]. apply forward_unheard, unheard_run in H5 as [R5 F5].
  split_run H t7 t8 ov H7. assert (received t7 = [] ∧ fanned t7 = [] ∧ begun t7 = []) as (R7 & F7 & B7).
  { unfold settled in H7. by run H7. }
  assert (received t8 = [] ∧ fanned t8 = [] ∧ begun t8 = []) as (R8 & F8 & B8) by (destruct ov; [destruct (_ =? _) |]; by run H).
  watch. rewrite R1, R3, R5, R7, R8, F1, F3, F5, F7, F8, B1, B3, B5, B7, B8. split_and!; [done.. |]. right.
  exists u. split_and!; [done | | done]. revert He. unfold isExternal. by destruct (up_Kind u).
Qed.

(** What the client of a broadcast no node accepted is given. *)
Definition best_relayed (b : fanResult) (ws : list WriteOp) : Prop :=
  match fan_err b with
  | Some e => ws = [WSet "Content-Type" "application/json"; WHead 502;
                    WBody (PMessage ("algod-mesh: broadcast failed on every node: " +:+ fl_Text e))]
  | None => relays b ws
  end.

Lemma afterCollect_best tk req body class targets rs t :
  rs ≠ [] → length rs = length targets →
  runs (afterCollect codec IntN o tk req body class targets (foldl keepBest None rs) (length (List.filter unanswered rs))) t (Some ()) →
  received t = [] ∧ fanned t = [] ∧
  ∃ b, best_result rs b ∧
    (begun t = [] ∧ pins t = [] ∧ best_relayed b (writes t) ∨
     (∀ r, r ∈ rs → ¬ answered_for r) ∧
     ∃ e, begun t = [up_ID e] ∧ up_Kind e = KindExternal ∧ existsb isExternal targets = false).
Proof.
  intros Hne Hlen H. unfold afterCollect in H. split_run H t3 t4 time H3.
  assert (only_writes t3 []) as [W3 R3 P3 B3 F3].
  { apply unmoved_run. destruct (_ =? _)%nat; [by apply timeLeft_unmoved in H3 | by run H3]. }
  assert (time = true → ∀ r, r ∈ rs → ¬ answered_for r) as Hall.
  { intros ->. apply unanswered_all. destruct (Nat.eqb_spec (length (List.filter unanswered rs)) (length targets)); [congruence | by run H3]. }
  destruct rs as [|r0 rs0]; [done |]. destruct (keepBest_from r0 rs0) as (b & Eb & Hb).
  split_run H t5 t6 over H5. cbn [foldl keepBest] in H. rewrite Eb in H.
  assert (∃ ws, only_writes t6 ws ∧ (over = true → ws = []) ∧ (over = false → best_relayed b ws)) as (ws & [W6 R6 P6 B6 F6] & Ho & Hn).
  { destruct over; [run H; by exists [] |]. unfold best_relayed. destruct (fan_err b).
    - unfold writeMessage, writeJSON in H. run H. eexists. split; [by repeat apply only_writes_cons; apply only_writes_nil | done].
    - apply writeFan_writes in H as (ws & Hw & Hr). by exists ws. }
  assert (received t5 = [] ∧ fanned t5 = [] ∧
    (begun t5 = [] ∧ pins t5 = [] ∧ writes t5 = [] ∧ over = false ∨
     time = true ∧ ∃ e, begun t5 = [up_ID e] ∧ up_Kind e = KindExternal ∧ existsb isExternal targets = false)) as (R5 & F5 & Q5).
  { destruct time; [| run H5; by split_and!; [.. | left]].
    apply broadcastExternal_seen in H5 as (? & ? & [?|?]); split_and!; [done | done | by left | done | done | by right]. }
  watch. rewrite R3, R5, R6, F3, F5, F6. split_and!; [done.. |]. exists b. split; [done |].
  destruct Q5 as [(B5 & P5 & W5 & ->)|(Ht & e & B5 & He & Hx)]; rewrite B3, B5, B6, P3, P6, W3, W6.
  - left. rewrite P5, W5. split_and!; [done | done |]. by apply Hn.
  - right. split; [by apply Hall |]. exists e. rewrite ?app_nil_r. by split_and!.
Qed.

(** C36: with [multi_broadcast] the transaction is sent at once to every node
    of the mesh that was selected, once to an address, and to the externals
    only when no node was.  The client is given the first success, status,
    headers and body, and that pins the transaction to the node that accepted
    it; failing that, every node's answer was waited for, and the client is
    given the best of them (an answer over a withheld status over a transport
    error, of equals the first; a transport error as a 502 with its text).
    Only when no node answered at all may one external be sent the
    transaction after them. *)
Theorem broadcast_best_answer tk req class s t :
  (readAll (rq_Body req) maxReplayBody).2 = false →
  runs (multiBroadcast codec IntN o tk req class s) t (Some ()) →
  ∃ targets, broadcast_to (sel_Chosen s :: sel_Alternates s) targets ∧ fanned t = [targets] ∧
  ((∃ rs r, received t = rs ++ [r] ∧ success r = true ∧ Forall (λ r, success r = false) rs ∧
     relays r (writes t) ∧ pins t = [(txIDFrom codec (fan_body r), up_ID (fan_u r))] ∧ begun t = []) ∨
   (length (received t) = length targets ∧ Forall (λ r, success r = false) (received t) ∧
    ∃ b, best_result (received t) b ∧
      (begun t = [] ∧ pins t = [] ∧ best_relayed b (writes t) ∨
       (∀ r, r ∈ received t → ¬ answered_for r) ∧
       ∃ e, begun t = [up_ID e] ∧ up_Kind e = KindExternal ∧ ∀ u, u ∈ targets → up_Kind u ≠ KindExternal))).
Proof.
  intros Hb H. unfold multiBroadcast in H. destruct (readAll _ _) as [body failed]. cbn in Hb. subst failed.
  pose proof (targets_nonempty (sel_Chosen s) (sel_Alternates s)) as Hne.
  exists (dedupeByURL (meshFirst (sel_Chosen s :: sel_Alternates s))). split; [apply targets_broadcast |].
  run_step H. set (targets := dedupeByURL _) in *. split_run H t1 t2 c H1. apply collect_spec in H1 as (H1 & B1 & F1). watch.
  destruct c as [|f un].
  - run H. watch. rewrite F1. split; [done |]. left. destruct H1 as (rs & r' & R1 & Hs & Hf & C1 & P1).
    exists rs, r'. rewrite R1, P1, B1, !app_nil_r. by split_and!.
  - destruct H1 as (L1 & S1 & -> & -> & W1 & P1).
    apply afterCollect_best in H as (R2 & F2 & b & Hbest & Hend); [| by destruct (received t1), targets | done].
    rewrite F1, F2, R2, B1, P1, W1, !app_nil_r. cbn [app]. split; [done |]. right. split_and!; [done.. |].
    exists b. split; [done |]. destruct Hend as [?|(Hno & e & Be & He & Hx)]; [by left | right]. split; [done |].
    exists e. split_and!; [done.. |]. intros u Hu. apply isExternal_spec. destruct (isExternal u) eqn:Eu; [| done].
    exfalso. apply not_true_iff_false in Hx. apply Hx, existsb_exists. exists u. by rewrite <- list_elem_of_In.
Qed.
End External.

(** ** Pending transactions *)
Abbreviation pendingRank := (pendingRank codec).

Lemma pendingRank_range r : 0 <= pendingRank r <= 5.
Proof.
  unfold Serve.pendingRank, pendingFailed, pendingNotFound, pendingOther, pendingInPool, pendingPoolError, pendingConfirmed.
  repeat case_match; lia.
Qed.

Definition at_ (pos : gmap string Z) (r : fanResult) : Z := default 0 (pos !! up_ID (fan_u r)).

(** c is the best of rs: none ranks higher, and of those that rank alike its
    node comes first. *)
Definition best_of (pos : gmap string Z) (rs : list fanResult) (c : fanResult) : Prop :=
  c ∈ rs ∧ ∀ r, r ∈ rs → pendingRank r <= pendingRank c ∧ (pendingRank r = pendingRank c → at_ pos c <= at_ pos r).

(** The loop's state after the results rs. *)
Definition kept_best (pos : gmap string Z) (rs : list fanResult) (chosen : option fanResult) (rank : Z) : Prop :=
  match chosen with
  | None => rs = [] ∧ rank = -1
  | Some c => best_of pos rs c ∧ rank = pendingRank c
  end.

Lemma kept_best_snoc pos rs chosen rank r :
  kept_best pos rs chosen rank →
  let '(chosen', rank') := if better codec pos chosen rank r then (Some r, pendingRank r) else (chosen, rank) in
  kept_best pos (rs ++ [r]) chosen' rank' ∧ rank <= rank'.
Proof.
  intros H. unfold better. fold (at_ pos r). pose proof (pendingRank_range r) as Hr. destruct chosen as [c|]; cbn [kept_best] in H.
  - destruct H as [[Hc Hm] ->]. fold (at_ pos c). destruct (_ || _) eqn:E; cbn [kept_best].
    + split; [split; [split |] |]; [apply elem_of_app; right; by left | | done | lia].
      intros r' [Hr'|Hr']%elem_of_app; [| apply list_elem_of_singleton in Hr' as ->; split; [done | lia]].
      destruct (Hm r' Hr') as [H1 H2]. split; [lia |]. intros Heq. assert (pendingRank r' = pendingRank c) as Hq by lia.
      specialize (H2 Hq). lia.
    + split; [split; [split |] |]; [by apply elem_of_app; left | | done | done].
      intros r' [Hr'|Hr']%elem_of_app; [by apply Hm | apply list_elem_of_singleton in Hr' as ->; lia].
  - destruct H as [-> ->]. assert ((-1 <? pendingRank r) || (pendingRank r =? -1) && false = true) as -> by lia.
    split; [split; [split; [by left |] | done] | lia]. intros r' ->%list_elem_of_singleton. split; [done | lia].
Qed.

(** A select whose grace timer is not armed does not see it fire. *)
Definition patient_event (e : Event) : bool :=
  match e with existT (ASelect false) GotGrace => false | _ => true end.
Definition patient (t : Trace) : bool := forallb patient_event t.

(** The client left while its answers were being waited for. *)
Definition left_event (e : Event) : bool := match e with existT (ASelect _) GotGone => true | _ => false end.
Definition client_left (t : Trace) : bool := existsb left_event t.

Lemma collectPending_spec n pos chosen rank grace rs t x :
  kept_best pos rs chosen rank → (grace = true → pendingInPool <= rank) → patient t = true →
  runs (collectPending codec n pos chosen rank grace) t (Some x) →
  codes t = [] ∧ pins t = [] ∧
  match x with
  | None => client_left t = true
  | Some (chosen', rank') =>
      client_left t = false ∧ kept_best pos (rs ++ received t) chosen' rank' ∧
      (length (received t) = n ∨ pendingInPool <= rank')
  end.
Proof.
  revert chosen rank grace rs t. induction n as [|n IH]; intros chosen rank grace rs t Hk Hg Hp H; cbn [collectPending] in H.
  { run H. rewrite app_nil_r. split_and!; [done.. |]. by left. }
  run_step H. cbn [patient forallb] in Hp. apply andb_true_iff in Hp as [Hp0 Hp]. fold (patient t0) in Hp.
  destruct r as [i res| |].
  - pose proof (kept_best_snoc pos rs chosen rank res Hk) as Hs.
    destruct (if better codec pos chosen rank res then _ else _) as [chosen' rank']. destruct Hs as [Hk' Hle].
    cbn beta iota in H. destruct (rank' =? pendingConfirmed) eqn:En.
    + apply Z.eqb_eq in En. run H. watch. cbn [client_left existsb left_event]. split_and!; [done.. |]. right. unfold pendingInPool, pendingConfirmed. lia.
    + apply (IH _ _ _ (rs ++ [res])) in H as (Hc & Hpn & H); [| done | | done].
      * watch. rewrite Hc, Hpn. split_and!; [done.. |]. cbn [client_left existsb left_event orb]. destruct x as [[c r]|]; [| done].
        destruct H as (Hl & H1 & H2). rewrite <- app_assoc in H1. split_and!; [done | done |]. cbn [length].
        destruct H2 as [->|H2]; [by left | by right].
      * intros Hor. apply orb_true_iff in Hor as [->|Hor]; [specialize (Hg eq_refl); lia | lia].
  - run H. watch. rewrite app_nil_r. split_and!; [done.. |]. right. apply Hg. by destruct grace.
  - by run H.
Qed.

(** what a pending transaction's client is told is the best any node said:
    a confirmation over a pool error, over "still pending", over "not found",
    over an unclear answer, over a failure, and among equals the node at the
    highest round; and only a 200 cuts the wait for the others short.  The
    client's later lookups go to the node that holds the transaction in its
    pool. *)
Theorem pending_best_answer class order t :
  order ≠ [] → patient t = true → client_left t = false →
  runs (askAll codec class order) t (Some ()) →
  ∃ c, best_of (positions order) (received t) c ∧
    (length (received t) = length order ∨ pendingInPool <= pendingRank c) ∧
    codes t = final (if (pendingRank c =? pendingFailed) && isSome (fan_err c) then 502 else fan_status c) ∧
    pins t = if (pendingRank c =? pendingInPool) || (pendingRank c =? pendingPoolError)
             then [(rc_PendingID class, up_ID (fan_u c))] else [].
Proof.
  intros Ho Hp Hl H. unfold askAll in H. run_step H. split_run H t1 t2 x H1. watch.
  unfold patient in Hp. cbn [forallb patient_event andb] in Hp. rewrite forallb_app in Hp. apply andb_true_iff in Hp as [Hp _].
  unfold client_left in Hl. cbn [existsb left_event orb] in Hl. rewrite existsb_app in Hl. apply orb_false_iff in Hl as [Hl _].
  apply (collectPending_spec _ _ _ _ _ []) in H1 as (C1 & P1 & H1); [| done | done | done].
  destruct x as [[chosen rank]|]; [| unfold client_left in H1; congruence]. destruct H1 as (_ & Hk & Hn). cbn [app] in Hk.
  destruct chosen as [c|]; cbn [kept_best] in Hk.
  2: { destruct Hk as [Hk ->]. rewrite Hk in Hn. destruct order; [done |]. destruct Hn as [Hn|Hn]; [done | by vm_compute in Hn]. }
  destruct Hk as [Hb ->]. exists c. unfold answerPending in H. split_run H t3 t4 y H3.
  assert (codes t3 = [] ∧ received t3 = [] ∧
          pins t3 = if (pendingRank c =? pendingInPool) || (pendingRank c =? pendingPoolError)
                    then [(rc_PendingID class, up_ID (fan_u c))] else []) as (C3 & R3 & P3) by (destruct (_ || _); by run H3).
  assert (received t4 = [] ∧ pins t4 = [] ∧
          codes t4 = final (if (pendingRank c =? pendingFailed) && isSome (fan_err c) then 502 else fan_status c)) as (R4 & P4 & C4).
  { destruct (pendingRank c =? pendingFailed), (fan_err c); cbn [andb isSome] in *;
      first [apply writeFan_codes in H as (_ & ? & ? & ? & _); by split_and!
            | unfold writeMessage, writeJSON in H; by run H]. }
  watch. rewrite R3, R4, P1, P3, P4, C1, C3, C4, !app_nil_r. by split_and!.
Qed.
End Serve.

(** ** A node whose endpoint does not parse *)

(** a registry record may name any text as its node's endpoint: validation
    does not look at it, and it is what the node is then reached at.  If it
    does not parse as a URL, every broadcast and pending lookup that fans out
    to that node panics in a goroutine of its own, which nothing recovers. *)
Theorem bad_endpoint_panics rec e pathAddr req body u class t x :
  Validate rec = Ok tt → nr_Endpoints rec ≠ [] →
  Validate (rec <| nr_Endpoints := [e] |>) = Ok tt ∧
  EndpointFor [e] (EndpointHosts [e]) pathAddr = e ∧
  (up_BaseURL u = e → url_host (trim_suffix "/" e +:+ rq_RequestURI req) = None →
   runs (fanOne req body u class) t x → x = None).
Proof.
  intros HV HE. split; [| split].
  - destruct rec as [id role net eps tok ag tier tags decl ver upd]. cbn in HE.
    change (Validate (mkNodeRecord id role net [e] tok ag tier tags decl ver upd) = Ok tt). revert HV. unfold Validate. cbn [nr_ID nr_Network nr_Role nr_Endpoints nr_Agent nr_Tier].
    destruct (_ =s _); [done |]. destruct (_ <? _); [done |]. destruct (_ =s _); [done |].
    destruct (ParseRole role) as [r|]; [| done]. assert ((Z.of_nat (length eps) =? 0) = false) as -> by (destruct eps; simpl; [done | lia]).
    by cbn [length].
  - unfold EndpointFor, EndpointHosts. cbn. destruct (SplitHostPort pathAddr) as [[host p]|]; [| done].
    destruct (_ <>s _); [| done]. by destruct (_ =s host).
  - intros <- Hu H. unfold fanOne in H. run_step H. rewrite Hu in H. by run H.
Qed.
