(* ===== verification/StatusFetch.v ===== *)
(** * StatusFetch: one status request for every waiter
    (statusAt, fetchStatus and getStatus of internal/app/router.go)

    A balancer answers wait-for-block-after with a node's status body.  The
    fetches are a heap of [statusFetch] structs, shared by their waiters; the
    router points at the last completed one and at the one in flight.
    [fetchStatus] is the goroutine behind a fetch, as a program; [askStatus]
    and [fetchDone] are the two critical sections of statusMu, which any
    number of waiters and fetches interleave. *)
From S2P Require Import Prelude GoFloat GoStrings GoTime GoNet Types Classify Eligible Select Ports Limiter Prog Http Proxy Auth Forwarding Serve Router Runs Answers Discipline Attempts.
From stdpp Require Import pretty.
From Stdlib Require Import Ascii.
Open Scope Z_scope.
Open Scope mesh_scope.

(** ** The fetch itself *)
Section Fetch.
Context (IntN : Z → Z → Z * Z) (o : RouterOptions).

(** What encoding/json reads as last-round; None: the body does not parse. *)
Context (lastRound : string → option Z).

Definition noNode : failure := mkFailure "no eligible node at that round" false.
Definition badURL : failure := mkFailure "parse" false.
Definition answeredStatus (id : string) (code : Z) : failure := mkFailure (id +:+ " answered " +:+ pretty code) false.
Definition badStatus (id : string) : failure := mkFailure (id +:+ " status") false.

(** getStatus.  The outcome recorded has only the exchange's own error: a body
    that broke off counts as the answer its status line gave. *)
Definition getStatus (u : Upstream) (class : RequestClass) : M (result failure (Z * string)) :=
  let url := trim_suffix "/" (up_BaseURL u) +:+ "/v2/status" in
  match url_host url with
  | None => ret (Err badURL)
  | Some _ =>
      let* start := now in
      tell (ABegin (up_ID u));;
      let* '(resp, body, err) := ask (AGet url (up_Token u) "" "") in
      tell (AFinish (up_ID u));;
      let* finish := now in
      tell (ARecord (up_ID u) (StatKey class)
              (mkOutcome match resp with Some r => rs_StatusCode r | None => 0 end
                 (if isNone resp then err else None) false (time_sub finish start) 0));;
      ret match err, resp with
          | Some e, _ => Err e
          | None, Some r =>
              if negb (rs_StatusCode r =? 200) then Err (answeredStatus (up_ID u) (rs_StatusCode r))
              else match lastRound body with
                   | Some round => Ok (round, body)
                   | None => Err (badStatus (up_ID u))
                   end
          | None, None => Err badURL
          end
  end.

(** The loop over the upstreams tried: the fetch as the last try left it. *)
Fixpoint tryEach (class : RequestClass) (want : Z) (tries : list Upstream) (last : statusFetch) : M statusFetch :=
  match tries with
  | [] => ret last
  | u :: tries =>
      let* r := getStatus u class in
      match r with
      | Ok (round, body) => ret (mkFetch want round (Some u) body None)
      | Err e =>
          let* ended := ctxErr in
          let last := mkFetch want 0 None "" (Some e) in
          if ended then ret last else tryEach class want tries last
      end
  end.

(** The nodes of the mesh at a round. *)
Definition atRound (want : Z) (cands : list Upstream) : list Upstream :=
  List.filter (λ u, negb (isExternal u) && (want <=? up_LastRound u)) cands.

(** fetchStatus, but for its last critical section; None of Classify is a
    panic. *)
Definition fetchStatus (want : Z) : M statusFetch :=
  match Classify "GET" "/v2/status" "" with
  | None => crash
  | Some class =>
      let* '(cands, best) := snapshot in
      let* s := sel IntN o (atRound want cands) class best in
      let none := mkFetch want 0 None "" (Some noNode) in
      match s with
      | Some s => tryEach class want (triesOf o s true) none
      | None => ret none
      end
  end.
End Fetch.

(** ** The fetches shared by the waiters *)

(** The structs by address, each with whether its done channel is closed. *)
Record StatusCache := mkCache {
  sc_heap : list (statusFetch * bool);
  sc_status : option nat;        (* r.status: the last completed fetch *)
  sc_fetch : option nat          (* r.statusFetch: the one in flight *)
}.

Definition newCache : StatusCache := mkCache [] None None.

Definition fetchAt (c : StatusCache) (i : nat) : option statusFetch := fst <$> sc_heap c !! i.

(** What statusAt leaves its critical section with. *)
Inductive Asked := Cached (i : nat) | Waits (i : nat).

Definition covers (c : StatusCache) (p : option nat) (f : statusFetch → bool) : option nat :=
  i ← p; g ← fetchAt c i; if f g then Some i else None.

Definition askStatus (round : Z) (c : StatusCache) : Asked * StatusCache :=
  match covers c (sc_status c) (λ last, round <=? sf_round last) with
  | Some i => (Cached i, c)
  | None =>
      match covers c (sc_fetch c) (λ f, round <=? sf_want f) with
      | Some i => (Waits i, c)
      | None =>
          let i := length (sc_heap c) in
          (Waits i, c <| sc_heap := sc_heap c ++ [(mkFetch round 0 None "" None, false)] |> <| sc_fetch := Some i |>)
      end
  end.

(** The end of fetchStatus: the struct's fields, the pointers, the channel. *)
Definition fetchDone (i : nat) (f : statusFetch) (c : StatusCache) : StatusCache :=
  let c := c <| sc_heap := <[i := (f, true)]> (sc_heap c) |> in
  let c := if bool_decide (sc_fetch c = Some i) then c <| sc_fetch := None |> else c in
  if isNone (sf_err f) && match sc_status c ≫= fetchAt c with
                          | Some last => sf_round last <? sf_round f
                          | None => true
                          end
  then c <| sc_status := Some i |> else c.

(** What statusAt returns: the fetch it points at once that is done, or, when
    its context ended first, an error of its own. *)
Definition statusAt (round : Z) (a : Asked) (ended : option failure) (c : StatusCache) : option statusFetch :=
  match a, ended with
  | Cached i, _ => fetchAt c i
  | Waits i, Some e => Some (mkFetch round 0 None "" (Some e))
  | Waits i, None => match sc_heap c !! i with Some (f, true) => Some f | _ => None end
  end.

(** *** Interleavings *)
Inductive statusOp := OpAsk (round : Z) | OpDone (i : nat) (f : statusFetch).

(** A fetch is done once, and its goroutine keeps its want. *)
Definition statusStep (c : StatusCache) (op : statusOp) : option StatusCache :=
  match op with
  | OpAsk round => Some (askStatus round c).2
  | OpDone i f =>
      match sc_heap c !! i with
      | Some (g, false) => if sf_want g =? sf_want f then Some (fetchDone i f c) else None
      | _ => None
      end
  end.

Fixpoint statusRun (c : StatusCache) (ops : list statusOp) : option StatusCache :=
  match ops with
  | [] => Some c
  | op :: ops => c ← statusStep c op; statusRun c ops
  end.

(** ** What the cache holds *)

(** A fetch that ended with a status. *)
Definition good (x : statusFetch * bool) : Prop := x.2 = true ∧ sf_err x.1 = None.

Record cache_wf (c : StatusCache) : Prop := {
  cw_status i : sc_status c = Some i → ∃ f, sc_heap c !! i = Some (f, true) ∧ sf_err f = None ∧
    ∀ j x, sc_heap c !! j = Some x → good x → sf_round x.1 <= sf_round f;
  cw_none : sc_status c = None → ∀ j x, sc_heap c !! j = Some x → ¬ good x;
  cw_fetch i : sc_fetch c = Some i → ∃ f, sc_heap c !! i = Some (f, false)
}.

Lemma newCache_wf : cache_wf newCache.
Proof. by split. Qed.

Lemma covers_spec c p f i : covers c p f = Some i → p = Some i ∧ ∃ g, fetchAt c i = Some g ∧ f g = true.
Proof.
  unfold covers. destruct p as [j|]; simpl; [| done]. destruct (fetchAt c j) as [g|] eqn:E; simpl; [| done].
  destruct (f g) eqn:Ef; [| done]. intros [= <-]. eauto.
Qed.

Lemma askStatus_wf round c : cache_wf c → cache_wf (askStatus round c).2.
Proof.
  intros [Hs Hn Hf]. unfold askStatus. destruct (covers _ _ _); [by split |]. destruct (covers _ _ _); [by split |].
  cbn [snd]. split; cbn.
  - intros i Hi. destruct (Hs i Hi) as (f & H1 & H2 & H3). exists f. split_and!; [by apply lookup_app_l_Some | done |].
    intros j x [Hj|[_ Hj]]%lookup_app_Some Hx; [by eapply H3 |].
    apply list_lookup_singleton_Some in Hj as [_ <-]. by destruct Hx.
  - intros Hi j x [Hj|[_ Hj]]%lookup_app_Some Hx; [by eapply Hn |].
    apply list_lookup_singleton_Some in Hj as [_ <-]. by destruct Hx.
  - intros i [= <-]. eexists. by apply list_lookup_middle.
Qed.

Lemma lookup_insert_done {A} (l : list A) i j x y :
  <[i := x]> l !! j = Some y → (i = j ∧ y = x ∨ i ≠ j ∧ l !! j = Some y).
Proof.
  intros H. destruct (decide (i = j)) as [->|]; [left | right].
  - split; [done |]. apply list_lookup_insert_Some in H. naive_solver.
  - by rewrite list_lookup_insert_ne in H.
Qed.

Lemma fetchDone_wf i f g c : cache_wf c → sc_heap c !! i = Some (g, false) → cache_wf (fetchDone i f c).
Proof.
  intros [Hs Hn Hf] Hi. pose proof (lookup_lt_Some _ _ _ Hi) as Hlt. unfold fetchDone.
  set (c1 := c <| sc_heap := <[i := (f, true)]> (sc_heap c) |>).
  set (c2 := if bool_decide (sc_fetch c1 = Some i) then c1 <| sc_fetch := None |> else c1).
  assert (sc_heap c2 = <[i := (f, true)]> (sc_heap c) ∧ sc_status c2 = sc_status c) as [Hh Hst].
  { unfold c2. by destruct (bool_decide _). }
  assert (∀ k, sc_fetch c2 = Some k → ∃ f', sc_heap c2 !! k = Some (f', false)) as Hf2.
  { rewrite Hh. unfold c2. intros k. destruct (bool_decide (sc_fetch c1 = Some i)) eqn:E; [done |].
    apply bool_decide_eq_false in E. intros Hk. change (sc_fetch c = Some k) in Hk. change (sc_fetch c ≠ Some i) in E.
    destruct (Hf k Hk) as [f' Hf']. exists f'. rewrite list_lookup_insert_ne; [done | congruence]. }
  assert (∀ k, sc_status c = Some k → k ≠ i) as Hki.
  { intros k Hk ->. destruct (Hs i Hk) as (f' & E & _). congruence. }
  assert (sc_status c2 ≫= fetchAt c2 = sc_status c ≫= fetchAt c) as ->.
  { rewrite Hst. destruct (sc_status c) as [k|] eqn:E; [| done]. cbn. unfold fetchAt.
    rewrite Hh, list_lookup_insert_ne; [done |]. intros ->. by destruct (Hki k). }
  destruct (isNone (sf_err f) && _) eqn:E.
  - apply andb_true_iff in E as [He E]. split; cbn.
    + intros k [= <-]. exists f. rewrite Hh. split_and!; [by apply list_lookup_insert_eq | by destruct (sf_err f) |].
      intros j x [[<- ->]|[Hne Hj]]%lookup_insert_done Hx; [done |].
      destruct (sc_status c) as [k|] eqn:Ek; [| by destruct (Hn eq_refl _ _ Hj)].
      destruct (Hs k eq_refl) as (f' & E' & _ & Hm). specialize (Hm _ _ Hj Hx). cbn in E. unfold fetchAt in E. rewrite E' in E. cbn in E. lia.
    + done.
    + intros k Hk. rewrite Hh in *. by apply Hf2.
  - split; [| | exact Hf2].
    + rewrite Hst. intros k Hk. destruct (Hs k Hk) as (f' & E' & He' & Hm). exists f'. rewrite Hh.
      split_and!; [rewrite list_lookup_insert_ne; [done |]; intros ->; by destruct (Hki k) | done |].
      intros j x [[<- ->]|[Hne Hj]]%lookup_insert_done Hx; [| by eapply Hm].
      destruct Hx as [_ Hx]. cbn in Hx. rewrite Hx, Hk in E. cbn in E. unfold fetchAt in E. rewrite E' in E. cbn in *. lia.
    + rewrite Hst. intros Hk j x. rewrite Hh. intros [[<- ->]|[Hne Hj]]%lookup_insert_done Hx; [| by eapply Hn].
      destruct Hx as [_ Hx]. cbn in Hx. by rewrite Hx, Hk in E.
Qed.

Lemma statusRun_wf ops c c' : cache_wf c → statusRun c ops = Some c' → cache_wf c'.
Proof.
  revert c. induction ops as [|op ops IH]; intros c W H; simpl in H; [by simplify_eq |].
  destruct (statusStep c op) as [c1|] eqn:E; [| done]. simpl in H. apply (IH c1); [| done].
  destruct op as [round|i f]; simpl in E; [simplify_eq; by apply askStatus_wf |].
  destruct (sc_heap c !! i) as [[g []]|] eqn:Ei; [done | | done]. destruct (_ =? _); [| done]. simplify_eq.
  by eapply fetchDone_wf.
Qed.

(** A completed fetch does not change any more, and every fetch keeps the
    round it was started for. *)
Lemma askStatus_heap round c : ∃ l, sc_heap (askStatus round c).2 = sc_heap c ++ l.
Proof.
  unfold askStatus. destruct (covers _ _ _); [by exists []; rewrite app_nil_r |].
  destruct (covers _ _ _); [by exists []; rewrite app_nil_r | by eexists].
Qed.

Lemma fetchDone_heap i f c : sc_heap (fetchDone i f c) = <[i := (f, true)]> (sc_heap c).
Proof. unfold fetchDone. by destruct (bool_decide _); cbn; destruct (isNone _ && _). Qed.

Lemma statusRun_keeps ops c c' i f d :
  statusRun c ops = Some c' → sc_heap c !! i = Some (f, d) →
  ∃ g d', sc_heap c' !! i = Some (g, d') ∧ sf_want g = sf_want f ∧ (d = true → g = f ∧ d' = true).
Proof.
  revert c f d. induction ops as [|op ops IH]; intros c f d H Hi; simpl in H; [simplify_eq; eauto 10 |].
  destruct (statusStep c op) as [c1|] eqn:E; [| done]. simpl in H.
  assert (∃ g d', sc_heap c1 !! i = Some (g, d') ∧ sf_want g = sf_want f ∧ (d = true → g = f ∧ d' = true)) as (g & d' & Hg & Hw & Hd).
  { destruct op as [round|j f']; simpl in E.
    - simplify_eq. destruct (askStatus_heap round c) as [l ->]. exists f, d. split_and!; [by apply lookup_app_l_Some | done | done].
    - destruct (sc_heap c !! j) as [[g []]|] eqn:Ej; [done | | done]. destruct (Z.eqb_spec (sf_want g) (sf_want f')) as [Ew|]; [| done].
      simplify_eq. rewrite fetchDone_heap. destruct (decide (j = i)) as [->|Hne].
      + rewrite Ej in Hi. simplify_eq. exists f', true. split_and!; [apply list_lookup_insert_eq; by eapply lookup_lt_Some | done | done].
      + exists f, d. by rewrite list_lookup_insert_ne. }
  destruct (IH _ _ _ H Hg) as (g2 & d2 & H2 & Hw2 & Hd2). exists g2, d2. split_and!; [done | congruence |].
  intros ->. destruct (Hd eq_refl) as [-> ->]. by apply Hd2.
Qed.

Lemma statusRun_app ops ops' c : statusRun c (ops ++ ops') = statusRun c ops ≫= λ c', statusRun c' ops'.
Proof. revert c. induction ops as [|op ops IH]; intros c; simpl; [done |]. destruct (statusStep c op); simpl; auto. Qed.

(** The cached status. *)
Definition cached (c : StatusCache) : option statusFetch := sc_status c ≫= fetchAt c.

(** the status a balancer keeps is the newest it fetched: whatever fetches
    and waiters interleave, the cached one is, of all fetches that ended with
    a status, one at the highest round; it never goes back to a lower round. *)
Theorem status_latest ops ops' c c' :
  statusRun newCache ops = Some c → statusRun c ops' = Some c' →
  (∀ f, cached c = Some f →
     sf_err f = None ∧ (∀ j g, sc_heap c !! j = Some (g, true) → sf_err g = None → sf_round g <= sf_round f) ∧
     ∃ f', cached c' = Some f' ∧ sf_round f <= sf_round f') ∧
  (cached c = None → ∀ j g, sc_heap c !! j = Some (g, true) → sf_err g ≠ None).
Proof.
  intros H H'. pose proof (statusRun_wf _ _ _ newCache_wf H) as W. pose proof (statusRun_wf _ _ _ W H') as W'.
  unfold cached, fetchAt. destruct (sc_status c) as [i|] eqn:Ei; cbn.
  - destruct (cw_status c W i Ei) as (f & Hf & He & Hm). rewrite Hf. cbn. split; [| done]. intros ? [= <-].
    split; [done |]. split; [intros j g Hj Hg; by apply (Hm j (g, true) Hj) |].
    destruct (statusRun_keeps _ _ _ _ _ _ H' Hf) as (g & d & Hg & _ & Hd). destruct (Hd eq_refl) as [-> ->].
    destruct (sc_status c') as [k|] eqn:Ek; cbn.
    + destruct (cw_status c' W' k Ek) as (f' & Hf' & _ & Hm'). rewrite Hf'. exists f'. split; [done |].
      by apply (Hm' i (f, true)).
    + destruct (cw_none c' W' Ek i (f, true)); [done | by split].
  - split; [done |]. intros _ j g Hj He. by apply (cw_none c W Ei j (g, true)).
Qed.

(** A fetch that trusts its node: what it ends with is at the round it was
    started for. *)
Definition honest (op : statusOp) : Prop :=
  match op with OpDone _ f => sf_err f = None → sf_want f <= sf_round f | OpAsk _ => True end.

(** What has ended is handed to its waiters, and what has not stays open. *)
Lemma statusRun_done ops c c' i f :
  statusRun c ops = Some c' → OpDone i f ∈ ops → sc_heap c' !! i = Some (f, true).
Proof.
  intros H (l1 & l2 & ->)%list_elem_of_split. rewrite statusRun_app in H. destruct (statusRun c l1) as [c1|]; [| done]. simpl in H.
  destruct (sc_heap c1 !! i) as [[g []]|] eqn:Ei; [done | | done]. destruct (_ =? _); [| done]. simpl in H.
  assert (sc_heap (fetchDone i f c1) !! i = Some (f, true)) as Hi
    by (rewrite fetchDone_heap; apply list_lookup_insert_eq; by eapply lookup_lt_Some).
  destruct (statusRun_keeps _ _ _ _ _ _ H Hi) as (g' & d & Hg & _ & Hd). by destruct (Hd eq_refl) as [-> ->].
Qed.

Lemma statusRun_open ops c c' i g :
  statusRun c ops = Some c' → sc_heap c !! i = Some (g, false) → (∀ f, OpDone i f ∉ ops) → ∃ g', sc_heap c' !! i = Some (g', false).
Proof.
  revert c g. induction ops as [|op ops IH]; intros c g H Hi Hn; simpl in H; [simplify_eq; eauto |].
  destruct (statusStep c op) as [c1|] eqn:E; [| done]. simpl in H.
  assert (∃ g', sc_heap c1 !! i = Some (g', false)) as [g' Hg'].
  { destruct op as [round|j f]; simpl in E.
    - simplify_eq. destruct (askStatus_heap round c) as [l ->]. exists g. by apply lookup_app_l_Some.
    - destruct (sc_heap c !! j) as [[g2 []]|] eqn:Ej; [done | | done]. destruct (_ =? _); [| done]. simplify_eq. rewrite fetchDone_heap.
      destruct (decide (j = i)) as [->|Hne]; [destruct (Hn f); by left | exists g; by rewrite list_lookup_insert_ne]. }
  apply (IH c1 g' H Hg'). intros f Hf. apply (Hn f). by right.
Qed.

(** A waiter that got past the cache waits for a fetch at its round or above. *)
Lemma asked_fetch ops c round i c' :
  statusRun newCache ops = Some c → askStatus round c = (Waits i, c') →
  ∃ g, sc_heap c' !! i = Some (g, false) ∧ round <= sf_want g.
Proof.
  intros H Ha. unfold askStatus in Ha. destruct (covers c (sc_status c) _) as [k|]; [done |].
  destruct (covers c (sc_fetch c) _) as [k|] eqn:E2; simplify_eq.
  - apply covers_spec in E2 as [Ef (g & Hg & Hr)]. destruct (cw_fetch _ (statusRun_wf _ _ _ newCache_wf H) i Ef) as [f Hf].
    unfold fetchAt in Hg. rewrite Hf in Hg. simplify_eq/=. exists g. split; [done | lia].
  - eexists. split; [by apply list_lookup_middle | done].
Qed.

(** any number of waiters cost one request per round: while no fetch ends,
    the fetches started are for strictly increasing rounds, each of which some
    waiter asked for and which is above the round of the fetch already in
    flight. *)
Theorem asks_coalesced rounds c c' :
  cache_wf c → statusRun c (OpAsk <$> rounds) = Some c' →
  ∃ ws, sc_heap c' = sc_heap c ++ ((λ w, (mkFetch w 0 None "" None, false)) <$> ws) ∧
    StronglySorted Z.lt ws ∧ ws ⊆ rounds ∧
    ∀ i g w, sc_fetch c = Some i → fetchAt c i = Some g → w ∈ ws → sf_want g < w.
Proof.
  revert c. induction rounds as [|r rounds IH]; intros c W H; simpl in H.
  { simplify_eq. exists []. rewrite app_nil_r. split_and!; [done | constructor | done |]. intros. by apply elem_of_nil in H1. }
  pose proof (askStatus_wf r c W) as W1. destruct (IH _ W1 H) as (ws & Hh & Hs & Hsub & Hlt). clear IH.
  revert Hh Hlt. unfold askStatus.
  destruct (covers c (sc_status c) _) as [i|] eqn:E1; [exists ws; split_and!; [done | done | set_solver | done] |].
  destruct (covers c (sc_fetch c) _) as [i|] eqn:E2; [exists ws; split_and!; [done | done | set_solver | done] |].
  cbn. intros Hh Hlt. specialize (Hlt (length (sc_heap c)) (mkFetch r 0 None "" None)). exists (r :: ws).
  assert (∀ w, w ∈ ws → r < w) as Hr.
  { intros w Hw. apply (Hlt w); [done | | done]. 
    exact (f_equal (fmap fst) (list_lookup_middle (sc_heap c) [] (mkFetch r 0 None "" None, false) _ eq_refl)). }
  unfold RecordSettersUsingExistingGetters.const in Hh. rewrite <- app_assoc in Hh. split_and!; [done | by constructor; [| by apply Forall_forall] | set_solver |].
  intros i g w Hi Hg [->|Hw]%elem_of_cons.
  - unfold covers in E2. rewrite Hi in E2. cbn in E2. rewrite Hg in E2. cbn in E2.
    destruct (Z.leb_spec r (sf_want g)); [done | lia].
  - specialize (Hr w Hw). unfold covers in E2. rewrite Hi in E2. cbn in E2. rewrite Hg in E2. cbn in E2.
    destruct (Z.leb_spec r (sf_want g)); [done | lia].
Qed.

(** ** One fetch *)
Section FetchLaws.
Context (IntN : Z → Z → Z * Z) (o : RouterOptions) (lastRound : string → option Z).

(** The request a fetch makes of a node, answered with a status. *)
Definition status_from (u : Upstream) (f : statusFetch) (t : Trace) : Prop :=
  ∃ url rs, existT (AGet url (up_Token u) "" "") (Some rs, sf_body f, None) ∈ t ∧ rs_StatusCode rs = 200 ∧
    lastRound (sf_body f) = Some (sf_round f) ∧ sf_upstream f = Some u.

Lemma getStatus_spec u class t x :
  runs (getStatus lastRound u class) t x →
  (begun t = [] ∨ begun t = [up_ID u]) ∧ ended t = begun t ∧
  ∃ r, x = Some r ∧ match r with
                    | Ok (round, body) => ∀ want, status_from u (mkFetch want round (Some u) body None) t
                    | Err _ => True
                    end.
Proof.
  intros H. unfold getStatus in H. destruct (url_host _); [| run H; split_and!; [by left | done | by eexists]].
  run_step H. run_step H. run_step H. destruct r1 as [[resp body] err]. run H. rewrite !begun_cons, !ended_cons. cbn.
  split; [by right |]. split; [done |]. eexists. split; [done |].
  destruct err; [done |]. destruct resp as [rs|]; [| done]. destruct (Z.eqb_spec (rs_StatusCode rs) 200); cbn; [| done].
  destruct (lastRound body) eqn:El; [| done]. intros want. eexists _, rs. split_and!; try done. by do 2 right; left.
Qed.

Lemma status_from_app u f t1 t2 t3 : status_from u f t2 → status_from u f (t1 ++ t2 ++ t3).
Proof.
  intros (url & rs & Hin & H). exists url, rs. split; [| done]. apply elem_of_app. right. apply elem_of_app. by left.
Qed.

Lemma tryEach_spec class want tries last t f :
  sf_want last = want → isSome (sf_err last) = true →
  runs (tryEach lastRound class want tries last) t (Some f) →
  sf_want f = want ∧ begun t `sublist_of` (up_ID <$> tries) ∧ ended t = begun t ∧
  (sf_err f = None → ∃ u, u ∈ tries ∧ status_from u f t).
Proof.
  revert last t. induction tries as [|u tries IH]; intros last t Hw He H; cbn [tryEach] in H.
  { run H. split_and!; [done | constructor | done |]. intros E. by rewrite E in He. }
  split_run H t1 t2 r H1. apply getStatus_spec in H1 as (Hb & Hd & r' & [= <-] & Hr).
  assert (∀ l, l `sublist_of` (up_ID <$> tries) → begun t1 ++ l `sublist_of` up_ID u :: (up_ID <$> tries)) as Hsub.
  { intros l Hl. destruct Hb as [->| ->]; [by apply sublist_cons | by apply sublist_skip]. }
  destruct r as [[round body]|e].
  - run H. rewrite begun_app, ended_app, Hd. cbn. split_and!; [done | apply Hsub; apply sublist_nil_l | done |].
    intros _. exists u. split; [by left |]. apply (status_from_app u _ [] t1 []), Hr.
  - run_step H. rewrite begun_app, ended_app, begun_cons, ended_cons, Hd. cbn [begun_by ended_by app].
    destruct r.
    + run H. split_and!; [done | apply Hsub; apply sublist_nil_l | done | done].
    + apply IH in H as (Hw' & Hb' & Hd' & Hf); [| done | done]. rewrite Hd'. split_and!; [done | by apply Hsub | done |].
      intros E. destruct (Hf E) as (v & Hv & Hs). exists v. split; [by right |].
      pose proof (status_from_app v f (t1 ++ [existT ACtxErr false]) t [] Hs) as Hs'. by rewrite app_nil_r, <- app_assoc in Hs'.
Qed.

(** a status is fetched from mesh nodes alone, eligible ones that reported
    the round: each is asked at most once, no more of them than the retry
    budget allows, and what is kept is the body one of them answered with 200,
    at the round that body says. *)
Theorem fetch_from_mesh want t f :
  runs (fetchStatus IntN o lastRound want) t (Some f) →
  sf_want f = want ∧ ended t = begun t ∧
  (0 <= ro_RetryBudget o → Z.of_nat (length (begun t)) <= 1 + ro_RetryBudget o) ∧
  (sf_err f = None → ∃ u v cands best class, status_from u f t ∧ existT ASnapshot (cands, best) ∈ t ∧
     v ∈ cands ∧ u = rescored class best (ro_Weights o) v ∧ isExternal v = false ∧ want <= up_LastRound v ∧
     Eligible v class best (ro_SyncTolerance o) = true).
Proof.
  intros H. unfold fetchStatus in H. destruct (Classify _ _ _) as [class|]; [| by run H].
  run_step H. destruct r as [cands best]. split_run H t1 t2 s H1.
  assert (begun t1 = [] ∧ ended t1 = []) as [Hb1 He1].
  { apply idle_run. revert H1. apply (acts_sel _ idle_ordinary). }
  rewrite begun_cons, ended_cons, begun_app, ended_app, Hb1, He1. cbn [begun_by ended_by app].
  destruct s as [s|].
  - apply tryEach_spec in H as (Hw & Hb & He & Hf); [| done | done]. split_and!; [done | done | |].
    + intros HB. pose proof (sublist_length _ _ Hb) as Hl. rewrite length_fmap in Hl. unfold triesOf in Hl.
      destruct ((0 <=? _) && _) eqn:E; [rewrite length_take in Hl; lia | lia].
    + intros E. destruct (Hf E) as (u & Hu & Hs).
      assert (u ∈ sel_Chosen s :: sel_Alternates s) as Hu'.
      { unfold triesOf in Hu. destruct ((0 <=? _) && _); [| done].
        rewrite <- (take_drop (Z.to_nat (1 + ro_RetryBudget o))). apply elem_of_app. by left. }
      destruct (sel_members IntN o _ _ _ _ _ u H1 Hu') as (v & Hv & He' & ->).
      apply list_elem_of_In, filter_In in Hv as [Hv Hc]. apply list_elem_of_In in Hv. apply andb_true_iff in Hc as [Hx Hr].
      exists (rescored class best (ro_Weights o) v), v, cands, best, class. split_and!; try done.
      * pose proof (status_from_app _ f (existT ASnapshot (cands, best) :: t1) t2 [] Hs) as Hs'. by rewrite app_nil_r in Hs'.
      * by left.
      * by apply negb_true_iff in Hx.
      * lia.
  - run H. split_and!; [done | done | intros; cbn; lia | done].
Qed.
(** A fetch ended with what a run of its goroutine gave, and the node that
    answered it was at the round its row in the snapshot said, or past it. *)
Definition fetched_by (op : statusOp) : Prop :=
  match op with
  | OpAsk _ => True
  | OpDone _ f =>
      (∃ t, runs (fetchStatus IntN o lastRound (sf_want f)) t (Some f)) ∧
      ∀ u, sf_upstream f = Some u → up_LastRound u <= sf_round f
  end.

Lemma fetched_honest op : fetched_by op → honest op.
Proof.
  destruct op as [|i f]; [done |]. intros [[t H] Hu] He. apply fetch_from_mesh in H as (_ & _ & _ & Hf).
  destruct (Hf He) as (u & v & cands & best & class & (url & rs & _ & _ & _ & Eu) & _ & _ & -> & _ & Hw & _).
  specialize (Hu _ Eu). simpl in Hu. lia.
Qed.

End FetchLaws.
