(* ===== verification/Tokens.v ===== *)
(** * Tokens: whose token an upstream is sent (internal/app/router.go)

    Every upstream a handler turns to comes from a snapshot of the directory:
    an invariant kept along a run, one lemma per handler ([within]).  So every
    URL is sent the token of the same row, and never the client's. *)
From S2P Require Import Prelude GoStrings GoNet Types Classify Eligible Select Ports Limiter Prog Http Proxy Auth Forwarding Serve Router Runs Answers AnswersServe Discipline Attempts RouterLaws StatusFetch.
From Stdlib Require Import Ascii.
Open Scope Z_scope.
Open Scope mesh_scope.

(** ** Upstreams known to be good *)
Section Within.
Context (G : string → string → Prop).   (* of a URL and a token *)

Definition good (u : Upstream) : Prop := G (up_BaseURL u) (up_Token u).

(** What a snapshot answers is good. *)
Definition snapshot_good (e : Event) : Prop :=
  match e with existT ASnapshot r => Forall good r.1 | _ => True end.

(** Only good upstreams are turned to, with their token alone. *)
Definition sends_good (a : Act) : Prop :=
  match a with
  | AExchange url tok h _ => G url tok ∧ hvalues h "X-Algo-API-Token" = [tok] ∧ hvalues h "X-Forwarded-For" = []
  | AFanOut us => Forall good us
  | AGet _ _ _ _ => False
  | _ => True
  end.

(** m turns to good upstreams only and its result has Q, as long as the
    snapshots it sees are good. *)
Definition within {A} (m : M A) (Q : A → Prop) : Prop :=
  always m (λ t x, Forall snapshot_good t → Forall (λ e : Event, sends_good (projT1 e)) t ∧ ∀ a, x = Some a → Q a).

Lemma within_ret {A} (a : A) (Q : A → Prop) : Q a → within (ret a) Q.
Proof. intros Ha t x H _. run H. split; [done |]. by intros ? [= <-]. Qed.

Lemma within_crash {A} (Q : A → Prop) : within crash Q.
Proof. intros t x H _. by run H. Qed.

Lemma within_bind {A B} (m : M A) (f : A → M B) (Q : A → Prop) (R : B → Prop) :
  within m Q → (∀ a, Q a → within (f a) R) → within (andThen m f) R.
Proof.
  intros Hm Hf t x H Ht. split_run H t1 t2 a H1.
  - apply Forall_app in Ht as [Ht1 Ht2]. destruct (Hm _ _ H1 Ht1) as [Hs Hq]. destruct (Hf a (Hq a eq_refl) _ _ H Ht2) as [Hs2 Hr].
    split; [by apply Forall_app | done].
  - destruct (Hm _ _ H1 Ht) as [Hs _]. by split.
Qed.

Lemma within_mono {A} (m : M A) (Q R : A → Prop) : within m Q → (∀ a, Q a → R a) → within m R.
Proof. intros Hm Hqr t x H Ht. destruct (Hm _ _ H Ht) as [Hs Hq]. split; [done |]. eauto. Qed.

Lemma within_acts {A} (m : M A) : acts sends_good m → within m (λ _, True).
Proof. intros Hm t x H _. by split; [apply Hm in H |]. Qed.

Lemma within_snapshot : within snapshot (λ r, Forall good r.1).
Proof. intros t x H Ht. run H. split; [by constructor |]. intros ? [= <-]. by apply Forall_inv in Ht. Qed.

Lemma within_finally {A} (m : M A) (d : M ()) (Q : A → Prop) : within m Q → within d (λ _, True) → within (finally m d) Q.
Proof.
  intros Hm Hd t x H Ht. apply runs_finally in H as (t1 & t2 & y & z & -> & H1 & H2 & ->). apply Forall_app in Ht as [Ht1 Ht2].
  destruct (Hm _ _ H1 Ht1) as [Hs Hq], (Hd _ _ H2 Ht2) as [Hs2 _]. split; [by apply Forall_app |]. intros a. destruct z; [apply Hq | done].
Qed.

(** *** Calls *)
Lemma ordinary_good a : ordinary a = true → sends_good a.
Proof. by destruct a. Qed.
Lemma stats_good a : keeps_stats a = true → sends_good a.
Proof. by destruct a. Qed.

Create HintDb within.
Local Hint Extern 1 (sends_good _) => exact I : acts.
Local Hint Extern 2 (acts sends_good _) =>
  (first [apply (acts_settled _ ordinary_good) | apply (acts_writeDenial _ ordinary_good) | apply (acts_answerQuota _ ordinary_good)
         | apply (acts_answerFailure _ ordinary_good) | apply (acts_timeLeft _ ordinary_good) | apply (acts_afterAttempt _ ordinary_good)
         | apply (acts_writeFan _ ordinary_good) | apply (acts_collect _ ordinary_good) | apply (acts_collectPending _ ordinary_good)
         | apply (acts_answerFetch _ ordinary_good) | apply (acts_noUpstream _ ordinary_good)]) : acts.

(** One step of a proof that a handler stays within good upstreams; what makes
    ordinary calls only is left to [acts]. *)
Ltac within_step :=
  lazymatch goal with
  | |- within (andThen _ _) _ => eapply within_bind; [| intros ? ?]
  | |- within (ret _) _ => apply within_ret
  | |- within crash _ => apply within_crash
  | |- within snapshot _ => apply within_snapshot
  | |- within (match ?x with _ => _ end) _ => destruct x eqn:?
  | |- within (finally _ _) _ => apply within_finally
  end.
Ltac plain := first [done | eapply within_mono; [apply within_acts; acts_go; fail | done] | apply within_acts; acts_go; fail].
Ltac within_go := repeat (within_step; cbn beta iota in *); eauto with within; try plain.

(** ** Selections *)
Definition sel_good (s : Selection) : Prop := Forall good (sel_Chosen s :: sel_Alternates s).
Definition sels_good (s : option Selection) : Prop := ∀ s', s = Some s' → sel_good s'.

Section Router.
Context (IntN : Z → Z → Z * Z) (o : RouterOptions).

Lemma within_sel cands class best : Forall good cands → within (sel IntN o cands class best) sels_good.
Proof.
  intros Hc t x H _. split; [by apply (acts_sel _ ordinary_good) in H |]. intros s -> s' ->. apply Forall_forall. intros u Hu.
  destruct (sel_members _ _ _ _ _ _ _ u H Hu) as (v & Hv & _ & ->). rewrite Forall_forall in Hc. exact (Hc v Hv).
Qed.

Lemma good_filter f us : Forall good us → Forall good (List.filter f us).
Proof. rewrite !Forall_forall. intros H u [Hu _]%list_elem_of_In%filter_In. apply H. by apply list_elem_of_In. Qed.

Lemma good_take n us : Forall good us → Forall good (take n us).
Proof. apply Forall_take. Qed.

Lemma good_tries s replay : sel_good s → Forall good (triesOf o s replay).
Proof. intros H. unfold triesOf. case_match; case_match; auto using good_take. Qed.

Lemma within_pick class cands best :
  Forall good cands → within (pick IntN o class cands best) (λ r, sels_good r.1.1 ∧ Forall good r.1.2).
Proof.
  intros Hc. unfold pick. eapply within_bind; [by apply within_sel |]. intros s Hs. destruct s as [s|]; [by apply within_ret |].
  eapply within_bind; [apply within_acts; acts_go |]. intros found _. destruct found; cbn [negb]; [| by apply within_ret].
  eapply within_bind; [apply within_snapshot |]. intros [cands' best'] Hc'. cbn [fst] in Hc'.
  eapply within_bind; [by apply within_sel |]. intros s Hs'. by apply within_ret.
Qed.

Lemma within_externalFallback class tried : within (externalFallback IntN o class tried) (λ r, ∀ u, r = Some u → good u).
Proof.
  unfold externalFallback. case_match; [by apply within_ret |].
  eapply within_bind; [apply within_acts; acts_go |]. intros found _. destruct found; cbn [negb]; [| by apply within_ret].
  eapply within_bind; [apply within_snapshot |]. intros [cands best] Hc. cbn [fst] in Hc.
  eapply within_bind; [by apply within_sel, good_filter |]. intros s Hs. apply within_ret. intros u Hu.
  destruct s as [s|]; [| done]. injection Hu as <-. specialize (Hs s eq_refl). by apply Forall_inv in Hs.
Qed.

(** ** Attempts *)
Lemma rewritten_token tg h :
  hvalues (rewritten tg h) "X-Algo-API-Token" = [tg_Token tg] ∧ hvalues (rewritten tg h) "X-Forwarded-For" = [].
Proof.
  unfold rewritten. generalize (outgoing h). intros out. set (h2 := hdel _ "X-Forwarded-For").
  assert (hvalues h2 "X-Algo-API-Token" = [tg_Token tg] ∧ hvalues h2 "X-Forwarded-For" = []) as [E1 E2].
  { unfold h2, hvalues, hdel, hset. by rewrite lookup_delete_ne, lookup_insert_eq, lookup_delete_eq. }
  destruct (isSome _); [done |]. unfold hset, hvalues in *. by rewrite !lookup_insert_ne by done.
Qed.

Lemma within_forward tk req u class retry : good u → within (forward tk req u class retry) (λ _, True).
Proof.
  intros Hu. apply within_acts. unfold forward. acts_go.
  - apply (acts_Forward _ ordinary_good); [apply (acts_target _ ordinary_good) |]. split; [exact Hu | apply rewritten_token].
  - unfold recordAttempt. acts_go.
Qed.

Lemma within_retryEach tk class reset tries last req :
  Forall good tries → within (retryEach tk class reset tries last req) (λ _, True).
Proof.
  revert last req. induction tries as [|u tries IH]; intros last req Hg; cbn [retryEach]; [by apply within_ret |].
  apply Forall_cons in Hg as [Hu Hg]. eapply within_bind; [plain |]. intros go _. destruct go; cbn [negb]; [| by apply within_ret].
  eapply within_bind; [by apply within_forward |]. intros [out req'] _. eapply within_bind; [plain |]. intros [] _; [by apply within_ret | by apply IH].
Qed.

Lemma within_lastResort tk class reset tries last req : within (lastResort IntN o tk class reset tries last req) (λ _, True).
Proof.
  unfold lastResort. eapply within_bind; [apply within_externalFallback |]. intros [u|] Hu; [| by apply within_ret].
  eapply within_bind; [plain |]. intros go _. destruct go; cbn [negb]; [| by apply within_ret].
  eapply within_bind; [by apply within_forward, Hu |]. intros [out req'] _. plain.
Qed.

Lemma within_attempts tk class s req : sel_good s → within (attempts IntN o tk class s req) (λ _, True).
Proof.
  intros Hs. unfold attempts, carryOn. destruct (replayable req) as [[req1 reset] replay].
  eapply within_bind; [apply within_forward; by apply Forall_inv in Hs |]. intros [out req'] _.
  eapply within_bind; [plain |]. intros [] _; [by apply within_ret |].
  eapply within_bind; [apply within_retryEach; pose proof (good_tries s replay Hs) as Hg; destruct (triesOf o s replay); [done | by apply Forall_cons in Hg as [_ ?]] |].
  intros [|last req2] _; [by apply within_ret |]. eapply within_bind; [destruct replay; plain |].
  intros [] _; [apply within_lastResort | by apply within_ret].
Qed.

Lemma within_forwardSelected tk req class s : sel_good s → within (forwardSelected IntN o tk req class s) (λ _, True).
Proof. intros Hs. unfold forwardSelected. eapply within_bind; [by apply within_attempts |]. intros r _. plain. Qed.

Lemma within_relax cands best prev l :
  Forall good cands → within (relax IntN o cands best prev l) (λ r, ∀ s c, r = Some (s, c) → sel_good s).
Proof.
  intros Hc. revert prev. induction l as [|rc l IH]; intros prev; cbn [relax]; [by apply within_ret |].
  case_match; [by apply within_ret |]. eapply within_bind; [by apply within_sel |]. intros [s|] Hs; [| apply IH].
  apply within_ret. intros ?? [= <- _]. by apply Hs.
Qed.

Lemma within_handleDefault tk req class cands best :
  Forall good cands → within (handleDefault IntN o tk req class cands best) (λ _, True).
Proof.
  intros Hc. unfold handleDefault. eapply within_bind; [by apply within_pick |]. intros [[s cands'] best'] [Hs Hc']. cbn [fst snd] in *.
  apply (within_bind _ _ (λ r, ∀ s c, r = Some (s, c) → sel_good s)).
  - destruct s as [s|]; [| by apply within_relax]. apply within_ret. intros ?? [= <- _]. by apply Hs.
  - intros [[s' c]|] Hs'; [apply within_forwardSelected; by eapply Hs' |]. unfold unserved. plain.
Qed.

(** ** Broadcasts, pending lookups and waits *)
Context (codec : BodyCodec).

Lemma capture_inner {A} c (m : M A) t x : runs (capture codec c m) t x → runs m t (fst <$> x).
Proof.
  revert c t. induction m as [a| |a k IH]; intros c t H; cbn [capture] in H; [by run H | by run H |].
  destruct H as (r & t' & -> & H). exists r, t'. split; [done | by eapply IH].
Qed.

Lemma within_capture {A} c (m : M A) Q : within m Q → within (capture codec c m) (λ r, Q r.1).
Proof.
  intros Hm t x H Ht. apply capture_inner in H. destruct (Hm _ _ H Ht) as [Hs Hq]. split; [done |]. intros [a cw] ->. by apply Hq.
Qed.

Lemma good_targets s : sel_good s → Forall good (dedupeByURL (meshFirst (sel_Chosen s :: sel_Alternates s))).
Proof.
  intros Hs. assert (∀ us, Forall good us → Forall good (meshFirst us)) as Hm.
  { intros us Hu. unfold meshFirst. pose proof (good_filter (λ u, negb (isExternal u)) us Hu). by destruct (List.filter _ us). }
  apply Hm in Hs. revert Hs. generalize (meshFirst (sel_Chosen s :: sel_Alternates s)) as us. unfold dedupeByURL. generalize (∅ : gset string) as seen.
  intros seen us. revert seen. induction us as [|u us IH]; intros seen Hu; cbn [dedupe]; [done |]. apply Forall_cons in Hu as [Hu Hus].
  destruct (bool_decide _); [by apply IH | constructor; [done | by apply IH]].
Qed.

Lemma within_handleBroadcast tk req class cands best :
  Forall good cands → within (handleBroadcast codec IntN o tk req class cands best) (λ _, True).
Proof.
  intros Hc. unfold handleBroadcast. eapply within_bind; [by apply within_pick |]. intros [[s cands'] best'] [Hs Hc']. cbn [fst snd] in *.
  destruct s as [s|]; [| plain]. specialize (Hs s eq_refl). destruct (ro_MultiBroadcast o).
  - unfold multiBroadcast. destruct (readAll _ _) as [body []]; [plain |].
    eapply within_bind; [apply within_acts, acts_tell; by apply good_targets |]. intros _ _.
    eapply within_bind; [plain |]. intros [|f un] _; [by apply within_ret |]. unfold afterCollect.
    eapply within_bind; [destruct (_ =? _)%nat; plain |]. intros time _.
    eapply within_bind; [| intros over _; plain]. destruct time; [| by apply (within_ret _ (λ _, True))]. unfold broadcastExternal.
    eapply within_bind; [apply within_externalFallback |]. intros [u|] Hu; [| by apply within_ret].
    eapply within_bind; [plain |]. intros [] _; cbn [negb]; [| by apply within_ret].
    eapply within_bind; [apply within_capture, within_forward; by apply Hu |]. intros [[out ?] cw] _. plain.
  - eapply within_bind; [by apply within_capture, within_forwardSelected |]. intros [[] cw] _. plain.
Qed.

Lemma good_sorted us : Forall good us → Forall good (sortByRoundDesc us).
Proof. unfold sortByRoundDesc. by rewrite insertion_sort_perm. Qed.

Lemma within_pinnedLookup tk req class order :
  Forall good order → within (pinnedLookup tk req class order) (λ r, ∀ p order' req', r = Some (p, order', req') → Forall good order').
Proof.
  intros Hg. unfold pinnedLookup. eapply within_bind; [apply within_acts, acts_ask; exact I |]. intros [id|] _.
  2: { apply within_ret. by intros ??? [= _ <- _]. }
  destruct (list_find _ order) as [[i u]|] eqn:E; [| apply within_ret; by intros ??? [= _ <- _]].
  apply list_find_Some in E as (Hi & _). eapply within_bind; [apply within_forward; rewrite Forall_lookup in Hg; by eapply Hg |].
  intros [out req'] _. eapply within_bind; [plain |]. intros [] _; apply within_ret; [done |]. intros ??? [= _ <- _].
  apply Forall_app. split; [by apply Forall_take | by apply Forall_drop].
Qed.

Lemma within_handlePending tk req class cands best :
  Forall good cands → within (handlePending codec IntN o tk req class cands best) (λ _, True).
Proof.
  intros Hc. unfold handlePending. eapply within_bind; [by apply within_pick |]. intros [[s cands'] best'] [Hs Hc']. cbn [fst snd] in *.
  destruct s as [s|]; [| plain]. specialize (Hs s eq_refl).
  eapply within_bind; [by apply within_pinnedLookup, good_sorted |]. intros [[[pinned order] req']|] Ho; [| by apply within_ret].
  specialize (Ho _ _ _ eq_refl). destruct order as [|u us]; [plain |]. unfold askAll.
  eapply within_bind; [by apply within_acts, acts_tell |]. intros _ _. unfold answerPending. plain.
Qed.

Lemma within_handleWait req class after cands best :
  Forall good cands → within (handleWait IntN o req class after cands best) (λ _, True).
Proof.
  intros Hc. unfold handleWait. destruct (ro_Balancer o).
  - unfold handleBalancerWait. eapply within_bind; [plain |]. intros [round ?] _. eapply within_bind; [plain |].
    intros [] _; [by apply within_ret |]. eapply within_bind; [plain |]. intros f _. destruct (isSome _); [| plain].
    eapply within_bind; [apply within_snapshot |]. intros [cands' best'] Hc'. by apply within_handleDefault.
  - destruct (localWait _ _ _ _); [unfold writeStatusBody; plain |]. unfold handlePeerWait. case_match; [by apply within_handleDefault |].
    eapply within_bind; [plain |]. intros ? _. eapply within_bind; [plain |]. intros [round timedOut] _. eapply within_bind; [plain |].
    intros [] _; [by apply within_ret |]. eapply within_bind; [apply within_snapshot |]. intros [cands' best'] Hc'. cbn [fst] in Hc'.
    destruct (negb timedOut).
    + eapply within_bind; [by apply within_sel, good_filter |]. intros [s|] Hs; [by apply within_forwardSelected, Hs | by apply within_handleDefault].
    + eapply within_bind; [plain |]. intros f _. destruct (isSome _); [by apply within_handleDefault | plain].
Qed.

Lemma within_dispatch tk req class cands best :
  Forall good cands → within (dispatch IntN codec o tk req class cands best) (λ _, True).
Proof.
  intros Hc. unfold dispatch. eapply within_bind; [plain |]. intros _ _.
  destruct (if rc_SimulateLimits class then _ else None); [plain |]. destruct (_ && anySimulateLimits cands); [plain |].
  destruct (rc_WaitAfter class); [by apply within_handleWait |]. eapply within_bind; [destruct tk; [destruct (rc_Simulate class) |]; plain |].
  intros _ _. destruct (rc_Broadcast class); [by apply within_handleBroadcast |].
  destruct (_ <>s _); [by apply within_handlePending | by apply within_handleDefault].
Qed.

Lemma within_handle sha256 metrics req : within (Router.handle IntN codec sha256 o metrics req) (λ _, True).
Proof.
  assert (∀ req class, within (serve IntN codec sha256 o metrics req class) (λ _, True)) as Hs.
  { intros rq class. unfold serve. case_match; [unfold preflight; plain |]. destruct (authorize _ _ _ _) as [id|]; [| plain].
    case_match; [unfold serveAgent, serveHealth; plain |]. eapply within_bind; [apply within_snapshot |]. intros [cands best] Hc. cbn [fst] in Hc.
    destruct (id_Exempt id); [by apply within_dispatch |]. eapply within_bind; [plain |]. intros [tk|d] _; [| plain].
    apply within_finally; [| plain]. eapply within_bind; [plain |]. intros _ _. by apply within_dispatch. }
  unfold Router.handle. case_match; [| apply within_crash]. case_match; [| apply Hs]. destruct (refineSimulate _ _ _) as [[]|]; [apply Hs | plain].
Qed.
End Router.
End Within.

(** ** Every exchange *)

(** A row of a snapshot the run saw. *)
Definition listed_in (t : Trace) (url tok : string) : Prop :=
  ∃ cands best u, existT ASnapshot (cands, best) ∈ t ∧ u ∈ cands ∧ up_BaseURL u = url ∧ up_Token u = tok.

Lemma snapshots_listed t : Forall (snapshot_good (listed_in t)) t.
Proof.
  apply Forall_forall. intros [[] r] Hin; try done. cbn. destruct r as [cands best]. apply Forall_forall. intros u Hu. by exists cands, best, u.
Qed.

(** C9: every upstream is only ever sent its own token.  An exchange through
    the proxy goes to a row of a snapshot the request took, at that row's URL,
    and carries exactly that row's token in X-Algo-API-Token, whatever the
    client sent, and no X-Forwarded-For; a fan-out is to rows of such snapshots,
    and each of its goroutines asks its own row's URL with its own token; the
    status fetch made for waiters asks rows of its snapshot, each with its own
    token; and handlers make no other requests. *)
Theorem upstream_token IntN codec sha256 o metrics lastRound :
  (∀ req t x, runs (ServeHTTP IntN codec sha256 o metrics req) t x →
     (∀ url tok h b r, existT (AExchange url tok h b) r ∈ t →
        listed_in t url tok ∧ hvalues h "X-Algo-API-Token" = [tok] ∧ hvalues h "X-Forwarded-For" = []) ∧
     (∀ us r u, existT (AFanOut us) r ∈ t → u ∈ us → listed_in t (up_BaseURL u) (up_Token u)) ∧
     (∀ url tok ctype b r, existT (AGet url tok ctype b) r ∉ t)) ∧
  (∀ req body u class t x url tok ctype b r, runs (fanOne req body u class) t x → existT (AGet url tok ctype b) r ∈ t →
     url = trim_suffix "/" (up_BaseURL u) +:+ rq_RequestURI req ∧ tok = up_Token u ∧ b = body) ∧
  (∀ want t x url tok ctype b r, runs (fetchStatus IntN o lastRound want) t x → existT (AGet url tok ctype b) r ∈ t →
     ∃ base, url = trim_suffix "/" base +:+ "/v2/status" ∧ listed_in t base tok).
Proof.
  split_and!.
  - intros req t x H. apply ServeHTTP_runs in H as (t0 & y & r1 & r2 & H & _ & Hs).
    destruct (within_handle (listed_in t0) IntN o codec sha256 metrics req t0 y H (snapshots_listed t0)) as [Hg _].
    assert (∀ e : Event, header_only e = false → e ∈ t ↔ e ∈ substance t) as Hsub.
    { intros e He. unfold substance. rewrite !list_elem_of_In, filter_In, He. by split; [| intros []]. }
    assert (∀ e : Event, header_only e = false → e ∈ t0 → e ∈ t) as Hin.
    { intros e He Hi. apply (Hsub e He). rewrite Hs. right. apply elem_of_app. left. unfold substance.
      rewrite list_elem_of_In, filter_In, He. split; [by apply list_elem_of_In | done]. }
    assert (∀ (a : Act) r, match a with AExchange _ _ _ _ | AFanOut _ | AGet _ _ _ _ => True | _ => False end →
              existT a r ∈ t → sends_good (listed_in t0) a) as Hev.
    { intros a r Ha Hi. apply Hsub in Hi; [| by destruct a]. rewrite Hs in Hi. apply elem_of_cons in Hi as [E|Hi]; [by simplify_eq |].
      apply elem_of_app in Hi as [Hi|Hi]; [| apply list_elem_of_singleton in Hi; by simplify_eq].
      apply list_elem_of_In, filter_In in Hi as [Hi _]. rewrite Forall_forall in Hg. apply (Hg (existT a r)). by apply list_elem_of_In. }
    assert (∀ url tok, listed_in t0 url tok → listed_in t url tok) as Hup.
    { intros url tok (cands & best & u & Hi & Hu). exists cands, best, u. split; [by apply Hin | done]. }
    split_and!.
    + intros url tok h b r Hi. apply Hev in Hi as (H1 & H2); [| done]. by split; [apply Hup |].
    + intros us r u Hi Hu. apply Hev in Hi; [| done]. apply Hup. simpl in Hi. rewrite Forall_forall in Hi. by apply Hi.
    + intros url tok ctype b r Hi. by apply Hev in Hi.
  - intros req body u class t x url tok ctype b r H Hi. unfold fanOne in H.
    assert (acts (λ a, match a with AGet url tok _ b => url = trim_suffix "/" (up_BaseURL u) +:+ rq_RequestURI req ∧ tok = up_Token u ∧ b = body
                       | _ => True end) (fanOne req body u class)) as Ha by (unfold fanOne; acts_go; done).
    apply Ha in H. rewrite Forall_forall in H. exact (H _ Hi).
  - intros want t x url tok ctype b r H Hi. unfold fetchStatus in H. destruct (Classify _ _ _) as [class|]; [| run H; by apply elem_of_nil in Hi].
    run_step H. destruct r0 as [cands best]. set (t' := existT ASnapshot (cands, best) :: t0) in *.
    assert (∀ us, Forall (λ u, ∃ v, v ∈ cands ∧ up_BaseURL u = up_BaseURL v ∧ up_Token u = up_Token v) us → ∀ last,
      acts (λ a, match a with AGet url tok _ _ => ∃ base, url = trim_suffix "/" base +:+ "/v2/status" ∧ listed_in t' base tok | _ => True end)
           (tryEach lastRound class want us last)) as Hv.
    { induction us as [|u us IH]; intros Hus last; cbn [tryEach]; [apply acts_ret |]. apply Forall_cons in Hus as [(v & Hv & E1 & E2) Hus].
      apply acts_bind; [unfold getStatus; acts_go; try done | intros [[round body]|e]; [apply acts_ret |]].
      - exists (up_BaseURL u). split; [done |]. exists cands, best, v. split_and!; [by left | done | done | done].
      - apply acts_bind; [by apply (acts_ask _ ACtxErr) |]. intros []; [apply acts_ret | by apply IH]. }
    split_run H t1 t2 s H1.
    + assert (∀ e : Event, e ∈ t1 → match projT1 e with AGet _ _ _ _ => False | _ => True end) as Hno.
      { assert (acts (λ a, match a with AGet _ _ _ _ => False | _ => True end) (sel IntN o (atRound want cands) class best)) as Ha
          by (apply acts_sel; by intros []). apply Ha in H1. by rewrite Forall_forall in H1. }
      apply elem_of_cons in Hi as [E|Hi]; [by simplify_eq |]. apply elem_of_app in Hi as [Hi|Hi]; [by apply Hno in Hi |].
      destruct s as [s|]; [| run H; by apply elem_of_nil in Hi]. eapply Hv in H; [rewrite Forall_forall in H; exact (H _ Hi) |].
      apply Forall_forall. intros u Hu. assert (u ∈ sel_Chosen s :: sel_Alternates s) as Hu'.
      { unfold triesOf in Hu. destruct ((0 <=? _) && _); [| done].
        rewrite <- (take_drop (Z.to_nat (1 + ro_RetryBudget o))). apply elem_of_app. by left. }
      destruct (sel_members _ _ _ _ _ _ _ u H1 Hu') as (v & Hin & _ & ->). exists v. split; [| done].
      apply list_elem_of_In, filter_In in Hin as [Hin _]. by apply list_elem_of_In.
    + assert (acts (λ a, match a with AGet _ _ _ _ => False | _ => True end) (sel IntN o (atRound want cands) class best)) as Ha
        by (apply acts_sel; by intros []). apply Ha in H1. rewrite Forall_forall in H1.
      apply elem_of_cons in Hi as [E|Hi]; [by simplify_eq | destruct (H1 _ Hi)].
Qed.
