(* ===== verification/RouterWitness.v ===== *)
(** * RouterWitness: requests of a small mesh, run call by call

    A concrete environment answers the calls of a handler; [exec] computes
    the run, and each theorem about the request path is applied to one. *)
From S2P Require Import Prelude GoFloat GoStrings GoNet GoTime Types Classify Eligible Select Endpoint Ports StatsBook Limiter Prog Http Proxy Auth AuthLaws Forwarding Serve Router Runs Answers AnswersServe Discipline Attempts Inflight RouterLaws FanLaws StatusFetch Tokens.
Open Scope Z_scope.
Open Scope mesh_scope.

(** ** The mesh *)
Definition sampleCodec : BodyCodec :=
  mkBodyCodec (λ p, match p with PBytes b => b | _ => "{}"%string end) (λ _, None) (λ _, None)
    (λ b, if b =s "" then None else Some "TX"%string) (λ _, None) (λ _, None).

Definition sampleOptions : RouterOptions :=
  routerDefaults (mkRouter ModeLoadBalancer false "" "" 4 0 0 0 0 0 2 false DefaultWeights (Some sampleIdentify)).

Definition node1 : Upstream := (samplePeer "n1" 100 stockCaps) <| up_BaseURL := "http://n1:8080" |> <| up_Token := "t1" |>.
Definition node2 : Upstream := (samplePeer "n2" 99 stockCaps) <| up_BaseURL := "http://n2:8080" |> <| up_Token := "t2" |>.

Definition get (path : string) : Request := mkRequest "GET" path "" path ∅ "198.51.100.4:4711" noBody 0 true.

(** ** The environment: two nodes, of which the ones in [down] answer 503;
    the limiter admits under ticket 7 *)
Definition exchange (r : result failure Response) (b : ReqBody) : Exchange := mkExchange [] r b.

Definition mesh (down : list string) (whole : bool) (a : Act) : Resp a :=
  match a with
  | ASnapshot => ([node1; node2], 100)
  | ARnd => Some 0
  | AExchange url _ _ b => exchange (Ok (mkResponse (if elem url down then 503 else 200) ∅)) b
  | ACopyBody => ("body"%string, whole)
  | AAdmit _ _ _ => Ok 7%nat
  | b => calm b
  end.

Definition runOf {A} (e : ∀ a : Act, Resp a) (m : M A) : Trace * option A := exec (λ _, e) [] m.

Lemma runOf_runs {A} e (m : M A) t x : runOf e m = (t, x) → runs m t x.
Proof. intros H. unfold runOf in H. pose proof (exec_runs (λ _, e) m []) as Hr. by rewrite H in Hr. Qed.

Lemma runOf_runs' {A} e (m : M A) : runs m (runOf e m).1 (runOf e m).2.
Proof. apply exec_runs. Qed.

Definition serveSample (o : RouterOptions) (req : Request) : M statusWriter :=
  ServeHTTP counterIntN sampleCodec (λ s, s) o true req.

(** ** Every request *)
Definition answeredRun : Trace * option statusWriter := runOf (mesh [] true) (serveSample sampleOptions (get "/v2/status")).

Lemma request_answered_once_witness :
  runs (serveSample sampleOptions (get "/v2/status")) answeredRun.1 answeredRun.2 ∧
  isSome answeredRun.2 = true ∧ excused answeredRun.1 = false ∧ answers answeredRun.1 = 1%nat.
Proof.
  assert (H : runs (serveSample sampleOptions (get "/v2/status")) answeredRun.1 answeredRun.2) by apply runOf_runs'.
  destruct (request_answered_once counterIntN sampleCodec (λ s, s) sampleOptions true _ _ _ H) as [_ Hx].
  split_and!; [done | by vm_compute | by vm_compute |]. destruct Hx as [Hx|Hx]; [by vm_compute | done | by vm_compute in Hx].
Defined.

(** A client that must present a token and does not. *)
Definition lockedOptions : RouterOptions := sampleOptions <| ro_RateLimit := None |> <| ro_ClientToken := "secret" |>.

Definition classOf (req : Request) : RequestClass := default zeroClass (snd <$> classified sampleCodec req).

Lemma refused_reaches_nothing_witness :
  calls (runOf (mesh [] true) (serveSample lockedOptions (get "/v2/status"))).1 =
  [AInflight 1; AWrite (WHead 401); AWrite (WBody (PMessage "Invalid API Token")); AInflight (-1)].
Proof.
  apply (refused_reaches_nothing counterIntN sampleCodec (λ s, s) lockedOptions true (get "/v2/status") (get "/v2/status")
           (classOf (get "/v2/status")) 401 "Invalid API Token" _ (runOf (mesh [] true) (serveSample lockedOptions (get "/v2/status"))).2).
  - by vm_compute.
  - by vm_compute.
  - apply runOf_runs'.
Defined.

Lemma billing_closed_witness :
  admitted answeredRun.1 = [7%nat] ∧ closed answeredRun.1 = [7%nat] ∧ rc_Agent (classOf (get "/v2/status")) = false.
Proof.
  destruct (billing_closed counterIntN sampleCodec (λ s, s) sampleOptions true (get "/v2/status") (get "/v2/status")
              (classOf (get "/v2/status")) answeredRun.1 answeredRun.2) as (H1 & H2 & H3).
  - by vm_compute.
  - apply runOf_runs'.
  - assert (admitted answeredRun.1 = [7%nat]) as Ha by (by vm_compute). rewrite H1. split_and!; [done | done |].
    by vm_compute.
Defined.

(** The exchanges of a run. *)
Definition exchange_in (e : Event) : option (string * string * Header * ReqBody) :=
  match e with existT (AExchange url tok h b) _ => Some (url, tok, h, b) | _ => None end.

Lemma first_exchange t url tok h b :
  head (omap exchange_in t) = Some (url, tok, h, b) → ∃ r, existT (AExchange url tok h b) r ∈ t.
Proof.
  intros H. assert ((url, tok, h, b) ∈ omap exchange_in t) as Hin by (destruct (omap _ _); simplify_eq/=; by left).
  apply list_elem_of_omap in Hin as ([[] r] & Hin & E); simplify_eq/=. by exists r.
Qed.

(** A client with a token of its own, which claims to be a proxy. *)
Definition claiming : Request :=
  (get "/v2/status") <| rq_Header := {["X-Algo-API-Token" := ["secret"]; "X-Forwarded-For" := ["8.8.8.8"]]}%string |>.

Definition claimingRun : Trace * option statusWriter := runOf (mesh [] true) (serveSample sampleOptions claiming).

Lemma upstream_token_witness :
  ∃ h b, head (omap exchange_in claimingRun.1) = Some ("http://n1:8080"%string, "t1"%string, h, b) ∧
    hvalues h "X-Algo-API-Token" = ["t1"%string] ∧ hvalues h "X-Forwarded-For" = [] ∧
    listed_in claimingRun.1 "http://n1:8080" "t1".
Proof.
  assert (Hs : (λ x : string * string * Header * ReqBody, x.1.1) <$> head (omap exchange_in claimingRun.1) =
               Some ("http://n1:8080"%string, "t1"%string)) by (vm_compute; reflexivity).
  destruct (head (omap exchange_in claimingRun.1)) as [[[[url tok] h] b]|] eqn:E; [| discriminate Hs].
  injection Hs as -> ->. exists h, b. destruct (first_exchange _ _ _ _ _ E) as [r Hin]. split; [done |].
  destruct (upstream_token counterIntN sampleCodec (λ s, s) sampleOptions true (λ _, None)) as [H _].
  destruct (H claiming claimingRun.1 claimingRun.2 (runOf_runs' _ _)) as [Hx _].
  destruct (Hx "http://n1:8080"%string "t1"%string h b r Hin) as (H1 & H2 & H3). exact (conj H2 (conj H3 H1)).
Defined.

(** ** Attempts *)
Definition both : Selection := mkSelection node1 [node2] 1.

Definition retryRun : Trace * option () :=
  runOf (mesh ["http://n1:8080"%string] true) (forwardSelected counterIntN sampleOptions None (get "/v2/status") zeroClass both).


(** node1 says 103 and then breaks off. *)
Definition hinting (a : Act) : Resp a :=
  match a with
  | AExchange _ _ _ b => mkExchange [(103, ∅)] (Err unreachable) b
  | b => mesh [] true b
  end.

Definition hintedRun : Trace * option () :=
  runOf hinting (forwardSelected counterIntN sampleOptions None (get "/v2/status") zeroClass both).

Definition fails_earlyb (e : Event) : bool :=
  match e with
  | existT (AExchange _ _ _ _) x =>
      existsb (λ i, informational i.1) (xc_Interim x) &&
      match xc_Result x with Err _ => true | Ok r => (rs_StatusCode r =? 502) || (rs_StatusCode r =? 503) end
  | _ => true
  end.

Lemma fails_early_dec t : forallb fails_earlyb t = true → Forall fails_early t.
Proof.
  intros H. apply Forall_forall. intros [a r] Hin. apply list_elem_of_In in Hin.
  apply (proj1 (forallb_forall _ _) H) in Hin. destruct a; simpl in *; try done.
  apply andb_true_iff in Hin as [-> Hin]. split; [done |]. destruct (xc_Result r); [lia | done].
Qed.

Lemma informational_ends_attempts_witness :
  answers hintedRun.1 = O ∧ begun hintedRun.1 = ["n1"%string] ∧ excused hintedRun.1 = true.
Proof.
  destruct (informational_ends_attempts counterIntN sampleOptions None (get "/v2/status") zeroClass both hintedRun.1) as [H1 H2].
  - by vm_compute.
  - apply fails_early_dec. by vm_compute.
  - assert (hintedRun.2 = Some ()) as <- by (by vm_compute). apply runOf_runs'.
  - split_and!; [done | done | by vm_compute].
Defined.

(** The copy of node1's answer breaks off. *)
Definition abortedRun : Trace * option (Outcome * Request) :=
  runOf (mesh [] false) (forward None (get "/v2/status") node1 zeroClass []).

Lemma aborted_copy_leaks_witness :
  ∃ b fs, bookRun (NewStatsBook sampleBreaker, []) (bookOps 5 0 abortedRun.1 ++ [OpBegin "n2"; OpFinish 1]) = Some (b, fs) ∧
    1 <= st_Inflight (Snapshot b 9 "n1").
Proof.
  assert (H : runs (forward None (get "/v2/status") node1 zeroClass []) abortedRun.1 None).
  { assert (abortedRun.2 = None) as <- by (by vm_compute). apply runOf_runs'. }
  refine (aborted_copy_leaks sampleBreaker [] [OpBegin "n2"; OpFinish 1] None (get "/v2/status") node1 zeroClass [] abortedRun.1 5 9
            _ _ _ H _ _); by vm_compute.
Defined.

(** ** Fan-outs: the results come in the order given *)
Definition answering (rs : list fanResult) (h : Trace) (a : Act) : Resp a :=
  match a with
  | ARecv => (O, nth (length (received h)) rs (calm ARecv).2)
  | ASelect _ => match rs !! length (received h) with Some r => GotResult O r | None => GotGrace end
  | b => mesh [] true b
  end.

Definition said (u : Upstream) (code : Z) (body : string) : fanResult := mkFan u (Some (mkResponse code ∅)) body None.
Definition failed (u : Upstream) : fanResult := mkFan u None "" (Some unreachable).

Definition fanRun {A} (rs : list fanResult) (m : M A) : Trace * option A := exec (answering rs) [] m.
Lemma fanRun_runs {A} rs (m : M A) : runs m (fanRun rs m).1 (fanRun rs m).2.
Proof. apply exec_runs. Qed.

(** node2 fails first, then node1 rejects the transaction. *)
Definition rejectedRun : Trace * option () :=
  fanRun [failed node2; said node1 400 "no"] (multiBroadcast sampleCodec counterIntN sampleOptions None (get "/v2/transactions") zeroClass both).

Lemma broadcast_best_answer_witness :
  fanned rejectedRun.1 = [[node1; node2]] ∧ codes rejectedRun.1 = [400] ∧
  ∃ targets, broadcast_to (sel_Chosen both :: sel_Alternates both) targets ∧ fanned rejectedRun.1 = [targets] ∧
  ((∃ rs r, received rejectedRun.1 = rs ++ [r] ∧ success r = true ∧ Forall (λ r, success r = false) rs ∧
     relays r (writes rejectedRun.1) ∧ pins rejectedRun.1 = [(txIDFrom sampleCodec (fan_body r), up_ID (fan_u r))] ∧ begun rejectedRun.1 = []) ∨
   (length (received rejectedRun.1) = length targets ∧ Forall (λ r, success r = false) (received rejectedRun.1) ∧
    ∃ b, best_result (received rejectedRun.1) b ∧
      (begun rejectedRun.1 = [] ∧ pins rejectedRun.1 = [] ∧ best_relayed b (writes rejectedRun.1) ∨
       (∀ r, r ∈ received rejectedRun.1 → ¬ answered_for r) ∧
       ∃ e, begun rejectedRun.1 = [up_ID e] ∧ up_Kind e = KindExternal ∧ ∀ u, u ∈ targets → up_Kind u ≠ KindExternal))).
Proof.
  split; [by vm_compute | split; [by vm_compute |]].
  apply (broadcast_best_answer sampleCodec counterIntN sampleOptions None (get "/v2/transactions") zeroClass both rejectedRun.1); [by vm_compute |].
  assert (rejectedRun.2 = Some ()) as <- by (by vm_compute). apply fanRun_runs.
Defined.

(** node2 does not know the transaction, node1 still has it in its pool. *)
Definition pendingClass : RequestClass := zeroClass <| rc_PendingID := "TX" |>.

Definition pooledRun : Trace * option () :=
  fanRun [said node2 404 ""; said node1 200 "{}"] (askAll sampleCodec pendingClass [node1; node2]).

Lemma pending_best_answer_witness :
  pins pooledRun.1 = [("TX", "n1")]%string ∧
  ∃ c, best_of sampleCodec (positions [node1; node2]) (received pooledRun.1) c ∧
    (length (received pooledRun.1) = 2%nat ∨ pendingInPool <= pendingRank sampleCodec c) ∧
    codes pooledRun.1 = final (if (pendingRank sampleCodec c =? pendingFailed) && isSome (fan_err c) then 502 else fan_status c) ∧
    pins pooledRun.1 = if (pendingRank sampleCodec c =? pendingInPool) || (pendingRank sampleCodec c =? pendingPoolError)
             then [("TX"%string, up_ID (fan_u c))] else [].
Proof.
  split; [by vm_compute |].
  apply (pending_best_answer sampleCodec pendingClass [node1; node2] pooledRun.1); [done | by vm_compute | by vm_compute |].
  assert (pooledRun.2 = Some ()) as <- by (by vm_compute). apply fanRun_runs.
Defined.

(** ** Endpoints *)
Definition someNode : NodeRecord := mkNodeRecord "n9" "" "net" ["http://n9:8080"] "" (mkAgentInfo [] "" "") 0 [] None 0 0.
Definition badNode : Upstream := node1 <| up_BaseURL := "http://[::1" |>.

Lemma bad_endpoint_panics_witness :
  Validate (someNode <| nr_Endpoints := ["http://[::1"%string] |>) = Ok tt ∧
  (runOf (mesh [] true) (fanOne (get "/v2/transactions/pending/TX") "" badNode zeroClass)).2 = None.
Proof.
  destruct (bad_endpoint_panics someNode "http://[::1" "" (get "/v2/transactions/pending/TX") "" badNode zeroClass
              (runOf (mesh [] true) (fanOne (get "/v2/transactions/pending/TX") "" badNode zeroClass)).1
              (runOf (mesh [] true) (fanOne (get "/v2/transactions/pending/TX") "" badNode zeroClass)).2) as (H1 & _ & H3).
  - by vm_compute.
  - done.
  - split; [done |]. apply H3; [done | by vm_compute | apply runOf_runs'].
Defined.

(** ** Statuses *)
Definition fetched (want round : Z) : statusFetch := mkFetch want round (Some node1) "{}" None.

(** A fetch for round 5, one for 7 started while it ran, and the first to end
    being the later. *)
Definition statusOps : list statusOp := [OpAsk 5; OpAsk 4; OpAsk 7; OpDone 1 (fetched 7 8)].

Definition cacheAfter (ops : list statusOp) : StatusCache := default newCache (statusRun newCache ops).

Lemma status_latest_witness :
  ∃ f f', cached (cacheAfter statusOps) = Some f ∧ cached (cacheAfter (statusOps ++ [OpDone 0 (fetched 5 6)])) = Some f' ∧
    sf_round f <= sf_round f'.
Proof.
  destruct (status_latest statusOps [OpDone 0 (fetched 5 6)] (cacheAfter statusOps) (cacheAfter (statusOps ++ [OpDone 0 (fetched 5 6)]))) as [H _];
    [reflexivity | reflexivity |].
  destruct (H (fetched 7 8)) as (_ & _ & f' & Hf' & Hle); [reflexivity |]. exists (fetched 7 8), f'. split_and!; [reflexivity | exact Hf' | exact Hle].
Defined.

Lemma asks_coalesced_witness :
  ∃ ws, sc_heap (cacheAfter (OpAsk <$> [5; 4; 5; 7; 6; 7])) =
    sc_heap newCache ++ ((λ w, (mkFetch w 0 None "" None, false)) <$> ws) ∧ StronglySorted Z.lt ws ∧ ws ⊆ [5; 4; 5; 7; 6; 7].
Proof.
  destruct (asks_coalesced [5; 4; 5; 7; 6; 7] newCache (cacheAfter (OpAsk <$> [5; 4; 5; 7; 6; 7]))) as (ws & H1 & H2 & H3 & _).
  - exact newCache_wf.
  - reflexivity.
  - exists ws. by split_and!.
Defined.

(** node1 answers the status request with a body at a round. *)
Definition statusEnv (a : Act) : Resp a :=
  match a with
  | AGet _ _ _ _ => (Some (mkResponse 200 ∅), "{}"%string, None)
  | b => mesh [] true b
  end.

Definition fetchRun (round : Z) : Trace * option statusFetch :=
  runOf statusEnv (fetchStatus counterIntN sampleOptions (λ _, Some round) 100).

Lemma fetch_from_mesh_witness :
  ∃ f, (fetchRun 100).2 = Some f ∧ sf_err f = None ∧
    ∃ u v cands best class, status_from (λ _, Some 100) u f (fetchRun 100).1 ∧ existT ASnapshot (cands, best) ∈ (fetchRun 100).1 ∧
      v ∈ cands ∧ u = rescored class best (ro_Weights sampleOptions) v ∧ isExternal v = false ∧ 100 <= up_LastRound v ∧
      Eligible v class best (ro_SyncTolerance sampleOptions) = true.
Proof.
  destruct (fetchRun 100).2 as [f|] eqn:E; [| by vm_compute in E]. exists f.
  assert (H : runs (fetchStatus counterIntN sampleOptions (λ _, Some 100) 100) (fetchRun 100).1 (Some f)) by (rewrite <- E; apply runOf_runs').
  destruct (fetch_from_mesh counterIntN sampleOptions (λ _, Some 100) 100 (fetchRun 100).1 f H) as (_ & _ & _ & Hf).
  assert (sf_err f = None) as He by (vm_compute in E; by simplify_eq). split_and!; [done | done | by apply Hf].
Defined.

(** What a fetch for the round w ends with when nodes answer at 101. *)
Definition fetchedAt (w : Z) : statusFetch :=
  default (fetched w 0) (runOf statusEnv (fetchStatus counterIntN sampleOptions (λ _, Some 101) w)).2.

Lemma fetchedAt_by i w : w = 5 ∨ w = 7 → fetched_by counterIntN sampleOptions (λ _, Some 101) (OpDone i (fetchedAt w)).
Proof.
  intros Hw. split.
  - exists (runOf statusEnv (fetchStatus counterIntN sampleOptions (λ _, Some 101) w)).1.
    assert (E : (runOf statusEnv (fetchStatus counterIntN sampleOptions (λ _, Some 101) w)).2 = Some (fetchedAt w) ∧ sf_want (fetchedAt w) = w)
      by (destruct Hw as [-> | ->]; split; vm_compute; reflexivity).
    destruct E as [E ->]. rewrite <- E. apply runOf_runs'.
  - intros u Hu. assert (sf_round (fetchedAt w) = 101 ∧ up_LastRound <$> sf_upstream (fetchedAt w) = Some 100) as [-> Hr]
      by (destruct Hw as [-> | ->]; split; vm_compute; reflexivity).
    rewrite Hu in Hr. injection Hr as ->. lia.
Qed.


(** statusAt promises a body "at round or later"; nothing compares the body's
    round with the one wanted, so a node behind its own heartbeat is believed. *)
Example status_below_round_served :
  ∃ t f, runs (fetchStatus counterIntN sampleOptions (λ _, Some 90) 100) t (Some f) ∧ sf_err f = None ∧ sf_round f < sf_want f.
Proof.
  exists (fetchRun 90).1. destruct (fetchRun 90).2 as [f|] eqn:E; [| by vm_compute in E]. exists f.
  split; [rewrite <- E; apply runOf_runs' |]. vm_compute in E. by simplify_eq.
Qed.
