(* ===== verification/RegistrySync.v ===== *)
(** * RegistrySync: keeping the registry and this node's record in step
    (internal/app/registrysync.go)

    The service reads the registry on a timer, caches it, hands it to the
    directory and publishes this node's own record.  Its loop only ends with
    its context, so it is given as its first [n] turns, for every n.  The
    registry, the cache, the directory and the clock answer its calls
    ([RAct]); the channel that [RefreshNow] kicks holds one kick.  Logs and
    metrics are not modelled.  [refreshes] lists the calls of one refresh;
    [settled] is when the node is registered, read off the calls alone. *)
From S2P Require Import Prelude GoTime Types Ports Prog.
Open Scope Z_scope.

Record RegistrySyncOptions := mkSyncOptions { so_Refresh : Duration; so_AutoRegister : bool }.

(** NewRegistrySync's default. *)
Definition syncDefaults (o : RegistrySyncOptions) : RegistrySyncOptions :=
  mkSyncOptions (if so_Refresh o =? 0 then 5 * Minute else so_Refresh o) (so_AutoRegister o).

(** What wakes the loop. *)
Inductive Woken := WokenDone | WokenTick | WokenKick.

Inductive RAct :=
  | RLoad                                   (* cache.Load *)
  | RList                                   (* reg.List: the records and the round they were read at *)
  | RLocal                                  (* the record this agent wants published, when known *)
  | RPut (rec : NodeRecord)                 (* reg.Put *)
  | RSetRecords (recs : list NodeRecord)    (* dir.SetRecords *)
  | RSave (recs : list NodeRecord)          (* cache.Save; an error is only logged *)
  | RSleep (d : Duration)                   (* clock.Sleep, and whether the context ended *)
  | RSelect.                                (* the select at the end of a turn *)

Definition RResp (a : RAct) : Type :=
  match a with
  | RLoad => result error (list NodeRecord)
  | RList => result error (list NodeRecord * Z)
  | RLocal => option NodeRecord
  | RPut _ => option error
  | RSleep _ => bool
  | RSelect => Woken
  | _ => ()
  end.

Definition R : Type → Type := prog RResp.
Definition rask (a : RAct) : R (RResp a) := Call a Ret.
Definition rtell (a : RAct) : R () := Call a (λ _, Ret ()).
Definition rthen {A B} (m : R A) (f : A → R B) : R B := bind f m.
Local Notation "'let*' x := m 'in' k" := (rthen m (λ x, k)) (at level 10, x binder, m at level 200, k at level 200).

(** upsert. *)
Fixpoint upsert (recs : list NodeRecord) (rec : NodeRecord) : list NodeRecord :=
  match recs with
  | [] => [rec]
  | r :: recs => if nr_ID r =s nr_ID rec then rec :: recs else r :: upsert recs rec
  end.

(** The record's own entry, the first of its id. *)
Definition published (recs : list NodeRecord) (id : string) : option NodeRecord :=
  List.find (λ r, nr_ID r =s id) recs.

(** The version a changed record is written with. *)
Definition nextVersion (old : option NodeRecord) (want : NodeRecord) : Z :=
  let v := match old with Some r => wu64 (nr_Version r + 1) | None => nr_Version want end in
  if v =? 0 then 1 else v.

(** register: the record, whether the registry now holds it, and its error. *)
Definition register (recs : list NodeRecord) (want : NodeRecord) (round : Z) : R (NodeRecord * bool * option error) :=
  let write old :=
    let want := want <| nr_Version := nextVersion old want |> <| nr_UpdatedAt := round |> in
    let* err := rask (RPut want) in
    Ret (want, isNone err, err) in
  match published recs (nr_ID want) with
  | Some r => if StaticEqual r want then Ret (r, false, None) else write (Some r)
  | None => write None
  end.

Section Sync.
Context (o : RegistrySyncOptions) (hasCache : bool).

(** refresh: whether the read succeeded, and whether this node is registered. *)
Definition refresh (registered : bool) : R (bool * bool) :=
  let* l := rask RList in
  match l with
  | Err _ => Ret (false, registered)
  | Ok (recs, round) =>
      let* local := (if so_AutoRegister o && negb registered then rask RLocal else Ret None) in
      let* '(recs, registered) :=
        match local with
        | Some want =>
            let* '(rec, changed, err) := register recs want round in
            Ret (if changed then upsert recs rec else recs, isNone err)
        | None => Ret (recs, registered)
        end in
      let* _ := rtell (RSetRecords recs) in
      let* _ := (if hasCache then rtell (RSave recs) else Ret ()) in
      Ret (true, registered)
  end.

Definition firstRetry : Duration := Z.quot (Z.min (so_Refresh o) (10 * Second)) 2.

(** One turn of the loop: None when the context ended. *)
Definition syncTurn (registered : bool) (retry : Duration) : R (option (bool * Duration)) :=
  let* '(ok, registered) := refresh registered in
  if negb ok || so_AutoRegister o && negb registered then
    let* ended := rask (RSleep retry) in
    Ret (if ended then None else Some (registered, Z.min (wi64 (2 * retry)) (so_Refresh o)))
  else
    let* w := rask RSelect in
    Ret match w with WokenDone => None | _ => Some (registered, firstRetry) end.

(** The first n turns. *)
Fixpoint turns (n : nat) (registered : bool) (retry : Duration) : R () :=
  match n with
  | O => Ret ()
  | S n =>
      let* next := syncTurn registered retry in
      match next with
      | None => Ret ()
      | Some (registered, retry) => turns n registered retry
      end
  end.

(** Run. *)
Definition Run (n : nat) : R () :=
  let* _ :=
    (if hasCache then
       let* l := rask RLoad in
       match l with
       | Ok (r :: recs) => rtell (RSetRecords (r :: recs))
       | _ => Ret ()
       end
     else Ret ()) in
  turns n false firstRetry.
End Sync.

(** ** RefreshNow *)
Record kicks := mkKicks { lastKick : Time; kicked : bool }.

Definition tooSoon (o : RegistrySyncOptions) (now : Time) (s : kicks) : bool :=
  time_sub now (lastKick s) <? Z.quot (so_Refresh o) 10.

Definition RefreshNow (o : RegistrySyncOptions) (now : Time) (s : kicks) : kicks :=
  if tooSoon o now s then s else mkKicks now true.

(** ** Registration *)
Abbreviation REvent := (sigT RResp).

(** The records written, each with whether the registry took it. *)
Definition put_in (e : REvent) : option (NodeRecord * bool) :=
  match e with existT (RPut rec) err => Some (rec, isNone err) | _ => None end.
Definition puts (t : list REvent) : list (NodeRecord * bool) := omap put_in t.

(** What the directory was given. *)
Definition set_in (e : REvent) : option (list NodeRecord) := match e with existT (RSetRecords recs) _ => Some recs | _ => None end.
Definition sets (t : list REvent) : list (list NodeRecord) := omap set_in t.

(** The waits after a failed turn. *)
Definition sleep_in (e : REvent) : option Duration := match e with existT (RSleep d) _ => Some d | _ => None end.
Definition sleeps (t : list REvent) : list Duration := omap sleep_in t.

Lemma puts_app t1 t2 : puts (t1 ++ t2) = puts t1 ++ puts t2.
Proof. apply omap_app. Qed.
Lemma sleeps_app t1 t2 : sleeps (t1 ++ t2) = sleeps t1 ++ sleeps t2.
Proof. apply omap_app. Qed.
Lemma sets_app t1 t2 : sets (t1 ++ t2) = sets t1 ++ sets t2.
Proof. apply omap_app. Qed.

(** One call into a run. *)
Ltac call H := let r := fresh "r" in let t := fresh "t" in cbn [rthen bind rask rtell] in H; destruct H as (r & t & -> & H); cbn beta iota in H.
Ltac value H := let Hx := fresh in destruct H as [-> Hx]; try (injection Hx as Hx; subst); try discriminate Hx.

(** The record register writes, if it has to: the wanted one, one version
    above the published, at the round it was read. *)
Definition written (recs : list NodeRecord) (want : NodeRecord) (round : Z) : option NodeRecord :=
  let fresh old := want <| nr_Version := nextVersion old want |> <| nr_UpdatedAt := round |> in
  match published recs (nr_ID want) with
  | Some r => if StaticEqual r want then None else Some (fresh (Some r))
  | None => Some (fresh None)
  end.

Lemma register_spec recs want round t x :
  runs (register recs want round) t x →
  ∃ rec changed err, x = Some (rec, changed, err) ∧
  match written recs want round with
  | None => t = [] ∧ changed = false ∧ err = None
  | Some w => rec = w ∧ changed = isNone err ∧ t = [existT (RPut w) err]
  end.
Proof.
  unfold register, written. intros H. destruct (published _ _) as [r|]; [destruct (StaticEqual r want) |].
  - value H. by eexists _, _, _.
  - call H. value H. by eexists _, _, _.
  - call H. value H. by eexists _, _, _.
Qed.

Section Laws.
Context (o : RegistrySyncOptions) (hasCache : bool).

(** A record of the registry is the one read for an id when it is the first of
    its id. *)
Definition held (recs : list NodeRecord) (id : string) (r : NodeRecord) : Prop :=
  ∃ before after, recs = before ++ r :: after ∧ nr_ID r = id ∧ Forall (λ r, nr_ID r ≠ id) before.

Lemma published_held recs id r : published recs id = Some r ↔ held recs id r.
Proof.
  unfold published, held. split.
  - induction recs as [| a recs IH]; [done |]. cbn. destruct (String.eqb_spec (nr_ID a) id) as [E | E].
    + intros [= ->]. by exists [], recs.
    + intros (before & after & -> & Hr & Hb)%IH. exists (a :: before), after. split_and!; [done | done | by constructor].
  - intros (before & after & -> & <- & Hb). induction Hb as [| a before Ha Hb IH]; cbn; [by rewrite seqb_refl |].
    by rewrite (proj2 (String.eqb_neq _ _) Ha).
Qed.

Lemma published_none recs id : published recs id = None ↔ ∀ r, r ∈ recs → nr_ID r ≠ id.
Proof.
  unfold published. split.
  - intros H r Hr E. apply list_elem_of_In in Hr. pose proof (List.find_none _ _ H r Hr) as Hn. cbv beta in Hn. by rewrite E, seqb_refl in Hn.
  - intros H. destruct (List.find _ recs) as [r |] eqn:E; [| done]. apply List.find_some in E as [Hr E]. apply String.eqb_eq in E.
    apply list_elem_of_In in Hr. by destruct (H r Hr).
Qed.

(** The registry has what the agent wants published. *)
Definition found (recs : list NodeRecord) (want : NodeRecord) : Prop := ∃ r, held recs (nr_ID want) r ∧ StaticEqual r want = true.

(** What is due to be written when it has not: the wanted record at the round
    the registry was read at, one version above the record it replaces, or its
    own version when it replaces none; never version 0. *)
Definition due (recs : list NodeRecord) (round : Z) (want w : NodeRecord) : Prop :=
  ∃ v, w = want <| nr_Version := v |> <| nr_UpdatedAt := round |> ∧
    (((∀ r, r ∈ recs → nr_ID r ≠ nr_ID want) ∧ v = if decide (nr_Version want = 0) then 1 else nr_Version want) ∨
     ∃ r, held recs (nr_ID want) r ∧ StaticEqual r want = false ∧
       (0 <= nr_Version r < MaxUint64 → v = nr_Version r + 1) ∧ (nr_Version r = MaxUint64 → v = 1)).

Lemma written_due recs want round :
  match written recs want round with Some w => due recs round want w ∧ ¬ found recs want | None => found recs want end.
Proof.
  unfold written. destruct (published recs (nr_ID want)) as [r |] eqn:E.
  - pose proof (proj1 (published_held _ _ _) E) as Hr. destruct (StaticEqual r want) eqn:Es; [by exists r |]. split.
    + eexists. split; [reflexivity |]. right. exists r. unfold nextVersion. split_and!; [done | done | |].
      * intros Hv. rewrite wu64_id by mlia. by assert ((nr_Version r + 1 =? 0) = false) as -> by lia.
      * by intros ->.
    + intros (r' & Hr' & Es'). apply published_held in Hr'. congruence.
  - split.
    + eexists. split; [reflexivity |]. left. split; [by apply published_none |]. unfold nextVersion.
      destruct (Z.eqb_spec (nr_Version want) 0); by destruct (decide _).
    + intros (r' & Hr' & _). apply published_held in Hr'. congruence.
Qed.

(** The end of a refresh: the directory gets the records, then the cache. *)
Definition handed (recs : list NodeRecord) (t : list REvent) : Prop :=
  t = existT (RSetRecords recs) tt :: (if hasCache then [existT (RSave recs) tt] else []).

Lemma hand_over recs (b : bool * bool) t x :
  runs (rthen (rtell (RSetRecords recs)) (λ _, rthen (if hasCache then rtell (RSave recs) else Ret ()) (λ _, Ret b))) t x →
  x = Some b ∧ handed recs t.
Proof. unfold handed. intros H. call H. destruct r. destruct hasCache; [call H; destruct r |]; by value H. Qed.

(** The calls of one refresh, with whether it read the registry and whether the
    node is then registered. *)
Inductive refreshes (reg : bool) : list REvent → bool → bool → Prop :=
| refresh_failed e : refreshes reg [existT RList (Err e)] false reg
| refresh_kept recs round t :
    so_AutoRegister o = false ∨ reg = true → handed recs t → refreshes reg (existT RList (Ok (recs, round)) :: t) true reg
| refresh_unknown recs round t :
    so_AutoRegister o = true → reg = false → handed recs t →
    refreshes reg (existT RList (Ok (recs, round)) :: existT RLocal None :: t) true false
| refresh_found recs round want t :
    so_AutoRegister o = true → reg = false → written recs want round = None → handed recs t →
    refreshes reg (existT RList (Ok (recs, round)) :: existT RLocal (Some want) :: t) true true
| refresh_wrote recs round want w err t :
    so_AutoRegister o = true → reg = false → written recs want round = Some w → handed (if isNone err then upsert recs w else recs) t →
    refreshes reg (existT RList (Ok (recs, round)) :: existT RLocal (Some want) :: existT (RPut w) err :: t) true (isNone err).

Lemma refresh_spec reg t x :
  runs (refresh o hasCache reg) t x → ∃ ok reg', x = Some (ok, reg') ∧ refreshes reg t ok reg'.
Proof.
  intros H. unfold refresh in H. call H. destruct r as [[recs round]|e]; [| value H; exists false, reg; split; [done | constructor]].
  destruct (so_AutoRegister o && negb reg) eqn:Ea.
  - apply andb_true_iff in Ea as [Ha Er]. apply negb_true_iff in Er. call H. destruct r as [want|].
    + unfold rthen in H at 1. unfold rthen in H at 1.
      apply runs_bind in H as [(t1 & t2 & [recs' reg'] & -> & H1 & H)|[H1 ->]];
        apply runs_bind in H1 as [(u1 & u2 & [[rec changed] err] & E & H2 & H1)|[H2 E]];
        apply register_spec in H2 as (rec' & ch' & err' & E' & Hw); simplify_eq; value H1.
      apply hand_over in H as (-> & Hs). rewrite app_nil_r. eexists true, _. split; [done |].
      destruct (written recs want round) as [w|] eqn:Ew.
      * destruct Hw as (-> & -> & ->). by constructor.
      * destruct Hw as (-> & -> & ->). by constructor.
    + cbn [rthen bind] in H. apply hand_over in H as (-> & Hs). rewrite Er. exists true, false. split; [done |]. by constructor.
  - cbn [rthen bind] in H. apply hand_over in H as (-> & Hs). exists true, reg. split; [done |]. constructor; [| done].
    apply andb_false_iff in Ea as [Ea | Ea]; [by left | right; by apply negb_false_iff].
Qed.

(** What a refresh writes and hands over, and that it does not wait. *)
Lemma refreshes_calls reg t ok reg' :
  refreshes reg t ok reg' →
  sleeps t = [] ∧ (ok = false → sets t = []) ∧
  (ok = true → ∃ recs round, existT RList (Ok (recs, round)) ∈ t ∧
     (sets t = [recs] ∨ ∃ w, (w, true) ∈ puts t ∧ sets t = [upsert recs w])).
Proof.
  intros [e | recs round t' Hr Hh | recs round t' Ha Hr Hh | recs round want t' Ha Hr Hw Hh | recs round want w err t' Ha Hr Hw Hh];
    [done | unfold handed in Hh; subst t'; (split; [by destruct hasCache | split; [done |]]; intros _; exists recs, round; split; [by left |])..].
  1-3: left; by destruct hasCache.
  destruct err as [e |]; [left; by destruct hasCache | right; exists w; split; [by left | by destruct hasCache]].
Qed.

(** One turn: a refresh, then a wait. *)
Lemma syncTurn_spec reg retry t x :
  runs (syncTurn o hasCache reg retry) t x →
  ∃ t1 e ok reg' next, t = t1 ++ [e] ∧ refreshes reg t1 ok reg' ∧ x = Some next ∧ put_in e = None ∧ set_in e = None ∧
    match projT1 e with
    | RSleep d => (ok = false ∨ reg' = false) ∧ d = retry ∧ (∀ r, next = Some r → r = (reg', Z.min (wi64 (2 * retry)) (so_Refresh o)))
    | RSelect => ok = true ∧ (so_AutoRegister o = true → reg' = true) ∧ (∀ r, next = Some r → r = (reg', firstRetry o))
    | _ => False
    end.
Proof.
  intros H. unfold syncTurn in H. unfold rthen in H at 1.
  apply runs_bind in H as [(t1 & t2 & [ok reg'] & -> & H1 & H)|[H1 ->]];
    apply refresh_spec in H1 as (ok' & reg2 & E & Hr); simplify_eq.
  destruct (negb ok' || so_AutoRegister o && negb reg2) eqn:Eb.
  - call H. value H. eexists t1, _, ok', reg2, _. split_and!; [done | done | done | done | done |]. cbn. split_and!; [| done |].
    + apply orb_true_iff in Eb as [Eb|Eb]; [left; by apply negb_true_iff | right].
      apply andb_true_iff in Eb as [_ Eb]. by apply negb_true_iff in Eb.
    + intros q. by destruct r; [| intros [= <-]].
  - call H. value H. apply orb_false_iff in Eb as [Eo Ea]. eexists t1, _, ok', reg2, _. split_and!; [done | done | done | done | done |].
    cbn. split_and!.
    + by apply negb_false_iff.
    + intros Hau. rewrite Hau in Ea. cbn in Ea. by apply negb_false_iff.
    + intros q. destruct r; [done | |]; by intros [= <-].
Qed.

Lemma puts_end t e : put_in e = None → puts (t ++ [e]) = puts t.
Proof. intros He. rewrite puts_app. unfold puts at 2. cbn. by rewrite He, app_nil_r. Qed.
Lemma sets_end t e : set_in e = None → sets (t ++ [e]) = sets t.
Proof. intros He. rewrite sets_app. unfold sets at 2. cbn. by rewrite He, app_nil_r. Qed.

Lemma turns_step n reg retry t x :
  runs (turns o hasCache (S n) reg retry) t x →
  ∃ t1 e ok reg' next t2, t = (t1 ++ [e]) ++ t2 ∧ refreshes reg t1 ok reg' ∧ put_in e = None ∧ set_in e = None ∧
    match projT1 e with
    | RSleep d => (ok = false ∨ reg' = false) ∧ d = retry ∧ (∀ r, next = Some r → r = (reg', Z.min (wi64 (2 * retry)) (so_Refresh o)))
    | RSelect => ok = true ∧ (so_AutoRegister o = true → reg' = true) ∧ (∀ r, next = Some r → r = (reg', firstRetry o))
    | _ => False
    end ∧
    match next with
    | None => t2 = [] ∧ x = Some ()
    | Some (reg', retry') => runs (turns o hasCache n reg' retry') t2 x
    end.
Proof.
  cbn [turns]. intros H. unfold rthen in H at 1. apply runs_bind in H as [(t1 & t2 & next & -> & H1 & H)|[H1 ->]];
    apply syncTurn_spec in H1 as (u & e & ok & reg' & next' & -> & Hr & E & Hp & Hs & He); simplify_eq.
  eexists u, e, ok, reg', next', t2. split_and!; try done. by destruct next' as [[]|].
Qed.

(** The calls so far settle that the node is registered: a write of its record
    was confirmed, or a refresh read the registry and found what the agent
    wants published. *)
Inductive settled : list REvent → Prop :=
| settled_written w t1 t2 : settled (t1 ++ existT (RPut w) None :: t2)
| settled_found recs round want t1 t2 :
    found recs want → settled (t1 ++ existT RList (Ok (recs, round)) :: existT RLocal (Some want) :: t2).

(** The wait at the end of a turn. *)
Definition waits (e : REvent) : Prop := match projT1 e with RSleep _ | RSelect => True | _ => False end.

Lemma settled_app t1 e t2 : waits e → settled ((t1 ++ [e]) ++ t2) → settled t1 ∨ settled t2.
Proof.
  intros He H. rewrite <- app_assoc in H. cbn [app] in H. remember (t1 ++ e :: t2) as t eqn:E.
  destruct H as [w u1 u2 | recs round want u1 u2 Hf]; symmetry in E; apply app_eq_app in E as (l & [[-> E] | [-> E]]);
    (destruct l as [| a l]; cbn in E; injection E as E0 E; subst; [done |]).
  - left. constructor.
  - right. constructor.
  - destruct l as [| a l]; cbn in E; injection E as E0 E; subst; [done |]. left. by econstructor.
  - right. by econstructor.
Qed.

Lemma settled_pre t1 t2 : settled t1 → settled (t1 ++ t2).
Proof. intros [w u1 u2 | recs round want u1 u2 Hf]; rewrite <- app_assoc; by econstructor. Qed.

Lemma settled_cons e t : settled t → settled (e :: t).
Proof. intros [w u1 u2 | recs round want u1 u2 Hf]; rewrite app_comm_cons; by econstructor. Qed.

Definition list_in (e : REvent) : option (list NodeRecord * Z) := match e with existT RList (Ok l) => Some l | _ => None end.
Definition local_in (e : REvent) : option (option NodeRecord) := match e with existT RLocal l => Some l | _ => None end.

Lemma settled_head e t :
  settled (e :: t) →
  settled t ∨ (∃ w, put_in e = Some (w, true)) ∨
  ∃ recs round want, list_in e = Some (recs, round) ∧ (head t ≫= local_in) = Some (Some want) ∧ found recs want.
Proof.
  intros H. remember (e :: t) as l eqn:E. destruct H as [w t1 t2 | recs round want t1 t2 Hf]; destruct t1 as [| a t1]; cbn in E; injection E as <- <-.
  - right; left. by exists w.
  - left. constructor.
  - right; right. by exists recs, round, want.
  - left. by econstructor.
Qed.

Lemma settled_nil : ¬ settled [].
Proof. intros H. remember [] as l eqn:E. destruct H as [w t1 t2 | recs round want t1 t2 Hf]; by destruct t1. Qed.

(** The refresh that settles it is the one after which the node is registered. *)
Lemma refreshes_settled t ok reg' : refreshes false t ok reg' → (settled t ↔ reg' = true).
Proof.
  assert (Hh : ∀ recs t, handed recs t → ¬ settled t).
  { intros recs t' -> H. apply settled_head in H as [H | [[w [=]] | (? & ? & ? & [=] & _)]].
    destruct hasCache; [| by apply settled_nil in H].
    apply settled_head in H as [H%settled_nil | [[w [=]] | (? & ? & ? & [=] & _)]]; done. }
  intros H. remember false as reg eqn:Er. destruct H as [e | recs round t' Hr Ht | recs round t' Ha Hr Ht | recs round want t' Ha Hr Hw Ht | recs round want w err t' Ha Hr Hw Ht]; subst.
  - split; [| done]. by intros [H%settled_nil | [[w [=]] | (? & ? & ? & [=] & _)]]%settled_head.
  - split; [| done]. intros [H%(Hh _ _ Ht) | [[w [=]] | (r & n & want & _ & E & _)]]%settled_head; [done |].
    unfold handed in Ht. by rewrite Ht in E.
  - split; [| done]. intros [H | [[w [=]] | (? & ? & ? & _ & [=] & _)]]%settled_head.
    by apply settled_head in H as [H%(Hh _ _ Ht) | [[w [=]] | (? & ? & ? & [=] & _)]].
  - split; [done |]. intros _. pose proof (written_due recs want round) as Hd. rewrite Hw in Hd. exact (settled_found recs round want [] t' Hd).
  - pose proof (written_due recs want round) as Hd. rewrite Hw in Hd. destruct Hd as [_ Hd]. destruct err as [e |].
    + split; [| done]. intros [H | [[w' [=]] | (? & ? & ? & [= <- <-] & [= <-] & Hf)]]%settled_head; [| done].
      apply settled_head in H as [H | [[w' [=]] | (? & ? & ? & [=] & _)]].
      by apply settled_head in H as [H%(Hh _ _ Ht) | [[w' [=]] | (? & ? & ? & [=] & _)]].
    + split; [done |]. intros _. exact (settled_written w [_; _] t').
Qed.

(** A place in a sequence of calls that ends with a wait is before the wait,
    or after it. *)
Lemma split_turn (u t : list REvent) e a t1 t2 :
  (u ++ [e]) ++ t = t1 ++ a :: t2 → waits e → ¬ waits a →
  (∃ t3, u = t1 ++ a :: t3 ∧ t2 = t3 ++ e :: t) ∨ (∃ t0, t1 = (u ++ [e]) ++ t0 ∧ t = t0 ++ a :: t2).
Proof.
  intros E He Ha. rewrite <- app_assoc in E. cbn [app] in E. apply app_eq_app in E as (l & [[-> E] | [-> E]]).
  - destruct l as [| b l]; cbn in E; injection E as E0 E; subst; [done |]. left. by exists l.
  - destruct l as [| b l]; cbn in E; injection E as E0 E; subst; [done |]. right. exists l. by rewrite <- app_assoc.
Qed.

(** Where a refresh writes. *)
Lemma refreshes_put reg t ok reg' t1 w reply t2 :
  refreshes reg t ok reg' → t = t1 ++ existT (RPut w) reply :: t2 →
  so_AutoRegister o = true ∧ reg = false ∧ ¬ settled t1 ∧
  ∃ recs round want, t1 = [existT RList (Ok (recs, round)); existT RLocal (Some want)] ∧ due recs round want w.
Proof.
  assert (Hno : ∀ t l, puts t = [] → t ≠ l ++ existT (RPut w) reply :: t2).
  { intros t' l H ->. rewrite puts_app in H. by apply app_eq_nil in H as [_ H]. }
  assert (Hh : ∀ recs t, handed recs t → puts t = []) by (intros recs t' ->; by destruct hasCache).
  intros [e | recs round t' Hr Ht | recs round t' Ha Hr Ht | recs round want t' Ha Hr Hw Ht | recs round want w' err t' Ha Hr Hw Ht] E;
    [exfalso; revert E; apply Hno; exact (Hh _ _ Ht) || done.. |].
  destruct t1 as [| a [| b [| d t1]]]; cbn in E; try discriminate E.
  2: { injection E as _ _ _ E. by destruct (Hno t' t1 (Hh _ _ Ht)). }
  injection E as <- <- Ew _. subst w'.
  pose proof (written_due recs want round) as Hd. rewrite Hw in Hd. destruct Hd as [Hd Hf]. split_and!; [done | done | | by eexists _, _, _].
  intros [H | [[? [=]] | (? & ? & ? & [= <- <-] & [= <-] & ?)]]%settled_head; [| done].
  apply settled_head in H as [H%settled_nil | [[? [=]] | (? & ? & ? & [=] & _)]]; done.
Qed.

(** What a refresh that read the registry does next. *)
Lemma refreshes_list t ok reg' t1 recs round t2 :
  so_AutoRegister o = true → refreshes false t ok reg' → t = t1 ++ existT RList (Ok (recs, round)) :: t2 →
  ∃ local t3, t2 = existT RLocal local :: t3 ∧
    ∀ want, local = Some want → found recs want ∨ ∃ w reply t4, t3 = existT (RPut w) reply :: t4.
Proof.
  assert (Hno : ∀ t l, omap list_in t = [] → t ≠ l ++ existT RList (Ok (recs, round)) :: t2).
  { intros t' l H ->. rewrite omap_app in H. by apply app_eq_nil in H as [_ H]. }
  assert (Hh : ∀ recs t, handed recs t → omap list_in t = []) by (intros rs t' ->; by destruct hasCache).
  intros Hauto H E. remember false as reg eqn:Er.
  destruct H as [e | rs n t' Hr Ht | rs n t' Ha Hr Ht | rs n want t' Ha Hr Hw Ht | rs n want w' err t' Ha Hr Hw Ht]; subst reg;
    (destruct t1 as [| ? t1]; [pose proof (f_equal (λ l, head l ≫= list_in) E) as E0; apply (f_equal tail) in E; simplify_eq/= |
       exfalso; apply (f_equal tail) in E; revert E; apply Hno; first [exact (Hh _ _ Ht) | done]]).
  - destruct Hr; congruence.
  - by exists None, t'.
  - exists (Some want), t'. split; [done |]. intros ? [= <-]. left. pose proof (written_due recs want round) as Hd. by rewrite Hw in Hd.
  - exists (Some want), (existT (RPut w') err :: t'). split; [done |]. intros ? _. right. by exists w', err, t'.
Qed.

(** C37: a node registers itself once.  A record is only written by a service
    that is to register, that was not registered when it started and that
    nothing has settled since: no write was confirmed, and no read of the
    registry found what the agent wants published.  The write follows at once
    the read of the registry and the record the agent wants in that refresh,
    and is that record at the round of the read: with its own version when
    the registry has none of its id, else one version above the one it
    replaces.  And as long as nothing is settled every refresh that reads the
    registry asks for the wanted record, and writes unless it finds it. *)
Theorem registers_once n reg retry t x t1 t2 :
  runs (turns o hasCache n reg retry) t x →
  (∀ w reply, t = t1 ++ existT (RPut w) reply :: t2 →
     so_AutoRegister o = true ∧ reg = false ∧ ¬ settled t1 ∧
     ∃ t0 recs round want, t1 = t0 ++ [existT RList (Ok (recs, round)); existT RLocal (Some want)] ∧ due recs round want w) ∧
  (∀ recs round, t = t1 ++ existT RList (Ok (recs, round)) :: t2 →
     so_AutoRegister o = true → reg = false → ¬ settled t1 →
     ∃ local t3, t2 = existT RLocal local :: t3 ∧
       ∀ want, local = Some want → found recs want ∨ ∃ w reply t4, t3 = existT (RPut w) reply :: t4).
Proof.
  revert reg retry t t1. induction n as [| n IH]; intros reg retry t t1 H.
  { value H. split; intros ? ? E; by destruct t1. }
  apply turns_step in H as (u & e & ok & reg' & next & t' & -> & Hr & _ & _ & He & Hn).
  assert (Hw : waits e) by (destruct e as [[] ?]; done).
  assert (Hnext : ∀ r, next = Some r → r.1 = reg').
  { destruct e as [[] ?]; simpl in He; try done; destruct He as (_ & _ & He); intros q Hq; by rewrite (He q Hq). }
  assert (IH' : t' = [] ∨ ∃ retry', runs (turns o hasCache n reg' retry') t' x).
  { destruct next as [[r1 r2] |]; [right | by left; destruct Hn]. specialize (Hnext _ eq_refl) as <-. by exists r2. }
  assert (Hsame : reg' = false → reg = false ∧ ¬ settled u).
  { intros ->. destruct reg.
    - exfalso. inversion Hr; congruence.
    - split; [done |]. intros Hs. by apply (refreshes_settled _ _ _ Hr) in Hs. }
  split.
  - intros w reply E. apply split_turn in E as [(t3 & E & ->) | (t0 & -> & E)]; [| | done | by cbv].
    + destruct (refreshes_put _ _ _ _ _ _ _ _ Hr E) as (Ha & Hreg & Hs & recs & round & want & E1 & Hd). split_and!; [done.. |].
      by exists [], recs, round, want.
    + destruct IH' as [-> | [retry' H]]; [by destruct t0 |].
      destruct (proj1 (IH _ _ _ t0 H) w reply E) as (Ha & Hreg & Hs & t4 & recs & round & want & -> & Hd).
      destruct (Hsame Hreg) as [Hreg0 Hu]. split_and!; [done | done | by intros [?|?]%settled_app |].
      exists ((u ++ [e]) ++ t4), recs, round, want. by rewrite app_assoc.
  - intros recs round E Ha Hreg Hs. apply split_turn in E as [(t3 & E & ->) | (t0 & -> & E)]; [| | done | by cbv].
    + subst reg. destruct (refreshes_list _ _ _ _ _ _ _ Ha Hr E) as (local & t5 & -> & Hl). exists local, (t5 ++ e :: t').
      split; [done |]. intros want Hwant. destruct (Hl want Hwant) as [? | (w & reply & t4 & ->)]; [by left | right]. by eexists w, reply, _.
    + destruct IH' as [-> | [retry' H]]; [by destruct t0 |]. subst reg.
      refine (proj2 (IH _ _ _ t0 H) recs round E Ha _ _).
      * destruct reg'; [| done]. destruct Hs. rewrite <- !app_assoc. apply settled_pre. by apply (refreshes_settled _ _ _ Hr).
      * intros H0. apply Hs. clear -H0. induction (u ++ [e]) as [| a l IHl]; [done |]. by apply settled_cons.
Qed.
(** after a failed read, or while this node is not registered, the service
    tries again sooner than its period: every wait is at least half of the
    period (or of ten seconds) and never longer than the period. *)
Theorem retry_backs_off n reg retry t x :
  2 <= so_Refresh o < 2 ^ 62 → firstRetry o <= retry <= so_Refresh o →
  runs (turns o hasCache n reg retry) t x →
  Forall (λ d, 0 < d ∧ firstRetry o <= d <= so_Refresh o) (sleeps t).
Proof.
  intros HR. assert (1 <= firstRetry o <= so_Refresh o) as HF.
  { unfold firstRetry, Second. rewrite Z.quot_div_nonneg by lia. split; [apply Z.div_le_lower_bound; lia |].
    apply Z.div_le_upper_bound; lia. }
  revert reg retry t. induction n as [|n IH]; intros reg retry t Hr H; [by value H |].
  apply turns_step in H as (t1 & e & ok & reg' & next & t2 & -> & Hs & _ & _ & He & Hn).
  apply refreshes_calls in Hs as [Haw _]. rewrite !sleeps_app, Haw. cbn [app]. destruct e as [a y]. cbn in He.
  destruct a; try done; cbn; [| destruct next as [[r1 r2]|]; [| by destruct Hn as [-> _]]].
  - destruct He as (_ & -> & He). constructor; [lia |]. destruct next as [[r1 r2]|]; [| by destruct Hn as [-> _]].
    specialize (He _ eq_refl). injection He as -> ->. apply IH in Hn; [done |].
    assert (wi64 (2 * retry) = 2 * retry) as -> by (apply wi64_id; unfold is_i64, two63; lia). lia.
  - destruct He as (_ & _ & He). specialize (He _ eq_refl). injection He as -> ->. apply IH in Hn; [done | lia].
Qed.

(** ** The directory's records *)
Lemma upsert_published recs rec id :
  published (upsert recs rec) id = if nr_ID rec =s id then Some rec else published recs id.
Proof.
  unfold published. induction recs as [|r recs IH]; cbn [upsert].
  - simpl. by destruct (nr_ID rec =s id).
  - destruct (String.eqb_spec (nr_ID r) (nr_ID rec)) as [E|E]; simpl.
    + destruct (nr_ID rec =s id) eqn:E2; [done |]. by rewrite E, E2.
    + rewrite IH. destruct (String.eqb_spec (nr_ID r) id) as [E2|E2]; [| done].
      destruct (String.eqb_spec (nr_ID rec) id); congruence.
Qed.

Lemma upsert_ids recs rec : list_to_set (C := gset string) (nr_ID <$> upsert recs rec) = {[nr_ID rec]} ∪ list_to_set (nr_ID <$> recs).
Proof.
  induction recs as [|r recs IH]; cbn [upsert]; [set_solver |].
  destruct (String.eqb_spec (nr_ID r) (nr_ID rec)) as [E|E]; rewrite !fmap_cons; cbn [list_to_set]; [| rewrite IH]; set_solver.
Qed.

(** the directory is only ever given what the registry held: each set of
    records it gets is one that was read, with this node's own record in place
    of the published one if it was just written. *)
Theorem directory_fed n reg retry t x rs :
  runs (turns o hasCache n reg retry) t x → rs ∈ sets t →
  ∃ recs round, existT RList (Ok (recs, round)) ∈ t ∧
    (rs = recs ∨ ∃ w, (w, true) ∈ puts t ∧ published rs (nr_ID w) = Some w ∧
                      ∀ id, id ≠ nr_ID w → published rs id = published recs id).
Proof.
  revert reg retry t. induction n as [|n IH]; intros reg retry t H; [value H; by intros ?%elem_of_nil |].
  apply turns_step in H as (t1 & e & ok & reg' & next & t2 & -> & Hr & Hp & Hs & _ & Hn).
  apply refreshes_calls in Hr as (_ & Hf & Hok).
  rewrite sets_app, (sets_end _ _ Hs), puts_app, (puts_end _ _ Hp). intros [Hin|Hin]%elem_of_app.
  - destruct ok; [| rewrite (Hf eq_refl) in Hin; by apply elem_of_nil in Hin].
    destruct (Hok eq_refl) as (recs & round & Hl & Hc). exists recs, round. split; [rewrite !elem_of_app; tauto |].
    destruct Hc as [E|(w & Hw & E)]; rewrite E in Hin; apply list_elem_of_singleton in Hin as ->; [by left | right].
    exists w. rewrite upsert_published, seqb_refl. split_and!; [rewrite elem_of_app; by left | done |].
    intros id Hne. rewrite upsert_published. destruct (String.eqb_spec (nr_ID w) id); [congruence | done].
  - destruct next as [[r1 r2]|]; [| destruct Hn as [-> _]; by apply elem_of_nil in Hin].
    destruct (IH _ _ _ Hn Hin) as (recs & round & Hl & Hc). exists recs, round. split; [rewrite !elem_of_app; tauto |].
    destruct Hc as [->|(w & Hw & Hq)]; [by left | right]. exists w. split; [rewrite elem_of_app; tauto | done].
Qed.
End Laws.

(** ** Kicks *)

(** The times, of those RefreshNow was called at, that kicked the loop. *)
Fixpoint granted (o : RegistrySyncOptions) (s : kicks) (times : list Time) : list Time :=
  match times with
  | [] => []
  | now :: times =>
      (if tooSoon o now s then [] else [now]) ++ granted o (RefreshNow o now s) times
  end.

(** however many unknown nodes are heard, the registry is asked for a
    refresh at most once per tenth of its period. *)
Theorem kicks_spaced o s times :
  0 <= so_Refresh o <= MaxInt64 →
  Sorted (λ a b, a + Z.quot (so_Refresh o) 10 <= b) (lastKick s :: granted o s times).
Proof.
  intros HR. assert (0 <= Z.quot (so_Refresh o) 10 <= MaxInt64) as HQ.
  { rewrite Z.quot_div_nonneg by lia. split; [apply Z.div_pos; lia | apply Z.div_le_upper_bound; mlia]. }
  revert s. induction times as [|now times IH]; intros s; [by repeat constructor |]. cbn [granted].
  unfold RefreshNow. destruct (tooSoon o now s) eqn:E; [apply IH |]. specialize (IH (mkKicks now true)).
  constructor; [exact IH |]. constructor. unfold tooSoon in E. apply Z.ltb_ge in E. revert E HQ.
  unfold time_sub, MaxInt64, MinInt64, two63. lia.
Qed.

(** ** Witnesses: an agent that registers on its second try *)
Definition ownRecord : NodeRecord := mkNodeRecord "n1" "" "net" ["http://n1:8080"] "" (mkAgentInfo [] "" "") 0 [] None 0 0.
Definition oldRecord : NodeRecord := ownRecord <| nr_Endpoints := ["http://n1:4001"%string] |> <| nr_Version := 3 |>.

Definition syncOptions : RegistrySyncOptions := syncDefaults (mkSyncOptions 0 true).

Definition registry (h : list REvent) (a : RAct) : RResp a :=
  match a with
  | RLoad => Ok []
  | RList => match h with [] => Err "no route"%string | _ => Ok ([oldRecord], 77) end
  | RLocal => Some ownRecord
  | RPut _ => None
  | RSleep _ => false
  | RSelect => WokenTick
  | _ => ()
  end.

Definition syncRun : list REvent * option () := exec registry [] (turns syncOptions true 3 false (firstRetry syncOptions)).

Lemma syncRun_runs : runs (turns syncOptions true 3 false (firstRetry syncOptions)) syncRun.1 syncRun.2.
Proof. apply (exec_runs registry). Qed.

Definition newRecord : NodeRecord := ownRecord <| nr_Version := 4 |> <| nr_UpdatedAt := 77 |>.

(** The trace of the run, cut where the record is written. *)
Lemma registers_once_witness :
  ∃ t0 t2, syncRun.1 = (t0 ++ [existT RList (Ok ([oldRecord], 77)); existT RLocal (Some ownRecord)]) ++ existT (RPut newRecord) None :: t2 ∧
    ¬ settled t0 ∧ due [oldRecord] 77 ownRecord newRecord.
Proof.
  set (t0 := take 2 syncRun.1). set (t2 := drop 5 syncRun.1).
  assert (E : syncRun.1 = (t0 ++ [existT RList (Ok ([oldRecord], 77)); existT RLocal (Some ownRecord)]) ++ existT (RPut newRecord) None :: t2) by (by vm_compute).
  exists t0, t2. split; [exact E |].
  destruct (proj1 (registers_once syncOptions true 3 false (firstRetry syncOptions) syncRun.1 syncRun.2 _ t2 syncRun_runs) newRecord None E)
    as (_ & _ & Hs & t0' & recs & round & want & E' & Hd).
  apply app_inj_2 in E' as [_ E']; [| done].
  pose proof (f_equal (λ l, head l ≫= list_in) E') as [= <- <-]. pose proof (f_equal (λ l, last l ≫= local_in) E') as [= <-].
  split; [intros H; by apply Hs, settled_pre | done].
Defined.

Lemma retry_backs_off_witness :
  sleeps syncRun.1 = [5 * Second] ∧ Forall (λ d, 0 < d ∧ 5 * Second <= d <= 5 * Minute) (sleeps syncRun.1).
Proof.
  split; [by vm_compute |].
  apply (retry_backs_off syncOptions true 3 false (firstRetry syncOptions) syncRun.1 syncRun.2); [by vm_compute | by vm_compute |].
  exact syncRun_runs.
Defined.

Lemma directory_fed_witness :
  sets syncRun.1 = [[newRecord]; [oldRecord]] ∧
  ∃ recs round, existT RList (Ok (recs, round)) ∈ syncRun.1 ∧
    ([newRecord] = recs ∨ ∃ w, (w, true) ∈ puts syncRun.1 ∧ published [newRecord] (nr_ID w) = Some w ∧
       ∀ id, id ≠ nr_ID w → published [newRecord] id = published recs id).
Proof.
  split; [by vm_compute |].
  apply (directory_fed syncOptions true 3 false (firstRetry syncOptions) syncRun.1 syncRun.2 [newRecord]); [exact syncRun_runs |].
  assert (sets syncRun.1 = [[newRecord]; [oldRecord]]) as -> by (by vm_compute). by left.
Defined.

Lemma kicks_spaced_witness :
  granted syncOptions (mkKicks 0 false) [10; 40 * Second; 50 * Second; 75 * Second] = [40 * Second; 75 * Second] ∧
  Sorted (λ a b, a + 30 * Second <= b) [0; 40 * Second; 75 * Second].
Proof. split; [by vm_compute |]. apply (kicks_spaced syncOptions (mkKicks 0 false) [10; 40 * Second; 50 * Second; 75 * Second]). by vm_compute. Defined.
