(* ===== verification/Agent.v ===== *)
(** * Agent: from a configuration to the services
    (New, limiterOptions, filterPassthrough of internal/agent/agent.go, AgentKey
    of keys.go, NewLimiter of internal/app/ratelimit.go, the summary of
    cmd/algod-mesh/main.go)

    What [New] passes to each service, as functions of the finished
    configuration.  The theorems connect the configuration's promises with the
    services': whoever the limiter identifies has a plan, every listed token is
    its client's, and a record the agent registers is valid. *)
From S2P Require Import Prelude GoFloat GoStrings GoTime GoNet Types Classify Effort Billing Endpoint Codec Ports Monitor Directory StatsBook.
From S2P Require Import Limiter LimiterSound Http Auth Forwarding Select RegistrySync Addrs RateConfig Config ConfigLaws.
From Stdlib Require Import Ascii.
Open Scope Z_scope.

(** ** limiterOptions *)

(** app.LimiterOptions. *)
Record AppLimiterOptions := mkAppLimiter {
  al_Plans : gmap string (Plan float64);
  al_Tokens : list LimitToken;
  al_AnonymousPlan : string;
  al_Weights : CostWeights float64;
  al_SimulatePerSecond : float64;
  al_Effort : EffortRates float64;
  al_TrustedProxies : list Prefix;
  al_IPv6Prefix : Z;
  al_MaxKeys : Z;
  al_StateFile : string
}.

(** A pointer to false. *)
Definition denied (b : option bool) : bool := match b with Some b => negb b | None => false end.

Definition planOptions (p : RatePlan) : Plan float64 :=
  let s := rp_Simulate p in
  mkPlan "" (mkWindow (rp_PerMinute p) Minute) (mkWindow (rp_PerDay p) (24 * Hour))
    (mkCaps (pc_MaxGroups s) (pc_MaxRounds s) (pc_MaxExtraOpcodeBudget s) (denied (pc_UnnamedResources s)) (denied (pc_ExecTrace s))).

Definition limitTokenOf (t : RateToken) : LimitToken := mkLimitToken (rt_Name t) (rt_Token t) (rt_Plan t).

(** The options of a section: a finished one has its pointers set. *)
Definition appOptions (r : RateLimit) : AppLimiterOptions :=
  mkAppLimiter (planOptions <$> rl_Plans r) (limitTokenOf <$> rl_Tokens r)
    (default ""%string (rl_AnonymousPlan r)) (rl_Weights r) (default nzero (rl_SimulatePerSecond r)) (EffortRatesOf r)
    (TrustedPrefixes r) (rl_IPv6Prefix r) (rl_MaxKeys r) (rl_StateFile r).

(** nil when rate limits are off. *)
Definition limiterOptions (r : RateLimit) : option AppLimiterOptions :=
  if negb (rl_Enabled r) then None else Some (appOptions r).

(** ** NewLimiter: the defaults, and the tables

    A finished section sets Weights and limiterOptions sets Effort; Tick and
    SaveEvery only pace [Run]. *)
Definition limiterDefaults (o : AppLimiterOptions) : AppLimiterOptions :=
  o <| al_IPv6Prefix := or_dur (al_IPv6Prefix o) 64 |> <| al_MaxKeys := or_dur (al_MaxKeys o) 200000 |>.

(** l.plans: each plan under its name. *)
Definition namedPlans (ps : gmap string (Plan float64)) : gmap string (Plan float64) :=
  map_imap (λ name p, Some (p <| pl_Name := name |>)) ps.

(** l.byName, filled in order: the last token of a name. *)
Definition byName (ts : list LimitToken) : gmap string LimitToken :=
  foldl (λ m t, <[lt_Name t := t]> m) ∅ ts.

Definition tablesOf (o : AppLimiterOptions) : LimiterOptions float64 :=
  let o := limiterDefaults o in
  mkLimiterOptions (namedPlans (al_Plans o)) (byName (al_Tokens o)) (al_AnonymousPlan o) (al_Weights o)
    (al_SimulatePerSecond o) (al_Effort o) (al_MaxKeys o) (al_StateFile o).

Definition identifyOf (o : AppLimiterOptions) : IdentifyOptions :=
  let o := limiterDefaults o in
  mkIdentify (al_Tokens o) (al_AnonymousPlan o) (al_TrustedProxies o) (al_IPv6Prefix o).

(** ** What New passes to the services *)
Definition breakerOptions (c : Config) : BreakerOptions :=
  StatsBook.mkBreaker (bk_Threshold (cr_Breaker (cf_Routing c))) (bk_OpenFor (cr_Breaker (cf_Routing c))) 50 (nlit 2 10).

Definition externalOf (e : External) : ExternalUpstream :=
  Directory.mkExternal (ex_Name e) (ex_URL e) (ex_Token e) (ex_Tier e) (ex_Capabilities e) (ex_HealthCheck e).

Definition directoryOptions (c : Config) : DirectoryOptions :=
  let m := cf_Mesh c in
  let r := cf_Routing c in
  mkDirOptions (lc_ID (cf_Local c)) (lc_Tier (cf_Local c)) (Balancer c) (ms_SuspectAfter m) (ms_DownAfter m) (ms_ProbeInterval m)
    (ms_KeepAlive m) (ms_PathProbeInterval m) (ms_PathTimeout m) (cr_SyncTolerance r) (cr_LagGrace r) (cr_ReturnHysteresisRounds r)
    (ms_PeerOverrides m) (externalOf <$> cf_Tiers c) (cr_Exclude r).

(** -1: every eligible mesh upstream. *)
Definition retryBudget (r : Routing) : Z := default (-1) (cr_RetryBudget r).

(** domain.Weights{}. *)
Definition zeroWeights : Weights := mkWeights nzero nzero nzero nzero nzero nzero.

Definition routerOptions (c : Config) : RouterOptions :=
  let r := cf_Routing c in
  mkRouter (match ParseMode (cf_Mode c) with Ok m => m | Err _ => "" end) (Balancer c) (cf_ClientToken c) (cf_AdminToken c)
    (cr_SyncTolerance r) (cr_UpstreamTimeout r) (cr_RequestTimeout r) 0 (lc_WaitTimeout (cf_Local c)) (cr_PendingTTL r)
    (retryBudget r) (cr_MultiBroadcast r) zeroWeights (identifyOf <$> limiterOptions (cf_RateLimit c)).

Definition registryOptions (c : Config) : RegistrySyncOptions :=
  mkSyncOptions (rg_Refresh (cf_Registry c)) (default false (rg_AutoRegister (cf_Registry c))).

(** The hook New gives the directory: a registry refresh, for each of the ids it
    was called with at these times. *)
Definition onUnknownPeer (c : Config) (calls : list (Time * string)) (s : kicks) : kicks :=
  foldl (λ s call, RefreshNow (syncDefaults (registryOptions c)) call.1 s) s calls.

(** The record this agent wants published; None: not known yet. *)
Definition localRecord (c : Config) (pub : string) (st : LocalState) : option NodeRecord :=
  let l := cf_Local c in
  let agent := mkAgentInfo (ms_Advertise (cf_Mesh c)) "" pub in
  if Balancer c then
    Some (mkNodeRecord (lc_ID l) RoleBalancer (lc_Network l) [] "" agent 0 (lc_Tags l) None 0 0)
  else if negb (ls_ConfigOK st) || (cap_GenesisID (ls_Caps st) =s "") then None
  else
    Some (mkNodeRecord (lc_ID l) "" (cap_GenesisID (ls_Caps st)) (lc_AdvertiseEndpoints l) (nc_Token (ls_Config st)) agent
      (lc_Tier l) (lc_Tags l) (lc_Overrides l) 0 0).

(** ** The pass-through: what to bind, and what algod already binds *)
Fixpoint filterPassthrough (pt : Addrs) (algodNet : string) : Addrs * Addrs :=
  match pt with
  | [] => ([], [])
  | addr :: pt =>
      let '(keep, skipped) := filterPassthrough pt algodNet in
      if AlgodCovers algodNet addr then (keep, addr :: skipped) else (addr :: keep, skipped)
  end.

(** ** Keys *)
Definition agentKeySalt : string := "algod-loadb-mesh".

(** The signing key of an agent: a key from the derived seed. *)
Definition AgentKey (c : Crypto) (NewKeyFromSeed : string → string) (material nodeID : string) : result error string :=
  seed ← hkdfKey c material agentKeySalt ("agent-key:" +:+ nodeID) 32;
  Ok (NewKeyFromSeed seed).

(** ** What `config check` says about tokens *)
Definition have (tok : string) : string := if tok =s "" then "none" else "set".

Definition tokenSummary (c : Config) : string :=
  let tokens :=
    if (cf_ClientToken c <>s "") || (cf_AdminToken c <>s "")
    then ("client token " +:+ have (cf_ClientToken c) +:+ ", admin token " +:+ have (cf_AdminToken c))%string
    else "no tokens: open to anyone"%string in
  if rg_Cache (cf_Registry c) <>s "" then ("cache " +:+ rg_Cache (cf_Registry c) +:+ ", " +:+ tokens)%string else tokens.

(** ** The limiter and the configuration *)

(** The limiter's tables hold every token under its name. *)
Lemma byName_spec (ts : list LimitToken) (m : gmap string LimitToken) t :
  NoDup (lt_Name <$> ts) → t ∈ ts → foldl (λ m t, <[lt_Name t := t]> m) m ts !! lt_Name t = Some t.
Proof.
  revert m. induction ts as [|x ts IH]; intros m; [by intros _ ?%elem_of_nil |].
  rewrite fmap_cons. intros [Hx Hn]%NoDup_cons [->|Hin]%elem_of_cons; cbn [foldl]; [| by apply IH].
  assert (∀ (ts : list LimitToken) (m : gmap string LimitToken), lt_Name x ∉ lt_Name <$> ts → foldl (λ m t, <[lt_Name t := t]> m) m ts !! lt_Name x = m !! lt_Name x) as Hother.
  { clear. induction ts as [|y ts IH]; intros m; [done |]. rewrite fmap_cons. intros [H1 H2]%not_elem_of_cons. cbn [foldl].
    rewrite IH by done. by rewrite lookup_insert_ne. }
  rewrite Hother by done. by rewrite lookup_insert_eq.
Qed.

(** The limiter admits or refuses whoever has a plan; it does not panic. *)
Lemma Admit_total (o : LimiterOptions float64) l now id class best :
  limiter_wf l → is_Some (lo_plans o !! id_Plan id) → is_Some (Admit o l now id class best).
Proof.
  intros Hl [plan Hp]. unfold Admit. rewrite Hp. simpl. destruct (beyondPlan plan class); [by eexists |].
  destruct (tooCostly plan _); [by eexists |]. pose proof (key_spec o l id plan Hl) as Hkey. destruct (key o l id plan) as [l1 p].
  destruct Hkey as (_ & _ & (k & Hk & _) & _). rewrite Hk. simpl. destruct (shortfall _ _ _) as [wait window].
  destruct (window <>s ""); [by eexists |]. destruct (_ && caps_set _); by eexists.
Qed.

Section Clients.
Context (readFile : string → result readError string) (sha256 : string → string).
Context (r : RateLimit) (clientToken adminToken : string).
Context (fin : RateFinished readFile r clientToken adminToken).
Abbreviation appOptions := (appOptions r).

Lemma plan_named name : is_Some (rl_Plans r !! name) → is_Some (lo_plans (tablesOf appOptions) !! name).
Proof.
  intros [p Hp]. unfold tablesOf, namedPlans. cbn [lo_plans].
  change (al_Plans (limiterDefaults appOptions)) with (planOptions <$> rl_Plans r).
  rewrite map_lookup_imap, lookup_fmap, Hp. by eexists.
Qed.

Lemma tokens_eq : io_Tokens (identifyOf appOptions) = limitTokenOf <$> rl_Tokens r.
Proof. done. Qed.

Lemma names_NoDup : NoDup (lt_Name <$> (limitTokenOf <$> rl_Tokens r)).
Proof. rewrite <- list_fmap_compose. exact (rf_names _ _ _ _ fin). Qed.

Lemma byName_token t : t ∈ rl_Tokens r → lo_byName (tablesOf appOptions) !! rt_Name t = Some (limitTokenOf t).
Proof.
  intros Ht. apply (byName_spec (limitTokenOf <$> rl_Tokens r) ∅ (limitTokenOf t)); [apply names_NoDup |].
  by apply list_elem_of_fmap_2.
Qed.

Lemma findToken_listed token t : findToken sha256 (identifyOf appOptions) token = Some t → ∃ rt, rt ∈ rl_Tokens r ∧ t = limitTokenOf rt.
Proof.
  unfold findToken. intros [Hin _]%List.find_some. apply list_elem_of_In in Hin.
  rewrite elem_of_reverse, tokens_eq in Hin. apply list_elem_of_fmap in Hin as (rt & -> & Hin). eauto.
Qed.

(** Who is identified, and by which plan. *)
Lemma Identify_plan req token id :
  Identify sha256 (identifyOf appOptions) req token = Some id → id_Exempt id = false →
  (∃ a, rl_AnonymousPlan r = Some a ∧ is_Some (rl_Plans r !! a) ∧ id_Plan id = a ∧ id_Key id = "ip:" +:+ clientKey (identifyOf appOptions) req) ∨
  (∃ t, t ∈ rl_Tokens r ∧ id_Plan id = rt_Plan t ∧ id_Key id = "token:" +:+ rt_Name t).
Proof.
  unfold Identify. destruct (_ =s loopbackAddr); [by intros [= <-] |]. destruct (token =s "").
  - destruct (rf_anonymous _ _ _ _ fin) as (a & Ea & Ha).
    change (io_AnonymousPlan (identifyOf appOptions)) with (default ""%string (rl_AnonymousPlan r)). rewrite Ea. simpl.
    destruct (String.eqb_spec a "") as [|Hne]; [done |]. intros [= <-] _. left. exists a. by destruct Ha.
  - destruct (findToken _ _ _) as [t|] eqn:Ef; [| done]. simpl. intros [= <-] _. right.
    apply findToken_listed in Ef as (rt & Hin & ->). by exists rt.
Qed.

(** C22: Nobody the limiter lets in is without a plan.  With the options of a
    finished configuration, whatever identity a request gets, the limiter
    answers it, in every state it can be in (it looks up the identity's plan
    and would panic without one); and the allowance it saves under that
    identity is restored under the same plan. *)
Theorem identified_clients_have_plans o req token id l now class best :
  limiterOptions r = Some o →
  Identify sha256 (identifyOf o) req token = Some id → id_Exempt id = false →
  limiter_reachable (tablesOf o) l →
  is_Some (Admit (tablesOf o) l now id class best) ∧
  (id_Key id ≠ "ip:overflow"%string → planOf (tablesOf o) (id_Key id) = lo_plans (tablesOf o) !! id_Plan id).
Proof.
  unfold limiterOptions. destruct (negb _); [done |]. intros [= <-] Hid Hex Hl. pose proof (Identify_plan _ _ _ Hid Hex) as Hp. split.
  - apply Admit_total; [by eapply limiter_consistent |]. apply plan_named.
    destruct Hp as [(a & _ & Ha & -> & _)|(t & Ht & -> & _)]; [done |]. by apply (to_plan _ _ _ _ (rf_tokens _ _ _ _ fin _ Ht)).
  - intros Hover. unfold planOf. destruct Hp as [(a & Ea & _ & -> & Ek)|(t & Ht & -> & ->)].
    + rewrite Ek in *. assert (("ip:" +:+ clientKey (identifyOf appOptions) req <>s "ip:overflow") = true) as Hne by (by bprop).
      assert (has_prefix "token:" ("ip:" +:+ clientKey (identifyOf appOptions) req) = false ∧
        has_prefix "ip:" ("ip:" +:+ clientKey (identifyOf appOptions) req) = true) as [-> ->] by (by destruct (clientKey _ _)).
      rewrite Hne. simpl. change (lo_AnonymousPlan (tablesOf appOptions)) with (default ""%string (rl_AnonymousPlan r)). by rewrite Ea.
    + assert (has_prefix "token:" ("token:" +:+ rt_Name t) = true) as -> by (by destruct (rt_Name t)).
      assert (String.substring 6 (String.length ("token:" +:+ rt_Name t) - 6) ("token:" +:+ rt_Name t) = rt_Name t) as ->.
      { simpl. rewrite Nat.sub_0_r. apply substring_whole. }
      by rewrite byName_token.
Qed.

(** The router's authorization with these options. *)
Definition authOf : AuthOptions := mkAuth clientToken adminToken (identifyOf <$> limiterOptions r).

Lemma findToken_own t :
  t ∈ rl_Tokens r → (∀ t', t' ∈ rl_Tokens r → sha256 (rt_Token t') = sha256 (rt_Token t) → rt_Token t' = rt_Token t) →
  findToken sha256 (identifyOf appOptions) (rt_Token t) = Some (limitTokenOf t).
Proof.
  intros Ht Hsha. unfold findToken. rewrite tokens_eq. destruct (List.find _ _) as [x|] eqn:E.
  - apply List.find_some in E as [Hin Hx]. apply list_elem_of_In in Hin. rewrite elem_of_reverse in Hin.
    apply list_elem_of_fmap in Hin as (t' & -> & Ht'). bprop. simpl in Hx. apply Hsha in Hx; [| done].
    by rewrite (NoDup_fmap_eq rt_Token (rl_Tokens r) t' t (rf_values _ _ _ _ fin) Ht' Ht Hx).
  - pose proof (List.find_none _ _ E (limitTokenOf t)) as F. simpl in F. rewrite seqb_refl in F. exfalso. discriminate F.
    apply list_elem_of_In. rewrite elem_of_reverse. by apply list_elem_of_fmap_2.
Qed.

(** A listed token is its client's.  On a request that carries it the
    router lets the client in and bills the name and plan the configuration
    gives that token, unless SHA-256 collides on the listed tokens; no client
    token passes as the admin token. *)
Theorem listed_token_is_its_clients t req class :
  rl_Enabled r = true →
  t ∈ rl_Tokens r → (∀ t', t' ∈ rl_Tokens r → sha256 (rt_Token t') = sha256 (rt_Token t) → rt_Token t' = rt_Token t) →
  hget (rq_Header req) "X-Algo-API-Token" = rt_Token t → rq_RemoteAddr req ≠ loopbackAddr → rc_Agent class = false →
  authorize sha256 authOf req class = Allowed (mkIdentity false ("token:" +:+ rt_Name t) (rt_Plan t)).
Proof.
  intros Hon Ht Hsha Htok Hloop Hagent. destruct (rf_tokens _ _ _ _ fin _ Ht) as [_ Hne Hadmin _ _].
  unfold authorize, authOf, limiterOptions. rewrite Hon. cbn zeta. rewrite Htok, Hagent. unfold isHealth. rewrite Hagent. simpl.
  unfold tokenEqual. rewrite (proj2 (String.eqb_neq _ _) Hadmin), andb_false_r. simpl.
  unfold Identify. rewrite (proj2 (String.eqb_neq _ _) Hloop), (proj2 (String.eqb_neq _ _) Hne), (findToken_own _ Ht Hsha). done.
Qed.

(** The limiter's own defaults have nothing to fill in. *)
Lemma limiterDefaults_done : limiterDefaults appOptions = appOptions.
Proof.
  unfold limiterDefaults. pose proof (rf_prefix _ _ _ _ fin). pose proof (rf_keys _ _ _ _ fin).
  change (al_IPv6Prefix appOptions) with (rl_IPv6Prefix r). change (al_MaxKeys appOptions) with (rl_MaxKeys r).
  by rewrite !or_dur_id by lia.
Qed.
End Clients.

(** `config check` calls an agent open to anyone that is not: with rate
    limits on, no anonymous plan and no admin token, it prints that there are
    no tokens, and every request without one is refused. *)
Theorem summary_says_open readFile sha256 c req class :
  rl_Enabled (cf_RateLimit c) = true →
  RateFinished readFile (cf_RateLimit c) (cf_ClientToken c) (cf_AdminToken c) →
  rl_AnonymousPlan (cf_RateLimit c) = Some ""%string → cf_AdminToken c = ""%string → rg_Cache (cf_Registry c) = ""%string →
  hget (rq_Header req) "X-Algo-API-Token" = ""%string → rq_RemoteAddr req ≠ loopbackAddr → rc_Agent class = false →
  tokenSummary c = "no tokens: open to anyone"%string ∧
  authorize sha256 (authOf (cf_RateLimit c) (cf_ClientToken c) (cf_AdminToken c)) req class = Refused 401 invalidToken.
Proof.
  intros Hon fin Ha Hadmin Hcache Htok Hloop Hagent. split.
  - unfold tokenSummary. by rewrite (rf_client _ _ _ _ fin), Hadmin, Hcache.
  - unfold authorize, authOf, limiterOptions. rewrite Hon. cbn zeta. rewrite Htok, Hagent. unfold isHealth. rewrite Hagent, Hadmin. simpl.
    unfold Identify. rewrite (proj2 (String.eqb_neq _ _) Hloop). simpl.
    change (io_AnonymousPlan (identifyOf (appOptions (cf_RateLimit c)))) with (default ""%string (rl_AnonymousPlan (cf_RateLimit c))).
    by rewrite Ha.
Qed.

(** An agent that registers has a valid record to publish: whatever passes
    validation is accepted by the other agents' checks, when the id is at most
    48 bytes and the tier is not negative. *)
Theorem local_record_valid readFile DecodeAddress c pub st rec :
  Finished readFile DecodeAddress c → registers c = true → localRecord c pub st = Some rec →
  Z.of_nat (String.length (lc_ID (cf_Local c))) <= 48 → 0 <= lc_Tier (cf_Local c) →
  Validate rec = Ok tt.
Proof.
  intros [_ _ [Hid _ Hnet _] _ _ [_ _ _ _ _ Heps] [_ _ Hadv] _ _ _ _] Hreg Hrec Hlen Htier.
  specialize (Hadv Hreg). revert Hrec. unfold localRecord, Validate. destruct (Balancer c) eqn:Eb.
  - intros [= <-]. cbn. rewrite (proj2 (String.eqb_neq _ _) Hid), (proj2 (String.eqb_neq _ _) (proj1 Hnet eq_refl)).
    destruct (48 <? _) eqn:E; [lia |]. unfold GossipAddrs. cbn. by destruct (ms_Advertise (cf_Mesh c)).
  - destruct (negb _ || _) eqn:Eg; [done |]. intros [= <-]. cbn. bprop. specialize (Heps Hreg eq_refl).
    rewrite (proj2 (String.eqb_neq _ _) Hid). destruct (48 <? _) eqn:E; [lia |].
    rewrite (proj2 (String.eqb_neq _ _) H0). destruct (lc_AdvertiseEndpoints (cf_Local c)); [done |]. simpl.
    destruct (_ <? 0) eqn:E2; [lia | done].
Qed.

Lemma filterPassthrough_eq pt net :
  filterPassthrough pt net = (List.filter (λ a, negb (AlgodCovers net a)) pt, List.filter (AlgodCovers net) pt).
Proof. induction pt as [|a pt IH]; [done |]. simpl. rewrite IH. by destruct (AlgodCovers net a). Qed.

(** The pass-through takes nobody's port: of the configured addresses it
    binds, each once, exactly those algod does not listen on, and none that a
    client listener of the agent binds. *)
Theorem passthrough_binds_free_ports readFile DecodeAddress c net a :
  Finished readFile DecodeAddress c →
  let keep := (filterPassthrough (lc_Passthrough (cf_Local c)) net).1 in
  NoDup keep ∧ (a ∈ keep ↔ a ∈ lc_Passthrough (cf_Local c) ∧ AlgodCovers net a = false) ∧
  (a ∈ keep → ∀ l, l ∈ cf_Listen c → portConflict a l = false).
Proof.
  intros [_ _ _ _ _ _ _ [Hl _ Hfree] _ _ _]. rewrite filterPassthrough_eq. cbn [fst].
  assert (a ∈ List.filter (λ a, negb (AlgodCovers net a)) (lc_Passthrough (cf_Local c)) ↔
    a ∈ lc_Passthrough (cf_Local c) ∧ AlgodCovers net a = false) as Hin.
  { rewrite list_elem_of_In, filter_In, <- list_elem_of_In, negb_true_iff. done. }
  split_and!; [| exact Hin | intros [Ha _]%Hin l Hll; by apply Hfree].
  apply NoDup_ListNoDup, List.NoDup_filter, NoDup_ListNoDup. apply resolveSpecific_iff in Hl as [_ ->]. apply firsts_NoDup.
Qed.

(** ** Examples *)

(** A finished section with one plan and one token, kept in a file. *)
Definition finishedLimits (anonymous : string) : RateLimit :=
  mkRateLimit true "" [] 64 200000 (Some anonymous) (Some (nofZ 20)) DefaultCostWeights (EffortRates_map DefaultEffortRates)
    {["free"%string := mkRatePlan (nofZ 60) (nofZ 1000) (mkPlanCaps 0 0 0 None None)]}
    [mkRateToken "alice" "s3cret" "/secrets/alice" "free"]%string.

Lemma finishedLimits_ok anonymous admin :
  anonymous = ""%string ∨ anonymous = "free"%string → admin ≠ "s3cret"%string →
  RateFinished sampleFiles (finishedLimits anonymous) "" admin.
Proof.
  intros Ha Hadmin. constructor; cbn [finishedLimits rl_Plans rl_Weights rl_Effort rl_SimulatePerSecond rl_IPv6Prefix rl_MaxKeys rl_AnonymousPlan rl_TrustedProxies rl_Tokens].
  - done.
  - apply map_non_empty_singleton.
  - intros name p [<- <-]%lookup_singleton_Some. reflexivity.
  - apply complete_weights.
  - apply complete_effort.
  - eexists. split; reflexivity.
  - lia.
  - lia.
  - exists anonymous. split; [done |]. destruct Ha as [->| ->]; [by left | right]. rewrite lookup_singleton_eq. by eexists.
  - by intros s ?%elem_of_nil.
  - intros t ->%list_elem_of_singleton. constructor; [done | done | by apply not_eq_sym | cbn [rt_Plan]; rewrite lookup_singleton_eq; by eexists |].
    intros _. reflexivity.
  - apply NoDup_singleton.
  - apply NoDup_singleton.
Qed.

Definition aliceRequest (token : string) : Request :=
  mkRequest "GET" "/v2/status" "" "/v2/status" (if token =s "" then ∅ else {["X-Algo-API-Token"%string := [token]]}) "198.51.100.4:4711" noBody 0 true.

Lemma identified_clients_have_plans_witness :
  ∃ id, Identify (λ s, s) (identifyOf (appOptions (finishedLimits "free"))) (aliceRequest "s3cret") "s3cret" = Some id ∧
    id_Plan id = "free"%string ∧ is_Some (Admit (tablesOf (appOptions (finishedLimits "free"))) NewLimiter 1 id stateRead 100).
Proof.
  eexists. split; [reflexivity |]. split; [reflexivity |].
  apply (identified_clients_have_plans sampleFiles (λ s, s) (finishedLimits "free") "" "" (finishedLimits_ok "free" "" (or_intror eq_refl) ltac:(done))
    _ (aliceRequest "s3cret") "s3cret"); [reflexivity | reflexivity | reflexivity | apply reach_new].
Defined.

Lemma listed_token_is_its_clients_witness :
  authorize (λ s, s) (authOf (finishedLimits "free") "" "adm1n") (aliceRequest "s3cret") stateRead =
    Allowed (mkIdentity false "token:alice" "free").
Proof.
  apply (listed_token_is_its_clients sampleFiles (λ s, s) (finishedLimits "free") "" "adm1n"
    (finishedLimits_ok "free" "adm1n" (or_intror eq_refl) ltac:(done)) (mkRateToken "alice" "s3cret" "/secrets/alice" "free")).
  - reflexivity.
  - apply list_elem_of_singleton. reflexivity.
  - intros t' ->%list_elem_of_singleton _. reflexivity.
  - reflexivity.
  - discriminate.
  - reflexivity.
Defined.

(** The sample agent, with these limits. *)
Definition closedConfig : Config := (sampleConfig 0 noLimits) <| cf_RateLimit := finishedLimits "" |>.

Lemma summary_says_open_witness :
  tokenSummary closedConfig = "no tokens: open to anyone"%string ∧
  authorize (λ s, s) (authOf (finishedLimits "") "" "") (aliceRequest "") stateRead = Refused 401 invalidToken.
Proof.
  apply (summary_says_open sampleFiles (λ s, s) closedConfig); try reflexivity; [| discriminate].
  apply (finishedLimits_ok "" ""); [by left | done].
Defined.

(** A registering node, finished; what is asked of it below, evaluated. *)
Definition registeringConfig : Config :=
  (sampleConfig 0 noLimits) <| cf_Registry := mkReg "memory" 0 "" "" "" "" "" 0 None "" "" [] |>.

Definition onlineState : LocalState :=
  zeroLocal <| ls_ConfigOK := true |> <| ls_Caps := zeroCapabilities <| cap_GenesisID := "mainnet-v1.0" |> |>.

Lemma registering_ok :
  match runFinish registeringConfig with
  | Ok c => registers c && isSome (localRecord c "key" onlineState) && (lc_Tier (cf_Local c) =? 0) && (lc_ID (cf_Local c) =s "k44") &&
            (Z.of_nat (length (lc_Passthrough (cf_Local c))) =? 1)
  | Err _ => false
  end = true.
Proof. vm_compute. reflexivity. Qed.

Lemma registering_finished :
  ∃ c rec, Finished sampleFiles (λ _, None) c ∧ registers c = true ∧ localRecord c "key" onlineState = Some rec ∧
    lc_Tier (cf_Local c) = 0 ∧ lc_ID (cf_Local c) = "k44"%string ∧ length (lc_Passthrough (cf_Local c)) = 1%nat.
Proof.
  pose proof registering_ok as H. destruct (runFinish registeringConfig) as [c|] eqn:E; [| done].
  bprop. destruct (localRecord c "key" onlineState) as [rec|] eqn:Er; [| done]. exists c, rec. split_and!; try done; [| lia | lia].
  exact (Finish_leaves someOrder sampleFiles (Some "k44"%string) (λ _, None) _ c E).
Qed.

Lemma local_record_valid_witness : ∃ c rec, localRecord c "key" onlineState = Some rec ∧ Validate rec = Ok tt.
Proof.
  destruct registering_finished as (c & rec & HF & Hreg & Hrec & Ht & Hid & _). exists c, rec. split; [exact Hrec |].
  apply (local_record_valid sampleFiles (λ _, None) c "key" onlineState rec HF Hreg Hrec); [rewrite Hid; vm_compute; discriminate | lia].
Defined.

Lemma passthrough_binds_free_ports_witness :
  ∃ c, lc_Passthrough (cf_Local c) ≠ [] ∧ NoDup (filterPassthrough (lc_Passthrough (cf_Local c)) "127.0.0.1:8080").1.
Proof.
  destruct registering_finished as (c & rec & HF & _ & _ & _ & _ & Hp). exists c.
  split; [intros E; rewrite E in Hp; discriminate |].
  exact (proj1 (passthrough_binds_free_ports sampleFiles (λ _, None) c "127.0.0.1:8080" "" HF)).
Defined.
