(* ===== verification/Passthrough.v ===== *)
(** * The pass-through: src/internal/adapters/passthrough/passthrough.go

    [Server] is the struct; the goroutines around it (Serve, an accept loop per
    listener, a splice per connection, Shutdown and the goroutine that waits for
    it) are threads, [thread] is where one stands.  Each case of [threadStep] is
    what a goroutine does between two points where another may run: a critical
    section, an operation of a WaitGroup or of a socket, a select.  Sockets are
    numbers; bytes are not modelled, a copy ends when the environment says so.
    What a goroutine waits for from outside is the [event] of its step. *)
From S2P Require Import Prelude GoStrings GoTime GoNet.
Open Scope Z_scope.

Definition dialTimeout : Duration := 5 * Second.

(** ** Binding *)

(** Listen's loop over net.Listen: every address bound, or the first that is
    not, with the listeners closed on the way out. *)
Fixpoint listenLoop {L} (listen : string → option L) (addrs : list string) (lns : list L) : result (string * list L) (list L) :=
  match addrs with
  | [] => Ok lns
  | addr :: addrs =>
      match listen addr with
      | None => Err (addr, lns)
      | Some ln => listenLoop listen addrs (lns ++ [ln])
      end
  end.

Definition Listen {L} (listen : string → option L) (addrs : list string) : result (string * list L) (list L) :=
  listenLoop listen addrs [].

(** url.Parse(baseURL).Host, "" when it does not parse. *)
Definition HostPort (baseURL : string) : string := default ""%string (url_host baseURL).

(** ** The server *)
Record Server := mkServer {
  sv_lns : nat;              (* len(s.lns) *)
  sv_open : bool;            (* the listeners are not closed *)
  sv_accepting : nat;        (* the counter of s.accepting *)
  sv_wg : nat;               (* the counter of s.wg *)
  sv_dialCut : bool;         (* dialCtx is cancelled *)
  sv_closed : bool;
  sv_cut : bool;
  sv_ncut : nat;
  sv_conns : gset nat;
  sv_active : Z;
  sv_shut : gset nat;        (* sockets closed *)
  sv_half : gset nat;        (* sockets closed for writing *)
  sv_next : nat;             (* the sockets so far *)
  sv_chans : nat;            (* the channels made so far *)
  sv_done : gset nat;        (* Shutdown's done channels that are closed *)
  sv_errc : list (nat * bool) (* what Serve's errc channels hold: true is an error *)
}.

Definition newServer (lns : nat) : Server :=
  mkServer lns true 0 0 false false false 0 ∅ 0 ∅ ∅ 0 0 ∅ [].

(** Active: the gauge. *)
Definition Active (s : Server) : Z := sv_active s.

Inductive thread :=
  (* Serve *)
  | SvStart
  | SvSpawn (ch : nat) (lns : list nat)
  | SvSelect (ch : nat)
  | SvClose (err : bool)
  | SvWait (err : bool)
  | SvDone (err : bool)
  (* accept *)
  | LAccept (ch ln : nat) (delay : Duration)
  | LSleep (ch ln : nat) (delay : Duration)
  | LAdd (ch ln c : nat)
  | LGo (ch ln c : nat)
  | LSend (ch : nat) (err : bool)
  | LExit
  | LDone
  (* splice, in the goroutine accept started for it *)
  | PStart (c : nat)
  | PDial (c : nat) (target : string)
  | PTrack (c up : nat)
  | PCount (c up : nat)
  | PCopy (c up : nat) (toUp toC : bool) (* which of the two copies still run *)
  | PForget (c up : nat)
  | PUncount (c up : nat)
  | PCloseUp (c up : nat)
  | PCloseC (c : nat)
  | PExit
  | PDone
  (* Shutdown, and the goroutine that closes its done channel *)
  | ShStart
  | ShAccepting
  | ShSelect (ch : nat)
  | ShCut (ch : nat)
  | ShCancel (ch : nat)
  | ShWait (ch : nat)
  | ShLog
  | ShDone
  | Waiter (ch : nat)
  | WaiterDone.

Inductive event :=
  | Go                       (* nothing from outside *)
  | Accepted | AcceptTimeout | AcceptFailed
  | Cancelled                (* the context it selects on is done *)
  | Target (t : string)      (* what s.target() returned *)
  | DialOk | DialErr
  | CopyEnded (toUp : bool).

Definition firstDelay : Duration := 5 * Millisecond.
Definition nextDelay (d : Duration) : Duration := Z.min (2 * d) Second.

(** closeListeners *)
Definition closeListeners (s : Server) : Server := s <| sv_open := false |>.

(** track: the critical section, then the gauge (a step of its own). *)
Definition track (s : Server) (c up : nat) : Server :=
  let added := s <| sv_conns ::= (λ m, {[c; up]} ∪ m) |> in
  if sv_cut s then added <| sv_shut ::= (λ m, {[c; up]} ∪ m) |> <| sv_ncut ::= S |> else added.
Definition untrack (s : Server) (c up : nat) : Server := s <| sv_conns ::= (λ m, m ∖ {[c; up]}) |>.

(** The sockets still tracked are cut. *)
Definition cutAll (s : Server) : Server :=
  s <| sv_cut := true |> <| sv_ncut ::= (λ n, (n + size (sv_conns s) / 2)%nat) |> <| sv_shut ::= (λ m, sv_conns s ∪ m) |>.

(** One step of a thread: the server, where the thread stands then, and the
    goroutines it started.  None: it waits. *)
Definition outcome : Type := option (Server * thread * list thread).

(** Serve. *)
Definition serveStep (e : event) (s : Server) (t : thread) : outcome :=
  match t, e with
  | SvStart, Go =>
      if sv_closed s then Some (s, SvDone false, [])
      else Some (s <| sv_accepting ::= (λ n, (n + sv_lns s)%nat) |> <| sv_chans ::= S |>, SvSpawn (sv_chans s) (seq 0 (sv_lns s)), [])
  | SvSpawn ch (ln :: lns), Go => Some (s, SvSpawn ch lns, [LAccept ch ln firstDelay])
  | SvSpawn ch [], Go => Some (s, SvSelect ch, [])
  | SvSelect ch, Cancelled => Some (s, SvClose false, [])
  | SvSelect ch, Go =>
      match List.find (λ p, (p.1 =? ch)%nat) (sv_errc s) with
      | Some (_, err) => Some (s, SvClose err, [])
      | None => None
      end
  | SvClose err, Go => Some (closeListeners s, SvWait err, [])
  | SvWait err, Go => if (sv_accepting s =? 0)%nat then Some (s, SvDone err, []) else None
  | _, _ => None
  end.

(** accept: the loop of one listener, and its goroutine's end. *)
Definition acceptStep (e : event) (s : Server) (t : thread) : outcome :=
  match t, e with
  | LAccept ch ln d, Accepted => if sv_open s then Some (s <| sv_next ::= S |>, LAdd ch ln (sv_next s), []) else None
  | LAccept ch ln d, Go => if sv_open s then None else Some (s, LSend ch false, [])
  | LAccept ch ln d, AcceptTimeout => Some (s, LSleep ch ln d, [])
  | LAccept ch ln d, AcceptFailed => Some (s, LSend ch true, [])
  | LSleep ch ln d, Cancelled => Some (s, LSend ch false, [])
  | LSleep ch ln d, Go => Some (s, LAccept ch ln (nextDelay d), [])
  | LAdd ch ln c, Go => Some (s <| sv_wg ::= S |>, LGo ch ln c, [])
  | LGo ch ln c, Go => Some (s, LAccept ch ln firstDelay, [PStart c])
  | LSend ch err, Go => Some (s <| sv_errc ::= (λ l, l ++ [(ch, err)]) |>, LExit, [])
  | LExit, Go => Some (s <| sv_accepting ::= pred |>, LDone, [])
  | _, _ => None
  end.

(** splice, in the goroutine accept started, with its two copies. *)
Definition spliceStep (e : event) (s : Server) (t : thread) : outcome :=
  match t, e with
  | PStart c, Target t => Some (s, if t =s "" then PCloseC c else PDial c t, [])
  | PDial c t, DialOk => if sv_dialCut s then None else Some (s <| sv_next ::= S |>, PTrack c (sv_next s), [])
  | PDial c t, DialErr => Some (s, PCloseC c, [])
  | PTrack c up, Go => Some (track s c up, PCount c up, [])
  | PCount c up, Go => Some (s <| sv_active ::= Z.succ |>, PCopy c up true true, [])
  | PCopy c up true b, CopyEnded true => Some (s <| sv_half ::= (λ m, {[up]} ∪ m) |>, PCopy c up false b, [])
  | PCopy c up a true, CopyEnded false => Some (s <| sv_half ::= (λ m, {[c]} ∪ m) |>, PCopy c up a false, [])
  | PCopy c up false false, Go => Some (s, PForget c up, [])
  | PForget c up, Go => Some (untrack s c up, PUncount c up, [])
  | PUncount c up, Go => Some (s <| sv_active ::= Z.pred |>, PCloseUp c up, [])
  | PCloseUp c up, Go => Some (s <| sv_shut ::= (λ m, {[up]} ∪ m) |>, PCloseC c, [])
  | PCloseC c, Go => Some (s <| sv_shut ::= (λ m, {[c]} ∪ m) |>, PExit, [])
  | PExit, Go => Some (s <| sv_wg ::= pred |>, PDone, [])
  | _, _ => None
  end.

(** Shutdown, and the goroutine that waits for the splices. *)
Definition shutdownStep (e : event) (s : Server) (t : thread) : outcome :=
  match t, e with
  | ShStart, Go => Some (closeListeners (s <| sv_closed := true |>), ShAccepting, [])
  | ShAccepting, Go =>
      if (sv_accepting s =? 0)%nat then Some (s <| sv_chans ::= S |>, ShSelect (sv_chans s), [Waiter (sv_chans s)]) else None
  | Waiter ch, Go => if (sv_wg s =? 0)%nat then Some (s <| sv_done ::= (λ m, {[ch]} ∪ m) |>, WaiterDone, []) else None
  | ShSelect ch, Go => if bool_decide (ch ∈ sv_done s) then Some (s, ShDone, []) else None
  | ShSelect ch, Cancelled => Some (s, ShCut ch, [])
  | ShCut ch, Go => Some (cutAll s, ShCancel ch, [])
  | ShCancel ch, Go => Some (s <| sv_dialCut := true |>, ShWait ch, [])
  | ShWait ch, Go => if bool_decide (ch ∈ sv_done s) then Some (s, ShLog, []) else None
  | ShLog, Go => Some (s, ShDone, [])
  | _, _ => None
  end.

Definition threadStep (e : event) (s : Server) (t : thread) : outcome :=
  match t with
  | SvStart | SvSpawn _ _ | SvSelect _ | SvClose _ | SvWait _ | SvDone _ => serveStep e s t
  | LAccept _ _ _ | LSleep _ _ _ | LAdd _ _ _ | LGo _ _ _ | LSend _ _ | LExit | LDone => acceptStep e s t
  | PStart _ | PDial _ _ | PTrack _ _ | PCount _ _ | PCopy _ _ _ _ | PForget _ _ | PUncount _ _ | PCloseUp _ _ | PCloseC _
  | PExit | PDone => spliceStep e s t
  | ShStart | ShAccepting | ShSelect _ | ShCut _ | ShCancel _ | ShWait _ | ShLog | ShDone | Waiter _ | WaiterDone => shutdownStep e s t
  end.

(** The whole: any thread may take the next step, and Serve or Shutdown (which
    Close also is, with a context that is done) may be called at any time. *)
Definition state : Type := Server * list thread.

Inductive label := CallServe | CallShutdown | Step (i : nat) (e : event).

Definition step (l : label) (st : state) : option state :=
  let '(s, ts) := st in
  match l with
  | CallServe => Some (s, ts ++ [SvStart])
  | CallShutdown => Some (s, ts ++ [ShStart])
  | Step i e =>
      t ← ts !! i;
      '(s', t', started) ← threadStep e s t;
      Some (s', <[i := t']> ts ++ started)
  end.

Fixpoint run (ls : list label) (st : state) : option state :=
  match ls with
  | [] => Some st
  | l :: ls => st ← step l st; run ls st
  end.

Definition reachable (lns : nat) (st : state) : Prop := ∃ ls, run ls (newServer lns, []) = Some st.
