(* ===== verification/PassthroughLaws.v ===== *)
(** * The pass-through: what holds of every interleaving

    [Sound] is the invariant of the server and its threads, over the threads as
    a multiset: [threadStep] only looks at its own.  From it: what Shutdown
    leaves behind, and that a Shutdown that has cut is not kept waiting. *)
From S2P Require Import Prelude GoStrings GoTime GoNet Passthrough.
Open Scope Z_scope.

(** ** What a thread holds *)

(** Its share of the counter of accepting. *)
Definition loops (t : thread) : nat :=
  match t with
  | SvSpawn _ lns => length lns
  | LAccept _ _ _ | LSleep _ _ _ | LAdd _ _ _ | LGo _ _ _ | LSend _ _ | LExit => 1
  | _ => 0
  end.

(** Its share of the counter of wg. *)
Definition splicing (t : thread) : nat :=
  match t with
  | LGo _ _ _ | PStart _ | PDial _ _ | PTrack _ _ | PCount _ _ | PCopy _ _ _ _ | PForget _ _ | PUncount _ _ | PCloseUp _ _
  | PCloseC _ | PExit => 1
  | _ => 0
  end.

(** Its share of the gauge. *)
Definition counted (t : thread) : nat :=
  match t with PCopy _ _ _ _ | PForget _ _ | PUncount _ _ => 1 | _ => 0 end.

(** The sockets it must still close. *)
Definition owned (t : thread) : list nat :=
  match t with
  | LAdd _ _ c | LGo _ _ c | PStart c | PDial c _ | PCloseC c => [c]
  | PTrack c up | PCount c up | PCopy c up _ _ | PForget c up | PUncount c up | PCloseUp c up => [c; up]
  | _ => []
  end.

(** The pair it has in conns. *)
Definition tracked (t : thread) : list nat :=
  match t with PCount c up | PCopy c up _ _ | PForget c up => [c; up] | _ => [] end.

(** The accept loops are done, as far as this thread knows. *)
Definition pastLoops (t : thread) : bool :=
  match t with ShSelect _ | ShCut _ | ShCancel _ | ShWait _ | ShLog | ShDone | Waiter _ | WaiterDone => true | _ => false end.

(** Shutdown has returned, or is about to. *)
Definition finished (t : thread) : bool := match t with ShLog | ShDone | WaiterDone => true | _ => false end.

Definition stopping (t : thread) : bool := match t with ShAccepting => true | _ => false end.
Definition cancelling (t : thread) : bool := match t with ShCancel _ => true | _ => false end.
Definition waiting (t : thread) : bool := match t with ShWait _ => true | _ => false end.

(** How many threads are so. *)
Definition count (f : thread → bool) (ts : list thread) : nat := sum_list_with (λ t, Nat.b2n (f t)) ts.

(** The done channel it waits for or closes. *)
Definition awaits (t : thread) : option nat :=
  match t with ShSelect ch | ShCut ch | ShCancel ch | ShWait ch => Some ch | _ => None end.

Record Sound (s : Server) (ts : list thread) : Prop := {
  so_accepting : sv_accepting s = sum_list_with loops ts;
  so_wg : sv_wg s = sum_list_with splicing ts;
  so_active : sv_active s = Z.of_nat (sum_list_with counted ts);
  so_owned : NoDup (ts ≫= owned);
  so_made : Forall (λ c, (c < sv_next s)%nat) (ts ≫= owned);
  so_conns : sv_conns s = list_to_set (ts ≫= tracked);
  so_shut : ∀ c, (c < sv_next s)%nat → c ∈ sv_shut s ∨ c ∈ ts ≫= owned;
  so_cut : sv_cut s = true → sv_conns s ⊆ sv_shut s;
  so_closed : sv_closed s = true → sv_open s = false;
  so_stop : (0 < count stopping ts)%nat → sv_closed s = true;
  so_past : (0 < count pastLoops ts)%nat → sv_closed s = true ∧ sv_accepting s = 0%nat;
  so_done : ∀ ch, ch ∈ sv_done s → sv_closed s = true ∧ sv_accepting s = 0%nat ∧ sv_wg s = 0%nat;
  so_finished : (0 < count finished ts)%nat → sv_closed s = true ∧ sv_accepting s = 0%nat ∧ sv_wg s = 0%nat;
  so_wait : ∀ ch, (∃ t, t ∈ ts ∧ awaits t = Some ch) → ch ∈ sv_done s ∨ Waiter ch ∈ ts;
  so_cancels : (0 < count cancelling ts)%nat → sv_cut s = true;
  so_dials : (0 < count waiting ts)%nat → sv_dialCut s = true ∧ sv_cut s = true
}.

#[export] Instance count_proper f : Proper ((≡ₚ) ==> eq) (count f).
Proof. intros ts ts' E. unfold count. by rewrite E. Qed.

#[export] Instance Sound_proper s : Proper ((≡ₚ) ==> iff) (Sound s).
Proof.
  assert (H : ∀ ts ts', ts ≡ₚ ts' → Sound s ts → Sound s ts').
  { intros ts ts' E HS. destruct HS. split; rewrite <- ?E; try assumption.
    - intros c Hc. rewrite <- E. eauto.
    - intros ch (t & Ht & Ha). rewrite <- E in *. eauto. }
  intros ts ts' E. split; apply H; done.
Qed.

(** The threads after a step, up to their order. *)
Lemma insert_perm {A} (l : list A) i x y k :
  l !! i = Some x → <[i := y]> l ++ k ≡ₚ y :: k ++ delete i l.
Proof.
  intros H. rewrite insert_take_drop by (by eapply lookup_lt_Some). rewrite delete_take_drop.
  rewrite <- app_assoc. simpl. rewrite <- Permutation_middle. constructor.
  rewrite app_assoc. apply Permutation_app_comm.
Qed.

(** Case analysis on a step: a goal for each thread and event that has one. *)
Ltac step_cases H :=
  unfold threadStep, serveStep, acceptStep, spliceStep, shutdownStep, track in H;
  repeat match type of H with
  | (match ?x with _ => _ end) = Some _ => destruct x eqn:?; try discriminate H
  | context [if ?b then _ else _] => destruct b eqn:?
  end;
  try (injection H as <- <- <-); subst.

Ltac threads_in := cbn [loops splicing counted owned tracked stopping pastLoops finished cancelling waiting Nat.b2n sum_list_with app mbind list_bind length] in *.
Ltac server_out := unfold closeListeners, untrack, cutAll;
  cbn [set const tset gafu_getter gafu_field_updater sv_accepting sv_wg sv_active sv_next sv_conns sv_shut sv_cut sv_closed sv_open sv_done sv_dialCut]; unfold const.

(** Who waits for a done channel, when the step neither makes nor closes one. *)
Ltac same_waits S :=
  let ch := fresh "ch" in let t := fresh "t" in let Ht := fresh "Ht" in let Ha := fresh "Ha" in
  intros ch (t & Ht & Ha); repeat (apply elem_of_cons in Ht as [-> | Ht]; try discriminate Ha);
  (destruct (S ch) as [? | Hw]; [eexists; split; [by (left + right) | done] | by left |]);
  right; (apply elem_of_cons in Hw as [? | Hw]; [discriminate |]); set_solver.

Lemma tracked_owned ts c : c ∈ ts ≫= tracked → c ∈ ts ≫= owned.
Proof.
  rewrite !list_elem_of_bind. intros (t & H & Ht). exists t. split; [| done]. by destruct t; set_solver.
Qed.

Lemma fresh_owned n ts : Forall (λ c, (c < n)%nat) (ts ≫= owned) → n ∉ ts ≫= owned.
Proof. intros H Hn. rewrite Forall_forall in H. specialize (H _ Hn). simpl in H. lia. Qed.

Lemma below_S n l : Forall (λ c, (c < n)%nat) l → Forall (λ c, (c < S n)%nat) l.
Proof. intros H. eapply Forall_impl; [exact H |]. simpl. lia. Qed.

Lemma step_sound e s t rest s' t' started :
  threadStep e s t = Some (s', t', started) → Sound s (t :: rest) → Sound s' (t' :: started ++ rest).
Proof.
  intros H [S1 S2 S3 S4 S4' S5 S6 S7 S8 S9 S10 S11 S12 S13 S14 S15].
  pose proof (tracked_owned rest) as Ht. pose proof (fresh_owned (sv_next s) rest) as Hf.
  unfold count in *.
  step_cases H; threads_in; rewrite ?Forall_cons, ?NoDup_cons in S4'; rewrite ?NoDup_cons, ?not_elem_of_cons in S4.
  all: split; server_out; unfold count; threads_in.
  all: try assumption.
  all: try (rewrite ?length_seq; lia).
  all: try (intros ch0 Hch0; specialize (S11 ch0 Hch0); lia).
  all: try (same_waits S13).
  all: try match goal with
       | |- NoDup _ => clear -S4 S4' Hf; rewrite ?NoDup_cons, ?not_elem_of_cons; intuition (subst; try done; try lia)
       | |- Forall _ _ => clear -S4'; rewrite ?Forall_cons; intuition (try lia; eauto using below_S)
       | |- ∀ c, (c < S _)%nat → _ => intros c0 Hc0; destruct (decide (c0 = sv_next s)) as [-> | Hne];
           [set_solver | destruct (S6 c0); [lia | by left | clear -H; set_solver]]
       | |- ∀ c, (c < _)%nat → _ => intros c0 Hc0; destruct (S6 c0 Hc0); clear -H; set_solver
       | |- _ = true → _ => intros Hc; try congruence; try specialize (S7 Hc); clear -S7; set_solver
       | |- _ = list_to_set _ => rewrite S5; clear -S4 Ht; set_solver
       end.
  all: try (match goal with E : bool_decide (_ ∈ sv_done _) = true |- _ => intros _; by apply bool_decide_eq_true, S11 in E end).
  - (* the done channel of a Shutdown and the goroutine that closes it *)
    intros ch (t & Hx & Ha). apply elem_of_cons in Hx as [-> | [-> | Hx]%elem_of_cons]; [| discriminate |].
    + injection Ha as <-. right. set_solver.
    + destruct (S13 ch) as [? | Hw]; [eexists; split; [by right | done] | by left |].
      apply elem_of_cons in Hw as [? | Hw]; [discriminate |]. right. set_solver.
  - intros ch0 (t & Hx & Ha). apply elem_of_cons in Hx as [-> | Hx]; [discriminate |].
    destruct (S13 ch0) as [? | Hw]; [eexists; split; [by right | done] | left; set_solver |].
    apply elem_of_cons in Hw as [[= ->] | Hw]; [left; set_solver | right; set_solver].
Qed.

Lemma new_sound lns : Sound (newServer lns) [].
Proof. split; cbn; try done; try constructor; set_solver by lia. Qed.

Lemma call_sound s t ts :
  (t = SvStart ∨ t = ShStart) → Sound s ts → Sound s (ts ++ [t]).
Proof.
  intros Ht [S1 S2 S3 S4 S4' S5 S6 S7 S8 S9 S10 S11 S12 S13 S14 S15]. rewrite Permutation_app_comm. unfold count in *.
  destruct Ht as [-> | ->]; split; unfold count; threads_in; try assumption; try lia;
    (intros ch (t & [-> | Hx]%elem_of_cons & Ha); [discriminate |]; destruct (S13 ch) as [? | ?]; [eauto | by left | right; by right]).
Qed.

Lemma reachable_sound lns s ts : reachable lns (s, ts) → Sound s ts.
Proof.
  intros [ls H]. revert H. generalize (new_sound lns). generalize (newServer lns) (@nil thread).
  induction ls as [| l ls IH]; intros s0 ts0 S0 H; [by inversion H; subst |].
  change (step l (s0, ts0) ≫= run ls = Some (s, ts)) in H. destruct (step l (s0, ts0)) as [[s1 ts1] |] eqn:E; [| discriminate]. apply (IH s1 ts1); [| done]. clear IH H.
  destruct l as [| | i e]; cbn in E; [inversion E; subst; apply call_sound; auto .. |].
  destruct (ts0 !! i) as [t |] eqn:Et; [| discriminate]. cbn in E.
  destruct (threadStep e s0 t) as [[[s' t'] started] |] eqn:Es; [| discriminate]. inversion E; subst s1 ts1.
  rewrite (insert_perm _ _ _ _ _ Et). eapply step_sound; [exact Es |]. by rewrite <- delete_Permutation.
Qed.

(** ** What Shutdown leaves *)

Lemma count_in f ts t : t ∈ ts → f t = true → (0 < count f ts)%nat.
Proof.
  intros Ht Hf. unfold count. pose proof (sum_list_with_in t (λ t, Nat.b2n (f t)) ts Ht) as H. simpl in H. rewrite Hf in H. simpl in H. lia.
Qed.

Lemma sum_zero {A} (f : A → nat) ts t : sum_list_with f ts = 0%nat → t ∈ ts → f t = 0%nat.
Proof. intros H Ht. pose proof (sum_list_with_in t f ts Ht). lia. Qed.

Lemma sum_le (f g : thread → nat) ts : (∀ t, (f t ≤ g t)%nat) → (sum_list_with f ts ≤ sum_list_with g ts)%nat.
Proof. intros H. induction ts as [| t ts IH]; simpl; [done | specialize (H t); lia]. Qed.

(** A thread without a share of either WaitGroup holds no socket. *)
Lemma idle_owns_nothing t : loops t = 0%nat → splicing t = 0%nat → owned t = [].
Proof. by destruct t. Qed.

Lemma idle_owned ts :
  sum_list_with loops ts = 0%nat → sum_list_with splicing ts = 0%nat → ts ≫= owned = [].
Proof.
  induction ts as [| t ts IH]; cbn; [done |]. intros H1 H2.
  rewrite (idle_owns_nothing t), IH by lia. done.
Qed.

(** C31: After Shutdown has returned, nothing of the pass-through is left,
    whatever the other goroutines were doing and do afterwards: the listeners
    are closed, no accept loop and no splice is running, every connection
    accepted or dialed has been closed, none is tracked and the gauge is back
    to zero.  And while it waits for the splices no accept loop is left that
    could add one, as WaitGroup requires of an Add that meets a Wait. *)
Theorem shutdown_leaves_nothing lns s ts :
  reachable lns (s, ts) →
  (ShDone ∈ ts →
   sv_open s = false ∧ sv_conns s = ∅ ∧ Active s = 0 ∧ (∀ c, (c < sv_next s)%nat → c ∈ sv_shut s) ∧
   ∀ t, t ∈ ts → loops t = 0%nat ∧ splicing t = 0%nat) ∧
  (∀ ch, Waiter ch ∈ ts → ∀ t, t ∈ ts → loops t = 0%nat).
Proof.
  intros S%reachable_sound. split.
  - intros Hd. destruct (so_finished s ts S (count_in _ _ _ Hd eq_refl)) as (Hc & Ha & Hw).
    rewrite (so_accepting s ts S) in Ha. rewrite (so_wg s ts S) in Hw.
    pose proof (idle_owned ts Ha Hw) as Ho. split; [by apply (so_closed s ts S) |].
    assert (Ht : ts ≫= tracked = []).
    { apply elem_of_nil_inv. intros c Hin%tracked_owned. rewrite Ho in Hin. by apply elem_of_nil in Hin. }
    split; [by rewrite (so_conns s ts S), Ht |]. unfold Active. rewrite (so_active s ts S).
    pose proof (sum_le counted splicing ts) as Hle. split; [enough (sum_list_with counted ts = 0%nat) by lia |].
    { enough (sum_list_with counted ts ≤ sum_list_with splicing ts)%nat by lia. apply Hle. by destruct t; simpl; lia. }
    split; [intros c Hx; destruct (so_shut s ts S c Hx) as [? | Hin]; [done | rewrite Ho in Hin; by apply elem_of_nil in Hin] |].
    intros t Hin. split; by eapply sum_zero.
  - intros ch Hw t Ht. destruct (so_past s ts S (count_in _ _ _ Hw eq_refl)) as (_ & Ha).
    rewrite (so_accepting s ts S) in Ha. by eapply sum_zero.
Qed.

(** ** A Shutdown that has cut is not kept waiting *)

(** The steps a thread has left at most, once the accept loops are done. *)
Definition work (t : thread) : nat :=
  match t with
  | SvStart => 1 | SvSpawn _ _ => 4 | SvSelect _ => 3 | SvClose _ => 2 | SvWait _ => 1
  | PStart _ => 12 | PDial _ _ => 11 | PTrack _ _ => 10 | PCount _ _ => 9
  | PCopy _ _ a b => 6 + Nat.b2n a + Nat.b2n b
  | PForget _ _ => 5 | PUncount _ _ => 4 | PCloseUp _ _ => 3 | PCloseC _ => 2 | PExit => 1
  | ShStart => 8 | ShAccepting => 7 | ShSelect _ => 5 | ShCut _ => 4 | ShCancel _ => 3 | ShWait _ => 2 | ShLog => 1
  | Waiter _ => 1
  | _ => 0
  end.

(** The steps that come without anyone's help: what a goroutine does by itself,
    a call that returns, a dial whose context is over, a copy between two
    sockets of which one is closed. *)
Definition due (s : Server) (t : thread) (e : event) : bool :=
  match t, e with
  | PStart _, Target _ => true
  | PDial _ _, DialErr => sv_dialCut s
  | PCopy c up _ _, CopyEnded _ => bool_decide (c ∈ sv_shut s ∨ up ∈ sv_shut s)
  | _, Go => true
  | _, _ => false
  end.

Definition quiet (s : Server) (ts : list thread) : Prop :=
  ∀ i t e, ts !! i = Some t → due s t e = true → threadStep e s t = None.

(** A step of a goroutine, not a new call. *)
Definition isStep (l : label) : bool := match l with Step _ _ => true | _ => false end.

Lemma step_works e s t s' t' started :
  threadStep e s t = Some (s', t', started) → sv_closed s = true → sv_accepting s = 0%nat → loops t = 0%nat →
  (sum_list_with work (t' :: started) < work t)%nat ∧ sv_closed s' = true ∧ sv_accepting s' = 0%nat.
Proof.
  intros H Hc Ha Hl. step_cases H; cbn [loops] in Hl; try discriminate Hl; try congruence.
  all: server_out; cbn [work sum_list_with Nat.b2n]; rewrite ?Ha; repeat split; try assumption; try lia.
  all: try (destruct (_ =s _); simpl; lia); try (by destruct_and?; simpl; lia).
Qed.

(** One thread's step and the rest. *)
Lemma step_inv i e s ts s' ts' :
  step (Step i e) (s, ts) = Some (s', ts') →
  ∃ t t' started, ts !! i = Some t ∧ threadStep e s t = Some (s', t', started) ∧ ts' = <[i := t']> ts ++ started.
Proof.
  intros E. cbn in E. destruct (ts !! i) as [t |] eqn:Et; [| discriminate]. cbn in E.
  destruct (threadStep e s t) as [[[s1 t'] started] |] eqn:Es; [| discriminate]. inversion E; subst. eauto 10.
Qed.

(** Where a Shutdown that has cut stands from then on. *)
Definition closing (ch : nat) (t : thread) : Prop := t = ShWait ch ∨ t = ShLog ∨ t = ShDone.

Lemma closing_step ch e s t s' t' started : closing ch t → threadStep e s t = Some (s', t', started) → closing ch t'.
Proof. unfold closing. intros [-> | [-> | ->]] H; step_cases H; try discriminate H; auto. Qed.

Definition stopped (s : Server) (ts : list thread) : Prop :=
  Sound s ts ∧ sv_closed s = true ∧ sv_accepting s = 0%nat.

Lemma stopped_step l s ts s' ts' i ch :
  isStep l = true → step l (s, ts) = Some (s', ts') → stopped s ts → (∃ t, ts !! i = Some t ∧ closing ch t) →
  stopped s' ts' ∧ (sum_list_with work ts' < sum_list_with work ts)%nat ∧ ∃ t, ts' !! i = Some t ∧ closing ch t.
Proof.
  destruct l as [| | j e]; try discriminate. intros _ (t & t' & started & Ht & Hs & ->)%step_inv (S & Hc & Ha) (u & Hu & Hcl).
  assert (Hl : loops t = 0%nat).
  { rewrite (so_accepting _ _ S) in Ha. eapply sum_zero; [exact Ha |]. by eapply list_elem_of_lookup_2. }
  destruct (step_works e s t s' t' started Hs Hc Ha Hl) as (Hw & Hc' & Ha'). split; [| split].
  - split; [| done]. rewrite (insert_perm _ _ _ _ _ Ht). eapply step_sound; [exact Hs |]. by rewrite <- delete_Permutation.
  - rewrite (insert_perm _ _ _ _ _ Ht).
    assert (E : sum_list_with work ts = sum_list_with work (t :: delete j ts)) by (by rewrite <- delete_Permutation).
    rewrite E. cbn in *. rewrite sum_list_with_app. lia.
  - assert (Hi : (i < length ts)%nat) by (by eapply lookup_lt_Some).
    destruct (decide (i = j)) as [-> | Hij].
    + exists t'. rewrite lookup_app_l by (by rewrite length_insert). rewrite list_lookup_insert_eq by done.
      split; [done |]. rewrite Hu in Ht. injection Ht as ->. by eapply closing_step.
    + exists u. rewrite lookup_app_l by (by rewrite length_insert). by rewrite list_lookup_insert_ne by done.
Qed.

Lemma stopped_run ls s ts s' ts' i ch :
  forallb isStep ls = true → run ls (s, ts) = Some (s', ts') → stopped s ts → (∃ t, ts !! i = Some t ∧ closing ch t) →
  stopped s' ts' ∧ (length ls + sum_list_with work ts' ≤ sum_list_with work ts)%nat ∧ ∃ t, ts' !! i = Some t ∧ closing ch t.
Proof.
  revert s ts. induction ls as [| l ls IH]; intros s ts Hl H St Hi; [by inversion H; subst |].
  cbn in Hl. apply andb_true_iff in Hl as [Hl Hls].
  change (step l (s, ts) ≫= run ls = Some (s', ts')) in H. destruct (step l (s, ts)) as [[s1 ts1] |] eqn:E; [| discriminate].
  destruct (stopped_step l s ts s1 ts1 i ch Hl E St Hi) as (St1 & Hw & Hi1).
  destruct (IH s1 ts1 Hls H St1 Hi1) as (? & ? & ?). split; [done |]. split; [cbn; lia | done].
Qed.

(** A splice that has not ended has a step due, once the cut has cancelled
    the dials. *)
Lemma splice_due s ts t :
  Sound s ts → sv_closed s = true → sv_accepting s = 0%nat → sv_dialCut s = true → sv_cut s = true →
  t ∈ ts → splicing t ≠ 0%nat → ∃ e, due s t e = true ∧ threadStep e s t ≠ None.
Proof.
  intros S Hc Ha Hd Hcut Ht Hs.
  assert (Hl : loops t = 0%nat) by (rewrite (so_accepting _ _ S) in Ha; by eapply sum_zero).
  destruct t as [| | | | | | | | | | | | | c | c tg | c up | c up | c up a b | c up | c up | c up | c | | | | | | | | | | | |];
    try (by contradict Hs); try (by exists Go); try discriminate Hl.
  - by exists (Target "").
  - exists DialErr. cbn. by rewrite Hd.
  - assert (Hin : c ∈ sv_shut s).
    { apply (so_cut _ _ S Hcut). rewrite (so_conns _ _ S). apply elem_of_list_to_set, list_elem_of_bind.
      exists (PCopy c up a b). split; [left | done]. }
    destruct a, b; [exists (CopyEnded true) .. | exists (CopyEnded false) | by exists Go];
      (split; [cbn; by rewrite bool_decide_eq_true_2 by auto | done]).
Qed.

Lemma quiet_returned s ts ch : stopped s ts → sv_dialCut s = true → sv_cut s = true → ShWait ch ∈ ts → ¬ quiet s ts.
Proof.
  intros (S & Hc & Ha) Hd Hcut Hw Hq.
  assert (Hno : ∀ t e, t ∈ ts → due s t e = true → threadStep e s t = None).
  { intros t e [i Hi]%list_elem_of_lookup_1. by apply Hq with i. }
  destruct (so_wait s ts S ch) as [Hd' | Hwt]; [by exists (ShWait ch) | |].
  - specialize (Hno _ Go Hw eq_refl). cbn in Hno. by rewrite bool_decide_eq_true_2 in Hno.
  - pose proof (Hno _ Go Hwt eq_refl) as Hz. cbn in Hz. destruct (sv_wg s =? 0)%nat eqn:E; [discriminate |].
    apply Nat.eqb_neq in E. rewrite (so_wg _ _ S) in E.
    assert (Hx : ∃ t, t ∈ ts ∧ splicing t ≠ 0%nat).
    { clear -E. induction ts as [| t ts IH]; [by cbn in E |]. cbn in E. destruct (decide (splicing t = 0%nat)) as [Hz | Hz].
      - destruct IH as (u & ? & ?); [lia |]. exists u. split; [by right | done].
      - exists t. split; [left | done]. }
    destruct Hx as (t & Ht & Hs). destruct (splice_due s ts t S Hc Ha Hd Hcut Ht Hs) as (e & He & Hne). by apply Hne, Hno.
Qed.

(** A Shutdown that has cut returns.  Once it has closed the tracked
    connections and cancelled the dials, the goroutines together have at most
    [work] steps left, whatever the peers and the network do, unless Serve or
    Shutdown is called again; and when no step is left that comes by itself
    (what a goroutine does alone, a dial whose context is over, a copy from or
    to a closed socket), it has returned.  So no splice outlives Shutdown: not
    one that was dialing when the cut ran either. *)
Theorem cut_shutdown_returns lns s ts i ch ls s' ts' :
  reachable lns (s, ts) → ts !! i = Some (ShWait ch) →
  forallb isStep ls = true → run ls (s, ts) = Some (s', ts') →
  (length ls ≤ sum_list_with work ts)%nat ∧ (quiet s' ts' → ts' !! i = Some ShDone).
Proof.
  intros S%reachable_sound Hi Hl Hr.
  destruct (so_past s ts S (count_in _ _ _ (list_elem_of_lookup_2 _ _ _ Hi) eq_refl)) as [Hc Ha].
  destruct (stopped_run ls s ts s' ts' i ch Hl Hr) as ((S' & Hc' & Ha') & Hw & t & Ht & Hcl);
    [by split | exists (ShWait ch); split; [done | by left] |].
  split; [lia |]. intros Hq. destruct Hcl as [-> | [-> | ->]]; [| | done].
  - destruct (so_dials s' ts' S' (count_in _ _ _ (list_elem_of_lookup_2 _ _ _ Ht) eq_refl)) as [Hd Hcut].
    destruct (quiet_returned s' ts' ch (conj S' (conj Hc' Ha')) Hd Hcut); [by eapply list_elem_of_lookup_2 | done].
  - by specialize (Hq i ShLog Go Ht eq_refl).
Qed.

(** A connection spliced, one still dialing, then Shutdown with a context that
    is done. *)
Definition sampleStart : list label :=
  CallServe :: map (λ p, Step p.1 p.2)
    [(0, Go); (0, Go); (1, Accepted); (1, Go); (1, Go); (2, Target "127.0.0.1:8080"); (2, DialOk); (2, Go); (2, Go);
     (1, Accepted); (1, Go); (1, Go); (3, Target "127.0.0.1:8080")]%nat
  ++ CallShutdown :: map (λ p, Step p.1 p.2)
    [(4, Go); (1, Go); (1, Go); (1, Go); (4, Go); (4, Cancelled); (4, Go); (4, Go)]%nat.
Definition sampleEnd : list label :=
  map (λ p, Step p.1 p.2)
    [(2, CopyEnded true); (3, DialErr); (2, CopyEnded false); (2, Go); (2, Go); (2, Go); (2, Go); (2, Go); (3, Go); (2, Go); (3, Go);
     (5, Go); (0, Go); (0, Go); (0, Go); (0, Go); (4, Go); (4, Go)]%nat.

Definition sampleState : state := default (newServer 1, []) (run sampleStart (newServer 1, [])).
Definition sampleLast : state := default (newServer 1, []) (run sampleEnd sampleState).

Lemma sample_reachable :
  reachable 1 (sampleState.1, sampleState.2) ∧ reachable 1 (sampleLast.1, sampleLast.2).
Proof. split; [exists sampleStart | exists (sampleStart ++ sampleEnd)]; vm_compute; reflexivity. Qed.

Lemma shutdown_leaves_nothing_witness :
  ShDone ∈ sampleLast.2 ∧ sv_next sampleLast.1 = 3%nat ∧ sv_ncut sampleLast.1 = 1%nat ∧ sv_conns sampleLast.1 = ∅ ∧ Active sampleLast.1 = 0.
Proof.
  assert (H : ShDone ∈ sampleLast.2) by (apply (list_elem_of_lookup_2 _ 4%nat); vm_compute; reflexivity).
  split; [exact H |]. split; [vm_compute; reflexivity |]. split; [vm_compute; reflexivity |].
  destruct (shutdown_leaves_nothing 1 sampleLast.1 sampleLast.2) as [(_ & Hc & Ha & _) _];
    [exact (proj2 sample_reachable) | exact H |]. exact (conj Hc Ha).
Defined.

Lemma cut_shutdown_returns_witness :
  (length sampleEnd ≤ sum_list_with work sampleState.2)%nat ∧ sampleLast.2 !! 4%nat = Some ShDone.
Proof.
  assert (Hq : quiet sampleLast.1 sampleLast.2).
  { assert (E : sampleLast.2 = [SvDone false; LDone; PDone; PDone; ShDone; WaiterDone]) by (vm_compute; reflexivity).
    intros i t e. rewrite E. generalize sampleLast.1. intros s.
    destruct i as [| [| [| [| [| [| i]]]]]]; cbn; try (intros [= <-]; by destruct e); by rewrite lookup_nil. }
  destruct (cut_shutdown_returns 1 sampleState.1 sampleState.2 4 1 sampleEnd sampleLast.1 sampleLast.2) as [Hn Hd];
    [exact (proj1 sample_reachable) | vm_compute; reflexivity | reflexivity | vm_compute; reflexivity |].
  split; [exact Hn | exact (Hd Hq)].
Defined.
