(* ===== verification/RegistryAlgo.v ===== *)
(** * RegistryAlgo: the registry on the chain
    (internal/adapters/registryalgo/registry.go, contract.go)

    The calls to the node are a program's ([NAct]); transactions are built and
    signed by the SDK, whose fee and signature are arguments.  Logs are left
    out.  [contractPut] and [contractRemove] are the application's methods
    (contract/smart_contracts/registry/contract.algo.ts). *)
From S2P Require Import Prelude GoStrings Types Ports Codec Prog.
Open Scope Z_scope.

Definition len (s : string) : Z := Z.of_nat (String.length s).
Definition total (l : list string) : Z := foldr (λ s n, len s + n) 0 l.

(** ** Protocol limits and the encoding of a put *)
Definition MaxAppArgsLen : Z := 16384.
Definition FreeAppArgsLen : Z := 2048.
Definition MaxArgLen : Z := 4096.
Definition argByteSurcharge : Z := 100.
Definition boxRefBudget : Z := 2048.
Definition BoxRefs : Z := (MaxAppArgsLen + boxRefBudget - 1) / boxRefBudget.
Definition selectorLen : Z := 4.
Definition lengthPrefix : Z := 2.
Definition PutParts : nat := 4.
Definition MaxPartLen : Z := MaxArgLen - lengthPrefix.
Definition MaxValueLen : Z := MaxAppArgsLen - selectorLen - Z.of_nat BoxTagLen - Z.of_nat PutParts * lengthPrefix.

(** The parts of a value, each filled before the next. *)
Fixpoint partsOf (n : nat) (value : string) : list string :=
  match n with
  | O => []
  | S n =>
      let k := Z.to_nat (Z.min (len value) MaxPartLen) in
      upto k value :: partsOf n (from k value)
  end.

(** The values the calls pass to the ABI encoder: byte[16] and byte[]. *)
Inductive abiValue := VTag (tag : string) | VBytes (b : string).

(** An abi.Method: its name, its selector, and its arguments' types. *)
Record Method := mkMethod { me_Name : string; me_Selector : string; me_Args : list string }.

(** CallFee, in uint64. *)
Definition CallFee (minFee : Z) (args : list string) : Z :=
  let n := total args in
  let factor := if FreeAppArgsLen <? n then wu64 (1000000 + wu64 (argByteSurcharge * (n - FreeAppArgsLen))) else 1000000 in
  wu64 (wu64 (minFee * factor) + 999999) / 1000000.

Definition BoxMinBalance (nameLen valueLen : Z) : Z := wu64 (2500 + wu64 (400 * wu64 (nameLen + valueLen))).

Section Encode.
Context (Encode : string → abiValue → result error string)   (* GetTypeObject, then the type's Encode *)
        (PutMethod RemoveMethod : Method).

Fixpoint encodeArgs (types : list string) (values : list abiValue) : result error (list string) :=
  match types, values with
  | typ :: types, v :: values => enc ← Encode typ v; rest ← encodeArgs types values; Ok (enc :: rest)
  | _, _ => Ok []
  end.

Definition encodeCall (m : Method) (values : list abiValue) : result error (list string) :=
  if negb (length values =? length (me_Args m))%nat then Err (me_Name m +:+ ": wrong number of args")%string
  else args ← encodeArgs (me_Args m) values; Ok (me_Selector m :: args).

Definition PutArgs (tag value : string) : result error (list string) :=
  if MaxValueLen <? len value then Err "value too long"%string
  else encodeCall PutMethod (VTag tag :: (VBytes <$> partsOf PutParts value)).

Definition RemoveArgs (tag : string) : result error (list string) := encodeCall RemoveMethod [VTag tag].
End Encode.

(** ** Transactions and calls *)
Inductive txBody :=
  | Payment (to : string) (amount : Z)
  | AppCall (app : Z) (args : list string) (boxes : list string)
  | AppCreate (approval clear : string)
  | AppUpdate (app : Z) (approval clear : string)
  | AppDelete (app : Z).

Record Txn := mkTxn { tx_Sender : string; tx_Body : txBody; tx_Fee : Z }.

(** What the code reads of the SDK's answers. *)
Record Account := mkAccount { ac_Amount : Z; ac_MinBalance : Z; ac_AuthAddr : string }.
Record Application := mkApplication { ap_Creator : string; ap_Approval : string }.

(** A box read: absent, or another error. *)
Inductive boxError := BoxNotFound | BoxFailed (e : error).

Inductive NAct :=
  | NBoxNames (app : Z)              (* Reader.BoxNames *)
  | NStatus                          (* Reader.Status *)
  | NBox (app : Z) (name : string)   (* Reader.Box *)
  | NRand                            (* rand.Read of a 12-byte nonce *)
  | NAccount (addr : string)         (* sdk.AccountInformation *)
  | NParams                          (* sdk.SuggestedParams: the minimum fee is all that is read *)
  | NSend (tx : Txn)                 (* sdk.SendRawTransaction of the signed transaction *)
  | NConfirm (tx : Txn)              (* transaction.WaitForConfirmation: the application it made, if it did *)
  | NCompile (teal : string)         (* sdk.TealCompile, base64-decoded *)
  | NApplication (app : Z)           (* sdk.GetApplicationByID *)
  | NAppBoxes (app : Z).             (* sdk.GetApplicationBoxes *)

Definition NResp (a : NAct) : Type :=
  match a with
  | NBoxNames _ | NAppBoxes _ => result error (list string)
  | NStatus => result error Status
  | NBox _ _ => result boxError string
  | NRand => result error string
  | NAccount _ => result error Account
  | NParams => result error Z
  | NSend _ => option error
  | NConfirm _ => result error Z
  | NCompile _ => result error string
  | NApplication _ => result error Application
  end.

Declare Scope ledger_scope.

Definition Ledger : Type → Type := prog NResp.
Definition nask (a : NAct) : Ledger (NResp a) := Call a Ret.
Definition nthen {A B} (m : Ledger A) (f : A → Ledger B) : Ledger B := bind f m.
(** if err != nil return err *)
Definition ntry {A B} (m : Ledger (result error A)) (f : A → Ledger (result error B)) : Ledger (result error B) :=
  nthen m (λ r, match r with Ok a => f a | Err e => Ret (Err e) end).
Definition nlift {A} (r : result error A) : Ledger (result error A) := Ret r.
Definition nwrap {A} (what : string) (m : Ledger (result error A)) : Ledger (result error A) :=
  nthen m (λ r, Ret match r with Ok a => Ok a | Err e => Err (what +:+ e)%string end).
Notation "'let*' x := m 'in' k" := (nthen m (λ x, k)) (at level 10, x binder, m at level 200, k at level 200) : ledger_scope.
Notation "'try*' x := m 'in' k" := (ntry m (λ x, k)) (at level 10, x binder, m at level 200, k at level 200) : ledger_scope.
Open Scope ledger_scope.

(** The fields of Registry; sk is the signer's key. *)
Record Registry := mkRegistry {
  ra_AppID : Z;
  ra_Key : string;
  ra_Sender : string;      (* the sync account *)
  ra_Signer : string;      (* the address of the key *)
  ra_MaxRecords : nat
}.

Section Registry.
Context (c : Crypto) (j : Json)
        (Encode : string → abiValue → result error string) (PutMethod RemoveMethod : Method)
        (AppAddress : Z → string)                       (* crypto.GetApplicationAddress *)
        (makeFee : Z → string → txBody → result error Z) (* transaction.Make...: the fee it sets, from the minimum fee *)
        (SignTransaction : Txn → option error)          (* crypto.SignTransaction's error *)
        (ApprovalTEAL ClearTEAL ApprovalProgram ClearProgram : string).

(** New: the key derived from the seed, the sync account when it is not the
    key's own. *)
Definition New (appID : Z) (seed syncAddress : string) (addressOf : string → result error string)
    (DecodeAddress : string → result error string) (client : option error) : result error Registry :=
  key ← DeriveSyncKey c seed;
  signer ← addressOf (upto 32 seed);
  sender ← (if syncAddress <>s "" then
              match DecodeAddress syncAddress with
              | Ok a => Ok a
              | Err e => Err ("registry: sync address: " +:+ e)%string
              end
            else Ok signer);
  match client with
  | Some e => Err e
  | None => Ok (mkRegistry appID key sender signer 1000)
  end.

Context (r : Registry).

Definition CheckAuth : Ledger (result error ()) :=
  try* info := nwrap "registry: sync account: " (nask (NAccount (ra_Sender r))) in
  let auth := if ac_AuthAddr info <>s "" then ac_AuthAddr info else ra_Sender r in
  Ret (if auth <>s ra_Signer r then Err "registry: sync account is authorized by another key"%string else Ok tt).

(** The loop of List over the names, the i-th first. *)
Fixpoint listLoop (i : nat) (names : list string) (recs : list NodeRecord) : Ledger (result error (list NodeRecord)) :=
  match names with
  | [] => Ret (Ok recs)
  | name :: names =>
      if (ra_MaxRecords r <=? i)%nat then Ret (Ok recs)
      else if negb (IsRecordBox name) then listLoop (S i) names recs
      else
        let* blob := nask (NBox (ra_AppID r) name) in
        match blob with
        | Err BoxNotFound => listLoop (S i) names recs
        | Err (BoxFailed e) => Ret (Err e)
        | Ok blob =>
            match OpenRecord c j (ra_Key r) name blob with
            | None => Crash
            | Some (Err _) => listLoop (S i) names recs
            | Some (Ok rec) => listLoop (S i) names (recs ++ [rec])
            end
        end
  end.

Definition List : Ledger (result error (list NodeRecord * Z)) :=
  if ra_AppID r =? 0 then Ret (Err "registry: app id not configured"%string)
  else
    try* names := nask (NBoxNames (ra_AppID r)) in
    try* st := nask NStatus in
    try* recs := listLoop 0 names [] in
    Ret (Ok (recs, s_LastRound st)).

(** Sign, send, and wait for the confirmation; the prefixes are those of the
    errors of the two last. *)
Definition submit (sendErr confirmErr : string) (tx : Txn) : Ledger (result error Z) :=
  match SignTransaction tx with
  | Some e => Ret (Err e)
  | None =>
      let* err := nask (NSend tx) in
      match err with
      | Some e => Ret (Err (sendErr +:+ e)%string)
      | None => nwrap confirmErr (nask (NConfirm tx))
      end
  end.

(** send *)
Definition send (what : string) (tx : Txn) : Ledger (result error Z) :=
  submit ("registry: " +:+ what +:+ ": ") ("registry: " +:+ what +:+ ": confirm: ") tx.

Definition call (args : list string) (box : string) : Ledger (result error ()) :=
  try* minFee := nwrap "registry: suggested params: " (nask NParams) in
  let body := AppCall (ra_AppID r) args (replicate (Z.to_nat BoxRefs) box) in
  try* fee := nwrap "registry: build txn: " (nlift (makeFee minFee (ra_Sender r) body)) in
  let need := CallFee minFee args in
  let tx := mkTxn (ra_Sender r) body (if fee <? need then need else fee) in
  try* _ := submit "registry: send: " "registry: confirm: " tx in
  Ret (Ok tt).

(** ensureFunded tops the application's account up. *)
Definition ensureFunded (nameLen valueLen : Z) : Ledger (result error ()) :=
  let appAddr := AppAddress (ra_AppID r) in
  try* info := nwrap "registry: app account: " (nask (NAccount appAddr)) in
  let need := wu64 (wu64 (ac_MinBalance info + BoxMinBalance nameLen valueLen) + 100000) in
  if need <=? ac_Amount info then Ret (Ok tt)
  else
    try* minFee := nask NParams in
    let body := Payment appAddr (wu64 (need - ac_Amount info)) in
    try* fee := nlift (makeFee minFee (ra_Sender r) body) in
    try* _ := submit "registry: fund app: " "" (mkTxn (ra_Sender r) body fee) in
    Ret (Ok tt).

(** A tag or name whose key derivation fails panics. *)
Definition orCrash {A B} (o : option A) (f : A → Ledger B) : Ledger B := match o with Some a => f a | None => Crash end.

Definition Put (rec : NodeRecord) : Ledger (result error ()) :=
  try* nonce := nask NRand in
  orCrash (SealRecord c j (ra_Key r) rec nonce) (λ sealed,
  try* blob := nlift sealed in
  if MaxValueLen <? len blob then Ret (Err "registry: sealed record too long"%string)
  else
    orCrash (BoxTag c (ra_Key r) (nr_ID rec)) (λ tag,
    try* args := nwrap "registry: put: " (nlift (PutArgs Encode PutMethod tag blob)) in
    orCrash (BoxName c (ra_Key r) (nr_ID rec)) (λ name,
    try* _ := ensureFunded (len name) (len blob) in
    call args name))).

Definition Delete (id : string) : Ledger (result error ()) :=
  orCrash (BoxTag c (ra_Key r) id) (λ tag,
  try* args := nwrap "registry: remove: " (nlift (RemoveArgs Encode RemoveMethod tag)) in
  orCrash (BoxName c (ra_Key r) id) (λ name, call args name)).

(** programs: algod's own compilation when it can compile. *)
Definition programs : Ledger (string * string) :=
  let* approval := nask (NCompile ApprovalTEAL) in
  match approval with
  | Ok b =>
      if b <>s "" then
        let* clear := nask (NCompile ClearTEAL) in
        Ret (b, match clear with Ok b => b | Err _ => ClearProgram end)
      else Ret (ApprovalProgram, ClearProgram)
  | Err _ => Ret (ApprovalProgram, ClearProgram)
  end.

(** ** The application itself *)
Record AppState := mkAppState {
  as_ID : Z; as_Creator : string; as_UpToDate : bool; as_Boxes : nat; as_Foreign : nat; as_Balance : Z; as_MinBalance : Z
}.

Definition Inspect (appID : Z) : Ledger (result error AppState) :=
  try* app := nwrap "registry: app: " (nask (NApplication appID)) in
  try* boxes := nwrap "registry: app boxes: " (nask (NAppBoxes appID)) in
  let foreign := length (List.filter (λ name, negb (IsRecordBox name)) boxes) in
  try* acct := nwrap "registry: app account: " (nask (NAccount (AppAddress appID))) in
  Ret (Ok (mkAppState appID (ap_Creator app) (ap_Approval app =s ApprovalProgram) (length boxes) foreign (ac_Amount acct) (ac_MinBalance acct))).

Definition Update (appID : Z) : Ledger (result error ()) :=
  try* st := Inspect appID in
  if as_Creator st <>s ra_Sender r then Ret (Err "registry: app was created by another account"%string)
  else if (0 <? as_Foreign st)%nat then Ret (Err "registry: app holds boxes of another format"%string)
  else
    let* '(approval, clear) := programs in
    try* minFee := nask NParams in
    let body := AppUpdate appID approval clear in
    try* fee := nlift (makeFee minFee (ra_Sender r) body) in
    try* _ := send "update app" (mkTxn (ra_Sender r) body fee) in
    Ret (Ok tt).

Definition DeleteApp (appID : Z) : Ledger (result error ()) :=
  try* st := Inspect appID in
  if as_Creator st <>s ra_Sender r then Ret (Err "registry: app was created by another account"%string)
  else if (0 <? as_Boxes st)%nat then Ret (Err "registry: app still holds boxes"%string)
  else
    try* minFee := nask NParams in
    let body := AppDelete appID in
    try* fee := nlift (makeFee minFee (ra_Sender r) body) in
    try* _ := send "delete app" (mkTxn (ra_Sender r) body fee) in
    Ret (Ok tt).
End Registry.

(** Create: deploys the application, which the registry is then of, and funds
    it; the new registry comes with the result. *)
Definition Create (AppAddress : Z → string) (makeFee : Z → string → txBody → result error Z) (SignTransaction : Txn → option error)
    (ApprovalTEAL ClearTEAL ApprovalProgram ClearProgram : string) (r : Registry) : Ledger (result error Z * Registry) :=
  let* '(approval, clear) := programs ApprovalTEAL ClearTEAL ApprovalProgram ClearProgram in
  let* made :=
    (try* minFee := nask NParams in
     let body := AppCreate approval clear in
     try* fee := nlift (makeFee minFee (ra_Sender r) body) in
     send SignTransaction "create app" (mkTxn (ra_Sender r) body fee)) in
  match made with
  | Err e => Ret (Err e, r)
  | Ok app =>
      let r := r <| ra_AppID := app |> in
      let* err := ensureFunded AppAddress makeFee SignTransaction r 0 0 in
      Ret (match err with Ok _ => Ok app | Err e => Err e end, r)
  end.

(** ** The contract *)

(** An ABI byte[]: a two-byte length, then the bytes. *)
Definition abiBytes (arg : string) : string := from 2 arg.

(** box.create of n zeros; box.replace of bytes within the box. *)
Definition boxCreate (n : Z) : string := zeros (Z.to_nat n).
Definition boxReplace (box : string) (offset : Z) (b : string) : option string :=
  if offset + len b <=? len box then
    Some (upto (Z.to_nat offset) box +:+ b +:+ from (Z.to_nat (offset + len b)) box)
  else None.

(** The boxes of the application after a call of put; None: the call fails. *)
Definition contractPut (creator sender tag p0 p1 p2 p3 : string) (boxes : gmap string string) : option (gmap string string) :=
  if sender <>s creator then None
  else
    let n1 := len p0 in
    let n2 := n1 + len p1 in
    let n3 := n2 + len p2 in
    box ← boxReplace (boxCreate (n3 + len p3)) 0 p0;
    box ← boxReplace box n1 p1;
    box ← boxReplace box n2 p2;
    box ← boxReplace box n3 p3;
    Some (<[(BoxKeyPrefix +:+ tag)%string := box]> boxes).

Definition contractRemove (creator sender tag : string) (boxes : gmap string string) : option (gmap string string) :=
  if sender <>s creator then None else Some (delete (BoxKeyPrefix +:+ tag)%string boxes).

(** The method an application call runs, by its selector. *)
Definition contractCall (PutMethod RemoveMethod : Method) (creator sender : string) (args : list string)
    (boxes : gmap string string) : option (gmap string string) :=
  match args with
  | [sel; tag; p0; p1; p2; p3] =>
      if sel =s me_Selector PutMethod
      then contractPut creator sender tag (abiBytes p0) (abiBytes p1) (abiBytes p2) (abiBytes p3) boxes
      else None
  | [sel; tag] => if sel =s me_Selector RemoveMethod then contractRemove creator sender tag boxes else None
  | _ => None
  end.
