(* ===== verification/RegistryAlgoLaws.v ===== *)
(** * RegistryAlgoLaws: what is written to the chain is what is read back

    The args of a put against the protocol's limits and the contract that
    takes them apart; what Put and Delete send, and after which answers
    ([putSends], [deleteSends]); Put and List against a chain that behaves
    ([observed]); what the maintenance calls refuse to do. *)
From S2P Require Import Prelude GoStrings Types Ports Codec Prog RegistryAlgo.
From Stdlib Require Import Ascii.
Open Scope Z_scope.

(** The ABI as the contract's header documents it. *)
Record AbiLaws (Encode : string → abiValue → result error string) (PutMethod RemoveMethod : Method) : Prop := {
  put_types : me_Args PutMethod = ["byte[16]"; "byte[]"; "byte[]"; "byte[]"; "byte[]"]%string;
  remove_types : me_Args RemoveMethod = ["byte[16]"]%string;
  put_selector : len (me_Selector PutMethod) = selectorLen;
  remove_selector : len (me_Selector RemoveMethod) = selectorLen;
  encode_tag tag : String.length tag = BoxTagLen → Encode "byte[16]"%string (VTag tag) = Ok tag;
  encode_bytes b : len b < 65536 → ∃ n, len n = lengthPrefix ∧ Encode "byte[]"%string (VBytes b) = Ok (n +:+ b)
}.

(** ** Lengths *)
Lemma len_nonneg s : 0 <= len s. Proof. unfold len. lia. Qed.
Lemma len_app s t : len (s +:+ t) = len s + len t.
Proof. unfold len. rewrite str_length_app. lia. Qed.
Lemma len_zeros n : len (zeros n) = Z.of_nat n.
Proof. unfold len. by rewrite slength_zeros. Qed.
Lemma app_nil_s s : s +:+ "" = s.
Proof. induction s as [| a s IH]; [done |]. change (String a (s +:+ "") = String a s). by rewrite IH. Qed.

Lemma Z_len s : Z.of_nat (String.length s) = len s. Proof. done. Qed.

(** ** The parts of a value *)
Fixpoint concat (l : list string) : string := match l with [] => ""%string | s :: l => s +:+ concat l end.

Lemma MaxPartLen_pos : MaxPartLen = 4094. Proof. done. Qed.

Lemma partsOf_spec n value :
  len value <= Z.of_nat n * MaxPartLen →
  concat (partsOf n value) = value ∧ length (partsOf n value) = n ∧ Forall (λ p, len p <= MaxPartLen) (partsOf n value).
Proof.
  rewrite MaxPartLen_pos. revert value. induction n as [| n IH]; intros value H; simpl.
  - assert (String.length value = 0%nat) by (unfold len in H; lia). by destruct value.
  - set (k := Z.to_nat (Z.min (len value) MaxPartLen)).
    assert (Hk : (k <= String.length value)%nat /\ Z.of_nat k <= MaxPartLen /\ (len value <= 4094 → Z.of_nat k = len value) /\ (4094 < len value → Z.of_nat k = 4094)).
    { subst k. rewrite MaxPartLen_pos. unfold len in *. lia. }
    destruct Hk as (Hk & Hm & Hs & Hl).
    destruct (IH (from k value)) as (E & El & Ef).
    { unfold len in *. rewrite slength_from by done. destruct (Z.le_gt_cases (Z.of_nat (String.length value)) 4094); [specialize (Hs ltac:(lia)) | specialize (Hl ltac:(lia))]; lia. }
    split; [| split].
    + rewrite E. by apply substring_upto_from.
    + by rewrite El.
    + constructor; [| done]. unfold len. rewrite slength_upto by done. rewrite MaxPartLen_pos in Hm. lia.
Qed.

(** Four parts carry any value a put may have. *)
Lemma parts_enough value :
  len value <= MaxValueLen →
  ∃ p0 p1 p2 p3, partsOf PutParts value = [p0; p1; p2; p3] ∧ value = p0 +:+ p1 +:+ p2 +:+ p3 ∧
    len p0 <= 4094 ∧ len p1 <= 4094 ∧ len p2 <= 4094 ∧ len p3 <= 4094.
Proof.
  intros H. destruct (partsOf_spec PutParts value) as (E & El & Ef).
  { etrans; [exact H |]. done. }
  destruct (partsOf PutParts value) as [| p0 [| p1 [| p2 [| p3 [| ]]]]]; try discriminate El.
  exists p0, p1, p2, p3. rewrite !Forall_cons, MaxPartLen_pos in Ef. cbn in E. rewrite app_nil_s in E. naive_solver.
Qed.

(** ** The contract *)
Lemma boxReplace_zeros a n b :
  len b <= Z.of_nat n →
  boxReplace (a +:+ zeros n) (len a) b = Some ((a +:+ b) +:+ zeros (n - String.length b)).
Proof.
  intros H. unfold boxReplace. rewrite len_app, len_zeros, (proj2 (Z.leb_le _ _)) by lia.
  assert (E : zeros n = zeros (String.length b) +:+ zeros (n - String.length b)).
  { unfold len in H. clear -H. assert (Hn : (String.length b <= n)%nat) by lia. clear H. revert n Hn. generalize (String.length b) as k.
    induction k as [| k IH]; intros n Hn; [by rewrite Nat.sub_0_r |]. destruct n as [| n]; [lia |]. simpl. by rewrite (IH n) by lia. }
  f_equal. rewrite str_app_assoc. f_equal.
  - unfold upto. by rewrite substring_take by (unfold len; lia).
  - f_equal. rewrite E, <- str_app_assoc. apply from_app. rewrite str_length_app, slength_zeros. unfold len. lia.
Qed.

Lemma contractPut_spec creator tag p0 p1 p2 p3 boxes :
  contractPut creator creator tag p0 p1 p2 p3 boxes =
  Some (<[(BoxKeyPrefix +:+ tag)%string := p0 +:+ p1 +:+ p2 +:+ p3]> boxes).
Proof.
  unfold contractPut, boxCreate. rewrite String.eqb_refl. simpl negb. cbv iota zeta.
  pose proof (len_nonneg p0); pose proof (len_nonneg p1); pose proof (len_nonneg p2); pose proof (len_nonneg p3).
  set (n := Z.to_nat _). assert (Hn : Z.of_nat n = len p0 + len p1 + len p2 + len p3) by (subst n; lia). clearbody n.
  pose proof (boxReplace_zeros "" n p0) as E0. change ("" +:+ zeros n) with (zeros n) in E0. change (len "") with 0 in E0.
  rewrite E0 by lia. cbn [mbind option_bind]. change ("" +:+ p0) with p0.
  rewrite boxReplace_zeros by (unfold len in *; lia). cbn [mbind option_bind].
  rewrite <- len_app, boxReplace_zeros by (unfold len in *; lia). cbn [mbind option_bind].
  rewrite <- len_app, boxReplace_zeros by (unfold len in *; lia). cbn [mbind option_bind].
  assert (Hz : (n - String.length p0 - String.length p1 - String.length p2 - String.length p3 = 0)%nat) by (unfold len in *; lia).
  rewrite Hz.
  change (zeros 0) with ""%string. by rewrite app_nil_s, !str_app_assoc.
Qed.

Lemma contractRemove_spec creator tag boxes :
  contractRemove creator creator tag boxes = Some (delete (BoxKeyPrefix +:+ tag)%string boxes).
Proof. unfold contractRemove. by rewrite String.eqb_refl. Qed.

(** ** The args of a put *)
Section Args.
Context Encode PutMethod RemoveMethod (L : AbiLaws Encode PutMethod RemoveMethod).

Lemma abiBytes_app n b : len n = lengthPrefix → abiBytes (n +:+ b) = b.
Proof. intros H. apply from_app. unfold len, lengthPrefix in H. lia. Qed.

(** What PutArgs encodes: the selector, the tag and the parts, each within
    one arg's limit, all within the call's; and the contract stores the value. *)
Lemma PutArgs_spec tag value args :
  String.length tag = BoxTagLen → PutArgs Encode PutMethod tag value = Ok args →
  total args = selectorLen + Z.of_nat BoxTagLen + Z.of_nat PutParts * lengthPrefix + len value ∧
  len value <= MaxValueLen ∧ Forall (λ a, len a <= MaxArgLen) args ∧
  ∀ creator boxes, contractCall PutMethod RemoveMethod creator creator args boxes = Some (<[(BoxKeyPrefix +:+ tag)%string := value]> boxes).
Proof.
  intros Ht H. unfold PutArgs in H. destruct (MaxValueLen <? len value) eqn:Ev; [discriminate |]. apply Z.ltb_ge in Ev.
  destruct (parts_enough value Ev) as (p0 & p1 & p2 & p3 & Ep & -> & H0 & H1 & H2 & H3). rewrite Ep in H. clear Ep.
  unfold encodeCall in H. rewrite (put_types _ _ _ L) in H. cbn in H. rewrite (encode_tag _ _ _ L tag Ht) in H. cbn in H.
  destruct (encode_bytes _ _ _ L p0) as (n0 & N0 & E0); [lia |]. destruct (encode_bytes _ _ _ L p1) as (n1 & N1 & E1); [lia |].
  destruct (encode_bytes _ _ _ L p2) as (n2 & N2 & E2); [lia |]. destruct (encode_bytes _ _ _ L p3) as (n3 & N3 & E3); [lia |].
  rewrite E0 in H; cbn in H. rewrite E1 in H; cbn in H. rewrite E2 in H; cbn in H. rewrite E3 in H; cbn in H. injection H as <-.
  assert (Htag : len tag = 16) by (unfold len; rewrite Ht; done). pose proof (put_selector _ _ _ L) as Hs.
  split; [| split; [done | split]].
  - cbn [total foldr]. rewrite !len_app, N0, N1, N2, N3, Hs, Htag. change (Z.of_nat BoxTagLen) with 16. change (Z.of_nat PutParts) with 4. lia.
  - unfold MaxArgLen, lengthPrefix, selectorLen in *. repeat constructor; rewrite ?len_app; lia.
  - intros creator boxes. cbn [contractCall]. rewrite String.eqb_refl.
    rewrite !abiBytes_app by done. by rewrite contractPut_spec.
Qed.
End Args.

(** ** Runs of the registry's programs *)
Lemma nask_runs a t x : runs (nask a) t x ↔ ∃ r, t = [existT a r] ∧ x = Some r.
Proof. unfold nask. simpl. split; [intros (r & t' & -> & -> & ->); eauto | intros (r & -> & ->); eauto]. Qed.

Lemma ntry_ok {A B} (m : Ledger (result error A)) (f : A → Ledger (result error B)) t b :
  runs (ntry m f) t (Some (Ok b)) →
  ∃ t1 t2 a, t = t1 ++ t2 ∧ runs m t1 (Some (Ok a)) ∧ runs (f a) t2 (Some (Ok b)).
Proof.
  unfold ntry, nthen. intros [(t1 & t2 & [a | e] & -> & H1 & H2) | [_ ?]]%runs_bind; [eauto 10 | | done].
  by destruct H2 as [_ ?].
Qed.

Lemma nwrap_ok {A} w (m : Ledger (result error A)) t a : runs (nwrap w m) t (Some (Ok a)) → runs m t (Some (Ok a)).
Proof.
  unfold nwrap, nthen. intros [(t1 & t2 & [b | e] & -> & H1 & H2) | [_ ?]]%runs_bind; [| | done].
  - destruct H2 as [-> [= ->]]. by rewrite app_nil_r.
  - by destruct H2 as [_ ?].
Qed.

Lemma nlift_ok {A} (r : result error A) t a : runs (nlift r) t (Some (Ok a)) → t = [] ∧ r = Ok a.
Proof. intros [-> [= ->]]. done. Qed.

Lemma orCrash_ok {A B} (o : option A) (f : A → Ledger B) t b : runs (orCrash o f) t (Some b) → ∃ a, o = Some a ∧ runs (f a) t (Some b).
Proof. destruct o as [a |]; [eauto |]. by intros [_ ?]. Qed.

Abbreviation trace := (list (sigT NResp)).

(** A property of the trace that the pieces of a program keep. *)
Class Splits (P : trace → Prop) := { splits_nil : P []; splits_app : ∀ t1 t2, P t1 → P t2 → P (t1 ++ t2) }.

(** ** Every transaction sent is one the protocol takes *)

(** The calls before a transaction that its amount and fee come from, and the
    transaction. *)
Definition sendsOk (ok : list (sigT NResp) → Txn → Prop) (t : trace) : Prop :=
  ∀ t1 tx reply t2, t = t1 ++ existT (NSend tx) reply :: t2 → ∃ t0 t1', t1 = t0 ++ t1' ∧ ok t1' tx.

#[export] Instance sendsOk_splits ok : Splits (sendsOk ok).
Proof.
  split; [by intros [| ? ?] tx reply t2 |].
  intros ta tb Ha Hb t1 tx reply t2 E.
  apply app_eq_app in E as (l & [[-> E] | [-> E]]).
  - destruct l as [| ev l].
    + simpl in E. destruct (Hb [] tx reply t2) as (t0 & t1' & E0 & Hok); [done |].
      exists t1, []. symmetry in E0. apply app_eq_nil in E0 as [-> ->]. by rewrite app_nil_r.
    + injection E as <- E. destruct (Ha t1 tx reply l eq_refl) as (t0 & t1' & -> & Hok). eauto.
  - destruct (Hb l tx reply t2 E) as (t0 & t1' & -> & Hok). exists (ta ++ t0), t1'. by rewrite app_assoc.
Qed.

Lemma sendsOk_snoc ok t a r : sendsOk ok t → (∀ tx, a = NSend tx → ok t tx) → sendsOk ok (t ++ [existT a r]).
Proof.
  intros Ht Ha t1 tx reply t2 E. apply app_eq_app in E as (l & [[-> E] | [-> E]]).
  - destruct l as [| ev l]; [| injection E as <- E; by eapply Ht].
    inversion E; subst. exists [], t1. split; [done |]. rewrite app_nil_r in Ha. by apply Ha.
  - destruct l as [| ev l]; [| injection E as _ E; by destruct l].
    inversion E; subst. exists [], t. rewrite app_nil_r. split; [done | by apply Ha].
Qed.

(** What is sent after the calls [pre]. *)
Definition after (ok : trace → Txn → Prop) (pre : trace) {A} (m : Ledger A) : Prop :=
  ∀ t x, runs m t x → sendsOk ok (pre ++ t).

Lemma after_ret ok pre {A} (a : A) : sendsOk ok pre → after ok pre (Ret a).
Proof. intros H t x [-> _]. by rewrite app_nil_r. Qed.
Lemma after_crash ok pre {A} : sendsOk ok pre → after ok pre (@Crash _ NResp A).
Proof. intros H t x [-> _]. by rewrite app_nil_r. Qed.
Lemma after_call ok pre {A} a (k : NResp a → Ledger A) :
  (∀ tx, a = NSend tx → ok pre tx) → sendsOk ok pre →
  (∀ r, sendsOk ok (pre ++ [existT a r]) → after ok (pre ++ [existT a r]) (k r)) → after ok pre (Call a k).
Proof.
  intros Ha Hp Hk t x (r & t' & -> & H). specialize (Hk r (sendsOk_snoc _ _ _ _ Hp Ha) t' x H).
  by rewrite <- app_assoc in Hk.
Qed.
(** A transaction's validity only looks at the calls just before it. *)
Lemma after_bind ok pre {A B} (m : Ledger A) (f : A → Ledger B) :
  after ok pre m → (∀ a, after ok [] (f a)) → after ok pre (bind f m).
Proof.
  intros Hm Hf t x [(t1 & t2 & a & -> & H1 & H2) | [H1 _]]%runs_bind; [| by eapply Hm].
  rewrite app_assoc. apply splits_app; [by eapply Hm | by eapply (Hf a)].
Qed.
Lemma after_try ok pre {A B} (m : Ledger (result error A)) (f : A → Ledger (result error B)) :
  after ok pre m → (∀ a, after ok [] (f a)) → after ok pre (ntry m f).
Proof. intros Hm Hf. apply after_bind; [done |]. intros [a | e]; [apply Hf | apply after_ret, splits_nil]. Qed.

Lemma submit_after ok SignTransaction w1 w2 tx pre :
  ok pre tx → sendsOk ok pre → after ok pre (submit SignTransaction w1 w2 tx).
Proof.
  intros Hok Hpre. unfold submit. destruct (SignTransaction tx); [by apply after_ret |]. cbn.
  apply after_call; [by intros ? [= <-] | done |]. intros [e |] H; [by apply after_ret |]. cbn.
  apply after_call; [done | done |]. intros r Hr. by apply after_ret.
Qed.

Lemma total_nonneg l : 0 <= total l.
Proof. induction l as [| a l IH]; [done |]. change (0 <= len a + total l). pose proof (len_nonneg a). lia. Qed.

Lemma CallFee_covers minFee args :
  0 <= minFee < 2 ^ 40 → total args <= MaxAppArgsLen →
  minFee * (10000 + Z.max 0 (total args - FreeAppArgsLen)) <= 10000 * CallFee minFee args.
Proof.
  intros Hm Ht. unfold CallFee, MaxAppArgsLen, FreeAppArgsLen, argByteSurcharge in *. pose proof (total_nonneg args) as Hn. cbv zeta.
  set (n := total args) in *. clearbody n.
  assert (Hf : (if 2048 <? n then wu64 (1000000 + wu64 (100 * (n - 2048))) else 1000000) = 100 * (10000 + Z.max 0 (n - 2048))).
  { destruct (2048 <? n) eqn:E; [| lia]. rewrite (wu64_id (100 * _)) by mlia. rewrite wu64_id by mlia. lia. }
  rewrite Hf. set (k := 10000 + Z.max 0 (n - 2048)). assert (Hk : 10000 <= k <= 24336) by lia. clearbody k.
  change (2 ^ 40) with 1099511627776 in Hm.
  assert (Hp : 0 <= minFee * (100 * k) <= 1099511627776 * 2433600) by nia.
  rewrite (wu64_id (minFee * _)) by mlia. rewrite wu64_id by mlia.
  pose proof (Z.mul_succ_div_gt (minFee * (100 * k) + 999999) 1000000). nia.
Qed.

(** ** What Put and Delete send, and after which calls *)
Section Sends.
Context (c : Crypto) (j : Json) (Encode : string → abiValue → result error string) (PutMethod RemoveMethod : Method)
        (AppAddress : Z → string) (makeFee : Z → string → txBody → result error Z) (SignTransaction : Txn → option error)
        (r : Registry).

(** Every transaction m sends, with all the calls before it, from the calls
    [pre] on. *)
Definition sends (ok : trace → Txn → Prop) (pre : trace) {A} (m : Ledger A) : Prop :=
  ∀ t x t1 tx reply t2, runs m t x → t = t1 ++ existT (NSend tx) reply :: t2 → ok (pre ++ t1) tx.

Lemma sends_ret ok pre {A} (a : A) : sends ok pre (Ret a).
Proof. intros t x t1 tx reply t2 [-> _] E. by destruct t1. Qed.
Lemma sends_crash ok pre {A} : sends ok pre (@Crash _ NResp A).
Proof. intros t x t1 tx reply t2 [-> _] E. by destruct t1. Qed.
Lemma sends_call ok pre {A} a (k : NResp a → Ledger A) :
  (∀ tx, a = NSend tx → ok pre tx) → (∀ ans, sends ok (pre ++ [existT a ans]) (k ans)) → sends ok pre (Call a k).
Proof.
  intros Ha Hk t x t1 tx reply t2 (ans & t' & -> & H) E. destruct t1 as [| ev t1].
  - inversion E; subst. rewrite app_nil_r. by apply Ha.
  - injection E as <- E. specialize (Hk ans t' x t1 tx reply t2 H E). by rewrite <- app_assoc in Hk.
Qed.
Lemma sends_try ok pre {A B} (m : Ledger (result error A)) (f : A → Ledger (result error B)) :
  sends ok pre m → (∀ t a, runs m t (Some (Ok a)) → sends ok (pre ++ t) (f a)) → sends ok pre (ntry m f).
Proof.
  intros Hm Hf t x t1 tx reply t2 H E. unfold ntry, nthen in H. apply runs_bind in H as [(ta & tb & [a | e] & -> & H1 & H2) | [H1 _]].
  - apply app_eq_app in E as (l & [[-> E] | [-> E]]).
    + destruct l as [| ev l].
      * rewrite app_nil_r in H1. specialize (Hf t1 a H1 tb x [] tx reply t2 H2 ltac:(done)). by rewrite app_nil_r in Hf.
      * injection E as <- E. by eapply Hm.
    + rewrite app_assoc. by eapply Hf.
  - destruct H2 as [-> _]. rewrite app_nil_r in E. by eapply Hm.
  - by eapply Hm.
Qed.

Lemma submit_sends ok pre w1 w2 tx : ok pre tx → sends ok pre (submit SignTransaction w1 w2 tx).
Proof.
  intros Hok. unfold submit. destruct (SignTransaction tx); [apply sends_ret |].
  apply sends_call; [by intros ? [= <-] |]. intros [e |]; [apply sends_ret |].
  apply sends_call; [done |]. intros ans. apply sends_ret.
Qed.

Lemma submit_ok w1 w2 tx t a :
  runs (submit SignTransaction w1 w2 tx) t (Some (Ok a)) → t = [existT (NSend tx) None; existT (NConfirm tx) (Ok a)].
Proof.
  unfold submit. destruct (SignTransaction tx); [by intros [_ [=]] |]. intros (err & t' & -> & H). destruct err as [e |]; [by destruct H as [_ [=]] |].
  apply nwrap_ok, nask_runs in H as (ans & -> & [= <-]). done.
Qed.

(** The fee the protocol asks for: a ten-thousandth of the minimum fee more for
    each arg byte beyond the free ones. *)
Definition feeCovers (minFee fee : Z) (args : list string) : Prop :=
  minFee * (10000 + Z.max 0 (total args - FreeAppArgsLen)) <= 10000 * fee.

(** A call of the application that does to its boxes what [does] says, with
    eight references to the box. *)
Definition recordCall (name : string) (does : gmap string string → gmap string string) (minFee : Z) (tx : Txn) : Prop :=
  ∃ args, tx_Sender tx = ra_Sender r ∧ tx_Body tx = AppCall (ra_AppID r) args (replicate 8 name) ∧
    total args <= MaxAppArgsLen ∧ Forall (λ a, len a <= MaxArgLen) args ∧
    (0 <= minFee < 2 ^ 40 → feeCovers minFee (tx_Fee tx) args) ∧
    ∀ creator boxes, contractCall PutMethod RemoveMethod creator creator args boxes = Some (does boxes).

(** What the application's account lacks for a box: the minimum it must hold,
    the box's own part of it, and 100000 over, less what it holds. *)
Definition lacks (info : Account) (name value : string) : Z :=
  ac_MinBalance info + (2500 + 400 * (len name + len value)) + 100000 - ac_Amount info.

(** Amounts as the chain has them, far from the end of uint64. *)
Definition amounts (info : Account) : Prop := 0 <= ac_Amount info < 2 ^ 64 ∧ 0 <= ac_MinBalance info < 2 ^ 63.

Definition fundingPayment (info : Account) (name value : string) (tx : Txn) : Prop :=
  tx_Sender tx = ra_Sender r ∧ ∃ amount, tx_Body tx = Payment (AppAddress (ra_AppID r)) amount ∧
    (amounts info → amount = lacks info name value ∧ 0 < amount).

(** The calls that bring the account to what the box needs: none when it holds
    that, or a payment that was confirmed. *)
Definition funded (info : Account) (name value : string) (t : trace) : Prop :=
  t = [existT (NAccount (AppAddress (ra_AppID r))) (Ok info)] ∧ (amounts info → lacks info name value <= 0) ∨
  ∃ minFee tx n, fundingPayment info name value tx ∧
    t = [existT (NAccount (AppAddress (ra_AppID r))) (Ok info); existT NParams (Ok minFee); existT (NSend tx) None; existT (NConfirm tx) (Ok n)].

(** What Put sends after which calls, for a record. *)
Definition putSends (rec : NodeRecord) (pre : trace) (tx : Txn) : Prop :=
  ∃ nonce blob name info, SealRecord c j (ra_Key r) rec nonce = Some (Ok blob) ∧ BoxName c (ra_Key r) (nr_ID rec) = Some name ∧
    ((∃ minFee, pre = [existT NRand (Ok nonce); existT (NAccount (AppAddress (ra_AppID r))) (Ok info); existT NParams (Ok minFee)] ∧
        fundingPayment info name blob tx) ∨
     (∃ t minFee, pre = existT NRand (Ok nonce) :: t ++ [existT NParams (Ok minFee)] ∧ funded info name blob t ∧
        recordCall name (λ boxes, <[name := blob]> boxes) minFee tx)).

Definition deleteSends (id : string) (pre : trace) (tx : Txn) : Prop :=
  ∃ name minFee, BoxName c (ra_Key r) id = Some name ∧ pre = [existT NParams (Ok minFee)] ∧
    recordCall name (λ boxes, delete name boxes) minFee tx.

Lemma wu64_need info name value :
  amounts info → len name <= 64 → len value <= MaxValueLen →
  wu64 (wu64 (ac_MinBalance info + BoxMinBalance (len name) (len value)) + 100000) = lacks info name value + ac_Amount info.
Proof.
  intros [_ Hm] Hn Hv. pose proof (len_nonneg name). pose proof (len_nonneg value). unfold MaxValueLen, MaxAppArgsLen, selectorLen, lengthPrefix in Hv.
  change (Z.of_nat BoxTagLen) with 16 in Hv. change (Z.of_nat PutParts) with 4 in Hv.
  unfold BoxMinBalance, lacks. rewrite (wu64_id (len name + len value)) by mlia. rewrite (wu64_id (400 * _)) by mlia. rewrite (wu64_id (2500 + _)) by mlia.
  rewrite (wu64_id (ac_MinBalance info + _)) by mlia. rewrite wu64_id by mlia. lia.
Qed.

(** ensureFunded pays what is lacking, once; and when it returns, it is
    there. *)
Lemma ensureFunded_sends ok pre name value :
  len name <= 64 → len value <= MaxValueLen →
  (∀ info minFee tx, fundingPayment info name value tx →
     ok (pre ++ [existT (NAccount (AppAddress (ra_AppID r))) (Ok info); existT NParams (Ok minFee)]) tx) →
  sends ok pre (ensureFunded AppAddress makeFee SignTransaction r (len name) (len value)).
Proof.
  intros Hn Hv Hok. unfold ensureFunded. apply sends_call; [done |]. intros [info | e]; [| apply sends_ret]. cbv beta zeta.
  pose proof (wu64_need info name value) as Hneed. set (need := wu64 (wu64 _ + _)) in *.
  cbn. destruct (need <=? ac_Amount info) eqn:En; [apply sends_ret |]. apply Z.leb_gt in En.
  apply sends_call; [done |]. intros [minFee | e]; [| apply sends_ret]. cbn. set (body := Payment _ _).
  destruct (makeFee minFee (ra_Sender r) body) as [fee | e]; [| apply sends_ret]. cbn.
  apply sends_try; [| intros; apply sends_ret]. apply submit_sends. rewrite <- app_assoc. apply Hok. split; [done |]. eexists. split; [reflexivity |].
  intros Ha. specialize (Hneed Ha Hn Hv). destruct Ha as [Ha _]. pose proof (wu64_range (wu64 (ac_MinBalance info + BoxMinBalance (len name) (len value)) + 100000)) as Hr.
  fold need in Hr. rewrite wu64_id by mlia. lia.
Qed.

Lemma ensureFunded_ok name value t :
  len name <= 64 → len value <= MaxValueLen →
  runs (ensureFunded AppAddress makeFee SignTransaction r (len name) (len value)) t (Some (Ok ())) →
  ∃ info, funded info name value t.
Proof.
  intros Hn Hv H. unfold ensureFunded in H. apply ntry_ok in H as (t1 & t2 & info & -> & H1 & H). exists info.
  apply nwrap_ok, nask_runs in H1 as (ans & -> & [= <-]). cbv zeta in H.
  pose proof (wu64_need info name value) as Hneed. set (need := wu64 (wu64 _ + _)) in *.
  destruct (need <=? ac_Amount info) eqn:En.
  - destruct H as [-> _]. left. split; [done |]. intros Ha. specialize (Hneed Ha Hn Hv). lia.
  - apply Z.leb_gt in En. apply ntry_ok in H as (t3 & t4 & minFee & -> & H3 & H). apply nask_runs in H3 as (ans & -> & [= <-]).
    apply ntry_ok in H as (t5 & t6 & fee & -> & [-> _]%nlift_ok & H). apply ntry_ok in H as (t7 & t8 & n & -> & ->%submit_ok & H).
    destruct H as [-> _]. right. do 3 eexists. split; [| reflexivity]. split; [done |]. eexists. split; [reflexivity |].
    intros Ha. specialize (Hneed Ha Hn Hv). destruct Ha as [Ha _]. pose proof (wu64_range (wu64 (ac_MinBalance info + BoxMinBalance (len name) (len value)) + 100000)) as Hr.
    fold need in Hr. rewrite wu64_id by mlia. lia.
Qed.

Lemma call_sends ok pre args name does :
  total args <= MaxAppArgsLen → Forall (λ a, len a <= MaxArgLen) args →
  (∀ creator boxes, contractCall PutMethod RemoveMethod creator creator args boxes = Some (does boxes)) →
  (∀ minFee tx, recordCall name does minFee tx → ok (pre ++ [existT NParams (Ok minFee)]) tx) →
  sends ok pre (call makeFee SignTransaction r args name).
Proof.
  intros Ht Hf Hd Hok. unfold call. apply sends_call; [done |]. intros [minFee | e]; [| apply sends_ret]. cbn.
  set (body := AppCall _ _ _). destruct (makeFee minFee (ra_Sender r) body) as [fee | e]; [| apply sends_ret]. cbn.
  apply sends_try; [| intros; apply sends_ret]. apply submit_sends, Hok. exists args. split_and!; [done | done | done | done | | done].
  intros Hm. cbn [tx_Fee]. pose proof (CallFee_covers minFee args Hm Ht) as Hc. unfold feeCovers.
  destruct (fee <? CallFee minFee args) eqn:E; [done |]. apply Z.ltb_ge in E. lia.
Qed.

Context (L : AbiLaws Encode PutMethod RemoveMethod).

Lemma BoxTag_length key id tag : BoxTag c key id = Some tag → String.length tag = BoxTagLen.
Proof. unfold BoxTag. destruct (hkdfKey c _ _ _ _); [| done]. intros [= <-]. apply slength_array. Qed.

Lemma RemoveArgs_spec tag args :
  String.length tag = BoxTagLen → RemoveArgs Encode RemoveMethod tag = Ok args → args = [me_Selector RemoveMethod; tag].
Proof.
  intros Ht. unfold RemoveArgs, encodeCall. rewrite (remove_types _ _ _ L). cbn. rewrite (encode_tag _ _ _ L tag Ht). cbn. by intros [= <-].
Qed.

Lemma BoxName_tag key id tag : BoxTag c key id = Some tag → BoxName c key id = Some (BoxKeyPrefix +:+ tag)%string.
Proof. unfold BoxName. by intros ->. Qed.

Lemma BoxName_short tag : String.length tag = BoxTagLen → len (BoxKeyPrefix +:+ tag) <= 64.
Proof. intros H. rewrite len_app. unfold len at 2. rewrite H. by vm_compute. Qed.

Lemma Put_sends rec : sends (putSends rec) [] (Put c j Encode PutMethod AppAddress makeFee SignTransaction r rec).
Proof.
  unfold Put. apply sends_call; [done |]. intros [nonce | e]; [| apply sends_ret]. cbn.
  destruct (SealRecord c j (ra_Key r) rec nonce) as [[blob | e] |] eqn:Es; [| apply sends_ret | apply sends_crash]. cbn.
  destruct (MaxValueLen <? len blob) eqn:Ev; [apply sends_ret |]. apply Z.ltb_ge in Ev.
  destruct (BoxTag c (ra_Key r) (nr_ID rec)) as [tag |] eqn:Et; [| apply sends_crash]. cbn.
  destruct (PutArgs Encode PutMethod tag blob) as [args | e] eqn:Ea; [| apply sends_ret]. cbn.
  pose proof (BoxName_tag _ _ _ Et) as En. rewrite En. cbn. apply BoxTag_length in Et.
  destruct (PutArgs_spec Encode PutMethod RemoveMethod L tag blob args Et Ea) as (Hn & Hv & Hf & Hc). pose proof (BoxName_short tag Et) as Hs.
  set (name := (BoxKeyPrefix +:+ tag)%string) in *.
  change (sends (putSends rec) [existT NRand (Ok nonce)]
            (ntry (ensureFunded AppAddress makeFee SignTransaction r (len name) (len blob)) (λ _, call makeFee SignTransaction r args name))).
  apply sends_try.
  - apply ensureFunded_sends; [done | done |]. intros info minFee tx Hp. exists nonce, blob, name, info. split_and!; [done | done |]. left. by exists minFee.
  - intros t [] H. destruct (ensureFunded_ok name blob t Hs Hv H) as [info Hi]. cbv beta. refine (call_sends _ _ args name (λ boxes, <[name := blob]> boxes) _ Hf Hc _).
    { rewrite Hn. unfold MaxValueLen in Hv. lia. }
    intros minFee tx Hcall. exists nonce, blob, name, info. split_and!; [done | done |]. right. by exists t, minFee.
Qed.

Lemma Delete_sends id : sends (deleteSends id) [] (Delete c Encode RemoveMethod makeFee SignTransaction r id).
Proof.
  unfold Delete. destruct (BoxTag c (ra_Key r) id) as [tag |] eqn:Et; [| apply sends_crash]. cbn.
  destruct (RemoveArgs Encode RemoveMethod tag) as [args | e] eqn:Ea; [| apply sends_ret]. cbn.
  pose proof (BoxName_tag _ _ _ Et) as En. rewrite En. cbn. apply BoxTag_length in Et.
  apply RemoveArgs_spec in Ea as ->; [| done]. pose proof (remove_selector _ _ _ L) as Hs.
  assert (Htag : len tag = 16) by (unfold len; rewrite Et; done).
  refine (call_sends _ _ _ (BoxKeyPrefix +:+ tag)%string (λ boxes, delete (BoxKeyPrefix +:+ tag)%string boxes) _ _ _ _).
  - cbn [total foldr]. rewrite Hs, Htag. done.
  - unfold selectorLen, MaxArgLen in *. repeat constructor; lia.
  - intros creator boxes. cbn [contractCall]. rewrite String.eqb_refl. apply contractRemove_spec.
  - intros minFee tx Hc. by exists (BoxKeyPrefix +:+ tag)%string, minFee.
Qed.

(** C33: whatever the node answers, the only transactions Put and Delete send
    are the sync account's own, and each is one the protocol accepts.  Delete
    sends one call that deletes the box of its id.  Put may first pay the
    application's account exactly what it lacks for the sealed record's box
    (its minimum balance, the box's 2500 and 400 a byte of name and value, and
    100000 over, less what it holds), when it lacks anything; and only when it
    lacks nothing, or that payment was confirmed, it sends the call that makes
    the record's box hold the sealed record.  A call has at most 4096 bytes in
    an arg and 16384 in all, eight references to the record's own box (enough
    for any value), and at least the fee its args need at the minimum fee the
    node just quoted. *)
Theorem transactions_valid t x t1 tx reply t2 :
  t = t1 ++ existT (NSend tx) reply :: t2 →
  (∀ rec, runs (Put c j Encode PutMethod AppAddress makeFee SignTransaction r rec) t x → putSends rec t1 tx) ∧
  (∀ id, runs (Delete c Encode RemoveMethod makeFee SignTransaction r id) t x → deleteSends id t1 tx) ∧
  MaxAppArgsLen <= 8 * boxRefBudget.
Proof.
  intros E. split_and!; [| | done].
  - intros rec H. exact (Put_sends rec t x t1 tx reply t2 H E).
  - intros id H. exact (Delete_sends id t x t1 tx reply t2 H E).
Qed.
End Sends.

(** ** The registry as a map from node ids to records *)
Section Chain.
Context (PutMethod RemoveMethod : Method) (appID : Z) (creator : string).

(** What a call shows of the application's boxes, or does to them, on a chain
    that executes the confirmed calls of the application by its contract and
    answers reads by what is there.  A call that was not confirmed may have
    been executed all the same. *)
Definition effect (ev : sigT NResp) (B B' : gmap string string) : Prop :=
  match ev with
  | existT a ans =>
      match a return NResp a → Prop with
      | NConfirm tx => λ ans,
          match tx_Body tx with
          | AppCall app args _ =>
              let ran := contractCall PutMethod RemoveMethod creator (tx_Sender tx) args B = Some B' in
              if app =? appID then (match ans with Ok _ => ran | Err _ => ran ∨ B' = B end) else B' = B
          | _ => B' = B
          end
      | NBoxNames app => λ ans,
          B' = B ∧ match ans with Ok names => app = appID → names ≡ₚ (map_to_list B).*1 | Err _ => True end
      | NBox app name => λ ans,
          B' = B ∧ (app = appID → match ans with Ok v => B !! name = Some v | Err BoxNotFound => B !! name = None | Err _ => True end)
      | _ => λ _, B' = B
      end ans
  end.

Fixpoint observed (t : trace) (B B' : gmap string string) : Prop :=
  match t with
  | [] => B' = B
  | ev :: t => ∃ B1, effect ev B B1 ∧ observed t B1 B'
  end.

Lemma observed_app t1 t2 B B' : observed (t1 ++ t2) B B' → ∃ B1, observed t1 B B1 ∧ observed t2 B1 B'.
Proof.
  revert B. induction t1 as [| ev t1 IH]; intros B H; [by exists B |].
  destruct H as (B1 & He & H). destruct (IH B1 H) as (B2 & H1 & H2). exists B2. split; [by exists B1 | done].
Qed.

Context (c : Crypto) (j : Json) (Encode : string → abiValue → result error string)
        (AppAddress : Z → string) (makeFee : Z → string → txBody → result error Z) (SignTransaction : Txn → option error)
        (r : Registry).
Context (L : AbiLaws Encode PutMethod RemoveMethod) (HA : ra_AppID r = appID) (HC : ra_Sender r = creator).

(** The record a box holds, for those who have the key. *)
Definition opened (B : gmap string string) (name : string) : option NodeRecord :=
  if IsRecordBox name then
    blob ← B !! name;
    match OpenRecord c j (ra_Key r) name blob with Some (Ok rec) => Some rec | _ => None end
  else None.

(** The abstract registry: the record of a node id. *)
Definition view (B : gmap string string) (id : string) : option NodeRecord :=
  name ← BoxName c (ra_Key r) id; opened B name.

Lemma submit_payment w1 w2 sender to amount fee t x B B' :
  runs (submit SignTransaction w1 w2 (mkTxn sender (Payment to amount) fee)) t x → observed t B B' → B' = B.
Proof.
  unfold submit. destruct (SignTransaction _); [by intros [-> _] |]. cbn.
  intros (e & t1 & -> & H). destruct e as [e |]; [destruct H as [-> _] | destruct H as (e & t2 & -> & [-> _])]; simpl;
    [by intros (B1 & -> & ->) | by intros (B1 & -> & B2 & -> & ->)].
Qed.

Lemma ensureFunded_effect n m t x B B' :
  runs (ensureFunded AppAddress makeFee SignTransaction r n m) t x → observed t B B' → B' = B.
Proof.
  unfold ensureFunded. cbn [ntry nthen nwrap nask nlift bind runs]. intros (info & t1 & -> & H). destruct info as [info | e]; [| destruct H as [-> _]; by intros (B1 & -> & ->)].
  cbv zeta in H. destruct (_ <=? _); [destruct H as [-> _]; by intros (B1 & -> & ->) |].
  destruct H as (p & t2 & -> & H). destruct p as [minFee | e]; [| destruct H as [-> _]; by intros (B1 & -> & B2 & -> & ->)].
  unfold nthen in H. cbn [bind] in H. destruct (makeFee _ _ _) as [fee | e]; [| destruct H as [-> _]; by intros (B1 & -> & B2 & -> & ->)].
  apply runs_bind in H as [(ta & tb & y & -> & H1 & H2) | [H1 _]].
  - intros (B1 & -> & B2 & -> & Ho). apply observed_app in Ho as (B3 & Ho1 & Ho2).
    apply (submit_payment _ _ _ _ _ _ _ _ _ _ H1) in Ho1 as ->. destruct y; destruct H2 as [-> _]; done.
  - intros (B1 & -> & B2 & -> & Ho). by apply (submit_payment _ _ _ _ _ _ _ _ _ _ H1) in Ho as ->.
Qed.

Lemma call_effect args box t B B' :
  runs (call makeFee SignTransaction r args box) t (Some (Ok tt)) → observed t B B' →
  contractCall PutMethod RemoveMethod creator creator args B = Some B'.
Proof.
  unfold call. intros (t1 & t2 & minFee & -> & H1%nwrap_ok & H)%ntry_ok. apply nask_runs in H1 as (? & -> & [= <-]).
  apply ntry_ok in H as (t3 & t4 & fee & -> & [-> Hf]%nwrap_ok%nlift_ok & H). cbv zeta in H.
  apply ntry_ok in H as (t5 & t6 & y & -> & H2 & [-> _]).
  intros (B1 & -> & Ho). rewrite app_nil_r in Ho. revert H2 Ho. unfold submit.
  destruct (SignTransaction _); [by intros [_ [=]] |]. cbn [nwrap nthen nask bind runs].
  intros (e & ta & -> & H). destruct e; [by destruct H as [_ [=]] |]. destruct H as (e & tb & -> & H).
  intros (B2 & -> & B3 & He & Ho). destruct e as [app | e]; [| by destruct H as [_ [=]]]. destruct H as [-> _]. simpl in Ho. subst B3.
  cbn in He. rewrite HA, Z.eqb_refl, HC in He. done.
Qed.
Lemma one_observed a ans t B B' : observed (existT a ans :: t) B B' → (∀ B1, effect (existT a ans) B B1 → B1 = B) → observed t B B'.
Proof. intros (B1 & He & Ho) H. by rewrite (H B1 He) in Ho. Qed.

Lemma Put_effect rec t B B' :
  runs (Put c j Encode PutMethod AppAddress makeFee SignTransaction r rec) t (Some (Ok tt)) → observed t B B' →
  ∃ nonce blob name, SealRecord c j (ra_Key r) rec nonce = Some (Ok blob) ∧ BoxName c (ra_Key r) (nr_ID rec) = Some name ∧
    B' = <[name := blob]> B.
Proof.
  unfold Put. intros (t1 & t2 & nonce & -> & (? & -> & [= <-])%nask_runs & H)%ntry_ok.
  apply orCrash_ok in H as (sealed & Es & H). apply ntry_ok in H as (t3 & t4 & blob & -> & [-> ->]%nlift_ok & H).
  destruct (MaxValueLen <? len blob); [by destruct H as [_ [=]] |].
  apply orCrash_ok in H as (tag & Et & H). apply ntry_ok in H as (t5 & t6 & args & -> & [-> Ea]%nwrap_ok%nlift_ok & H).
  apply orCrash_ok in H as (name & En & H). apply ntry_ok in H as (t7 & t8 & [] & -> & H1 & H2).
  simpl. intros (B1 & -> & Ho). apply observed_app in Ho as (B2 & Ho1 & Ho2).
  apply (ensureFunded_effect _ _ _ _ _ _ H1) in Ho1 as ->. apply (call_effect _ _ _ _ _ H2) in Ho2.
  destruct (PutArgs_spec Encode PutMethod RemoveMethod L tag blob args (BoxTag_length c _ _ _ Et) Ea) as (_ & _ & _ & Hc).
  rewrite Hc in Ho2. injection Ho2 as <-. exists nonce, blob, name. split; [done |]. split; [done |].
  unfold BoxName in En. rewrite Et in En. by injection En as <-.
Qed.

Lemma Delete_effect id t B B' :
  runs (Delete c Encode RemoveMethod makeFee SignTransaction r id) t (Some (Ok tt)) → observed t B B' →
  ∃ name, BoxName c (ra_Key r) id = Some name ∧ B' = delete name B.
Proof.
  unfold Delete. intros (tag & Et & H)%orCrash_ok. apply ntry_ok in H as (t5 & t6 & args & -> & [-> Ea]%nwrap_ok%nlift_ok & H).
  apply orCrash_ok in H as (name & En & H). intros Ho. apply (call_effect _ _ _ _ _ H) in Ho.
  apply (RemoveArgs_spec _ _ _ L) in Ea as ->; [| by eapply BoxTag_length]. cbn in Ho.
  rewrite String.eqb_refl, contractRemove_spec in Ho. injection Ho as <-. exists name. split; [done |].
  unfold BoxName in En. rewrite Et in En. by injection En as <-.
Qed.

(** The loop of List reads the boxes that are there. *)
Lemma listLoop_effect i names recs t B B' recs' :
  (i + length names <= ra_MaxRecords r)%nat →
  runs (listLoop c j r i names recs) t (Some (Ok recs')) → observed t B B' →
  B' = B ∧ recs' = recs ++ omap (opened B) names.
Proof.
  revert i recs t. induction names as [| name names IH]; intros i recs t Hi H; simpl in H.
  - destruct H as [-> [= ->]]. simpl. rewrite app_nil_r. by intros ->.
  - simpl in Hi. rewrite (proj2 (Nat.leb_gt _ _)) in H by lia. assert (Hi' : (S i + length names <= ra_MaxRecords r)%nat) by lia.
    assert (Ho : omap (opened B) (name :: names) = match opened B name with Some rec => rec :: omap (opened B) names | None => omap (opened B) names end) by done.
    rewrite Ho. clear Ho. unfold opened at 1. destruct (IsRecordBox name) eqn:Eb; simpl in H; [| by apply (IH (S i))].
    destruct H as (blob & t' & -> & H). intros (B1 & [-> Hb] & Ho). rewrite HA in Hb. specialize (Hb eq_refl).
    destruct blob as [blob | [| e]].
    + rewrite Hb. cbn [mbind option_bind]. destruct (OpenRecord c j (ra_Key r) name blob) as [[rec | e] |]; [| | by destruct H as [_ [=]]].
      * destruct (IH (S i) (recs ++ [rec]) t' Hi' H Ho) as [-> ->]. by rewrite <- app_assoc.
      * by apply (IH (S i) recs t' Hi' H).
    + rewrite Hb. cbn [mbind option_bind]. by apply (IH (S i) recs t' Hi' H).
    + by destruct H as [_ [=]].
Qed.

Lemma opened_own B name rec : opened B name = Some rec → BoxName c (ra_Key r) (nr_ID rec) = Some name.
Proof.
  unfold opened. destruct (IsRecordBox name); [| done]. destruct (B !! name) as [blob |]; [| done]. cbn.
  destruct (OpenRecord c j (ra_Key r) name blob) as [[x | e] |] eqn:E; [| done | done]. intros [= ->].
  unfold OpenRecord in E. destruct (_ <? _)%nat; [done |]. destruct (negb _); [done |]. destruct (newGCM _ _) as [a |]; [| done].
  destruct (Open a _ _ _); [| done]. destruct (unmarshalRecord j _) as [x |]; [| done].
  destruct (BoxName c (ra_Key r) (nr_ID x)) as [own |] eqn:En; [| done]. simpl in E.
  destruct (String.eqb_spec own name) as [-> |]; [| done]. simpl in E. destruct (Validate x); [| done]. by injection E as <-.
Qed.

Lemma List_effect t B B' recs round :
  (size B <= ra_MaxRecords r)%nat →
  runs (List c j r) t (Some (Ok (recs, round))) → observed t B B' →
  B' = B ∧ ∃ names, names ≡ₚ (map_to_list B).*1 ∧ recs = omap (opened B) names.
Proof.
  unfold List. intros Hs. destruct (ra_AppID r =? 0); [by intros [_ [=]] |].
  intros (t1 & t2 & names & -> & (? & -> & [= <-])%nask_runs & H)%ntry_ok.
  apply ntry_ok in H as (t3 & t4 & st & -> & (? & -> & [= <-])%nask_runs & H).
  apply ntry_ok in H as (t5 & t6 & rs & -> & H1 & [-> [= -> _]]). rewrite app_nil_r.
  intros (B1 & [-> Hn] & B2 & -> & Ho). specialize (Hn HA).
  destruct (listLoop_effect 0 names [] t5 B B' rs) as [-> ->]; [| done | done |].
  - rewrite Hn, length_fmap. by rewrite length_map_to_list.
  - split; [done |]. by exists names.
Qed.
(** Two ids with the same tag share a box. *)
Definition sameBox (id id' : string) : Prop := BoxName c (ra_Key r) id = BoxName c (ra_Key r) id'.

Lemma view_own B id : ∀ rec, view B id = Some rec → sameBox id (nr_ID rec).
Proof.
  intros rec. unfold view, sameBox. destruct (BoxName c (ra_Key r) id) as [name |] eqn:En; [| done]. cbn.
  intros H%opened_own. by rewrite H.
Qed.

(** C30: Against a chain that runs the application's contract, the registry is
    a map from node ids to records: a Put that returns without error makes the
    record the one read for its id, a Delete makes none be read for it, both
    leave every id with another box as it was, and a List returns exactly the
    records of the map, as long as the application has no more boxes than a
    List reads.  Boxes that are no records, or do not open, are passed over. *)
Theorem registry_refines_map okR okH okP rec id round t B B' recs :
  CryptoLaws c → JsonLaws j okR okH okP → okR rec → observed t B B' →
  (runs (Put c j Encode PutMethod AppAddress makeFee SignTransaction r rec) t (Some (Ok tt)) →
   view B' (nr_ID rec) = Some rec ∧ ∀ id', ¬ sameBox id' (nr_ID rec) → view B' id' = view B id') ∧
  (runs (Delete c Encode RemoveMethod makeFee SignTransaction r id) t (Some (Ok tt)) →
   view B' id = None ∧ ∀ id', ¬ sameBox id' id → view B' id' = view B id') ∧
  (runs (List c j r) t (Some (Ok (recs, round))) → (size B <= ra_MaxRecords r)%nat →
   B' = B ∧ ∀ x, x ∈ recs ↔ view B (nr_ID x) = Some x).
Proof.
  intros CL JL Hok Ho. split; [| split].
  - intros H. destruct (Put_effect _ _ _ _ H Ho) as (nonce & blob & name & Es & En & ->).
    destruct (seal_opens c j okR okH okP (ra_Key r) rec nonce blob name CL JL Hok En Es) as [Eo Eb].
    split.
    + unfold view. rewrite En. cbn. unfold opened. rewrite Eb, lookup_insert_eq. cbn. by rewrite Eo.
    + intros id' Hid. unfold view, sameBox in *. destruct (BoxName c (ra_Key r) id') as [name' |]; [| done]. cbn.
      unfold opened. rewrite lookup_insert_ne; [done | congruence].
  - intros H. destruct (Delete_effect _ _ _ _ H Ho) as (name & En & ->). split.
    + unfold view. rewrite En. cbn. unfold opened. rewrite lookup_delete_eq. by destruct (IsRecordBox name).
    + intros id' Hid. unfold view, sameBox in *. destruct (BoxName c (ra_Key r) id') as [name' |]; [| done]. cbn.
      unfold opened. rewrite lookup_delete_ne; [done | congruence].
  - intros H Hs. destruct (List_effect _ _ _ _ _ Hs H Ho) as [-> (names & Hn & ->)]. split; [done |]. intros x.
    rewrite list_elem_of_omap. split.
    + intros (name & _ & Hx). unfold view. by rewrite (opened_own _ _ _ Hx).
    + unfold view. destruct (BoxName c (ra_Key r) (nr_ID x)) as [name |]; [| done]. cbn. intros Hx. exists name. split; [| done].
      rewrite Hn. unfold opened in Hx. destruct (IsRecordBox name); [| done].
      destruct (B !! name) as [blob |] eqn:Eb; [| done]. apply list_elem_of_fmap. exists (name, blob). split; [done |].
      by apply elem_of_map_to_list.
Qed.
End Chain.

(** ** Maintenance of the application *)
Section Maintenance.
Context (AppAddress : Z → string) (makeFee : Z → string → txBody → result error Z) (SignTransaction : Txn → option error)
        (ApprovalTEAL ClearTEAL ApprovalProgram ClearProgram : string) (r : Registry) (appID : Z).

(** The answers before the transaction: the application is the sync account's
    own, and its boxes are as [P] says. *)
Definition checkedFirst (P : list string → Prop) (kind : txBody → Prop) (pre : trace) (tx : Txn) : Prop :=
  tx_Sender tx = ra_Sender r ∧ kind (tx_Body tx) ∧
  ∃ app boxes, existT (NApplication appID) (Ok app) ∈ pre ∧ ap_Creator app = ra_Sender r ∧
    existT (NAppBoxes appID) (Ok boxes) ∈ pre ∧ P boxes.

Ltac after_calls :=
  repeat match goal with
  | |- after _ _ (match ?x with _ => _ end) => destruct x eqn:?
  | |- after _ _ (bind _ (match ?x with _ => _ end)) => destruct x eqn:?
  | |- after _ _ (Ret _) => by apply after_ret
  | |- after _ _ (ntry (submit _ _ _ _) _) => apply after_try; [apply submit_after; [| done] | intros ?; apply after_ret, splits_nil]
  | |- after _ _ (Call _ _) => apply after_call; [done | first [done | apply splits_nil] |]; intros [?|?] ?
  | |- after _ _ _ => progress cbn
  end.

Ltac was_answered := first [apply list_elem_of_here | apply list_elem_of_further; was_answered].

Lemma filter_none {A} (f : A → bool) l : length (List.filter (λ x, negb (f x)) l) = 0%nat → Forall (λ x, f x = true) l.
Proof. induction l as [| a l IH]; [done |]. cbn. destruct (f a) eqn:E; [| done]. cbn. auto. Qed.

(** The application is only updated or deleted by its creator, and when
    nothing is lost by it: an update is sent only after the node said that the
    sync account created the application and that every box it holds is a record
    box, which the new program can remove; a delete only after it said that the
    application holds no box. *)
Theorem maintenance_guarded t x :
  (runs (Update AppAddress makeFee SignTransaction ApprovalTEAL ClearTEAL ApprovalProgram ClearProgram r appID) t x →
   sendsOk (checkedFirst (Forall (λ b, IsRecordBox b = true)) (λ b, ∃ approval clear, b = AppUpdate appID approval clear)) t) ∧
  (runs (DeleteApp AppAddress makeFee SignTransaction ApprovalProgram r appID) t x →
   sendsOk (checkedFirst (λ boxes, boxes = []) (λ b, b = AppDelete appID)) t).
Proof.
  set (ok1 := checkedFirst (Forall _) _). set (ok2 := checkedFirst (λ boxes, boxes = []) _). split.
  - enough (H : after ok1 [] (Update AppAddress makeFee SignTransaction ApprovalTEAL ClearTEAL ApprovalProgram ClearProgram r appID)) by apply (H t x).
    unfold Update, Inspect, send. cbn. after_calls.
    all: split; [done |]; split; [by eexists _, _ |]; exists a, a0; split; [was_answered |];
      split; [by apply negb_false_iff, String.eqb_eq in Heqb |]; split; [was_answered |].
    all: apply filter_none; by destruct (length _).
  - enough (H : after ok2 [] (DeleteApp AppAddress makeFee SignTransaction ApprovalProgram r appID)) by apply (H t x).
    unfold DeleteApp, Inspect, send. cbn. after_calls.
    split; [done |]; split; [done |]; exists a, a0; split; [was_answered |].
    split; [by apply negb_false_iff, String.eqb_eq in Heqb |]; split; [was_answered |]. by destruct a0.
Qed.
End Maintenance.

(** ** A chain with one application *)
Definition toyEncode (typ : string) (v : abiValue) : result error string :=
  match v with
  | VTag tag => Ok tag
  | VBytes b => Ok (String (ascii_of_nat (String.length b / 256)) (String (ascii_of_nat (String.length b mod 256)) b))
  end.
Definition toyPut : Method := mkMethod "put" "PUT!" ["byte[16]"; "byte[]"; "byte[]"; "byte[]"; "byte[]"].
Definition toyRemove : Method := mkMethod "remove" "DEL!" ["byte[16]"].
Definition toyFee (minFee : Z) (sender : string) (b : txBody) : result error Z := Ok minFee.
Definition toyAddress (app : Z) : string := "APP".
Definition noSignError (tx : Txn) : option error := None.
Definition sampleRegistry : Registry := mkRegistry 7 "key" "SYNC" "SYNC" 1000.

Lemma toy_abi : AbiLaws toyEncode toyPut toyRemove.
Proof.
  split; try reflexivity. intros b _. exists (String (ascii_of_nat (String.length b / 256)) (String (ascii_of_nat (String.length b mod 256)) "")).
  split; reflexivity.
Qed.

Definition sampleName : string := default ""%string (BoxName toyCrypto "key" (nr_ID sampleRecord)).
Definition sampleBlob : string :=
  match SealRecord toyCrypto toyJson "key" sampleRecord "123456789012" with Some (Ok b) => b | _ => "" end.

(** A node whose account has nothing yet, and whose only box is the sample's. *)
Definition sampleNode : env NResp := λ _ a,
  match a return NResp a with
  | NBoxNames _ | NAppBoxes _ => Ok [sampleName]
  | NStatus => Ok (mkStatus 100 0 0 false "")
  | NBox _ _ => Ok sampleBlob
  | NRand => Ok "123456789012"%string
  | NAccount _ => Ok (mkAccount 0 100000 "")
  | NParams => Ok 1000
  | NSend _ => None
  | NConfirm _ => Ok 0
  | NCompile _ => Err ""%string
  | NApplication _ => Ok (mkApplication "SYNC" "")
  end.

Definition samplePut : Ledger (result error ()) :=
  Put toyCrypto toyJson toyEncode toyPut toyAddress toyFee noSignError sampleRegistry sampleRecord.
Definition sampleList : Ledger (result error (list NodeRecord * Z)) := List toyCrypto toyJson sampleRegistry.

Lemma transactions_valid_witness :
  let t := (exec sampleNode [] samplePut).1 in
  ∃ t1 tx reply t2, t = t1 ++ existT (NSend tx) reply :: t2 ∧ length t1 = 6%nat ∧
    putSends toyCrypto toyJson toyPut toyRemove toyAddress sampleRegistry sampleRecord t1 tx.
Proof.
  intros t. exists (take 6 t). destruct (drop 6 t) as [| [a reply] t2] eqn:E; [by vm_compute in E |].
  assert (∃ tx, a = NSend tx) as [tx ->] by (vm_compute in E; injection E as <- _; by eexists).
  exists tx, reply, t2. assert (Et : t = take 6 t ++ existT (NSend tx) reply :: t2) by (rewrite <- E; by rewrite take_drop).
  split; [exact Et | split; [vm_compute; reflexivity |]].
  refine (proj1 (transactions_valid toyCrypto toyJson toyEncode toyPut toyRemove toyAddress toyFee noSignError sampleRegistry toy_abi
           t (exec sampleNode [] samplePut).2 (take 6 t) tx reply t2 Et) sampleRecord _). apply exec_runs.
Defined.

Lemma registry_refines_map_witness :
  let B := {[sampleName := sampleBlob]} : gmap string string in
  observed toyPut toyRemove 7 "SYNC" (exec sampleNode [] samplePut).1 ∅ B ∧
  view toyCrypto toyJson sampleRegistry B (nr_ID sampleRecord) = Some sampleRecord ∧
  (exec sampleNode [] sampleList).2 = Some (Ok ([sampleRecord], 100)).
Proof.
  intros B.
  assert (Ho : observed toyPut toyRemove 7 "SYNC" (exec sampleNode [] samplePut).1 ∅ B).
  { do 7 (eexists; split; [vm_compute; reflexivity |]). eexists. split; [vm_compute; reflexivity | vm_compute; reflexivity]. }
  split; [exact Ho |]. split; [| vm_compute; reflexivity].
  refine (proj1 (proj1 (registry_refines_map toyPut toyRemove 7 "SYNC" toyCrypto toyJson toyEncode toyAddress toyFee noSignError sampleRegistry
           toy_abi eq_refl eq_refl _ _ _ sampleRecord "" 0 (exec sampleNode [] samplePut).1 ∅ B [] toyCrypto_laws toyJson_laws eq_refl Ho) _)).
  pose proof (exec_runs sampleNode samplePut []) as H.
  assert (E : (exec sampleNode [] samplePut).2 = Some (Ok tt)) by (vm_compute; reflexivity). rewrite E in H. exact H.
Defined.

Definition sampleUpdate : Ledger (result error ()) := Update toyAddress toyFee noSignError "teal" "clear" "approval" "bin" sampleRegistry 7.

Lemma maintenance_guarded_witness :
  let t := (exec sampleNode [] sampleUpdate).1 in
  (exec sampleNode [] sampleUpdate).2 = Some (Ok tt) ∧
  sendsOk (checkedFirst sampleRegistry 7 (Forall (λ b, IsRecordBox b = true)) (λ b, ∃ approval clear, b = AppUpdate 7 approval clear)) t.
Proof.
  intros t. split; [vm_compute; reflexivity |].
  apply (proj1 (maintenance_guarded toyAddress toyFee noSignError "teal" "clear" "approval" "bin" sampleRegistry 7 t (exec sampleNode [] sampleUpdate).2)).
  apply exec_runs.
Defined.
