(* ===== verification/Files.v ===== *)
(** * Files: the file system calls of the adapters, and atomic writes

    The programs that read and write files ([FAct]) and what their calls do to
    the files ([fileStep]): a write that fails, or that a crash cuts off, may
    leave anything in the file it was writing; a rename replaces its target in
    one step.  [writeAtomically] is the sequence the registry cache
    (internal/adapters/registryfile/file.go, Cache.Save) and the limiter
    (internal/app/ratelimit.go, save) both end with. *)
From Stdlib Require Import Ascii.
From S2P Require Import Prelude GoStrings GoTime Ports Prog RateConfig Config.
Open Scope Z_scope.

Inductive FAct :=
  | FRead (path : string)                 (* os.ReadFile *)
  | FStat (path : string)                 (* os.Stat: the modification time *)
  | FMkdirAll (dir : string)
  | FWriteFile (path b : string)
  | FRename (old new : string).

Definition FResp (a : FAct) : Type :=
  match a with
  | FRead _ => result readError string
  | FStat _ => result readError Time
  | _ => option error
  end.

Declare Scope files_scope.
Definition Files : Type → Type := prog FResp.
Definition fask (a : FAct) : Files (FResp a) := Call a Ret.
Definition fthen {A B} (m : Files A) (f : A → Files B) : Files B := bind f m.
Notation "'let*' x := m 'in' k" := (fthen m (λ x, k)) (at level 10, x binder, m at level 200, k at level 200) : files_scope.
Open Scope files_scope.

(** filepath.Dir: what is up to the last slash, cleaned. *)
Fixpoint throughSlash (s : string) : string :=
  match s with
  | EmptyString => ""
  | String a s' => if contains "/" s' || Ascii.eqb a "/"%char then String a (throughSlash s') else ""
  end.
Definition Dir (path : string) : string := Clean (throughSlash path).

Definition tmpOf (path : string) : string := path +:+ ".tmp".

(** MkdirAll, WriteFile to the side, Rename over; the first error ends it. *)
Definition writeAtomically (path b : string) : Files (option error) :=
  let* e := fask (FMkdirAll (Dir path)) in
  match e with
  | Some e => Ret (Some e)
  | None =>
      let* e := fask (FWriteFile (tmpOf path) b) in
      match e with
      | Some e => Ret (Some e)
      | None => fask (FRename (tmpOf path) path)
      end
  end.

(** The end of the limiter's save: the state marshalled is written. *)
Definition saveState (StateFile : string) (marshalled : result error string) : Files (option error) :=
  match marshalled with
  | Err e => Ret (Some e)
  | Ok b => writeAtomically StateFile b
  end.

(** ** What the calls do to the files *)
Definition fileStep (ev : sigT FResp) (fs fs' : gmap string string) : Prop :=
  match ev with
  | existT a ans =>
      match a return FResp a → Prop with
      | FRead path => λ ans,
          fs' = fs ∧ match ans with Ok b => fs !! path = Some b | Err ErrNotExist => fs !! path = None | Err _ => True end
      | FStat path => λ ans,
          fs' = fs ∧ match ans with Ok _ => is_Some (fs !! path) | Err ErrNotExist => fs !! path = None | Err _ => True end
      | FMkdirAll _ => λ _, fs' = fs
      | FWriteFile path b => λ ans,
          match ans with None => fs' = <[path := b]> fs | Some _ => fs' = fs ∨ ∃ torn, fs' = <[path := torn]> fs end
      | FRename old new => λ ans,
          match ans with
          | None => ∃ b, fs !! old = Some b ∧ fs' = <[new := b]> (delete old fs)
          | Some _ => fs' = fs
          end
      end ans
  end.

Fixpoint seen (t : list (sigT FResp)) (fs fs' : gmap string string) : Prop :=
  match t with
  | [] => fs' = fs
  | ev :: t => ∃ fs1, fileStep ev fs fs1 ∧ seen t fs1 fs'
  end.

(** The files when the process died during the trace: after some of its
    calls, the next one done in part or not at all, as if it had failed. *)
Inductive crashed : list (sigT FResp) → gmap string string → gmap string string → Prop :=
  | crash_now t fs : crashed t fs fs
  | crash_write path b ans t fs torn : crashed (existT (FWriteFile path b) ans :: t) fs (<[path := torn]> fs)
  | crash_later ev t fs fs1 fs' : fileStep ev fs fs1 → crashed t fs1 fs' → crashed (ev :: t) fs fs'.

Lemma seen_app t1 t2 fs fs' : seen (t1 ++ t2) fs fs' → ∃ fs1, seen t1 fs fs1 ∧ seen t2 fs1 fs'.
Proof.
  revert fs. induction t1 as [| ev t1 IH]; intros fs H; [by exists fs |].
  destruct H as (fs1 & He & H). destruct (IH fs1 H) as (fs2 & H1 & H2). exists fs2. split; [by exists fs1 | done].
Qed.

Lemma crashed_app t1 t2 fs fs' :
  crashed (t1 ++ t2) fs fs' → crashed t1 fs fs' ∨ ∃ fs1, seen t1 fs fs1 ∧ crashed t2 fs1 fs'.
Proof.
  revert fs. induction t1 as [| ev t1 IH]; intros fs H; [right; by exists fs |].
  inversion H; subst; [left; constructor | left; constructor |].
  destruct (IH fs1) as [Hc | (fs2 & Hs & Hc)]; [done | left; by econstructor | right]. exists fs2. split; [by exists fs1 | done].
Qed.

Lemma tmpOf_ne path : tmpOf path ≠ path.
Proof.
  unfold tmpOf. intros H. apply (f_equal String.length) in H.
  assert (E : ∀ s t, String.length (s +:+ t) = (String.length s + String.length t)%nat) by (intros s t; induction s; simpl; auto).
  rewrite E in H. simpl in H. lia.
Qed.

(** Only the file to the side has changed; the file has been replaced. *)
Definition aside (path : string) (fs fs' : gmap string string) : Prop := ∀ p, p ≠ tmpOf path → fs' !! p = fs !! p.
Definition replaced (path b : string) (fs fs' : gmap string string) : Prop :=
  fs' !! path = Some b ∧ ∀ p, p ≠ path → p ≠ tmpOf path → fs' !! p = fs !! p.

Lemma aside_insert path b fs : aside path fs (<[tmpOf path := b]> fs).
Proof. intros p Hp. by rewrite lookup_insert_ne. Qed.

Lemma replaced_rename path b fs c :
  <[tmpOf path := b]> fs !! tmpOf path = Some c → replaced path b fs (<[path := c]> (delete (tmpOf path) (<[tmpOf path := b]> fs))).
Proof.
  rewrite lookup_insert_eq. intros [= <-]. split; [by rewrite lookup_insert_eq |].
  intros p Hp Ht. by rewrite lookup_insert_ne, lookup_delete_ne, lookup_insert_ne by done.
Qed.

Lemma crash_nil fs fs' : crashed [] fs fs' → fs' = fs.
Proof. by inversion 1. Qed.

Lemma crash_cons a ans t fs fs' :
  crashed (existT a ans :: t) fs fs' →
  fs' = fs ∨ (∃ path b torn, a = FWriteFile path b ∧ fs' = <[path := torn]> fs) ∨
  ∃ fs1, fileStep (existT a ans) fs fs1 ∧ crashed t fs1 fs'.
Proof. inversion 1; subst; eauto 10. Qed.

(** The file is replaced whole or not at all, and only it and the file to the
    side are touched. *)
Lemma writeAtomically_seen path b t x fs fs' :
  runs (writeAtomically path b) t x → seen t fs fs' → if x is Some None then replaced path b fs fs' else aside path fs fs'.
Proof.
  unfold writeAtomically, fthen, fask. cbn [bind runs].
  intros (e1 & t1 & -> & H). destruct e1 as [e1 |]; [destruct H as [-> ->]; by intros (fs1 & -> & ->) |].
  destruct H as (e2 & t2 & -> & H). destruct e2 as [e2 |].
  { destruct H as [-> ->]. intros (fs1 & -> & fs2 & [-> | [torn ->]] & ->); [done | apply aside_insert]. }
  destruct H as (e3 & t3 & -> & [-> ->]). intros (fs1 & -> & fs2 & -> & fs3 & H3 & ->).
  destruct e3 as [e3 |]; [simpl in H3; subst; apply aside_insert |]. destruct H3 as (c & Hc & ->). by apply replaced_rename.
Qed.

Lemma writeAtomically_crashed path b t x fs fs' :
  runs (writeAtomically path b) t x → crashed t fs fs' → aside path fs fs' ∨ replaced path b fs fs'.
Proof.
  unfold writeAtomically, fthen, fask. cbn [bind runs].
  intros (e1 & t1 & -> & H) [-> | [(? & ? & ? & [=] & _) | (fs1 & -> & Hc)]]%crash_cons; [by left |].
  destruct e1 as [e1 |]; [destruct H as [-> _]; apply crash_nil in Hc as ->; by left |].
  destruct H as (e2 & t2 & -> & H). apply crash_cons in Hc as [-> | [(p & c & torn & [= <- <-] & ->) | (fs2 & H2 & Hc)]]; [by left | left; apply aside_insert |].
  destruct e2 as [e2 |].
  { destruct H as [-> _]. apply crash_nil in Hc as ->. left. destruct H2 as [-> | [torn ->]]; [done | apply aside_insert]. }
  simpl in H2. subst fs2. destruct H as (e3 & t3 & -> & [-> _]).
  apply crash_cons in Hc as [-> | [(? & ? & ? & [=] & _) | (fs3 & H3 & Hc)]]; [left; apply aside_insert |].
  apply crash_nil in Hc as ->. destruct e3 as [e3 |]; [simpl in H3; subst; left; apply aside_insert |].
  right. destruct H3 as (c & Hc & ->). by apply replaced_rename.
Qed.

Lemma writeAtomically_returns path b t : ¬ runs (writeAtomically path b) t None.
Proof.
  unfold writeAtomically, fthen, fask. cbn [bind runs]. intros (e1 & t1 & _ & H). destruct e1; [by destruct H as [_ [=]] |].
  destruct H as (e2 & t2 & _ & H). destruct e2; [by destruct H as [_ [=]] |]. by destruct H as (e3 & t3 & _ & _ & [=]).
Qed.
