(* ===== verification/RegistryFile.v ===== *)
(** * RegistryFile: the registry as a JSON file
    (internal/adapters/registryfile/file.go)

    The cache of the last good read, the file-backed registry of the dev fleet
    and the read-only one.  encoding/json is an argument with its round trip;
    the mutex makes each operation one step. *)
From S2P Require Import Prelude GoStrings GoTime Types Ports Codec Prog RateConfig Config Files.
Open Scope Z_scope.

Section RegistryFile.
Context (ord : MapOrder)                                     (* the order of range over a map *)
        (marshal : list NodeRecord → result error string)    (* json.MarshalIndent *)
        (unmarshal : string → result error (list NodeRecord)).

(** The text of a file error. *)
Context (errText : readError → error).

(** ** Cache *)
Definition Cache_Load (path : string) : Files (result error (list NodeRecord)) :=
  if path =s "" then Ret (Ok [])
  else
    let* b := fask (FRead path) in
    Ret match b with
        | Err ErrNotExist => Ok []
        | Err e => Err (errText e)
        | Ok b => unmarshal b
        end.

Definition Cache_Save (path : string) (recs : list NodeRecord) : Files (option error) :=
  if path =s "" then Ret None
  else
    match marshal recs with
    | Err e => Ret (Some e)
    | Ok b => writeAtomically path b
    end.

(** ** Registry *)
Record RegState := mkRegState { rf_Path : string; rf_mem : gmap string NodeRecord; rf_Round : Z }.

(** The map of a file's records; a later one of an id wins. *)
Definition byID (recs : list NodeRecord) : gmap string NodeRecord :=
  foldl (λ m r, <[nr_ID r := r]> m) ∅ recs.

Definition load (st : RegState) : Files (result error (gmap string NodeRecord)) :=
  if rf_Path st =s "" then Ret (Ok (rf_mem st))
  else
    let* recs := Cache_Load (rf_Path st) in
    Ret match recs with Ok recs => Ok (byID recs) | Err e => Err e end.

Definition sorted (m : gmap string NodeRecord) : list NodeRecord :=
  insertion_sort (λ a b, sltb (nr_ID a) (nr_ID b)) (snd <$> range ord m).

Definition store (st : RegState) (m : gmap string NodeRecord) : Files (option error * RegState) :=
  if rf_Path st =s "" then Ret (None, st <| rf_mem := m |>)
  else
    let* e := Cache_Save (rf_Path st) (sorted m) in
    Ret (e, st).

Definition List (st : RegState) : Files (result error (list NodeRecord * Z)) :=
  let* m := load st in
  Ret match m with Ok m => Ok (sorted m, rf_Round st) | Err e => Err e end.

(** The round is bumped before the store, also when the store fails. *)
Definition bump (st : RegState) : RegState := st <| rf_Round ::= (λ n, wu64 (n + 1)) |>.

Definition Put (st : RegState) (rec : NodeRecord) : Files (option error * RegState) :=
  match Validate rec with
  | Err e => Ret (Some e, st)
  | Ok _ =>
      let* m := load st in
      match m with
      | Err e => Ret (Some e, st)
      | Ok m => store (bump st) (<[nr_ID rec := rec]> m)
      end
  end.

Definition Delete (st : RegState) (id : string) : Files (option error * RegState) :=
  let* m := load st in
  match m with
  | Err e => Ret (Some e, st)
  | Ok m => store (bump st) (delete id m)
  end.

(** ** Static *)
Definition Static_List (recs : list NodeRecord) : list NodeRecord * Z := (recs, 0).
Definition Static_Put (rec : NodeRecord) : option error := Some "static registry is read-only"%string.
Definition Static_Delete (id : string) : option error := Some "static registry is read-only"%string.

(** ** Laws *)
Lemma byID_snoc recs r : byID (recs ++ [r]) = <[nr_ID r := r]> (byID recs).
Proof. unfold byID. by rewrite foldl_app. Qed.

Definition keyed (m : gmap string NodeRecord) : Prop := ∀ id r, m !! id = Some r → nr_ID r = id.

Lemma byID_keyed recs : keyed (byID recs).
Proof.
  induction recs as [| r recs IH] using rev_ind; [by intros id r |]. rewrite byID_snoc. intros id x.
  destruct (decide (nr_ID r = id)) as [<- |]; [rewrite lookup_insert_eq; by intros [= ->] | rewrite lookup_insert_ne by done; apply IH].
Qed.

Lemma keyed_insert m rec : keyed m → keyed (<[nr_ID rec := rec]> m).
Proof.
  intros H id x. destruct (decide (nr_ID rec = id)) as [<- |]; [rewrite lookup_insert_eq; by intros [= ->] | rewrite lookup_insert_ne by done; apply H].
Qed.
Lemma keyed_delete m id : keyed m → keyed (delete id m).
Proof. intros H id' x. rewrite lookup_delete_Some. intros [_ ?]. by apply H. Qed.

Lemma byID_lookup recs id r :
  NoDup (nr_ID <$> recs) → byID recs !! id = Some r ↔ r ∈ recs ∧ nr_ID r = id.
Proof.
  induction recs as [| x recs IH] using rev_ind; [intros _; split; [done | by intros [?%elem_of_nil _]] |].
  rewrite fmap_app, NoDup_app. intros (Hn & Hd & _). rewrite byID_snoc, elem_of_app, list_elem_of_singleton.
  destruct (decide (nr_ID x = id)) as [<- | Hne].
  - rewrite lookup_insert_eq. split; [intros [= ->]; auto |]. intros [[Hr | ->] E]; [| done].
    destruct (Hd (nr_ID r)); [by apply list_elem_of_fmap_2 | rewrite E; by left].
  - rewrite lookup_insert_ne, IH by done. split; [by intros [? ?]; auto |]. by intros [[? | ->] ?].
Qed.

(** The records of a map, sorted: its values, once each. *)
Lemma sorted_perm m : sorted m ≡ₚ (map_to_list m).*2.
Proof. unfold sorted. rewrite insertion_sort_perm. by rewrite (range_perm ord). Qed.

Lemma sorted_ids m : keyed m → nr_ID <$> sorted m ≡ₚ (map_to_list m).*1.
Proof.
  intros H. rewrite sorted_perm. rewrite <- list_fmap_compose.
  assert (E : ∀ l, (∀ p, p ∈ l → nr_ID p.2 = p.1) → (nr_ID ∘ snd) <$> l = l.*1).
  { induction l as [| p l IH]; [done |]. intros Hl. rewrite !fmap_cons. simpl. rewrite (Hl p) by left. f_equal. apply IH. intros q Hq. apply Hl. by right. }
  rewrite E; [done |]. intros [id r] Hp%elem_of_map_to_list. by apply H.
Qed.

Lemma byID_sorted m : keyed m → byID (sorted m) = m.
Proof.
  intros H. apply map_eq. intros id. apply option_eq. intros r. rewrite byID_lookup.
  - rewrite sorted_perm, list_elem_of_fmap. split.
    + intros [([id' x] & -> & Hx%elem_of_map_to_list) <-]. simpl. by rewrite (H id' x Hx).
    + intros Hr. split; [exists (id, r); split; [done | by apply elem_of_map_to_list] | by apply H].
  - rewrite (sorted_ids m H). apply NoDup_fst_map_to_list.
Qed.

(** encoding/json: what is written is read back, when its records are ones
    JSON carries unchanged (their strings valid UTF-8). *)
Context (okRecord : NodeRecord → Prop).
Definition JsonRoundTrip : Prop := ∀ l b, Forall okRecord l → marshal l = Ok b → unmarshal b = Ok l.
Definition carries (m : gmap string NodeRecord) : Prop := ∀ id r, m !! id = Some r → okRecord r.

Lemma carries_insert m r : okRecord r → carries m → carries (<[nr_ID r := r]> m).
Proof. intros Hr H id x [[_ <-] | [_ ?]]%lookup_insert_Some; [done | by eapply H]. Qed.
Lemma carries_delete m id : carries m → carries (delete id m).
Proof. intros H id' x [_ ?]%lookup_delete_Some. by eapply H. Qed.
Lemma carries_sorted m : carries m → Forall okRecord (sorted m).
Proof.
  intros H. apply Forall_forall. intros r. rewrite sorted_perm, list_elem_of_fmap. intros ([id x] & -> & Hx%elem_of_map_to_list). by eapply H.
Qed.

(** Strictly by id. *)
Lemma sorted_by_id m : keyed m → StronglySorted (λ a b, sltb (nr_ID a) (nr_ID b) = true) (sorted m).
Proof.
  intros Hk. assert (NoDup (nr_ID <$> sorted m)) as Hn by (rewrite (sorted_ids m Hk); apply NoDup_fst_map_to_list).
  assert (StronglySorted (sort_le (λ a b, sltb (nr_ID a) (nr_ID b))) (sorted m)) as Hs.
  { apply (insertion_sort_sorted _ _ (sltb_strict (λ _, True) nr_ID)). by apply Forall_true. }
  revert Hn. induction Hs as [| r l _ IH Hr]; [constructor |]. rewrite fmap_cons. intros [Hin Hn]%NoDup_cons. constructor; [by apply IH |].
  rewrite Forall_forall in *. intros x Hx. specialize (Hr x Hx). unfold sort_le in Hr. destruct (sltb (nr_ID r) (nr_ID x)) eqn:E; [done |].
  destruct Hin. rewrite (sltb_total _ _ E Hr). by apply list_elem_of_fmap_2.
Qed.

(** The file holds the map; no file holds the empty one. *)
Definition holds (path : string) (fs : gmap string string) (m : gmap string NodeRecord) : Prop :=
  match fs !! path with
  | None => m = ∅
  | Some b => ∃ recs, unmarshal b = Ok recs ∧ m = byID recs
  end.

Lemma holds_keyed path fs m : holds path fs m → keyed m.
Proof. unfold holds. destruct (fs !! path); [intros (recs & _ & ->); apply byID_keyed | by intros ->]. Qed.

Lemma holds_aside path fs fs' m : aside path fs fs' → holds path fs m → holds path fs' m.
Proof. intros H. unfold holds. rewrite (H path); [done |]. by apply not_eq_sym, tmpOf_ne. Qed.

Lemma holds_replaced path fs fs' m b :
  JsonRoundTrip → keyed m → carries m → marshal (sorted m) = Ok b → replaced path b fs fs' → holds path fs' m.
Proof. intros HJ Hm Hc Hb [H _]. unfold holds. rewrite H. exists (sorted m). split; [by apply HJ; [apply carries_sorted |] | by rewrite byID_sorted]. Qed.

(** What a load reads. *)
Lemma load_runs st t x fs m :
  rf_Path st ≠ ""%string → runs (load st) t x → holds (rf_Path st) fs m →
  ∃ ans, t = [existT (FRead (rf_Path st)) ans] ∧
    (∀ fs1, fileStep (existT (FRead (rf_Path st)) ans) fs fs1 → fs1 = fs ∧ (x = Some (Ok m) ∨ ∃ e, x = Some (Err e))).
Proof.
  intros Hp H Hm. unfold load, Cache_Load in H. rewrite (proj2 (String.eqb_neq _ _) Hp) in H.
  unfold fthen, fask in H. cbn [bind runs] in H. destruct H as (ans & t1 & -> & [-> ->]). exists ans. split; [done |].
  intros fs1 [-> Ha]. split; [done |]. unfold holds in Hm. destruct ans as [b | [| |]]; try (by right; eexists).
  - rewrite Ha in Hm. destruct Hm as (recs & -> & ->). by left.
  - rewrite Ha in Hm. subst m. by left.
Qed.

(** Read the map, change it, write it: what Put and Delete both do. *)
Definition update (st : RegState) (f : gmap string NodeRecord → gmap string NodeRecord) : Files (option error * RegState) :=
  let* m := load st in
  match m with Err e => Ret (Some e, st) | Ok m => store (bump st) (f m) end.

Lemma update_atomic st f t x fs m :
  JsonRoundTrip → rf_Path st ≠ ""%string → runs (update st f) t x → holds (rf_Path st) fs m → keyed (f m) → carries (f m) →
  (∀ fs', seen t fs fs' → ∃ e st', x = Some (e, st') ∧ holds (rf_Path st) fs' (match e with None => f m | Some _ => m end)) ∧
  (∀ fs', crashed t fs fs' → holds (rf_Path st) fs' m ∨ holds (rf_Path st) fs' (f m)).
Proof.
  intros HJ Hp H Hm Hk Hcar. unfold update in H.
  apply runs_bind in H as [(t1 & t2 & y & -> & H1 & H2) | [H1 ->]].
  2: { unfold load, Cache_Load in H1. rewrite (proj2 (String.eqb_neq _ _) Hp) in H1. cbn in H1. by destruct H1 as (? & ? & _ & _ & [=]). }
  destruct (load_runs st t1 _ fs m Hp H1 Hm) as (ans & -> & Hl).
  assert (Hw : ∀ fs1, fileStep (existT (FRead (rf_Path st)) ans) fs fs1 → fs1 = fs ∧
    ((∃ b z, marshal (sorted (f m)) = Ok b ∧ runs (writeAtomically (rf_Path st) b) t2 z ∧ x = option_map (λ e, (e, bump st)) z) ∨
     (t2 = [] ∧ ∃ e st', x = Some (Some e, st')))).
  { intros fs1 Hs. destruct (Hl fs1 Hs) as [-> [[= ->] | (e & [= ->])]]; (split; [done |]); [| right; destruct H2 as [-> ->]; by eauto].
    unfold store in H2. change (rf_Path (bump st)) with (rf_Path st) in H2. rewrite (proj2 (String.eqb_neq _ _) Hp) in H2.
    unfold Cache_Save in H2. rewrite (proj2 (String.eqb_neq _ _) Hp) in H2.
    destruct (marshal (sorted (f m))) as [b | e]; [left; exists b | right; destruct H2 as [-> ->]; by eauto].
    apply runs_bind in H2 as [(t3 & t4 & e & -> & H3 & [-> ->]) | [H3 ->]]; [exists (Some e); by rewrite app_nil_r | by exists None]. }
  split; intros fs'.
  - intros (fs1 & Hs & Ho). destruct (Hw fs1 Hs) as [-> [(b & z & Hb & Hz & ->) | (-> & e & st' & ->)]].
    + pose proof (writeAtomically_seen _ _ _ _ _ _ Hz Ho) as Hr.
      destruct z as [e |]; [| by apply writeAtomically_returns in Hz]. exists e, (bump st). split; [done |].
      destruct e as [e |]; [by eapply holds_aside | by eapply holds_replaced].
    + simpl in Ho. subst fs'. by exists (Some e), st'.
  - intros [-> | [(? & ? & ? & [=] & _) | (fs1 & Hs & Hc)]]%crash_cons; [by left |].
    destruct (Hw fs1 Hs) as [-> [(b & z & Hb & Hz & ->) | (-> & _)]].
    + destruct (writeAtomically_crashed _ _ _ _ _ _ Hz Hc) as [Ha | Hr]; [left; by eapply holds_aside | right; by eapply holds_replaced].
    + apply crash_nil in Hc as ->. by left.
Qed.

(** C32: the file registry is a map from ids to records that changes in one
    step.  A Put or a Delete that returns without error leaves the map with the
    record in it, or without it; one that fails leaves the map as it was; and
    whenever the process dies during one, the file holds the map before or the
    map after, never a part of a write.  A List returns the records of the map,
    each once, in the order of their ids.  That is for records that JSON
    carries unchanged. *)
Theorem file_registry_atomic st rec id fs m :
  JsonRoundTrip → rf_Path st ≠ ""%string → holds (rf_Path st) fs m → carries m →
  (∀ t x, runs (Put st rec) t x → is_ok (Validate rec) = true → okRecord rec →
    (∀ fs', seen t fs fs' → ∃ e st', x = Some (e, st') ∧
      holds (rf_Path st) fs' (match e with None => <[nr_ID rec := rec]> m | Some _ => m end)) ∧
    (∀ fs', crashed t fs fs' → holds (rf_Path st) fs' m ∨ holds (rf_Path st) fs' (<[nr_ID rec := rec]> m))) ∧
  (∀ t x, runs (Delete st id) t x →
    (∀ fs', seen t fs fs' → ∃ e st', x = Some (e, st') ∧
      holds (rf_Path st) fs' (match e with None => delete id m | Some _ => m end)) ∧
    (∀ fs', crashed t fs fs' → holds (rf_Path st) fs' m ∨ holds (rf_Path st) fs' (delete id m))) ∧
  (∀ t recs round fs', runs (List st) t (Some (Ok (recs, round))) → seen t fs fs' →
    fs' = fs ∧ round = rf_Round st ∧ (∀ r, r ∈ recs ↔ m !! nr_ID r = Some r) ∧
    StronglySorted (λ a b, sltb (nr_ID a) (nr_ID b) = true) recs).
Proof.
  intros HJ Hp Hm Hc. pose proof (holds_keyed _ _ _ Hm) as Hk. split; [| split].
  - intros t x H Hv Hr. unfold Put in H. destruct (Validate rec) as [[] | e]; [| done].
    by apply (update_atomic st (insert (nr_ID rec) rec)); [.. | apply keyed_insert | apply carries_insert].
  - intros t x H. by apply (update_atomic st (delete id)); [.. | apply keyed_delete | apply carries_delete].
  - intros t recs round fs' H Ho. unfold List in H.
    apply runs_bind in H as [(t1 & t2 & y & -> & H1 & [-> Hy]) | [_ [=]]]. rewrite app_nil_r in Ho.
    destruct (load_runs st t1 _ fs m Hp H1 Hm) as (ans & -> & Hl). destruct Ho as (fs1 & Hs & ->).
    destruct (Hl fs1 Hs) as [-> [[= ->] | (e & [= ->])]]; [| by discriminate Hy]. injection Hy as -> ->.
    split; [done |]. split; [done |]. split; [| by apply sorted_by_id]. intros r. rewrite sorted_perm, list_elem_of_fmap. split.
    + intros ([i x] & -> & Hx%elem_of_map_to_list). simpl. by rewrite (Hk i x Hx).
    + intros Hr. exists (nr_ID r, r). split; [done | by apply elem_of_map_to_list].
Qed.
End RegistryFile.

(** ** A file with one record *)
#[local] Instance archival_eq : EqDecision Archival. Proof. solve_decision. Defined.
#[local] Instance limits_eq : EqDecision SimulateLimits. Proof. solve_decision. Defined.
#[local] Instance overrides_eq : EqDecision CapabilityOverrides. Proof. solve_decision. Defined.
#[local] Instance agent_eq : EqDecision AgentInfo. Proof. solve_decision. Defined.
#[local] Instance record_eq : EqDecision NodeRecord. Proof. solve_decision. Defined.

Definition toyMarshal (l : list NodeRecord) : result error string :=
  if decide (l = []) then Ok "[]"%string else if decide (l = [sampleRecord]) then Ok "[r]"%string else Err "json"%string.
Definition toyUnmarshal (b : string) : result error (list NodeRecord) :=
  if b =s "[]" then Ok [] else if b =s "[r]" then Ok [sampleRecord] else Err "json"%string.

Lemma toy_json : JsonRoundTrip toyMarshal toyUnmarshal (λ r, r = sampleRecord).
Proof. intros l b _. unfold toyMarshal. destruct (decide _) as [-> |]; [by intros [= <-] |]. destruct (decide _) as [-> |]; [by intros [= <-] | done]. Qed.

Definition mapOrder : MapOrder := mkMapOrder (λ A m, map_to_list m) (λ A m, Permutation_refl _).
Definition emptyDisk : env FResp := λ _ a,
  match a return FResp a with
  | FRead _ => Err ErrNotExist | FStat _ => Err ErrNotExist
  | FMkdirAll _ => None | FWriteFile _ _ => None | FRename _ _ => None
  end.
Definition fileState : RegState := mkRegState "/var/registry.json" ∅ 0.
Definition filePut : Files (option error * RegState) :=
  Put mapOrder toyMarshal toyUnmarshal (λ _, "read"%string) fileState sampleRecord.

Lemma file_registry_atomic_witness :
  let fs := {["/var/registry.json" := "[r]"]} : gmap string string in
  (exec emptyDisk [] filePut).2 = Some (None, bump fileState) ∧
  holds toyUnmarshal "/var/registry.json" fs {["n1" := sampleRecord]}.
Proof.
  intros fs. assert (E : (exec emptyDisk [] filePut).2 = Some (None, bump fileState)) by (vm_compute; reflexivity).
  split; [exact E |].
  destruct (file_registry_atomic mapOrder toyMarshal toyUnmarshal (λ _, "read"%string) (λ r, r = sampleRecord) fileState sampleRecord "" ∅ ∅ toy_json)
    as (HP & _ & _); [discriminate | reflexivity | by intros id r |].
  destruct (HP (exec emptyDisk [] filePut).1 (exec emptyDisk [] filePut).2 (exec_runs _ _ _)) as [Hs _]; [reflexivity | reflexivity |].
  destruct (Hs fs) as (e & st' & Ex & Hh).
  - eexists. split; [split; [reflexivity | vm_compute; reflexivity] |].
    eexists. split; [reflexivity |]. eexists. split; [reflexivity |]. eexists.
    split; [exists "[r]"%string; split; [vm_compute; reflexivity | reflexivity] | vm_compute; reflexivity].
  - rewrite E in Ex. injection Ex as <- <-. exact Hh.
Defined.
