(* ===== verification/DataDir.v ===== *)
(** * DataDir: what the local algod's data directory says
    (internal/adapters/datadir/datadir.go)

    Reading algod.net, genesis.json, config.json and algod.token, in the order
    of the code; encoding/json is an argument: Unmarshal of config.json fills a
    value that starts as the defaults. *)
From Stdlib Require Import Ascii.
From S2P Require Import Prelude GoStrings GoTime GoNet Ports Prog RateConfig Config Files Passthrough.
Open Scope Z_scope.

Record configFile := mkConfigFile {
  df_Archival : bool;
  df_MaxBlockHistoryLookback : Z;
  df_EnableDeveloperAPI : bool;
  df_EnableFollowMode : bool;
  df_EnableExperimentalAPI : bool;
  df_EnableTimeTravel : bool;
  df_MaxAcctLookback : Z;
  df_StorageEngine : string;
  df_RestWriteTimeoutSeconds : Z;
  df_EndpointAddress : string;
  df_DisableAPIAuth : bool
}.

Definition defaults : configFile := mkConfigFile false 0 false false false false 4 "sqlite" 120 "127.0.0.1:0" false.

(** strings.Trim(s, "[]") *)
Definition bracket (a : ascii) : bool := Ascii.eqb a "[" || Ascii.eqb a "]".
Fixpoint trim_brackets_left (s : string) : string :=
  match s with String a s' => if bracket a then trim_brackets_left s' else s | EmptyString => "" end.
Fixpoint trim_brackets_right (s : string) : string :=
  match s with
  | EmptyString => ""
  | String a s' =>
      let t := trim_brackets_right s' in
      if (t =s "") && bracket a then ""%string else String a t
  end.
Definition trim_brackets (s : string) : string := trim_brackets_right (trim_brackets_left s).

Definition wildcardName (h : string) : bool := (h =s "") || (h =s "0.0.0.0") || (h =s "::").

Definition endpointURL (addr : string) : string :=
  if has_prefix "http://" addr || has_prefix "https://" addr then addr
  else
    let '(host, port, ok) :=
      match last_index_byte ":" addr with
      | Some (S i) => (str_take (S i) addr, str_drop (S (S i)) addr, true)
      | _ => cut ":" addr
      end in
    if negb ok then "http://" +:+ addr
    else
      let host := if wildcardName (trim_brackets host) then "127.0.0.1"%string else host in
      "http://" +:+ host +:+ ":" +:+ port.

Section Read.
Context (unmarshalGenesis : string → result error (string * string))          (* network, id *)
        (unmarshalConfig : string → configFile → result error configFile)
        (errText : readError → error).

Definition readTrimmed (path : string) : Files (result readError string) :=
  let* b := fask (FRead path) in
  Ret match b with Ok b => Ok (trim_space b) | Err e => Err e end.

(** config.json when it exists, with its modification time. *)
Definition readConfigFile (path : string) : Files (result error (configFile * option Time)) :=
  let* st := fask (FStat path) in
  match st with
  | Ok mtime =>
      let* raw := fask (FRead path) in
      Ret match raw with
          | Err e => Err ("datadir: " +:+ errText e)%string
          | Ok raw =>
              match unmarshalConfig raw defaults with
              | Err e => Err ("datadir: config.json: " +:+ e)%string
              | Ok cf => Ok (cf, Some mtime)
              end
          end
  | Err ErrNotExist => Ret (Ok (defaults, None))
  | Err e => Ret (Err ("datadir: " +:+ errText e)%string)
  end.

(** The files of the directory, put together. *)
Definition nodeConfig (netAddr network id token : string) (cf : configFile) (mtime : option Time) : NodeConfig :=
  mkNodeConfig (endpointURL netAddr) netAddr token (network +:+ "-" +:+ id) (df_Archival cf) (df_MaxBlockHistoryLookback cf)
    (df_EnableDeveloperAPI cf) (df_EnableFollowMode cf) (df_EnableExperimentalAPI cf) (df_EnableTimeTravel cf)
    (df_MaxAcctLookback cf) (df_StorageEngine cf) (df_RestWriteTimeoutSeconds cf) (default zero_time mtime).

Definition Read (dir : string) : Files (result error NodeConfig) :=
  if dir =s "" then Ret (Err "datadir: empty directory"%string)
  else
    let* netAddr := readTrimmed (Join dir "algod.net") in
    match netAddr with
    | Err e => Ret (Err ("datadir: " +:+ errText e +:+ " (is algod running?)")%string)
    | Ok netAddr =>
        let* gen := fask (FRead (Join dir "genesis.json")) in
        match gen with
        | Err e => Ret (Err ("datadir: " +:+ errText e)%string)
        | Ok gen =>
            match unmarshalGenesis gen with
            | Err e => Ret (Err ("datadir: genesis.json: " +:+ e)%string)
            | Ok (network, id) =>
                let* cfg := readConfigFile (Join dir "config.json") in
                match cfg with
                | Err e => Ret (Err e)
                | Ok (cf, mtime) =>
                    let* token := readTrimmed (Join dir "algod.token") in
                    Ret match token with
                        | Ok token => Ok (nodeConfig netAddr network id token cf mtime)
                        | Err ErrNotExist =>
                            if df_DisableAPIAuth cf then Ok (nodeConfig netAddr network id "" cf mtime)
                            else Err ("datadir: " +:+ errText ErrNotExist)%string
                        | Err e => Err ("datadir: " +:+ errText e)%string
                        end
                end
            end
        end
    end.
End Read.

(** ** The base URL is where algod listens *)

(** The bytes of an IP address or a host name, and of a port. *)
Definition nameByte (a : ascii) : bool := is_alpha a || isSome (digit a) || Ascii.eqb a "." || Ascii.eqb a "-".
Definition digits (s : string) : bool := all_bytes (λ a, isSome (digit a)) s.

(** A host as net.Listener prints it: a name or an IPv4 address, or an IPv6
    address in brackets. *)
Definition listenHost (host : string) : Prop :=
  all_bytes nameByte host = true ∨
  ∃ h, host = "[" +:+ h +:+ "]" ∧ all_bytes (λ a, nameByte a || Ascii.eqb a ":") h = true.

Lemma all_bytes_weaken (f g : ascii → bool) s : (∀ a, f a = true → g a = true) → all_bytes f s = true → all_bytes g s = true.
Proof. intros H. induction s as [| a s IH]; [done |]. simpl. rewrite !andb_true_iff. intros [? ?]. auto. Qed.
Lemma all_bytes_app f s t : all_bytes f (s +:+ t) = all_bytes f s && all_bytes f t.
Proof. induction s as [| a s IH]; [done |]. simpl. by rewrite <- andb_assoc, <- IH. Qed.

(** A byte of neither kind is none of a text. *)
Lemma not_contains f c s : all_bytes f s = true → f c = false → contains c s = false.
Proof.
  intros H Hc. induction s as [| a s IH]; [done |]. simpl in *. apply andb_true_iff in H as [Ha H].
  rewrite IH by done. destruct (Ascii.eqb_spec a c) as [-> |]; [congruence |]. done.
Qed.

Lemma last_index_app c s t : contains c t = false → last_index_byte c (s +:+ String c t) = Some (String.length s).
Proof.
  intros H. induction s as [| a s IH]; simpl.
  - assert (E : last_index_byte c t = None).
    { clear -H. induction t as [| a t IH]; [done |]. simpl in *. apply orb_false_iff in H as [Ha H]. by rewrite IH, Ha. }
    by rewrite E, Ascii.eqb_refl.
  - change (last_index_byte c (String a (s +:+ String c t)) = Some (S (String.length s))). simpl.
    change (last_index_byte c (s +:+ String c t)) with (last_index_byte c (s +:+ String c t)). by rewrite IH.
Qed.

Lemma last_index_none c t : contains c t = false → last_index_byte c t = None.
Proof. intros H. induction t as [| a t IH]; [done |]. simpl in *. apply orb_false_iff in H as [Ha H]. by rewrite IH, Ha. Qed.

Lemma str_take_app s t : str_take (String.length s) (s +:+ t) = s.
Proof. unfold str_take. induction s as [| a s IH]; [by destruct t |]. change (String a (String.substring 0 (String.length s) (s +:+ t)) = String a s). by rewrite IH. Qed.
Lemma str_drop_S s a t : str_drop (S (String.length s)) (s +:+ String a t) = t.
Proof. induction s as [| b s IH]; [by destruct t |]. exact IH. Qed.

Lemma cut_none c s : contains c s = false → cut c s = (s, ""%string, false).
Proof. intros H. induction s as [| a s IH]; [done |]. simpl in *. apply orb_false_iff in H as [-> H]. by rewrite IH. Qed.

(** Bytes of a host and port. *)
Definition hostByte (a : ascii) : bool := nameByte a || Ascii.eqb a ":" || bracket a.

(** Every byte, when a property of all 256 is decided. *)
Lemma all_ascii (f : ascii → bool) : List.forallb (λ n, f (ascii_of_nat n)) (seq 0 256) = true → ∀ a, f a = true.
Proof.
  intros H a. rewrite List.forallb_forall in H. rewrite <- (ascii_nat_embedding a). apply H.
  apply List.in_seq. pose proof (nat_ascii_bounded a). lia.
Qed.

Lemma hostByte_plain a : hostByte a = true → negb (ctl_byte a) = true.
Proof.
  pose proof (all_ascii (λ a, implb (hostByte a) (negb (ctl_byte a))) eq_refl a) as H. simpl in H. by intros E; rewrite E in H.
Qed.

Lemma url_host_plain hp : all_bytes hostByte hp = true → url_host ("http://" +:+ hp) = parse_host hp.
Proof.
  intros H.
  assert (Hno : ∀ c, hostByte c = false → contains c hp = false) by (intros c; by apply not_contains).
  assert (Hctl : all_bytes (λ a, negb (ctl_byte a)) hp = true) by (by eapply all_bytes_weaken; [apply hostByte_plain |]).
  unfold url_host. rewrite cut_none by (apply (Hno "#"%char); reflexivity).
  change (all_bytes (λ a, negb (ctl_byte a)) ("http://" +:+ hp)) with (all_bytes (λ a, negb (ctl_byte a)) hp). rewrite Hctl.
  change (get_scheme 0 ("http://" +:+ hp) ("http://" +:+ hp)) with (Some ("http"%string, "//" +:+ hp)).
  simpl negb. cbv iota. cbn [mbind option_bind]. rewrite cut_none by (apply (Hno "?"%char); reflexivity).
  assert (Hp : has_prefix "/" ("//" +:+ hp) = true) by reflexivity. assert (Hp2 : has_prefix "//" ("//" +:+ hp) = true) by (destruct hp; reflexivity).
  rewrite Hp, Hp2. change ("http" =s "") with false. cbn [negb andb orb].
  change (str_drop 2 ("//" +:+ hp)) with hp. rewrite cut_none by (apply (Hno "/"%char); reflexivity).
  unfold parse_authority. rewrite last_index_none by (apply (Hno "@"%char); reflexivity).
  by destruct (parse_host hp).
Qed.

Lemma digits_plain port : digits port = true → all_bytes hostByte port = true.
Proof. apply all_bytes_weaken. intros a Ha. unfold hostByte, nameByte. rewrite Ha. by rewrite orb_true_r. Qed.

Lemma listenHost_bytes host : listenHost host → all_bytes hostByte host = true.
Proof.
  intros [H | (h & -> & H)].
  - eapply all_bytes_weaken; [| exact H]. intros a Ha. unfold hostByte. by rewrite Ha.
  - rewrite !all_bytes_app. change (true && (all_bytes hostByte h && true) = true). rewrite andb_true_r. simpl.
    eapply all_bytes_weaken; [| exact H]. intros a Ha. simpl in Ha. unfold hostByte. by rewrite Ha.
Qed.

Lemma digits_no_colon port : digits port = true → contains ":" port = false.
Proof. intros H. by eapply not_contains. Qed.

(** A host and port parse as themselves. *)
Lemma parse_host_port host port :
  listenHost host → digits port = true → parse_host (host +:+ ":" +:+ port) = Some (host +:+ ":" +:+ port).
Proof.
  intros Hh Hd. pose proof Hd as Hd0. unfold parse_host.
  assert (Hp : contains "%" (host +:+ ":" +:+ port) = false).
  { eapply not_contains; [rewrite all_bytes_app; apply andb_true_iff; split; [by apply listenHost_bytes |] | reflexivity].
    simpl. by apply digits_plain. }
  rewrite Hp. destruct Hh as [Hh | (h & -> & Hh)].
  - assert (Hb : has_prefix "[" (host +:+ ":" +:+ port) = false).
    { destruct host as [| a host]; [done |]. simpl in Hh. apply andb_true_iff in Hh as [Ha _].
      change (String a host +:+ ":" +:+ port) with (String a (host +:+ ":" +:+ port)). rewrite has_prefix_cons.
      destruct (Ascii.eqb_spec "[" a) as [<- |]; [discriminate Ha | done]. }
    rewrite Hb. change (host +:+ ":" +:+ port) with (host +:+ String ":" port).
    rewrite last_index_app by (by apply digits_no_colon). rewrite str_drop_app. simpl. unfold digits in Hd. by rewrite Hd.
  - assert (Hb : has_prefix "[" (("[" +:+ h +:+ "]") +:+ ":" +:+ port) = true) by (destruct h; reflexivity).
    rewrite Hb. set (whole := _ +:+ ":" +:+ port). assert (Ew : whole = ("[" +:+ h) +:+ String "]" (String ":" port)).
    { subst whole. change ("]" +:+ "") with "]"%string. by rewrite !str_app_assoc. }
    rewrite Ew, last_index_app.
    2: { simpl. apply digits_plain in Hd. apply (not_contains (λ a, isSome (digit a))); [| reflexivity]. exact Hd0. }
    rewrite str_drop_S. simpl. unfold digits in Hd. by rewrite Hd.
Qed.

(** What the agent dials for what algod listens on. *)
Definition dialHost (host : string) : string := if wildcardName (trim_brackets host) then "127.0.0.1"%string else host.

Lemma endpointURL_split host port :
  listenHost host → digits port = true → endpointURL (host +:+ ":" +:+ port) = "http://" +:+ dialHost host +:+ ":" +:+ port.
Proof.
  intros Hh Hd. pose proof (listenHost_bytes _ Hh) as Hb. unfold endpointURL.
  assert (Hs : contains "/" (host +:+ ":" +:+ port) = false).
  { eapply not_contains; [rewrite all_bytes_app; apply andb_true_iff; split; [exact Hb |] | reflexivity]. simpl. by apply digits_plain. }
  assert (Hpre : ∀ p s, has_prefix p s = true → contains "/" p = true → contains "/" s = true).
  { clear. induction p as [| a p IH]; intros [| b s]; try done. rewrite has_prefix_cons.
    intros [->%Ascii.eqb_eq H]%andb_true_iff. simpl. rewrite !orb_true_iff. intros [? | ?]; auto. }
  destruct (has_prefix "http://" _) eqn:E1; [by rewrite (Hpre _ _ E1 eq_refl) in Hs |].
  destruct (has_prefix "https://" _) eqn:E2; [by rewrite (Hpre _ _ E2 eq_refl) in Hs |]. simpl orb. cbv iota.
  change (host +:+ ":" +:+ port) with (host +:+ String ":" port).
  rewrite last_index_app by (by apply digits_no_colon). unfold dialHost.
  destruct host as [| a host]; [done |]. cbn [String.length].
  rewrite (str_take_app (String a host)), (str_drop_S (String a host)). done.
Qed.

(** What the data directory says algod listens on is what the agent and
    its pass-through dial: algod.net's address as it stands, or the loopback
    address on the same port when algod listens on every interface, in any of
    the spellings the code knows. *)
Theorem passthrough_target host port :
  listenHost host → digits port = true →
  HostPort (endpointURL (host +:+ ":" +:+ port)) = dialHost host +:+ ":" +:+ port.
Proof.
  intros Hh Hd. rewrite endpointURL_split by done. unfold HostPort.
  assert (Hx : listenHost (dialHost host)) by (unfold dialHost; destruct (wildcardName _); [by left | done]).
  rewrite url_host_plain, parse_host_port; [done | done | done |].
  rewrite all_bytes_app. apply andb_true_iff. split; [by apply listenHost_bytes |]. simpl. by apply digits_plain.
Qed.

Lemma passthrough_target_witness :
  HostPort (endpointURL "[::]:8080") = "127.0.0.1:8080"%string ∧ HostPort (endpointURL "[fd00::7]:8080") = "[fd00::7]:8080"%string.
Proof.
  split.
  - refine (passthrough_target "[::]" "8080" _ eq_refl). right. exists "::"%string. split; reflexivity.
  - refine (passthrough_target "[fd00::7]" "8080" _ eq_refl). right. exists "fd00::7"%string. split; reflexivity.
Defined.
