(* ===== verification/Gossip.v ===== *)
(** * Gossip: the transports of heartbeats and probes

    [Transport] is internal/adapters/gossipudp/udp.go: a UDP socket per mesh
    interface, a receive loop each feeding one channel, and the choice of the
    socket a datagram leaves from.  Its goroutines (the loops, callers of Send
    and of Close) are threads over the shared transport; what the kernel and
    the resolver answer is the [event] of a step.  [Hub] is
    internal/adapters/gossipmem/mem.go, the transport of the tests and of the
    simulated fleet; its operations hold the hub's lock. *)
From stdpp Require Import pretty.
From S2P Require Import Prelude GoStrings GoTime GoNet Types Endpoint Ports.
Open Scope Z_scope.

Record GossipMessage := mkGossipMessage { gm_From : string; gm_Payload : string }.

(** ports.ErrNoRoute, and any other error. *)
Inductive sendError := ErrNoRoute | SendFailed (e : error).

(** The capacity of both transports' channels, and a send that does not wait. *)
Definition recvCap : nat := 256.
Definition trySend (l : list GossipMessage) (m : GossipMessage) : list GossipMessage :=
  if (length l <? recvCap)%nat then l ++ [m] else l.

Module Udp.

(** net.UDPAddr and its String. *)
Record UDPAddr := mkUDPAddr { ua_IP : IP; ua_Port : Z; ua_Zone : string }.

Definition addrString (a : UDPAddr) : string :=
  let ip := if bool_decide (ua_IP a = []) then ""%string else ip_string (ua_IP a) in
  JoinHostPort (if ua_Zone a =s "" then ip else ip +:+ "%" +:+ ua_Zone a) (pretty (ua_Port a)).

Definition MaxDatagram : nat := 1400.

Record route := mkRoute { r_to : UDPAddr; r_conn : nat }.

(** What sync.Once knows. *)
Inductive once := Fresh | Running | Over.

Record Transport := mkTransport {
  tr_conns : list UDPAddr;        (* the local address of each socket *)
  tr_shut : gset nat;             (* the sockets closed *)
  tr_recv : list GossipMessage;
  tr_recvClosed : bool;
  tr_routes : gmap string route;
  tr_once : once;
  tr_done : bool;                 (* done is closed *)
  tr_wg : nat
}.

(** ** Listen *)

(** Every address bound, or the first that is not and the sockets closed on
    the way out. *)
Fixpoint bindAll (ResolveUDPAddr : string → result error UDPAddr) (ListenUDP : UDPAddr → result error UDPAddr)
    (addrs : list string) (conns : list UDPAddr) : result (error * list UDPAddr) (list UDPAddr) :=
  match addrs with
  | [] => Ok conns
  | addr :: addrs =>
      match ResolveUDPAddr addr ≫= ListenUDP with
      | Ok conn => bindAll ResolveUDPAddr ListenUDP addrs (conns ++ [conn])
      | Err e => Err (addr +:+ ": " +:+ e, conns)
      end
  end.

Definition newTransport (conns : list UDPAddr) : Transport :=
  mkTransport conns ∅ [] false ∅ Fresh false (length conns).

Definition Listen (ResolveUDPAddr : string → result error UDPAddr) (ListenUDP : UDPAddr → result error UDPAddr)
    (addrs : list string) : result (error * list UDPAddr) Transport :=
  if bool_decide (addrs = []) then Err ("gossipudp: no listen address"%string, [])
  else
    match bindAll ResolveUDPAddr ListenUDP addrs [] with
    | Ok conns => Ok (newTransport conns)
    | Err e => Err e
    end.

Definition LocalAddrs (t : Transport) : list string := map (λ c, NormalizeAddr (addrString c)) (tr_conns t).

(** ** The choice of a socket *)

(** 0.0.0.0 sends only IPv4, [::] both. *)
Definition sameFamily (local src : IP) : bool :=
  if isSome (To4 local) then isSome (To4 src) else true.

(** The loop of pick over the sockets: the one bound on src and the first
    wildcard, so far. *)
Fixpoint pickLoop (src : IP) (c : nat) (conns : list UDPAddr) (conn wildcard : option nat) : option nat * option nat :=
  match conns with
  | [] => (conn, wildcard)
  | local :: conns =>
      let ip := ua_IP local in
      if bool_decide (ip = src) then pickLoop src (S c) conns (Some c) wildcard
      else if IsUnspecified ip && isNone wildcard && sameFamily ip src then pickLoop src (S c) conns conn (Some c)
      else pickLoop src (S c) conns conn wildcard
  end.

(** The socket a datagram routed from src leaves from. *)
Definition pickConn (conns : list UDPAddr) (src : IP) : option nat :=
  let '(conn, wildcard) := pickLoop src 0 conns None None in
  match conn with Some c => Some c | None => wildcard end.

(** ** The goroutines *)
Inductive thread :=
  (* loop *)
  | LRead (c : nat)
  | LFailed (c : nat) (closed : bool)
  | LPut (c : nat) (m : GossipMessage)
  | LExit
  | LDone
  (* Send *)
  | SStart (addr payload : string)
  | SLookup (addr payload : string)
  | SResolve (addr payload : string)
  | SRoute (addr payload : string) (to : UDPAddr)
  | SCache (addr payload : string) (r : route)
  | SWrite (addr payload : string) (r : route)
  | SDrop (addr : string) (e : error)
  | SRet (e : option sendError)
  (* Close *)
  | CStart
  | CDone
  | CSockets (c : nat) (err : option error)
  | CWait (err : option error)
  | CClose (err : option error)
  | CRet (err : option error)
  | Panicked.

Inductive event :=
  | Go
  | Received (from : UDPAddr) (datagram : string)
  | ReadFailed (closed : bool)                 (* errors.Is(err, net.ErrClosed) *)
  | CtxErr (e : error)
  | Resolved (a : result error UDPAddr)
  | Routed (src : result error IP)             (* the source of the probing DialUDP *)
  | Wrote (e : option error)
  | SocketClosed (e : option error).

Definition outcome : Type := option (Transport * thread).

(** ReadFromUDP copies what fits the buffer. *)
Definition fitted (datagram : string) : string := str_take MaxDatagram datagram.

Definition loopStep (e : event) (t : Transport) (th : thread) : outcome :=
  match th, e with
  | LRead c, Received from d =>
      if bool_decide (c ∈ tr_shut t) then None
      else Some (t, LPut c (mkGossipMessage (NormalizeAddr (addrString from)) (fitted d)))
  | LRead c, ReadFailed closed => Some (t, LFailed c closed)
  | LFailed c closed, Go => Some (t, if tr_done t then LExit else if closed then LExit else LRead c)
  | LPut c m, Go => Some (if tr_recvClosed t then (t, Panicked) else (t <| tr_recv ::= (λ l, trySend l m) |>, LRead c))
  | LExit, Go => Some (t <| tr_wg ::= pred |>, LDone)
  | _, _ => None
  end.

(** Send, with pick: the lookup, the questions to resolver and kernel and the
    insertion are steps of their own. *)
Definition sendStep (e : event) (t : Transport) (th : thread) : outcome :=
  match th, e with
  | SStart addr p, Go =>
      if (MaxDatagram <? String.length p)%nat then Some (t, SRet (Some (SendFailed "gossipudp: payload exceeds datagram size")))
      else Some (t, SLookup addr p)
  | SStart addr p, CtxErr err =>
      if (MaxDatagram <? String.length p)%nat then None else Some (t, SRet (Some (SendFailed err)))
  | SLookup addr p, Go => Some (t, match tr_routes t !! addr with Some r => SWrite addr p r | None => SResolve addr p end)
  | SResolve addr p, Resolved (Ok to) => Some (t, SRoute addr p to)
  | SResolve addr p, Resolved (Err _) => Some (t, SRet (Some ErrNoRoute))
  | SRoute addr p to, Routed (Ok src) =>
      Some (t, match pickConn (tr_conns t) src with Some c => SCache addr p (mkRoute to c) | None => SRet (Some ErrNoRoute) end)
  | SRoute addr p to, Routed (Err _) => Some (t, SRet (Some ErrNoRoute))
  | SCache addr p r, Go => Some (t <| tr_routes ::= <[addr := r]> |>, SWrite addr p r)
  | SWrite addr p r, Wrote None => if bool_decide (r_conn r ∈ tr_shut t) then None else Some (t, SRet None)
  | SWrite addr p r, Wrote (Some err) => Some (t, SDrop addr err)
  | SDrop addr err, Go => Some (t <| tr_routes ::= delete addr |>, SRet (Some (SendFailed err)))
  | _, _ => None
  end.

(** Close: a second caller waits in once.Do for the first. *)
Definition closeStep (e : event) (t : Transport) (th : thread) : outcome :=
  match th, e with
  | CStart, Go =>
      match tr_once t with
      | Fresh => Some (t <| tr_once := Running |>, CDone)
      | Running => None
      | Over => Some (t, CRet None)
      end
  | CDone, Go => Some (t <| tr_done := true |>, CSockets 0 None)
  | CSockets c err, SocketClosed e =>
      if (c <? length (tr_conns t))%nat
      then Some (t <| tr_shut ::= (λ m, {[c]} ∪ m) |>, CSockets (S c) (match err with None => e | Some _ => err end))
      else None
  | CSockets c err, Go => if (c <? length (tr_conns t))%nat then None else Some (t, CWait err)
  | CWait err, Go => if (tr_wg t =? 0)%nat then Some (t, CClose err) else None
  | CClose err, Go => Some (t <| tr_recvClosed := true |> <| tr_once := Over |>, CRet err)
  | _, _ => None
  end.

Definition threadStep (e : event) (t : Transport) (th : thread) : outcome :=
  match th with
  | LRead _ | LFailed _ _ | LPut _ _ | LExit | LDone => loopStep e t th
  | SStart _ _ | SLookup _ _ | SResolve _ _ | SRoute _ _ _ | SCache _ _ _ | SWrite _ _ _ | SDrop _ _ | SRet _ => sendStep e t th
  | CStart | CDone | CSockets _ _ | CWait _ | CClose _ | CRet _ => closeStep e t th
  | Panicked => None
  end.

(** The receiver takes the next message (the channel of Receive). *)
Definition take1 (t : Transport) : option Transport :=
  match tr_recv t with m :: l => Some (t <| tr_recv := l |>) | [] => None end.

Definition state : Type := Transport * list thread.

Inductive label :=
  | CallSend (addr payload : string)
  | CallClose
  | Take
  | Step (i : nat) (e : event).

Definition step (l : label) (st : state) : option state :=
  let '(t, ths) := st in
  match l with
  | CallSend addr p => Some (t, ths ++ [SStart addr p])
  | CallClose => Some (t, ths ++ [CStart])
  | Take => t ← take1 t; Some (t, ths)
  | Step i e =>
      th ← ths !! i;
      '(t', th') ← threadStep e t th;
      Some (t', <[i := th']> ths)
  end.

(** The transport Listen returns, with its loops. *)
Definition started (conns : list UDPAddr) : state := (newTransport conns, map LRead (seq 0 (length conns))).

Fixpoint run (ls : list label) (st : state) : option state :=
  match ls with
  | [] => Some st
  | l :: ls => st ← step l st; run ls st
  end.

(** What a step tells the kernel or hears from it: the source of a
    destination, and a datagram written on a socket. *)
Inductive seen := Asked (to : UDPAddr) (src : IP) | Sent (c : nat) (to : UDPAddr) (payload : string).

Definition observed (l : label) (st : state) : list seen :=
  match l with
  | Step i e =>
      match st.2 !! i, e with
      | Some (SRoute _ _ to), Routed (Ok src) => [Asked to src]
      | Some (SWrite _ p r), Wrote None => [Sent (r_conn r) (r_to r) p]
      | _, _ => []
      end
  | _ => []
  end.

(** What was observed on the way to a state, the last first. *)
Inductive reaches (conns : list UDPAddr) : list seen → state → Prop :=
  | reaches_start : reaches conns [] (started conns)
  | reaches_step h st l st' : reaches conns h st → step l st = Some st' → reaches conns (observed l st ++ h) st'.

End Udp.

Module Mem.

Record Endpoint := mkEndpoint { ep_addrs : list string; ep_recv : list GossipMessage }.

(** An endpoint is its number among those that joined. *)
Record Hub := mkHub { hub_eps : list Endpoint; hub_endpoints : gmap string nat; hub_partition : gmap string bool }.

Definition NewHub : Hub := mkHub [] ∅ ∅.

(** The loop of Join: each address now names the endpoint. *)
Definition claim (e : nat) (addrs : list string) (m : gmap string nat) : gmap string nat :=
  foldl (λ m a, if a <>s "" then <[a := e]> m else m) m addrs.

Definition Join (addrs : list string) (h : Hub) : nat * Hub :=
  let e := length (hub_eps h) in
  (e, h <| hub_eps ::= (λ l, l ++ [mkEndpoint addrs []]) |> <| hub_endpoints ::= claim e addrs |>).

Definition Partition (addr : string) (cut : bool) (h : Hub) : Hub := h <| hub_partition ::= <[addr := cut]> |>.

(** e.addrs[0], which panics on an endpoint without addresses. *)
Definition Addr (e : Endpoint) : option string := head (ep_addrs e).
Definition Addrs (e : Endpoint) : list string := ep_addrs e.

(** The loop of Send: the sender's address on the last net addr is on, among
    those it has. *)
Fixpoint netSource (addr : string) (dst own : list string) (src : string) : string :=
  match dst, own with
  | a :: dst, o :: own => netSource addr dst own (if a =s addr then o else src)
  | _, _ => src
  end.

Definition cutOff (h : Hub) (addr : string) : bool := default false (hub_partition h !! addr).

(** None: addr names no endpoint of the hub (it cannot be). *)
Definition Send (ctxErr : option error) (e : nat) (addr payload : string) (h : Hub) : option (option sendError * Hub) :=
  match ctxErr with
  | Some err => Some (Some (SendFailed err), h)
  | None =>
      me ← hub_eps h !! e;
      match hub_endpoints h !! addr with
      | None => Some (None, h)
      | Some d =>
          dst ← hub_eps h !! d;
          let src := netSource addr (ep_addrs dst) (ep_addrs me) "" in
          if src =s "" then Some (Some ErrNoRoute, h)
          else if cutOff h src || cutOff h addr then Some (None, h)
          else Some (None, h <| hub_eps ::= <[d := dst <| ep_recv ::= (λ l, trySend l (mkGossipMessage src payload)) |>]> |>)
      end
  end.

(** A message is taken from the channel of Receive. *)
Definition Receive (e : nat) (h : Hub) : option (GossipMessage * Hub) :=
  me ← hub_eps h !! e;
  match ep_recv me with
  | m :: l => Some (m, h <| hub_eps ::= <[e := me <| ep_recv := l |>]> |>)
  | [] => None
  end.

(** The addresses that still name the endpoint are freed. *)
Definition release (e : nat) (addrs : list string) (m : gmap string nat) : gmap string nat :=
  foldl (λ m a, if (a <>s "") && bool_decide (m !! a = Some e) then delete a m else m) m addrs.

Definition Close (e : nat) (h : Hub) : option Hub :=
  me ← hub_eps h !! e;
  Some (h <| hub_endpoints ::= release e (ep_addrs me) |>).

End Mem.
