(* ===== verification/GossipLaws.v ===== *)
(** * The gossip transports: what holds of every interleaving

    For the UDP transport: which socket a datagram leaves from ([covers],
    [pickConn_spec]), and the invariant [udpSound] of the transport, its
    threads and what was observed of the kernel.  For the hub: the invariant of
    its names and the way back of a reply. *)
From S2P Require Import Prelude GoStrings GoTime GoNet Types Endpoint Ports Gossip.
Open Scope Z_scope.

(** ** The UDP transport's laws *)
Section UdpLaws.
Import Udp.

(** A socket bound on local may send what the kernel routes from src. *)
Definition covers (src : IP) (local : UDPAddr) : Prop :=
  ua_IP local = src ∨ IsUnspecified (ua_IP local) = true ∧ sameFamily (ua_IP local) src = true.

(** The loop's two candidates, from the socket c on. *)
Lemma pickLoop_sound src conns : ∀ c conn wild conn' wild',
  pickLoop src c conns conn wild = (conn', wild') →
  (conn' = conn ∨ ∃ i local, conn' = Some (c + i)%nat ∧ conns !! i = Some local ∧ ua_IP local = src) ∧
  (wild' = wild ∨ ∃ i local, wild' = Some (c + i)%nat ∧ conns !! i = Some local ∧
     IsUnspecified (ua_IP local) = true ∧ sameFamily (ua_IP local) src = true).
Proof.
  induction conns as [| local conns IH]; cbn [pickLoop]; intros c conn wild conn' wild' H; [injection H as <- <-; auto |].
  case_bool_decide as Hs; [| destruct (IsUnspecified (ua_IP local) && isNone wild && sameFamily (ua_IP local) src) eqn:Hw].
  all: apply IH in H as [Hc Hd]; (split; [destruct Hc as [-> | (i & l & -> & Hi & ?)] | destruct Hd as [-> | (i & l & -> & Hi & ?)]]); auto.
  all: try (right; exists (S i), l; rewrite Nat.add_succ_r; by auto).
  all: right; exists 0%nat, local; rewrite Nat.add_0_r.
  - auto.
  - 
    apply andb_true_iff in Hw as [[? _]%andb_true_iff ?]. auto.
Qed.

Lemma pickLoop_keeps src conns : ∀ c conn wild conn' wild',
  pickLoop src c conns conn wild = (conn', wild') → (isSome conn = true → isSome conn' = true) ∧ (isSome wild = true → isSome wild' = true).
Proof.
  induction conns as [| local conns IH]; cbn [pickLoop]; intros c conn wild conn' wild' H; [by injection H as <- <- |].
  case_bool_decide; [| destruct (_ && _)]; apply IH in H as [? ?]; auto.
Qed.

Lemma pickLoop_complete src conns : ∀ c conn wild conn' wild' local,
  pickLoop src c conns conn wild = (conn', wild') → local ∈ conns →
  (ua_IP local = src → isSome conn' = true) ∧
  (IsUnspecified (ua_IP local) = true → sameFamily (ua_IP local) src = true → isSome conn' = true ∨ isSome wild' = true).
Proof.
  induction conns as [| l conns IH]; cbn [pickLoop]; intros c conn wild conn' wild' local H Hin; [by apply elem_of_nil in Hin |].
  apply elem_of_cons in Hin as [-> | Hin].
  2: { case_bool_decide; [| destruct (_ && _)]; eauto. }
  case_bool_decide as Hs; [apply pickLoop_keeps in H as [Hk _]; split; auto |].
  split; [done |]. intros Hu Hf. rewrite Hu, Hf in H. destruct wild; cbn in H; apply pickLoop_keeps in H as [_ Hk]; auto.
Qed.

(** The socket picked covers the source, one bound on it goes first, and none
    is picked only when none covers it. *)
Lemma pickConn_spec conns src :
  match pickConn conns src with
  | Some c => ∃ local, conns !! c = Some local ∧ covers src local ∧ (ua_IP local = src ∨ ∀ l, l ∈ conns → ua_IP l ≠ src)
  | None => ∀ l, l ∈ conns → ¬ covers src l
  end.
Proof.
  unfold pickConn. destruct (pickLoop src 0 conns None None) as [conn wild] eqn:E.
  destruct (pickLoop_sound _ _ _ _ _ _ _ E) as [Hc Hw].
  assert (Hk := λ l, pickLoop_complete _ _ _ _ _ _ _ l E).
  destruct conn as [c |].
  { destruct Hc as [[=] | (i & l & [= ->] & Hi & Hs)]. exists l. unfold covers. auto. }
  assert (Hne : ∀ l, l ∈ conns → ua_IP l ≠ src) by (intros l Hl Hs; discriminate (proj1 (Hk l Hl) Hs)).
  destruct wild as [c |].
  - destruct Hw as [[=] | (i & l & [= ->] & Hi & Hs)]. exists l. unfold covers. eauto 6.
  - intros l Hl [Hs | [Hu Hf]]; [by eapply Hne |]. destruct (proj2 (Hk l Hl) Hu Hf); discriminate.
Qed.
End UdpLaws.

Section UdpSound.
Import Udp.
Context (conns : list UDPAddr).
#[local] Arguments MaxDatagram : simpl never.
#[local] Arguments recvCap : simpl never.
#[local] Arguments Nat.ltb : simpl never.

(** The route was picked: the kernel said where its datagrams come from, and
    its socket covers that. *)
Definition picked (h : list seen) (to : UDPAddr) (c : nat) : Prop :=
  ∃ src local, Asked to src ∈ h ∧ conns !! c = Some local ∧ covers src local.

(** Every datagram written so far left from a socket picked before. *)
Fixpoint sourced (h : list seen) : Prop :=
  match h with
  | [] => True
  | Sent c to p :: h => (String.length p <= MaxDatagram)%nat ∧ picked h to c ∧ sourced h
  | Asked _ _ :: h => sourced h
  end.

Definition allShut (t : Transport) : Prop := ∀ c, (c < length conns)%nat → c ∈ tr_shut t.

Definition looping (th : thread) : nat :=
  match th with LRead _ | LFailed _ _ | LPut _ _ | LExit => 1 | _ => 0 end.

Definition fits (p : string) : Prop := (String.length p <= MaxDatagram)%nat.

Definition threadOk (h : list seen) (t : Transport) (th : thread) : Prop :=
  match th with
  | SLookup _ p | SResolve _ p | SRoute _ p _ => fits p
  | SCache _ p r | SWrite _ p r => fits p ∧ picked h (r_to r) (r_conn r)
  | CSockets c _ => ∀ i, (i < c)%nat → i ∈ tr_shut t
  | CWait _ => allShut t
  | CClose _ => allShut t ∧ tr_wg t = 0%nat
  | CRet _ => tr_once t = Over
  | Panicked => False
  | _ => True
  end.

Record udpSound (h : list seen) (st : state) : Prop := {
  us_conns : tr_conns st.1 = conns;
  us_recv : (length (tr_recv st.1) <= recvCap)%nat;
  us_routes : ∀ addr r, tr_routes st.1 !! addr = Some r → picked h (r_to r) (r_conn r);
  us_wg : tr_wg st.1 = sum_list_with looping st.2;
  us_closed : tr_recvClosed st.1 = true → tr_wg st.1 = 0%nat;
  us_over : tr_once st.1 = Over → tr_recvClosed st.1 = true ∧ allShut st.1;
  us_sourced : sourced h;
  us_threads : Forall (threadOk h st.1) st.2
}.

(** What no step takes back. *)
Record later (h h' : list seen) (t t' : Transport) : Prop := {
  la_seen : h ⊆ h';
  la_shut : tr_shut t ⊆ tr_shut t';
  la_wg : tr_wg t = 0%nat → tr_wg t' = 0%nat;
  la_once : tr_once t = Over → tr_once t' = Over
}.

Lemma picked_later h h' to c : h ⊆ h' → picked h to c → picked h' to c.
Proof. intros Hs (src & l & Ha & ?). exists src, l. split; [by apply Hs | done]. Qed.

Lemma threadOk_later h h' t t' th : later h h' t t' → threadOk h t th → threadOk h' t' th.
Proof.
  intros [Hh Hs Hw Ho]. destruct th; cbn; unfold allShut; try done.
  1-2: intros [? ?]; eauto using picked_later.
  - intros H i Hi. apply Hs. auto.
  - intros H i Hi. apply Hs. auto.
  - intros [H ?]. split; [intros i Hi; apply Hs |]; auto.
Qed.

Lemma trySend_cap l m : (length l <= recvCap)%nat → (length (trySend l m) <= recvCap)%nat.
Proof. unfold trySend. case_match eqn:E; [apply Nat.ltb_lt in E; rewrite length_app; simpl; lia | done]. Qed.

Lemma sum_insert (f : thread → nat) ths i th th' :
  ths !! i = Some th → (sum_list_with f (<[i := th']> ths) + f th = sum_list_with f ths + f th')%nat.
Proof.
  revert i. induction ths as [| x ths IH]; intros [| i] H; try discriminate H; cbn in *; [injection H as ->; lia |].
  specialize (IH _ H). unfold insert in *. lia.
Qed.

Ltac udp_cases H :=
  unfold threadStep, loopStep, sendStep, closeStep in H;
  repeat match type of H with
  | (match ?x with _ => _ end) = Some _ => destruct x eqn:?; try discriminate H
  | context [if ?b then _ else _] => destruct b eqn:?
  | context [match ?x with Some _ => _ | None => _ end] => destruct x eqn:?
  end;
  try (injection H as <- <-); subst.

(** A step of one thread takes nothing back, and keeps what does not depend on
    the other threads. *)
Lemma threadStep_later e t th t' th' h :
  threadStep e t th = Some (t', th') → later h h t t'.
Proof. intros H. udp_cases H; split; cbn; try done; try congruence; try set_solver; lia. Qed.

Lemma looping_wg th ths : th ∈ ths → (looping th <= sum_list_with looping ths)%nat.
Proof. intros H. by apply sum_list_with_in. Qed.

(** What the stepping thread keeps: each field of the invariant in turn. *)
Lemma threadStep_ok h t ths i e th t' th' :
  udpSound h (t, ths) → ths !! i = Some th → threadStep e t th = Some (t', th') →
  threadOk (observed (Step i e) (t, ths) ++ h) t' th'.
Proof.
  intros [Ec Hr Hro Hw Hcl Ho Hs Hth] Hi H. cbn in *.
  pose proof (Forall_lookup_1 _ _ _ _ Hth Hi) as Hok. rewrite Hi.
  assert (Hl := looping_wg th ths (list_elem_of_lookup_2 _ _ _ Hi)).
  udp_cases H; cbn in *; unfold fits, allShut in *; auto.
  all: try (by rewrite Hcl in Hw by done; lia).
  - by apply Nat.ltb_ge.
  - eauto.
  - split; [done |]. assert (Hp := pickConn_spec (tr_conns t) a). rewrite Heqo in Hp. destruct Hp as (l & ? & ? & _).
    exists a, l. split; [by left | by rewrite <- Ec].
  - lia.
  - intros c0 Hc. apply Hok. rewrite <- Ec in Hc. apply Nat.ltb_ge in Heqb. lia.
  - intros j Hj. destruct (decide (j = c)) as [-> |]; [by apply elem_of_union_l, elem_of_singleton |]. apply elem_of_union_r, Hok. lia.
  - intros j Hj. destruct (decide (j = c)) as [-> |]; [by apply elem_of_union_l, elem_of_singleton |]. apply elem_of_union_r, Hok. lia.
  - split; [done | by apply Nat.eqb_eq].
Qed.

(** What it keeps of the transport. *)
Lemma threadStep_sound h t ths i e th t' th' :
  udpSound h (t, ths) → ths !! i = Some th → threadStep e t th = Some (t', th') →
  udpSound (observed (Step i e) (t, ths) ++ h) (t', <[i := th']> ths).
Proof.
  intros S Hi H. assert (Hok' := threadStep_ok _ _ _ _ _ _ _ _ S Hi H).
  assert (L : later h (observed (Step i e) (t, ths) ++ h) t t').
  { destruct (threadStep_later _ _ _ _ _ h H). split; auto. intros x Hx. rewrite elem_of_app. auto. }
  destruct S as [Ec Hr Hro Hw Hcl Ho Hs Hth]. cbn [fst snd] in *.
  assert (Hth' : Forall (threadOk (observed (Step i e) (t, ths) ++ h) t') (<[i := th']> ths)).
  { apply Forall_insert; [| done]. eapply Forall_impl; [done |]. eauto using threadOk_later. }
  pose proof (Forall_lookup_1 _ _ _ _ Hth Hi) as Hok. assert (Hsum := sum_insert looping _ _ _ th' Hi).
  clear Hth Hok'. cbn [observed snd] in *. rewrite Hi in *.
  split; cbn [fst snd]; try done.
  all: clear Hth' L; udp_cases H; cbn in *; auto using trySend_cap; unfold allShut, const in *; cbn in *.
  all: try lia; try discriminate.
  all: try (by intros ? ?; eauto using picked_later, list_subseteq_cons).
  all: try (assert (tr_wg t = 0%nat) by auto; lia).
  - intros a' r' [[<- <-] | [_ ?]]%lookup_insert_Some; [by destruct Hok | eauto].
  - intros a' r' [_ ?]%lookup_delete_Some. eauto.
  - intros Ho'. destruct (Ho Ho') as [? Ha]. split; [done |]. intros j Hj. apply elem_of_union_r. auto.
  - intros Ho'. destruct (Ho Ho') as [? Ha]. split; [done |]. intros j Hj. apply elem_of_union_r. auto.
  - intros _. split; [done |]. apply Hok.
  - destruct Hok. auto.
Qed.

Lemma udpSound_spawn h t ths th :
  udpSound h (t, ths) → threadOk h t th → looping th = 0%nat → udpSound h (t, ths ++ [th]).
Proof.
  intros [Ec Hr Hro Hw Hcl Ho Hs Hth] Hok Hl. split; cbn [fst snd] in *; try done.
  - rewrite sum_list_with_app. cbn. rewrite Hl. lia.
  - apply Forall_app. auto.
Qed.

Lemma udpSound_started : udpSound [] (started conns).
Proof.
  split; cbn; try done; try lia.
  - assert (H : ∀ n k, sum_list_with looping (map LRead (seq k n)) = n) by (induction n; intros k; cbn; auto).
    by rewrite H.
  - apply Forall_forall. intros th (c & <- & _)%list_elem_of_In%in_map_iff. done.
Qed.

Lemma reaches_sound h st : reaches conns h st → udpSound h st.
Proof.
  induction 1 as [| h st l st' _ IH H]; [apply udpSound_started |]. destruct st as [t ths], l as [addr p | | | i e]; cbn in H.
  - injection H as <-. by apply udpSound_spawn.
  - injection H as <-. by apply udpSound_spawn.
  - unfold take1 in H. destruct (tr_recv t) as [| m l] eqn:E; [done |]. injection H as <-.
    destruct IH as [Ec Hr Hro Hw Hcl Ho Hs Hth]. split; cbn [fst snd] in *; try done.
    rewrite E in Hr. cbn in *. unfold const. lia.
  - destruct (ths !! i) as [th |] eqn:Hi; [| done]. cbn in H.
    destruct (threadStep e t th) as [[t' th'] |] eqn:Ht; [| done]. injection H as <-. by eapply threadStep_sound.
Qed.

Lemma sourced_app h1 h2 : sourced (h1 ++ h2) → sourced h2.
Proof. induction h1 as [| [] h1 IH]; cbn; [done | done |]. intros (_ & _ & ?). auto. Qed.

End UdpSound.

(** ** The UDP transport's promises *)

(** C28: However the receive loops, any number of callers of Send and of Close
    and the receiver interleave: every datagram written left from a socket
    that covers the source the kernel had named for its destination (bound on
    it, or a wildcard of its family), cached routes included, and was no larger
    than MaxDatagram; at most 256 messages wait; no loop ever sends on the
    closed channel; and when a Close has returned, every socket and the channel
    are closed and no loop runs. *)
Theorem udp_transport_safe conns h t ths :
  Udp.reaches conns h (t, ths) →
  (∀ h1 c to p h2, h = h1 ++ Udp.Sent c to p :: h2 →
     (String.length p <= Udp.MaxDatagram)%nat ∧
     ∃ src local, Udp.Asked to src ∈ h2 ∧ conns !! c = Some local ∧ covers src local) ∧
  (length (Udp.tr_recv t) <= 256)%nat ∧
  ¬ (Udp.Panicked ∈ ths) ∧
  (∀ err, Udp.CRet err ∈ ths →
     Udp.tr_recvClosed t = true ∧ (∀ c, (c < length conns)%nat → c ∈ Udp.tr_shut t) ∧
     ∀ c, ¬ (Udp.LRead c ∈ ths)).
Proof.
  intros S%reaches_sound. destruct S as [_ Hr _ Hw Hcl Ho Hs Hth]. rewrite Forall_forall in Hth. cbn [fst snd] in *.
  split; [| split; [done | split]].
  - intros h1 c to p h2 ->. apply sourced_app in Hs as (Hl & Hp & _). done.
  - intros H. by apply Hth in H.
  - intros err He. destruct (Ho (Hth _ He)) as [Hc Ha]. split; [done | split; [done |]].
    intros c H%(looping_wg (Udp.LRead c)). cbn in H. specialize (Hcl Hc). lia.
Qed.

(** ** The hub's laws *)
Section MemLaws.
Import Mem.

Inductive hubReach : Hub → Prop :=
  | hr_new : hubReach NewHub
  | hr_join addrs h e h' : hubReach h → Join addrs h = (e, h') → hubReach h'
  | hr_partition addr cut h : hubReach h → hubReach (Partition addr cut h)
  | hr_send err e addr p h r h' : hubReach h → Send err e addr p h = Some (r, h') → hubReach h'
  | hr_receive e h m h' : hubReach h → Receive e h = Some (m, h') → hubReach h'
  | hr_close e h h' : hubReach h → Close e h = Some h' → hubReach h'.

(** A name is one of its endpoint's addresses; channels hold what they can. *)
Record hubSound (h : Hub) : Prop := {
  hs_named : ∀ a d, hub_endpoints h !! a = Some d → a ≠ ""%string ∧ ∃ dst, hub_eps h !! d = Some dst ∧ a ∈ ep_addrs dst;
  hs_recv : ∀ d dst, hub_eps h !! d = Some dst → (length (ep_recv dst) <= recvCap)%nat
}.

Lemma claim_spec e addrs m a d :
  claim e addrs m !! a = Some d → (d = e ∧ a ∈ addrs ∧ a ≠ ""%string) ∨ m !! a = Some d.
Proof.
  unfold claim. revert m. induction addrs as [| x addrs IH]; cbn; intros m H; [by right |].
  apply IH in H as [(-> & ? & ?) | H]; [left; split; [done | split; [by right | done]] |].
  destruct (x =s "") eqn:Ex; cbn in H; [by right |]. apply String.eqb_neq in Ex.
  apply lookup_insert_Some in H as [[-> ->] | [_ H]]; [left | by right]. split; [done | split; [by left | done]].
Qed.

Lemma release_spec e addrs m a d : release e addrs m !! a = Some d → m !! a = Some d.
Proof.
  unfold release. revert m. induction addrs as [| x addrs IH]; cbn; intros m H; [done |].
  apply IH in H. destruct (_ && _); [by apply lookup_delete_Some in H as [_ H] | done].
Qed.

(** Only a channel changed. *)
Definition refilled (h h' : Hub) : Prop :=
  ∃ d dst l, hub_eps h !! d = Some dst ∧ (length l <= recvCap)%nat ∧ h' = h <| hub_eps ::= <[d := dst <| ep_recv := l |>]> |>.

Lemma refilled_sound h h' : hubSound h → refilled h h' → hubSound h'.
Proof.
  intros [Hn Hr] (d & dst & l & Hd & Hl & ->). split; cbn.
  - intros a d' Ha. destruct (Hn a d' Ha) as (? & dst' & Hd' & Hin). split; [done |].
    destruct (decide (d = d')) as [<- |].
    + exists (dst <| ep_recv := l |>). rewrite list_lookup_insert_eq by by eapply lookup_lt_Some. by rewrite Hd in Hd'; injection Hd' as <-.
    + exists dst'. by rewrite list_lookup_insert_ne.
  - intros d' dst' [(<- & <- & _) | [_ ?]]%list_lookup_insert_Some; [done | eauto].
Qed.

Lemma Send_refills err e addr p h r h' : Send err e addr p h = Some (r, h') → hubSound h → h' = h ∨ refilled h h'.
Proof.
  unfold Send. intros H S. destruct err; [injection H as <- <-; auto |].
  destruct (hub_eps h !! e) as [me |]; [| done]. cbn in H. destruct (hub_endpoints h !! addr) as [d |]; [| injection H as <- <-; auto].
  destruct (hub_eps h !! d) as [dst |] eqn:Ed; [| done]. cbn in H.
  destruct (_ =s ""); [injection H as <- <-; auto |]. destruct (_ || _); injection H as <- <-; [auto | right].
  exists d, dst, (trySend (ep_recv dst) (mkGossipMessage (netSource addr (ep_addrs dst) (ep_addrs me) "") p)).
  split; [done | split; [| done]]. eapply trySend_cap, hs_recv; done.
Qed.

Lemma hubReach_sound h : hubReach h → hubSound h.
Proof.
  induction 1 as [| addrs h e h' _ [Hn Hr] H | addr cut h _ [Hn Hr] | err e addr p h r h' _ IH H | e h m h' _ IH H | e h h' _ [Hn Hr] H].
  - split; [intros a d H; cbn in H; by rewrite lookup_empty in H | by intros [| d]].
  - injection H as <- <-. split; cbn.
    + intros a d [(-> & ? & ?) | H]%claim_spec.
      * split; [done |]. exists (mkEndpoint addrs []). split; [by rewrite lookup_app_r, Nat.sub_diag by done | done].
      * destruct (Hn a d H) as (? & dst & ? & ?). split; [done |]. exists dst. split; [by apply lookup_app_l_Some | done].
    + intros d dst [? | [_ H]]%lookup_app_Some; [eauto |]. apply list_lookup_singleton_Some in H as [_ <-]. apply Nat.le_0_l.
  - by split.
  - destruct (Send_refills _ _ _ _ _ _ _ H IH) as [-> | Hf]; [done | by eapply refilled_sound].
  - unfold Receive in H. destruct (hub_eps h !! e) as [me |] eqn:Ee; [| done]. cbn in H.
    destruct (ep_recv me) as [| m' l] eqn:El; [done |]. injection H as -> <-. eapply refilled_sound; [done |].
    exists e, me, l. split; [done | split; [| done]]. pose proof (hs_recv _ IH e me Ee) as Hl. rewrite El in Hl. cbn in Hl. lia.
  - unfold Close in H. destruct (hub_eps h !! e) as [me |]; [| done]. injection H as <-. split; cbn; [| done].
    intros a d Ha%release_spec. eauto.
Qed.

(** An endpoint whose addresses are one to a net, none on two. *)
Definition one_to_a_net (ep : Endpoint) : Prop :=
  ∀ i j a, a ≠ ""%string → ep_addrs ep !! i = Some a → ep_addrs ep !! j = Some a → i = j.

Lemma netSource_found addr dst : ∀ own src i o,
  dst !! i = Some addr → own !! i = Some o → (∀ j, dst !! j = Some addr → j = i) → netSource addr dst own src = o.
Proof.
  assert (Hno : ∀ dst own src, (∀ j, dst !! j ≠ Some addr) → netSource addr dst own src = src).
  { intros l. induction l as [| x l IH]; intros [| o own] src H; cbn; try done.
    destruct (x =s addr) eqn:E; [apply String.eqb_eq in E as ->; by destruct (H 0%nat) |].
    apply IH. intros j. apply (H (S j)). }
  induction dst as [| x dst IH]; intros own src i o Hi Ho Hu; [done |]. destruct own as [| o' own]; [done |]. cbn.
  destruct i as [| i]; cbn in Hi, Ho.
  - injection Hi as ->. injection Ho as ->. rewrite String.eqb_refl. apply Hno. intros j Hj. by specialize (Hu (S j) Hj).
  - apply (IH _ _ i); [done | done |]. intros j Hj. specialize (Hu (S j) Hj). lia.
Qed.

(** The sender has no address on the net. *)
Lemma netSource_missing addr : ∀ dst own src i,
  dst !! i = Some addr → own !! i = None → (∀ j, dst !! j = Some addr → j = i) → netSource addr dst own src = src.
Proof.
  induction dst as [| x dst IH]; intros own src i Hi Ho Hu; [done |]. destruct own as [| o own]; [done |]. cbn.
  destruct i as [| i]; cbn in Hi, Ho; [done |]. destruct (String.eqb_spec x addr) as [-> | _]; [by specialize (Hu 0%nat eq_refl) |].
  apply (IH _ _ i); [done | done |]. intros j Hj. specialize (Hu (S j) Hj). lia.
Qed.

Lemma netSource_at addr dst own i :
  dst !! i = Some addr → (∀ j, dst !! j = Some addr → j = i) → netSource addr dst own "" = default ""%string (own !! i).
Proof. intros Hi Hu. destruct (own !! i) as [o |] eqn:Ho; [by apply (netSource_found _ _ _ _ i) | by apply (netSource_missing _ _ _ _ i)]. Qed.

Definition delivered (d : nat) (dst : Endpoint) (m : GossipMessage) (h : Hub) : Hub :=
  h <| hub_eps ::= <[d := dst <| ep_recv ::= (λ l, trySend l m) |>]> |>.

(** What Send does, for an address of a present endpoint. *)
Lemma Send_at h e d me dst addr i p :
  hub_eps h !! e = Some me → hub_eps h !! d = Some dst → hub_endpoints h !! addr = Some d →
  ep_addrs dst !! i = Some addr → addr ≠ ""%string → one_to_a_net dst →
  let src := default ""%string (ep_addrs me !! i) in
  Send None e addr p h =
    Some (if decide (src = ""%string) then (Some ErrNoRoute, h)
          else (None, if cutOff h src || cutOff h addr then h else delivered d dst (mkGossipMessage src p) h)).
Proof.
  intros He Hd Ha Hi Hae Hu src. unfold Send. rewrite He, Ha. cbn. rewrite Hd. cbn.
  rewrite (netSource_at _ _ _ i) by (done || (intros j Hj; by apply (Hu j i addr))). fold src.
  destruct (String.eqb_spec src "") as [E | Hne]; [by rewrite decide_True | rewrite decide_False by done]. by case_match.
Qed.

(** After a delivery every endpoint is there with its addresses. *)
Lemma delivered_eps d dst m h x ep :
  hub_eps h !! d = Some dst → hub_eps h !! x = Some ep →
  ∃ ep', hub_eps (delivered d dst m h) !! x = Some ep' ∧ ep_addrs ep' = ep_addrs ep.
Proof.
  intros Hd Hx. cbn. destruct (decide (d = x)) as [<- |].
  - rewrite list_lookup_insert_eq by by eapply lookup_lt_Some. rewrite Hd in Hx. injection Hx as <-. eauto.
  - rewrite list_lookup_insert_ne by done. eauto.
Qed.

Lemma delivered_other d dst m h x : d ≠ x → hub_eps (delivered d dst m h) !! x = hub_eps h !! x.
Proof. intros Hn. cbn. by rewrite list_lookup_insert_ne. Qed.

Lemma delivered_recv d dst m h :
  hub_eps h !! d = Some dst → hub_eps (delivered d dst m h) !! d = Some (mkEndpoint (ep_addrs dst) (trySend (ep_recv dst) m)).
Proof. intros Hd. cbn. rewrite list_lookup_insert_eq by by eapply lookup_lt_Some. by destruct dst. Qed.

(** C29: on a hub however its endpoints joined, moved, were cut off and left
    (an endpoint's addresses being one to a net): a datagram to an address
    nobody holds disappears and the sender is told nothing; the sender is told
    there is no route exactly when it has no address on the net the address is
    on; otherwise the datagram arrives at the endpoint that holds the address,
    from the sender's address on that net, unless an end of that path is cut
    off (and unless the receiver's channel is full), and nothing else changes.
    What the receiver then sends back to where it came from arrives at the
    sender, from the address first written to, as long as the sender still
    holds its own address there (the directory's pings measure the path they
    were sent on); when another endpoint has joined under that address, or it
    was given up, the reply does not reach the sender. *)
Theorem reply_retraces h e me addr p :
  hubReach h → hub_eps h !! e = Some me → (∀ d dst, hub_eps h !! d = Some dst → one_to_a_net dst) →
  ∃ r h', Send None e addr p h = Some (r, h') ∧
  match hub_endpoints h !! addr with
  | None => r = None ∧ h' = h
  | Some d => ∃ dst net, hub_eps h !! d = Some dst ∧ ep_addrs dst !! net = Some addr ∧
      let src := default ""%string (ep_addrs me !! net) in
      if decide (src = ""%string) then r = Some ErrNoRoute ∧ h' = h
      else r = None ∧
        if cutOff h src || cutOff h addr then h' = h
        else
          h' = h <| hub_eps ::= <[d := mkEndpoint (ep_addrs dst) (trySend (ep_recv dst) (mkGossipMessage src p))]> |> ∧
          ∀ q, ∃ r2 h2 me', Send None d src q h' = Some (r2, h2) ∧ hub_eps h' !! e = Some me' ∧
            hub_eps h2 !! e =
              Some (if decide (hub_endpoints h !! src = Some e)
                    then mkEndpoint (ep_addrs me') (trySend (ep_recv me') (mkGossipMessage addr q)) else me')
  end.
Proof.
  intros R%hubReach_sound He Hone. destruct (hub_endpoints h !! addr) as [d |] eqn:Ha.
  2: { exists None, h. split; [unfold Send; by rewrite He, Ha | done]. }
  destruct (hs_named h R addr d Ha) as (Hae & dst & Hd & [i Hi]%list_elem_of_lookup).
  pose proof (Send_at h e d me dst addr i p He Hd Ha Hi Hae (Hone d dst Hd)) as Hs. cbv zeta in Hs. set (src := default ""%string (ep_addrs me !! i)) in *.
  destruct (decide (src = ""%string)) as [E | Hne].
  { eexists _, _. split; [exact Hs |]. exists dst, i. split_and!; [done.. |]. cbv zeta. fold src. by rewrite decide_True. }
  eexists _, _. split; [exact Hs |]. exists dst, i. split_and!; [done.. |]. cbv zeta. fold src. rewrite decide_False by done. split; [done |].
  destruct (cutOff h src || cutOff h addr) eqn:Ec; [done |]. split; [by destruct dst |]. intros q.
  destruct (delivered_eps d dst (mkGossipMessage src p) h e me Hd He) as (me' & He' & Eme).
  destruct (delivered_eps d dst (mkGossipMessage src p) h d dst Hd Hd) as (dst' & Hd' & Edst).
  set (h' := delivered d dst (mkGossipMessage src p) h) in *.
  assert (Hone' : ∀ x ep, hub_eps h' !! x = Some ep → one_to_a_net ep).
  { intros x ep. unfold h'. cbn. intros [(<- & <- & _) | [_ Hx]]%list_lookup_insert_Some; [exact (Hone d dst Hd) | by apply (Hone x)]. }
  assert (Hsrc : ep_addrs me !! i = Some src) by (unfold src in *; destruct (ep_addrs me !! i); [done | by cbn in Hne]).
  destruct (hub_endpoints h !! src) as [x |] eqn:Ex.
  - destruct (hs_named h R src x Ex) as (_ & xe & Hx & [j Hj]%list_elem_of_lookup).
    destruct (delivered_eps d dst (mkGossipMessage src p) h x xe Hd Hx) as (xe' & Hx' & Exe). fold h' in Hx'.
    pose proof (Send_at h' d x dst' xe' src j q Hd' Hx' Ex ltac:(by rewrite Exe) Hne (Hone' x xe' Hx')) as Hq. cbv zeta in Hq. rewrite Edst in Hq.
    destruct (decide (Some x = Some e)) as [[= ->] | Hxe].
    + rewrite He in Hx. injection Hx as <-. rewrite He' in Hx'. injection Hx' as <-.
      assert (j = i) as -> by (by apply (Hone e me He j i src)). rewrite Hi in Hq. cbn [default id] in Hq.
      rewrite decide_False in Hq by done. change (cutOff h' addr) with (cutOff h addr) in Hq. change (cutOff h' src) with (cutOff h src) in Hq.
      rewrite orb_comm, Ec in Hq. eexists _, _, me'. split_and!; [exact Hq | done |]. by apply delivered_recv.
    + eexists _, _, me'. split_and!; [| done |]; [rewrite Hq; by rewrite (surjective_pairing (if decide _ then _ else _)) |].
      destruct (decide (default ""%string _ = ""%string)); cbn [snd]; [done |].
      destruct (cutOff h' _ || cutOff h' src); [done |]. rewrite delivered_other; [done | congruence].
  - exists None, h', me'. split_and!; [| done | done]. unfold Send. rewrite Hd'. cbn [mbind option_bind].
    change (hub_endpoints h') with (hub_endpoints h). by rewrite Ex.
Qed.

End MemLaws.

(** ** Witnesses *)
Section UdpRuns.
Import Udp.

(** Running a list of labels, with what is observed. *)
Fixpoint observe (ls : list label) (h : list seen) (st : state) : option (list seen * state) :=
  match ls with
  | [] => Some (h, st)
  | l :: ls => st' ← step l st; observe ls (observed l st ++ h) st'
  end.

Lemma observe_reaches conns ls h st h' st' : reaches conns h st → observe ls h st = Some (h', st') → reaches conns h' st'.
Proof.
  revert h st. induction ls as [| l ls IH]; cbn; intros h st R H; [injection H as <- <-; done |].
  destruct (step l st) as [st1 |] eqn:E; [| done]. cbn in H. eapply IH; [by econstructor | done].
Qed.

Definition v4 (a b c d : Z) : IP := v4_prefix ++ [a; b; c; d].
Definition wgConns : list UDPAddr := [mkUDPAddr (v4 10 113 0 1) 4001 ""; mkUDPAddr (v4 10 114 0 1) 4001 ""].
Definition peerAddr : UDPAddr := mkUDPAddr (v4 10 114 0 2) 4001 "".

(** Two heartbeats to one peer, the second over the cached route; one in
    return; then the transport is closed. *)
Definition exampleRun : list label :=
  [CallSend "10.114.0.2:4001" "hb1"; Step 2 Go; Step 2 Go; Step 2 (Resolved (Ok peerAddr)); Step 2 (Routed (Ok (v4 10 114 0 1)));
   Step 2 Go; Step 2 (Wrote None);
   CallSend "10.114.0.2:4001" "hb2"; Step 3 Go; Step 3 Go; Step 3 (Wrote None);
   Step 1 (Received peerAddr "hb"); Step 1 Go;
   CallClose; Step 4 Go; Step 4 Go; Step 4 (SocketClosed None); Step 4 (SocketClosed None); Step 4 Go;
   Step 0 (ReadFailed true); Step 0 Go; Step 0 Go; Step 1 (ReadFailed true); Step 1 Go; Step 1 Go; Step 4 Go; Step 4 Go].
End UdpRuns.

Lemma udp_transport_safe_witness :
  ∃ h t ths, Udp.reaches wgConns h (t, ths) ∧ h = [Udp.Sent 1 peerAddr "hb2"; Udp.Sent 1 peerAddr "hb1"; Udp.Asked peerAddr (v4 10 114 0 1)] ∧
    Udp.tr_recv t = [mkGossipMessage "10.114.0.2:4001" "hb"] ∧
    Udp.CRet None ∈ ths ∧ Udp.tr_recvClosed t = true.
Proof.
  destruct (observe exampleRun [] (Udp.started wgConns)) as [[h [t ths]] |] eqn:E; [| by vm_compute in E].
  assert (R := observe_reaches wgConns _ _ _ _ _ (Udp.reaches_start wgConns) E).
  exists h, t, ths. assert (Hc : Udp.CRet None ∈ ths) by (vm_compute in E; injection E as <- <- <-; set_solver).
  split; [done |]. destruct (udp_transport_safe wgConns h t ths R) as (_ & _ & _ & Hr).
  split; [vm_compute in E; injection E as <- <- <-; reflexivity |].
  split; [vm_compute in E; injection E as <- <- <-; reflexivity |]. split; [done | apply (Hr None Hc)].
Defined.

Section MemRuns.
Import Mem.
Definition exampleHub : Hub := snd (Join ["mem:b"; "mem1:b"]%string (snd (Join ["mem:a"; "mem1:a"]%string NewHub))).
Definition epA : Endpoint := mkEndpoint ["mem:a"; "mem1:a"]%string [].
Definition epB : Endpoint := mkEndpoint ["mem:b"; "mem1:b"]%string [].

Lemma exampleHub_reach : hubReach exampleHub.
Proof. eapply hr_join; [eapply hr_join; [apply hr_new | reflexivity] | reflexivity]. Qed.

Lemma example_nets : ∀ d dst, hub_eps exampleHub !! d = Some dst → one_to_a_net dst.
Proof.
  intros [| [| d]] dst H; cbn in H; [| | done]; injection H as <-;
    intros [| [| i]] [| [| j]] a Ha Hi Hj; cbn in Hi, Hj; simplify_eq; done.
Qed.
End MemRuns.

Lemma reply_retraces_witness :
  ∃ h' dst', Mem.Send None 0 "mem1:b" "ping" exampleHub = Some (None, h') ∧
    Mem.hub_eps h' !! 1%nat = Some dst' ∧ Mem.ep_recv dst' = [mkGossipMessage "mem1:a" "ping"] ∧
    ∃ r2 h2 me2, Mem.Send None 1 "mem1:a" "pong" h' = Some (r2, h2) ∧ Mem.hub_eps h2 !! 0%nat = Some me2 ∧
      Mem.ep_recv me2 = [mkGossipMessage "mem1:b" "pong"].
Proof.
  destruct (reply_retraces exampleHub 0 epA "mem1:b" "ping" exampleHub_reach eq_refl example_nets) as (r & h' & Es & H).
  change (Mem.hub_endpoints exampleHub !! "mem1:b"%string) with (Some 1%nat) in H. cbv beta iota in H.
  destruct H as (dst & net & Hd & Hn & H). change (Mem.hub_eps exampleHub !! 1%nat) with (Some epB) in Hd. injection Hd as <-.
  destruct net as [| [| net]]; cbn in Hn; [done | | done]. change (default ""%string (Mem.ep_addrs epA !! 1%nat)) with "mem1:a"%string in H.
  cbv zeta in H. rewrite decide_False in H by done. destruct H as [-> H].
  change (Mem.cutOff exampleHub "mem1:a" || Mem.cutOff exampleHub "mem1:b") with false in H. cbv iota in H.
  destruct H as [-> H]. destruct (H "pong"%string) as (r2 & h2 & me' & Eq & He & H2). clear H.
  eexists _, _. split; [exact Es |]. split; [reflexivity |]. split; [reflexivity |]. exists r2, h2. eexists. split; [exact Eq |]. split; [exact H2 |].
  vm_compute in He. injection He as <-. reflexivity.
Defined.
