(* ===== verification/Clock.v ===== *)
(** * Clock: the clock the services are tested on (internal/adapters/clock)

    [Fake] is a clock that stands until it is advanced: sleepers wait on a
    channel each, tickers have a channel of one tick.  A channel of a sleeper is
    a number, closed or not; each operation holds the mutex.  [Advance] is the
    code's loop; [advanced] says what it comes to in one step. *)
From S2P Require Import Prelude GoTime Ports.
Open Scope Z_scope.

Record fakeWaiter := mkWaiter { fw_at : Time; fw_ch : nat }.
Record fakeTicker := mkTicker { ft_period : Duration; ft_next : Time; ft_ch : option Time; ft_stop : bool }.

Record Fake := mkFake {
  fk_now : Time;
  fk_waiters : list fakeWaiter;
  fk_tickers : list fakeTicker;
  fk_chans : nat;             (* the sleepers' channels made so far *)
  fk_closed : gset nat        (* those closed *)
}.

Definition NewFake (start : Time) : Fake := mkFake start [] [] 0 ∅.
Definition Now (f : Fake) : Time := fk_now f.

(** Sleep up to its select, and the select: None waits. *)
Definition Sleep (d : Duration) (f : Fake) : nat * Fake :=
  (fk_chans f, f <| fk_waiters ::= (λ l, l ++ [mkWaiter (time_add (fk_now f) d) (fk_chans f)]) |> <| fk_chans ::= S |>).

Inductive slept := Woken | CtxDone (e : error).

Definition SleepEnd (ch : nat) (e : slept) (f : Fake) : option (option error) :=
  match e with
  | Woken => if bool_decide (ch ∈ fk_closed f) then Some None else None
  | CtxDone e => Some (Some e)
  end.

(** Real.Sleep returns the same way, with the timer for the channel. *)
Definition Real_Sleep (e : slept) : option error := match e with Woken => None | CtxDone e => Some e end.

Definition Tick (d : Duration) (f : Fake) : nat * Fake :=
  (length (fk_tickers f), f <| fk_tickers ::= (λ l, l ++ [mkTicker d (time_add (fk_now f) d) None false]) |>).

(** The function Tick returns; taking a tick. *)
Definition stopTick (i : nat) (f : Fake) : Fake := f <| fk_tickers ::= alter (λ t, t <| ft_stop := true |>) i |>.
Definition ticked (i : nat) (f : Fake) : option (Time * Fake) :=
  t ← fk_tickers f !! i;
  at_ ← ft_ch t;
  Some (at_, f <| fk_tickers ::= <[i := t <| ft_ch := None |>]> |>).

(** ** Advance *)

(** The earliest event: the two loops over sleepers and tickers. *)
Definition earlier (next : option Time) (t : Time) : option Time :=
  match next with Some n => if Before t n then Some t else next | None => Some t end.
Definition nextEvent (f : Fake) : option Time :=
  foldl (λ n t, if ft_stop t then n else earlier n (ft_next t))
    (foldl (λ n w, earlier n (fw_at w)) None (fk_waiters f)) (fk_tickers f).

(** What is due at now. *)
Definition due (now : Time) (w : fakeWaiter) : bool := negb (After (fw_at w) now).
Definition wake (now : Time) (ws : list fakeWaiter) (closed : gset nat) : gset nat :=
  foldl (λ m w, if due now w then {[fw_ch w]} ∪ m else m) closed ws.
Definition fireTicker (now : Time) (t : fakeTicker) : fakeTicker :=
  if negb (ft_stop t) && negb (After (ft_next t) now)
  then t <| ft_ch := match ft_ch t with None => Some now | full => full end |> <| ft_next := time_add (ft_next t) (ft_period t) |>
  else t.
Definition fire (now : Time) (f : Fake) : Fake :=
  mkFake now (filter (λ w, due now w = false) (fk_waiters f)) (map (fireTicker now) (fk_tickers f)) (fk_chans f)
    (wake now (fk_waiters f) (fk_closed f)).

Fixpoint advanceLoop (fuel : nat) (target : Time) (f : Fake) : option Fake :=
  match fuel with
  | O => None
  | S fuel =>
      match nextEvent f with
      | None => Some f
      | Some next => if After next target then Some f else advanceLoop fuel target (fire next f)
      end
  end.

Definition Advance (fuel : nat) (d : Duration) (f : Fake) : option Fake :=
  let target := time_add (fk_now f) d in
  (λ f', f' <| fk_now := target |>) <$> advanceLoop fuel target f.

(** ** What it comes to *)

(** The ticks due by the target. *)
Definition ticksDue (target : Time) (t : fakeTicker) : nat :=
  if ft_stop t then 0 else Z.to_nat ((target - ft_next t) / ft_period t + 1).

(** Every tick is counted, the first one stays in the channel. *)
Definition tickerAfter (target : Time) (t : fakeTicker) : fakeTicker :=
  let k := ticksDue target t in
  t <| ft_ch := match ft_ch t with None => if (0 <? k)%nat then Some (ft_next t) else None | full => full end |>
    <| ft_next := ft_next t + Z.of_nat k * ft_period t |>.

Definition advanced (target : Time) (f : Fake) : Fake :=
  mkFake target (filter (λ w, due target w = false) (fk_waiters f)) (map (tickerAfter target) (fk_tickers f)) (fk_chans f)
    (wake target (fk_waiters f) (fk_closed f)).

(** The turns the loop takes at most: an event each. *)
Definition events (target : Time) (f : Fake) : nat :=
  (length (filter (λ w, due target w = true) (fk_waiters f)) + sum_list_with (ticksDue target) (fk_tickers f))%nat.

Definition periodic (f : Fake) : Prop := Forall (λ t, ft_stop t = false → 0 < ft_period t) (fk_tickers f).

(** ** Laws *)
#[local] Arguments wake : simpl never.

(** [nextEvent] is the least of the times. *)
Definition times (f : Fake) : list Time :=
  (fw_at <$> fk_waiters f) ++ (ft_next <$> filter (λ t, ft_stop t = false) (fk_tickers f)).

Lemma nextEvent_times f : nextEvent f = foldl earlier None (times f).
Proof.
  unfold nextEvent, times. rewrite foldl_app, !foldl_fmap.
  generalize (foldl (λ n w, earlier n (fw_at w)) None (fk_waiters f)).
  induction (fk_tickers f) as [| t ts IH]; intros n; [done |]. cbn [foldl].
  rewrite filter_cons. destruct (ft_stop t) eqn:E; case_decide; try congruence; apply IH.
Qed.

Lemma earlier_fold l n : foldl earlier (Some n) l = Some (foldl Z.min n l).
Proof.
  revert n. induction l as [| t l IH]; intros n; [done |]. cbn. unfold Before.
  destruct (t <? n) eqn:E; rewrite IH; do 2 f_equal; lia.
Qed.

Lemma fold_min n l : foldl Z.min n l <= n ∧ (∀ t, t ∈ l → foldl Z.min n l <= t) ∧ (foldl Z.min n l = n ∨ foldl Z.min n l ∈ l).
Proof.
  revert n. induction l as [| t l IH]; intros n; cbn; [split; [lia | split; [by intros t ?%elem_of_nil | by left]] |].
  destruct (IH (Z.min n t)) as (H1 & H2 & H3). split; [lia | split].
  - intros u [-> | Hu]%elem_of_cons; [lia | auto].
  - destruct H3 as [-> | H3]; [| right; by right]. destruct (Z.min_spec n t) as [[_ ->] | [_ ->]]; [by left | right; by left].
Qed.

Lemma nextEvent_least f :
  match nextEvent f with
  | None => times f = []
  | Some n => n ∈ times f ∧ ∀ t, t ∈ times f → n <= t
  end.
Proof.
  rewrite nextEvent_times. destruct (times f) as [| t l]; [done |]. cbn. rewrite earlier_fold.
  destruct (fold_min t l) as (H1 & H2 & H3). split; [destruct H3 as [-> | ?]; [by left | by right] |].
  intros u [-> | Hu]%elem_of_cons; auto.
Qed.

(** Nothing due before now: what both do to the sleepers and tickers alike. *)
Lemma due_later now target w : now <= target → due now w = true → due target w = true.
Proof. unfold due, After. lia. Qed.

Lemma wake_elem now ws m ch : ch ∈ wake now ws m ↔ ch ∈ m ∨ ∃ w, w ∈ ws ∧ due now w = true ∧ fw_ch w = ch.
Proof.
  unfold wake. revert m. induction ws as [| w ws IH]; intros m; cbn; [split; [by left | intros [? | (? & ?%elem_of_nil & _)]; done] |].
  rewrite IH. setoid_rewrite elem_of_cons. destruct (due now w) eqn:E; rewrite ?elem_of_union, ?elem_of_singleton;
    (split; [intros [? | (x & ? & ? & ?)] | intros [? | (x & [-> | ?] & ? & ?)]]); destruct_or?; subst; try congruence; eauto 7.
Qed.

Lemma wake_again now target (ws : list fakeWaiter) m :
  now <= target → wake target (filter (λ w, due now w = false) ws) (wake now ws m) = wake target ws m.
Proof.
  intros H. apply set_eq. intros ch. rewrite !wake_elem. split.
  - intros [[? | (w & ? & ? & ?)] | (w & Hw & ? & ?)]; [by left | right | right]; [| apply list_elem_of_filter in Hw as [_ ?]];
      exists w; eauto using due_later.
  - intros [? | (w & Hw & Hd & <-)]; [by left; left |]. destruct (due now w) eqn:E; [left; right; eauto | right].
    exists w. split; [by apply list_elem_of_filter | done].
Qed.

Lemma filter_again now target (ws : list fakeWaiter) :
  now <= target → filter (λ w, due target w = false) (filter (λ w, due now w = false) ws) = filter (λ w, due target w = false) ws.
Proof.
  intros H. rewrite list_filter_filter. apply list_filter_iff. intros w.
  destruct (due now w) eqn:E; [rewrite (due_later _ _ _ H E); naive_solver | naive_solver].
Qed.

Lemma ticks_fire now target t :
  now <= target → (ft_stop t = false → 0 < ft_period t ∧ now <= ft_next t) →
  tickerAfter target (fireTicker now t) = tickerAfter target t ∧
  (ticksDue target (fireTicker now t) + (if bool_decide (ft_stop t = false ∧ ft_next t = now) then 1 else 0) = ticksDue target t)%nat.
Proof.
  intros H Ht. unfold fireTicker, tickerAfter, ticksDue, After, time_add. destruct t as [p n ch st]; cbn in *.
  destruct st; cbn; [by rewrite bool_decide_eq_false_2 by naive_solver |].
  destruct (Ht eq_refl) as [Hp Hn]. destruct (now <? n) eqn:E; cbn; [rewrite bool_decide_eq_false_2 by (intros [_ ->]; lia); split; [done | lia] |].
  assert (n = now) as -> by lia. rewrite bool_decide_eq_true_2 by done.
  assert (Hq : (target - (now + p)) / p = (target - now) / p - 1) by (rewrite <- Z.add_opp_r, Z.opp_add_distr, Z.add_assoc, (Z.add_opp_r target); replace (target - now + - p) with (target - now + (-1) * p) by lia; rewrite Z.div_add by lia; lia).
  assert (0 <= (target - now) / p) by (apply Z.div_pos; lia). unfold const. rewrite Hq.
  split; [| lia]. unfold set, const. cbn -[Z.mul Z.of_nat Z.to_nat Nat.ltb]. f_equal; [lia |].
  destruct ch; [done |]. destruct (Z.to_nat ((target - now) / p + 1)) eqn:E2; [lia | done].
Qed.

Lemma waiters_used now target (ws : list fakeWaiter) :
  now <= target →
  (length (filter (λ w, due target w = true) (filter (λ w, due now w = false) ws)) + length (filter (λ w, due now w = true) ws) =
   length (filter (λ w, due target w = true) ws))%nat.
Proof.
  intros H. induction ws as [| w ws IH]; [done |]. rewrite !(filter_cons _ w). assert (Hd := due_later now target w H).
  destruct (due now w) eqn:E1; [rewrite (Hd eq_refl) |].
  all: repeat (case_decide; try congruence; rewrite ?filter_cons); cbn; lia.
Qed.

Definition fired (now : Time) (t : fakeTicker) : Prop := ft_stop t = false ∧ ft_next t = now.
#[export] Instance fired_dec now t : Decision (fired now t).
Proof. unfold fired. apply _. Defined.

Lemma tickers_used now target ts :
  now <= target → (∀ t, t ∈ ts → ft_stop t = false → 0 < ft_period t ∧ now <= ft_next t) →
  map (tickerAfter target) (map (fireTicker now) ts) = map (tickerAfter target) ts ∧
  (sum_list_with (ticksDue target) (map (fireTicker now) ts) + length (filter (fired now) ts) = sum_list_with (ticksDue target) ts)%nat.
Proof.
  intros H Ht. induction ts as [| t ts IH]; [done |]. destruct IH as [IH1 IH2]; [intros u Hu; apply Ht; by right |].
  destruct (ticks_fire now target t H) as [E1 E2]; [apply Ht; by left |]. cbn [map sum_list_with]. split; [by rewrite E1, IH1 |].
  rewrite filter_cons. unfold fired in *. case_bool_decide; case_decide; try done; cbn; lia.
Qed.

(** One turn does not change what the whole comes to, and uses up an event. *)
Lemma fire_advanced now target f :
  now <= target → periodic f → nextEvent f = Some now →
  advanced target (fire now f) = advanced target f ∧ periodic (fire now f) ∧ (events target (fire now f) < events target f)%nat.
Proof.
  intros H P E. pose proof (nextEvent_least f) as L. rewrite E in L. destruct L as [Hin Hle]. unfold times in Hin, Hle.
  unfold periodic in *. rewrite Forall_forall in P.
  assert (Ht : ∀ t, t ∈ fk_tickers f → ft_stop t = false → 0 < ft_period t ∧ now <= ft_next t).
  { intros t Hm Hs. split; [by apply P |].
    apply Hle, elem_of_app. right. apply list_elem_of_fmap. exists t. split; [done |]. by apply list_elem_of_filter. }
  destruct (tickers_used now target _ H Ht) as [T1 T2]. assert (W := waiters_used now target (fk_waiters f) H).
  split; [| split].
  - unfold advanced, fire. cbn [fk_waiters fk_tickers fk_chans fk_closed]. by rewrite T1, wake_again, filter_again.
  - cbn. apply Forall_forall. intros t' (t & <- & Hm)%list_elem_of_In%in_map_iff. apply list_elem_of_In in Hm. specialize (P t Hm).
    unfold fireTicker. by destruct (_ && _).
  - unfold events, fire. cbn.
    enough (0 < length (filter (λ w, due now w = true) (fk_waiters f)) + length (filter (fired now) (fk_tickers f)))%nat by lia.
    apply elem_of_app in Hin as [(w & Hw & Hi)%list_elem_of_fmap | (t & Hn & [Hs Hi]%list_elem_of_filter)%list_elem_of_fmap].
    + assert (Hf : w ∈ filter (λ w, due now w = true) (fk_waiters f)).
      { apply list_elem_of_filter. split; [unfold due, After; lia | done]. }
      destruct (filter (λ w, due now w = true) (fk_waiters f)); [by apply elem_of_nil in Hf | cbn; lia].
    + assert (Hf : t ∈ filter (fired now) (fk_tickers f)) by (apply list_elem_of_filter; by split).
      destruct (filter (fired now) (fk_tickers f)); [by apply elem_of_nil in Hf | cbn; lia].
Qed.

(** No event by the target: nothing to do. *)
Lemma advanced_idle target f :
  (∀ t, t ∈ times f → target < t) → periodic f → f <| fk_now := target |> = advanced target f.
Proof.
  intros H P. unfold advanced, periodic in *. rewrite Forall_forall in P. destruct f as [n ws ts c cl]. unfold set, const; cbn in *. unfold times in H. cbn in H.
  assert (Hw : ∀ w, w ∈ ws → due target w = false).
  { intros w Hm. unfold due, After. enough (target < fw_at w) by lia. apply H, elem_of_app. left. by apply list_elem_of_fmap_2. }
  f_equal.
  - clear H. induction ws as [| w ws IH]; [done |]. rewrite filter_cons_True by (apply Hw; by left). f_equal. apply IH. intros x Hx. apply Hw. by right.
  - rewrite <- (map_id ts) at 1. apply map_ext_in. intros t Hm%list_elem_of_In. unfold tickerAfter.
    assert (E : ticksDue target t = 0%nat).
    { unfold ticksDue. destruct (ft_stop t) eqn:Es; [done |].
      assert (target < ft_next t) by (apply H, elem_of_app; right; apply list_elem_of_fmap_2, list_elem_of_filter; done).
      specialize (P t Hm Es). assert ((target - ft_next t) / ft_period t < 0) by (apply Z.div_lt_upper_bound; lia). lia. }
    rewrite E. destruct t as [p x [y |] st]; unfold set, const; cbn; f_equal; lia.
  - apply set_eq. intros ch. rewrite wake_elem. split; [by left |]. intros [? | (w & Hm & Hd & _)]; [done |]. by rewrite Hw in Hd.
Qed.

Lemma advanceLoop_spec fuel target f :
  periodic f → (events target f < fuel)%nat →
  ∃ f', advanceLoop fuel target f = Some f' ∧ f' <| fk_now := target |> = advanced target f.
Proof.
  revert f. induction fuel as [| fuel IH]; intros f P Hf; [lia |]. cbn. pose proof (nextEvent_least f) as L.
  destruct (nextEvent f) as [next |] eqn:E.
  - destruct (After next target) eqn:Ea; unfold After in Ea.
    + exists f. split; [done |]. apply advanced_idle; [| done]. intros t Ht. apply L in Ht. lia.
    + destruct (fire_advanced next target f) as (E1 & P' & Hlt); [lia | done | done |].
      destruct (IH (fire next f) P') as (f' & ? & E'); [lia |]. exists f'. split; [done |]. by rewrite E', E1.
  - exists f. split; [done |]. apply advanced_idle; [| done]. rewrite L. by intros t ?%elem_of_nil.
Qed.

(** Advancing the clock ends, given tickers with a positive period, and
    comes to this: the time is the target; exactly the sleepers due by then are
    woken and the others still wait; every ticker that was not stopped has been
    moved past the target by whole periods, and its channel holds the first of
    the ticks that fell due since it was last empty, at the time it was set
    for, however many events lie between. *)
Theorem Advance_correct d f fuel :
  periodic f → (events (time_add (fk_now f) d) f < fuel)%nat →
  Advance fuel d f = Some (advanced (time_add (fk_now f) d) f).
Proof.
  intros P Hf. unfold Advance. destruct (advanceLoop_spec fuel (time_add (fk_now f) d) f P Hf) as (f' & -> & E). cbn. by rewrite E.
Qed.

(** Two sleepers and a ticker of two seconds, advanced by five. *)
Definition exampleClock : Fake :=
  snd (Tick (2 * Second) (snd (Sleep (9 * Second) (snd (Sleep (3 * Second) (NewFake 0)))))).

Lemma Advance_correct_witness :
  periodic exampleClock ∧ Advance 10 (5 * Second) exampleClock = Some (advanced (5 * Second) exampleClock) ∧
  SleepEnd 0 Woken (advanced (5 * Second) exampleClock) = Some None ∧ SleepEnd 1 Woken (advanced (5 * Second) exampleClock) = None ∧
  fst <$> ticked 0 (advanced (5 * Second) exampleClock) = Some (2 * Second).
Proof.
  assert (P : periodic exampleClock) by (repeat constructor).
  split; [done |]. split; [| by split; [reflexivity | split; vm_compute]].
  apply (Advance_correct (5 * Second) exampleClock 10 P). vm_compute. lia.
Defined.
