(* ===== verification/AlgodHttp.v ===== *)
(** * AlgodHttp: algod's REST API as the agent calls it
    (internal/adapters/algodhttp/client.go)

    The client's methods as programs over one call, a GET of a URL with a token
    ([CGet]).  What encoding/json does with text is an argument; what a struct
    takes from the value read is written here ([u64Field] and its like, for the
    exact names of the fields).  Base64 is [Bundle]'s. *)
From stdpp Require Import pretty.
From Stdlib Require Import Ascii.
From S2P Require Import Prelude GoStrings GoTime Types Ports Prog Bundle.
Open Scope Z_scope.

Declare Scope algod_scope.
Declare Scope algod_fields.
Open Scope algod_fields.

(** ** JSON values *)
Inductive json :=
  | JNull
  | JBool (b : bool)
  | JNum (z : Z)                         (* an integer *)
  | JStr (s : string)
  | JArr (l : list json)
  | JObj (members : list (string * json)).

(** The value of a member; of two with one name the later counts. *)
Fixpoint member (k : string) (ms : list (string * json)) : option json :=
  match ms with
  | [] => None
  | (k', v) :: ms => match member k ms with Some v' => Some v' | None => if k' =s k then Some v else None end
  end.

(** What Unmarshal into a struct does with one field: left as it is by an
    absent member or a null, an error for a value of another kind or out of
    range. *)
Definition fieldOf {A} (zero : A) (conv : json → option A) (k : string) (ms : list (string * json)) : result error A :=
  match member k ms with
  | None | Some JNull => Ok zero
  | Some v => match conv v with Some a => Ok a | None => Err ("json: cannot unmarshal " +:+ k)%string end
  end.

Definition u64Of (v : json) : option Z := match v with JNum z => if (0 <=? z) && (z <? two64) then Some z else None | _ => None end.
Definition i64Of (v : json) : option Z := match v with JNum z => if (- two63 <=? z) && (z <? two63) then Some z else None | _ => None end.
Definition strOf (v : json) : option string := match v with JStr s => Some s | _ => None end.
Definition objOf (v : json) : option (list (string * json)) := match v with JObj ms => Some ms | JNull => Some [] | _ => None end.
Definition arrOf (v : json) : option (list json) := match v with JArr l => Some l | JNull => Some [] | _ => None end.

Definition u64Field := fieldOf 0 u64Of.
Definition i64Field := fieldOf 0 i64Of.
Definition strField := fieldOf ""%string strOf.

(** The members of the document, which must be an object or null. *)
Definition document (v : json) : result error (list (string * json)) :=
  match objOf v with Some ms => Ok ms | None => Err "json: cannot unmarshal"%string end.

(** The error monad over the fields. *)
Definition andThen {A B} (r : result error A) (f : A → result error B) : result error B :=
  match r with Ok a => f a | Err e => Err e end.
Notation "x ← r ; k" := (andThen r (λ x, k)) (at level 20, r at level 100, k at level 200, only parsing) : algod_fields.

(** ** The connection *)
Inductive CAct := CGet (url token : string).

Inductive CAnswer :=
  | NoAnswer (e : error)                      (* the request is not made, or Do fails *)
  | Torn (code : Z) (e : error)               (* reading the body fails *)
  | Answered (code : Z) (body : string).

Definition CResp (a : CAct) : Type := CAnswer.
Definition Calls : Type → Type := prog CResp.

Definition cthen {A B} (m : Calls A) (f : A → Calls B) : Calls B := bind f m.
Notation "'let*' x := m 'in' k" := (cthen m (λ x, k)) (at level 10, x binder, m at level 200, k at level 200) : algod_scope.
Open Scope algod_scope.

(** The first n bytes. *)
Fixpoint limited (n : Z) (s : string) : string :=
  match s with
  | EmptyString => ""
  | String a s => if n <=? 0 then "" else String a (limited (n - 1) s)
  end.

Definition bodyLimit : Z := 4 * 1048576.

Fixpoint has_sub (p s : string) : bool :=
  has_prefix p s || match s with EmptyString => false | String _ s' => has_sub p s' end.

Record Client := mkClient { cl_base : string; cl_token : string }.
Definition New (baseURL token : string) : Client := mkClient (trim_suffix "/" baseURL) token.

Definition truncate (b : string) : string :=
  let s := trim_space b in
  if 200 <? Z.of_nat (String.length s) then limited 200 s +:+ "..." else s.

Section Client.
Context (unmarshal : string → result error json).

Definition get (c : Client) (path : string) : Calls (result error (Z * string)) :=
  Call (CGet (cl_base c +:+ path) (cl_token c)) (λ a,
    Ret match a with
        | NoAnswer e => Err e
        | Torn _ e => Err e
        | Answered code body => Ok (code, limited bodyLimit body)
        end).

(** The text of a status the caller has no use for. *)
Definition statusError (what : string) (code : Z) (body : string) : error :=
  what +:+ ": status " +:+ pretty code +:+ ": " +:+ truncate body.

(** json.Unmarshal into a struct of the decoded fields. *)
Definition decoded {A} (decode : list (string * json) → result error A) (body : string) : result error A :=
  match unmarshal body with
  | Err e => Err e
  | Ok v => match document v with Err e => Err e | Ok ms => decode ms end
  end.

Definition getJSON {A} (c : Client) (path : string) (decode : list (string * json) → result error A) : Calls (result error (A * string)) :=
  let* r := get c path in
  Ret match r with
      | Err e => Err e
      | Ok (code, body) =>
          if negb (code =? 200) then Err (statusError path code body)
          else match decoded decode body with
               | Ok v => Ok (v, body)
               | Err e => Err (path +:+ ": decode: " +:+ e)%string
               end
      end.

(** ports.Status by its tags; Raw and CatchpointRunning have none. *)
Definition decodeStatus (ms : list (string * json)) : result error Status :=
  last ← u64Field "last-round" ms;
  catchup ← u64Field "catchup-time" ms;
  since ← u64Field "time-since-last-round" ms;
  Ok (mkStatus last catchup since false "").

Definition statusFrom (c : Client) (path : string) : Calls (result error Status) :=
  let* r := getJSON c path decodeStatus in
  Ret match r with Ok (st, body) => Ok (st <| s_Raw := body |>) | Err e => Err e end.

Definition Client_Status (c : Client) : Calls (result error Status) := statusFrom c "/v2/status".

Definition WaitForBlockAfter (c : Client) (round : Z) : Calls (result error Status) :=
  statusFrom c ("/v2/status/wait-for-block-after/" +:+ pretty round).

Definition HasBlock (c : Client) (round : Z) : Calls (result error bool) :=
  let* r := get c ("/v2/blocks/" +:+ pretty round +:+ "/hash") in
  Ret match r with
      | Err e => Err e
      | Ok (code, body) =>
          if code =? 200 then Ok true
          else if (code =? 404) || (code =? 500) && has_sub "ledger" body then Ok false
          else Err (statusError ("blocks/" +:+ pretty round +:+ "/hash") code body)
      end.

Definition decodeVersions (ms : list (string * json)) : result error Versions :=
  gen ← strField "genesis_id" ms;
  build ← fieldOf [] objOf "build" ms;
  major ← i64Field "major" build;
  minor ← i64Field "minor" build;
  number ← i64Field "build_number" build;
  channel ← strField "channel" build;
  Ok (mkVersions gen (pretty major +:+ "." +:+ pretty minor +:+ "." +:+ pretty number +:+ "-" +:+ channel)).

Definition Client_Versions (c : Client) : Calls (result error Versions) :=
  let* r := getJSON c "/versions" decodeVersions in
  Ret match r with Ok (v, _) => Ok v | Err e => Err e end.

Definition decodeLimits (ms : list (string * json)) : result error SimulateLimits :=
  groups ← u64Field "max-txn-groups" ms;
  rounds ← u64Field "max-rounds" ms;
  budget ← u64Field "max-extra-opcode-budget" ms;
  multiplier ← u64Field "resource-limit-multiplier" ms;
  trace ← u64Field "max-exec-trace-bytes" ms;
  time ← u64Field "time-limit-seconds" ms;
  Ok (mkSimulateLimits groups rounds budget multiplier trace time).

Definition limitsPath : string := "/v2/transactions/simulate/limits".

Definition Client_SimulateLimits (c : Client) : Calls (result error (option SimulateLimits)) :=
  let* r := get c limitsPath in
  Ret match r with
      | Err e => Err e
      | Ok (code, body) =>
          if code =? 404 then Ok None
          else if negb (code =? 200) then Err (statusError limitsPath code body)
          else match decoded decodeLimits body with
               | Ok l => Ok (Some l)
               | Err e => Err (limitsPath +:+ ": decode: " +:+ e)%string
               end
      end.

Fixpoint decodeNames (boxes : list json) : result error (list string) :=
  match boxes with
  | [] => Ok []
  | b :: boxes =>
      match objOf b with
      | None => Err "json: cannot unmarshal"%string
      | Some ms => name ← strField "name" ms; names ← decodeNames boxes; Ok (name :: names)
      end
  end.

Fixpoint boxNamesLoop (names : list string) (out : list string) : result error (list string) :=
  match names with
  | [] => Ok out
  | n :: names =>
      match StdDecodeString n with
      | Some name => boxNamesLoop names (out ++ [name])
      | None => Err ("box name " +:+ n)%string
      end
  end.

Definition BoxNames (c : Client) (appID : Z) : Calls (result error (list string)) :=
  let* r := getJSON c ("/v2/applications/" +:+ pretty appID +:+ "/boxes")
              (λ ms, boxes ← fieldOf [] arrOf "boxes" ms; decodeNames boxes) in
  Ret match r with Ok (names, _) => boxNamesLoop names [] | Err e => Err e end.

(** ** net/url: one pair encoded *)
Definition unreserved (a : ascii) : bool :=
  let n := N_of_ascii a in
  ((97 <=? n) && (n <=? 122) || (65 <=? n) && (n <=? 90) || (48 <=? n) && (n <=? 57))%N ||
  elem (String a "") ["-"; "_"; "."; "~"].

Definition upper_hex (n : N) : ascii := ascii_of_N (if (n <? 10)%N then 48 + n else 55 + n).

Fixpoint QueryEscape (s : string) : string :=
  match s with
  | EmptyString => ""
  | String a s =>
      let rest := QueryEscape s in
      if unreserved a then String a rest
      else if Ascii.eqb a " " then String "+" rest
      else let n := N_of_ascii a in String "%" (String (upper_hex (n / 16)) (String (upper_hex (n mod 16)) rest))
  end.

Definition encodePair (k v : string) : string := QueryEscape k +:+ "=" +:+ QueryEscape v.

(** ports.ErrNotFound, and any other error. *)
Inductive boxError := ErrNotFound | BoxFailed (e : error).

Definition Box (c : Client) (appID : Z) (name : string) : Calls (result boxError string) :=
  let q := encodePair "name" ("b64:" +:+ b64_encode false true name) in
  let* r := get c ("/v2/applications/" +:+ pretty appID +:+ "/box?" +:+ q) in
  Ret match r with
      | Err e => Err (BoxFailed e)
      | Ok (code, body) =>
          if code =? 404 then Err ErrNotFound
          else if negb (code =? 200) then Err (BoxFailed (statusError "box" code body))
          else match decoded (strField "value") body with
               | Err e => Err (BoxFailed e)
               | Ok value =>
                   match StdDecodeString value with
                   | Some v => Ok v
                   | None => Err (BoxFailed "illegal base64 data")
                   end
               end
      end.

End Client.
