(* ===== verification/FakeAlgod.v ===== *)
(** * FakeAlgod: the algod the tests and the development fleet run against
    (internal/fakealgod/fakealgod.go)

    [Node] is the struct; the setters are functions on it.  [handle] is a
    program: each critical section is one call ([NLock]) that answers the node
    as the section found it, so that the sections of other requests may come
    between any two; sleeping, waiting and writing the answer are calls too.
    The JSON written is a value of [AlgodHttp.json]; SHA-512/256 is an
    argument. *)
From stdpp Require Import pretty.
From Stdlib Require Import Ascii.
From S2P Require Import Prelude GoStrings GoFloat GoTime Types Ports Prog RateConfig Bundle AlgodHttp.
From S2P Require Http.
Open Scope Z_scope.

Record Options := mkOptions {
  op_ID : string;
  op_Token : string;
  op_GenesisID : string;
  op_StartRound : Z;
  op_OldestRound : Z;
  op_DeveloperAPI : bool;
  op_FollowMode : bool;
  op_TimeTravel : bool;
  op_Version : string;
  op_Simulate : option SimulateLimits
}.

Record poolTxn := mkPoolTxn { pt_txn : json; pt_poolError : string; pt_confirmed : Z }.

Record Node := mkNode {
  fn_opts : Options;
  fn_round : Z;
  fn_oldest : Z;
  fn_changed : nat;                            (* the channel waiters hold, by number *)
  fn_failing : bool;
  fn_hang : bool;
  fn_rejecting : bool;
  fn_latency : Duration;
  fn_simDelay : Duration;
  fn_simStatus : Z;
  fn_simRetryAfter : Z;
  fn_simCancelled : Z;
  fn_pathStatus : gmap string Z;
  fn_effort : gmap string string;
  fn_boxes : gmap Z (gmap string string);
  fn_pool : gmap string poolTxn;
  fn_hits : gmap string Z
}.

(** ** Making and setting *)
Definition withDefaults (o : Options) : Options :=
  let o := if op_Token o =s "" then o <| op_Token := "faketoken"%string |> else o in
  let o := if op_GenesisID o =s "" then o <| op_GenesisID := "fakenet-v1"%string |> else o in
  if op_Version o =s "" then o <| op_Version := "3.99.0"%string |> else o.

Definition New (o : Options) : Node :=
  mkNode (withDefaults o) (op_StartRound o) (op_OldestRound o) 0 false false false 0 0 0 0 0 ∅ ∅ ∅ ∅ ∅.

Definition Token (n : Node) : string := op_Token (fn_opts n).
Definition ID (n : Node) : string := op_ID (fn_opts n).
Definition Round (n : Node) : Z := fn_round n.
Definition SetRound (r : Z) (n : Node) : Node := n <| fn_round := r |> <| fn_changed ::= S |>.

(** Two critical sections; another SetRound may come between. *)
Definition Advance (k : Z) (read : Node) (n : Node) : Node := SetRound (wu64 (Round read + k)) n.

Definition SetOldest (r : Z) (n : Node) : Node := n <| fn_oldest := r |>.
Definition SetRejecting (f : bool) (n : Node) : Node := n <| fn_rejecting := f |>.
Definition SetHang (f : bool) (n : Node) : Node := n <| fn_hang := f |>.
Definition SetFailing (f : bool) (n : Node) : Node := n <| fn_failing := f |>.
Definition SetSimulate (delay : Duration) (status retryAfter : Z) (n : Node) : Node :=
  n <| fn_simDelay := delay |> <| fn_simStatus := status |> <| fn_simRetryAfter := retryAfter |>.
Definition SetPathStatus (path : string) (status : Z) (n : Node) : Node := n <| fn_pathStatus ::= <[path := status]> |>.
Definition SetEffort (path value : string) (n : Node) : Node := n <| fn_effort ::= <[path := value]> |>.
Definition SimulatesCancelled (n : Node) : Z := fn_simCancelled n.
Definition SetLatency (d : Duration) (n : Node) : Node := n <| fn_latency := d |>.
Definition Hits (prefix : string) (n : Node) : Z :=
  map_fold (λ p c total, if has_prefix prefix p then total + c else total) 0 (fn_hits n).
Definition SetPendingTxn (id poolError : string) (confirmed : Z) (n : Node) : Node :=
  n <| fn_pool ::= <[id := mkPoolTxn (JObj []) poolError confirmed]> |>.
Definition boxesOf (n : Node) (app : Z) : gmap string string := default ∅ (fn_boxes n !! app).
Definition PutBox (app : Z) (name value : string) (n : Node) : Node :=
  n <| fn_boxes ::= <[app := <[name := value]> (boxesOf n app)]> |>.
Definition DeleteBox (app : Z) (name : string) (n : Node) : Node :=
  match fn_boxes n !! app with
  | Some m => n <| fn_boxes ::= <[app := delete name m]> |>
  | None => n
  end.

(** ** What a request does *)
Inductive wake := Changed | Deadline | ClientGone.

Inductive NAct :=
  | NLock (f : Node → Node)
  | NSleep (d : Duration)
  | NGone                            (* <-r.Context().Done() *)
  | NAfter (d : Duration)            (* a timer or the client's leaving: true is the timer *)
  | NWait (changed : nat)            (* waitAfter's select *)
  | NDiscard                         (* io.Copy(io.Discard, r.Body) *)
  | NSet (k v : string) | NAdd (k v : string) | NDel (k : string)
  | NHead (code : Z)
  | NOut (v : json).

Definition NResp (a : NAct) : Type :=
  match a with NLock _ => Node | NAfter _ => bool | NWait _ => wake | _ => unit end.

Declare Scope node_scope.
Definition Handler : Type → Type := prog NResp.
Definition nask (a : NAct) : Handler (NResp a) := Call a Ret.
Definition nthen {A B} (m : Handler A) (f : A → Handler B) : Handler B := bind f m.
Notation "'let*' x := m 'in' k" := (nthen m (λ x, k)) (at level 10, x binder, m at level 200, k at level 200) : node_scope.
Notation "'do*' m 'in' k" := (nthen m (λ _, k)) (at level 10, m at level 200, k at level 200) : node_scope.
Open Scope node_scope.

(** A section that only reads. *)
Definition readNode : Handler Node := nask (NLock id).

(** A Go map as encoding/json prints it: by key. *)
Definition jmap (kvs : list (string * json)) : json := JObj (insertion_sort (λ a b, sltb a.1 b.1) kvs).

Definition writeJSON (code : Z) (v : json) : Handler unit :=
  do* nask (NSet "Content-Type" "application/json") in
  do* nask (NHead code) in
  nask (NOut v).
Definition message (code : Z) (m : string) : Handler unit := writeJSON code (jmap [("message"%string, JStr m)]).

(** strings.TrimSuffix with a longer suffix. *)
Definition trimSuffix (suffix s : string) : string :=
  let k := (String.length s - String.length suffix)%nat in
  if (String.length suffix <=? String.length s)%nat && (String.substring k (String.length suffix) s =s suffix)
  then String.substring 0 k s else s.

(** strconv.ParseUint(s, 10, 64) with its error dropped: what is left is 0, or
    the largest value when the number is too large. *)
Fixpoint parseLoop (acc : Z) (s : string) : Z :=
  match s with
  | EmptyString => acc
  | String a s => match digit a with None => 0 | Some d => let n := acc * 10 + d in if n <=? MaxUint64 then parseLoop n s else MaxUint64 end
  end.

(** encoding/base32, StdEncoding without padding. *)
Definition b32_char (n : Z) : ascii := ascii_of_N (Z.to_N (if n <? 26 then 65 + n else 24 + n)).
Fixpoint b32_bits (bits : Z) (acc : Z) (s : string) : string :=
  match s with
  | EmptyString => if bits =? 0 then "" else String (b32_char (acc * 2 ^ (5 - bits))) ""
  | String a s =>
      let acc := acc * 256 + Z.of_N (N_of_ascii a) in
      let bits := bits + 8 in
      let hi := Z.shiftr acc (bits - 5) in
      if 10 <=? bits
      then String (b32_char hi) (String (b32_char (Z.shiftr acc (bits - 10) mod 32)) (b32_bits (bits - 10) (acc mod 2 ^ (bits - 10)) s))
      else String (b32_char hi) (b32_bits (bits - 5) (acc mod 2 ^ (bits - 5)) s)
  end.

Definition decodeBoxName (q : string) : result error string :=
  if has_prefix "b64:" q then
    match StdDecodeString (String.substring 4 (String.length q - 4) q) with
    | Some b => Ok b
    | None => Err "illegal base64 data"%string
    end
  else if has_prefix "str:" q then Ok (String.substring 4 (String.length q - 4) q)
  else Err "box name must be b64: or str: encoded"%string.

(** copyN: the whole body, or an error when it is larger or fails. *)
Definition copyN (b : Http.ReqBody) (max : Z) : result error string :=
  if Http.rb_none b then Ok ""%string
  else if max <? Z.of_nat (String.length (Http.rb_data b)) then Err "body too large"%string
  else if Http.rb_fails b then Err "read error"%string
  else Ok (Http.rb_data b).

Definition status (n : Options) (round : Z) : json :=
  jmap [("last-round", JNum round); ("time-since-last-round", JNum 1000); ("catchup-time", JNum 0);
        ("last-version", JStr "fake"); ("next-version", JStr "fake"); ("next-version-round", JNum (wu64 (round + 1)));
        ("next-version-supported", JBool true); ("stopped-at-unsupported-round", JBool false); ("node", JStr (op_ID n))]%string.

(** The loop of waitAfter, its first turns; false: it still waits. *)
Fixpoint waitAfter (turns : nat) (o : Options) (after : Z) : Handler bool :=
  match turns with
  | O => Ret false
  | S turns =>
      let* n := readNode in
      if after <? fn_round n then do* writeJSON 200 (status o (fn_round n)) in Ret true
      else
        let* w := nask (NWait (fn_changed n)) in
        match w with
        | Changed => waitAfter turns o after
        | Deadline => do* writeJSON 200 (status o (fn_round n)) in Ret true
        | ClientGone => Ret true
        end
  end.

Definition simulating : Handler bool :=
  let* n := readNode in
  let answer : Handler bool :=
    if fn_simStatus n =? 0 then Ret false
    else
      do* (if 0 <? fn_simRetryAfter n
           then do* nask (NSet "Retry-After" (pretty (fn_simRetryAfter n))) in nask (NDel "X-Algod-Effort")
           else Ret ()) in
      do* message (fn_simStatus n) ("fake simulate answers " +:+ pretty (fn_simStatus n)) in Ret true in
  if 0 <? fn_simDelay n then
    do* nask NDiscard in
    let* timer := nask (NAfter (fn_simDelay n)) in
    if timer : bool then answer
    else do* nask (NLock (λ n, n <| fn_simCancelled ::= Z.succ |>)) in Ret true
  else answer.

Section Handle.
Context (ord : MapOrder) (sha512_256 : string → string).

Definition txID (body : string) : string := b32_bits 0 0 (sha512_256 body).

(** POST /v2/transactions. *)
Definition broadcast (o : Options) (b : Http.ReqBody) : Handler unit :=
  let* n := readNode in
  if fn_rejecting n then message 400 "TransactionPool.Remember: transaction rejected"
  else if op_FollowMode o then message 400 "follow mode node does not broadcast"
  else
    match copyN b 1048576 with
    | Err e => message 400 e
    | Ok buf =>
        let id := txID buf in
        let raw := jmap [("node"%string, JStr (op_ID o)); ("size"%string, JNum (Z.of_nat (String.length buf)))] in
        do* nask (NLock (λ n, n <| fn_pool ::= <[id := mkPoolTxn raw "" 0]> |>)) in
        writeJSON 200 (jmap [("txId"%string, JStr id)])
    end.

Definition limitsOf (o : Options) : Handler unit :=
  match op_Simulate o with
  | None => message 404 "Not Found"
  | Some l =>
      writeJSON 200 (jmap [("max-txn-groups", JNum (sl_MaxTxnGroups l)); ("max-rounds", JNum (sl_MaxRounds l));
        ("max-extra-opcode-budget", JNum (sl_MaxExtraOpcodeBudget l)); ("resource-limit-multiplier", JNum (sl_ResourceLimitMultiplier l));
        ("max-exec-trace-bytes", JNum (sl_MaxExecTraceBytes l)); ("time-limit-seconds", JNum (sl_TimeLimitSeconds l));
        ("time-travel", JBool (op_TimeTravel o)); ("developer-api", JBool (op_DeveloperAPI o))]%string)
  end.

Definition pending (o : Options) (id : string) : Handler unit :=
  let* n := readNode in
  match fn_pool n !! id with
  | None => message 404 "transaction not found"
  | Some tx =>
      let confirmed := if 0 <? pt_confirmed tx then [("confirmed-round"%string, JNum (pt_confirmed tx))] else [] in
      writeJSON 200 (jmap ([("pool-error"%string, JStr (pt_poolError tx)); ("txn"%string, pt_txn tx); ("node"%string, JStr (op_ID o))] ++ confirmed))
  end.

Definition boxNames (app : Z) : Handler unit :=
  let* n := readNode in
  writeJSON 200 (jmap [("boxes"%string,
    JArr (map (λ kv, jmap [("name"%string, JStr (b64_encode false true kv.1))]) (range ord (boxesOf n app))))]).

Definition box (app round : Z) (q : string) : Handler unit :=
  match decodeBoxName q with
  | Err e => message 400 e
  | Ok name =>
      let* n := readNode in
      match boxesOf n app !! name with
      | None => message 404 "box not found"
      | Some v => writeJSON 200 (jmap [("name", JStr (b64_encode false true name)); ("value", JStr (b64_encode false true v)); ("round", JNum round)]%string)
      end
  end.

Definition block (o : Options) (round oldest : Z) (num what : string) : Handler unit :=
  match parse_uint num with
  | None => message 400 "bad round"
  | Some rr =>
      if (rr <? oldest) || (round <? rr) then message 404 "failed to retrieve information from the ledger"
      else if what =s "hash" then writeJSON 200 (jmap [("blockHash"%string, JStr ("hash-" +:+ pretty rr))])
      else writeJSON 200 (jmap [("block", jmap [("rnd", JNum rr); ("gen", JStr (op_GenesisID o))]); ("node", JStr (op_ID o))]%string)
  end.

(** The switch of handle. *)
Definition route (turns : nat) (o : Options) (round oldest : Z) (rq : Http.Request) (p : string) : Handler bool :=
  let segs := split_on "/" (trim_prefix "/" p) in
  let seg i := nth i segs ""%string in
  let done (m : Handler unit) : Handler bool := do* m in Ret true in
  let method := Http.rq_Method rq in
  let rest : Handler unit :=
    if (p =s limitsPath) && (method =s "GET") then limitsOf o
    else if (seg 0%nat =s "v2") && (seg 1%nat =s "transactions") && (seg 2%nat =s "pending") && (seg 3%nat <>s "") then pending o (seg 3%nat)
    else if (seg 0%nat =s "v2") && (seg 1%nat =s "transactions") && (seg 2%nat =s "pending") then
      let* n := readNode in
      writeJSON 200 (jmap [("top-transactions", JArr []); ("total-transactions", JNum (Z.of_nat (size (fn_pool n)))); ("node", JStr (op_ID o))]%string)
    else if (seg 0%nat =s "v2") && (seg 1%nat =s "applications") && (seg 3%nat =s "boxes") then boxNames (parseLoop 0 (seg 2%nat))
    else if (seg 0%nat =s "v2") && (seg 1%nat =s "applications") && (seg 3%nat =s "box") then
      box (parseLoop 0 (seg 2%nat)) round (values_get (parse_query (Http.rq_RawQuery rq)) "name")
    else
      writeJSON 200 (jmap [("node", JStr (op_ID o)); ("path", JStr p); ("method", JStr method); ("round", JNum round)]%string) in
  if (p =s "/health") || (p =s "/ready") then done (nask (NHead 200))
  else if p =s "/genesis" then
    done (writeJSON 200 (jmap [("id"%string, JStr (trimSuffix "-v1.0" (op_GenesisID o))); ("network"%string, JStr (op_GenesisID o))]))
  else if p =s "/versions" then
    done (writeJSON 200 (jmap [("genesis_id", JStr (op_GenesisID o)); ("versions", JArr [JStr "v2"]);
      ("build", jmap [("major", JNum 3); ("minor", JNum 99); ("build_number", JNum 0); ("channel", JStr "fake")])]%string))
  else if p =s "/v2/status" then done (writeJSON 200 (status o round))
  else if (seg 0%nat =s "v2") && (seg 1%nat =s "status") && (seg 2%nat =s "wait-for-block-after") then
    waitAfter turns o (parseLoop 0 (seg 3%nat))
  else if (seg 0%nat =s "v2") && (seg 1%nat =s "blocks") then done (block o round oldest (seg 2%nat) (seg 3%nat))
  else if (seg 0%nat =s "v2") && (seg 1%nat =s "teal") then
    done (if negb (op_DeveloperAPI o) then message 404 "developer API not enabled"
          else writeJSON 200 (jmap [("result"%string, JStr ("#pragma version 8" +:+ String "010" "int 1")); ("node"%string, JStr (op_ID o))]))
  else if (p =s "/v2/transactions") && (method =s "POST") then done (broadcast o (Http.rq_Body rq))
  else if (p =s "/v2/transactions/simulate") && (method =s "POST") then
    let* simulated := simulating in
    if simulated : bool then Ret true else done rest
  else done rest.

(** handle; false: a wait-for-block-after that is still waiting after the
    given turns. *)
Definition handle (turns : nat) (rq : Http.Request) : Handler bool :=
  let path := Http.rq_Path rq in
  let* n := nask (NLock (λ n, n <| fn_hits ::= (λ m, <[path := default 0 (m !! path) + 1]> m) |>)) in
  let o := fn_opts n in
  let done (m : Handler unit) : Handler bool := do* m in Ret true in
  do* nask (NSet "X-Fake-Node" (op_ID o)) in
  do* nask (NAdd "Vary" "Origin") in
  do* (if Http.hget (Http.rq_Header rq) "Origin" <>s "" then nask (NSet "Access-Control-Allow-Origin" "*") else Ret ()) in
  do* (if 0 <? fn_latency n then nask (NSleep (fn_latency n)) else Ret ()) in
  if fn_hang n then done (nask NGone)
  else if fn_failing n then done (message 503 "fake node is failing")
  else if Http.hget (Http.rq_Header rq) "X-Algo-API-Token" <>s op_Token o then done (message 401 "Invalid API Token")
  else
    let p := trim_suffix "/" path in
    let* n1 := readNode in
    let status := default 0 (fn_pathStatus n1 !! p) in
    let effort := default ""%string (fn_effort n1 !! p) in
    do* (if effort <>s "" then nask (NSet "X-Algod-Effort" effort) else Ret ()) in
    if negb (status =? 0) then done (message status ("fake node answers " +:+ pretty status))
    else route turns o (fn_round n) (fn_oldest n) rq p.

End Handle.

(** ** The data directory of a fake node *)
Record ConfigReader := mkConfigReader {
  cr_Archival : bool; cr_Lookback : Z; cr_DeveloperAPI : bool; cr_FollowMode : bool; cr_TimeTravel : bool
}.

(** url is the test server's. *)
Definition ConfigReader_Read (c : ConfigReader) (n : Node) (url : string) : NodeConfig :=
  zeroConfig <| nc_Endpoint := url |> <| nc_NetAddr := (if has_prefix "http://" url then String.substring 7 (String.length url - 7) url else url) |>
    <| nc_Token := Token n |> <| nc_GenesisID := op_GenesisID (fn_opts n) |> <| nc_Archival := cr_Archival c |>
    <| nc_MaxBlockHistoryLookback := cr_Lookback c |> <| nc_EnableDeveloperAPI := cr_DeveloperAPI c |>
    <| nc_EnableFollowMode := cr_FollowMode c |> <| nc_EnableTimeTravel := cr_TimeTravel c || op_TimeTravel (fn_opts n) |>
    <| nc_MaxAcctLookback := 4 |> <| nc_StorageEngine := "fake"%string |> <| nc_RestWriteTimeoutSeconds := 120 |>.
