(* ===== verification/AlgodLaws.v ===== *)
(** * Algod: the client against the fake node

    What the client's methods read when the node they call is
    [FakeAlgod.handle]: paths and queries are read back as they were written,
    and each answer is what the node holds. *)
From stdpp Require Import pretty.
From Stdlib Require Import Ascii.
From S2P Require Import Prelude GoStrings GoFloat GoTime GoNet Types Ports Prog RateConfig Bundle Monitor AlgodHttp FakeAlgod.
From S2P Require Http.
Open Scope Z_scope.

(** ** Numbers in paths *)

Lemma all_digits_app s t : all_digits (s +:+ t) = all_digits s && all_digits t.
Proof. induction s as [| a s IH]; [done |]. change (String a s +:+ t) with (String a (s +:+ t)). cbn [all_digits]. rewrite IH. by rewrite andb_assoc. Qed.

Lemma digits_without c s : digit c = None → all_digits s = true → contains c s = false.
Proof.
  intros Hc. induction s as [| a s IH]; [done |]. cbn [all_digits contains]. intros [Ha Hs]%andb_true_iff. rewrite IH by done.
  destruct (Ascii.eqb_spec a c) as [-> |]; [by rewrite Hc in Ha | done].
Qed.

Lemma digit_char d : (d < 10)%N → digit (pretty_N_char d) = Some (Z.of_N d).
Proof.
  intros H. assert (E : d = 0%N ∨ d = 1%N ∨ d = 2%N ∨ d = 3%N ∨ d = 4%N ∨ d = 5%N ∨ d = 6%N ∨ d = 7%N ∨ d = 8%N ∨ d = 9%N) by lia.
  by destruct_or!; subst.
Qed.

(** A number printed reads back, whatever was read before it. *)
Definition reads (ds : string) (x : Z) : Prop :=
  all_digits ds = true ∧
  ∀ acc rest, 0 <= acc → acc * 10 ^ Z.of_nat (String.length ds) + x <= MaxUint64 →
    parse_digits acc (ds +:+ rest) = parse_digits (acc * 10 ^ Z.of_nat (String.length ds) + x) rest ∧
    parseLoop acc (ds +:+ rest) = parseLoop (acc * 10 ^ Z.of_nat (String.length ds) + x) rest.

Lemma reads_nil : reads "" 0.
Proof. split; [done |]. intros acc rest _ _. cbn [String.length String.append]. by rewrite Z.mul_1_r, Z.add_0_r. Qed.

Lemma reads_snoc ds x d : reads ds x → (d < 10)%N → 0 <= x → reads (ds +:+ String (pretty_N_char d) "") (x * 10 + Z.of_N d).
Proof.
  intros [Hd Hr] Hlt Hx. split.
  - rewrite all_digits_app, Hd. cbn [all_digits]. by rewrite digit_char.
  - intros acc rest Ha Hm. rewrite str_length_app in *. cbn [String.length] in *.
    rewrite Nat2Z.inj_add, Z.pow_add_r in * by lia. change (10 ^ Z.of_nat 1) with 10 in *.
    assert (0 < 10 ^ Z.of_nat (String.length ds)) by (apply Z.pow_pos_nonneg; lia).
    destruct (Hr acc (String (pretty_N_char d) "" +:+ rest)) as [E1 E2]; [done | lia |].
    rewrite str_app_assoc, E1, E2. change (String (pretty_N_char d) "" +:+ rest) with (String (pretty_N_char d) rest).
    cbn [parse_digits parseLoop]. rewrite digit_char by done.
    set (v := acc * 10 ^ Z.of_nat (String.length ds) + x) in *. assert (v * 10 + Z.of_N d <= MaxUint64) by lia.
    rewrite (proj2 (Z.leb_le _ _)) by done. replace (acc * (10 ^ Z.of_nat (String.length ds) * 10) + (x * 10 + Z.of_N d)) with (v * 10 + Z.of_N d) by lia. done.
Qed.

Lemma pretty_go_reads x : ∀ s, ∃ ds, pretty_N_go x s = ds +:+ s ∧ reads ds (Z.of_N x).
Proof.
  induction (N.lt_wf_0 x) as [x _ IH]. intros s. destruct (decide (x = 0)%N) as [-> | Hx].
  - exists ""%string. split; [apply pretty_N_go_0 | apply reads_nil].
  - rewrite pretty_N_go_step by lia. destruct (IH (x / 10)%N ltac:(apply N.div_lt; lia) (String (pretty_N_char (x mod 10)) s)) as (ds & E & R).
    exists (ds +:+ String (pretty_N_char (x mod 10)) ""). split; [by rewrite E, str_app_assoc |].
    replace (Z.of_N x) with (Z.of_N (x / 10) * 10 + Z.of_N (x mod 10)) by (pose proof (N.div_mod x 10); lia).
    apply reads_snoc; [done | apply N.mod_lt; lia | lia].
Qed.

Lemma pretty_u64 x : is_u64 x → all_digits (pretty x) = true ∧ pretty x ≠ ""%string ∧ parse_uint (pretty x) = Some x ∧ parseLoop 0 (pretty x) = x.
Proof.
  intros Hx. destruct x as [| p | p]; [by vm_compute | | mlia].
  change (pretty (Z.pos p)) with (pretty_N_go (N.pos p) ""). destruct (pretty_go_reads (N.pos p) "") as (ds & E & Hd & R).
  rewrite E. destruct (R 0 ""%string) as [E1 E2]; [done | mlia |]. rewrite Z.mul_0_l, Z.add_0_l in *. change (Z.of_N (N.pos p)) with (Z.pos p) in *.
  rewrite app_empty in *. assert (Hne : ds ≠ ""%string) by (intros ->; discriminate E1).
  split; [done | split; [done | split; [| by rewrite E2]]]. unfold parse_uint. by destruct ds.
Qed.

(** ** Queries *)
Fixpoint all_ascii (f : ascii → bool) (l : list ascii) : bool := match l with [] => true | a :: l => f a && all_ascii f l end.
Definition ascii_all (f : ascii → bool) : bool := all_ascii f (map ascii_of_nat (seq 0 256)).

Lemma ascii_all_spec f : ascii_all f = true → ∀ a, f a = true.
Proof.
  unfold ascii_all. intros H a.
  assert (Hin : ∀ l, all_ascii f l = true → ∀ b, b ∈ l → f b = true).
  { induction l as [| x l IH]; cbn; [by intros _ b ?%elem_of_nil |]. intros [? ?]%andb_true_iff b [-> | ?]%elem_of_cons; auto. }
  apply (Hin _ H). apply list_elem_of_In, in_map_iff. exists (nat_of_ascii a). split; [apply ascii_nat_embedding |].
  apply in_seq. pose proof (nat_ascii_bounded a). lia.
Qed.

(** One byte escaped. *)
Definition escaped (a : ascii) : string := QueryEscape (String a "").

Lemma QueryEscape_cons a s : QueryEscape (String a s) = escaped a +:+ QueryEscape s.
Proof. unfold escaped. cbn [QueryEscape]. destruct (unreserved a); [done |]. by destruct (Ascii.eqb a " "). Qed.

Definition safe_byte (a : ascii) : bool := negb (elem (String a "") ["&"; ";"; "="; "?"; "/"]).
Fixpoint safe (s : string) : bool := match s with EmptyString => true | String a s => safe_byte a && safe s end.

Lemma safe_app s t : safe (s +:+ t) = safe s && safe t.
Proof. induction s as [| a s IH]; [done |]. change (String a s +:+ t) with (String a (s +:+ t)). cbn [safe]. by rewrite IH, andb_assoc. Qed.

Lemma escaped_safe a : safe (escaped a) = true.
Proof. apply (ascii_all_spec (λ a, safe (escaped a))). vm_compute. reflexivity. Qed.

Lemma QueryEscape_safe s : safe (QueryEscape s) = true.
Proof. induction s as [| a s IH]; [done |]. by rewrite QueryEscape_cons, safe_app, escaped_safe. Qed.

Lemma safe_without c s : safe_byte c = false → safe s = true → contains c s = false.
Proof.
  intros Hc. induction s as [| a s IH]; [done |]. cbn [safe contains]. intros [Ha Hs]%andb_true_iff. rewrite IH by done.
  destruct (Ascii.eqb_spec a c) as [-> |]; [by rewrite Hc in Ha | done].
Qed.

(** The three shapes of an escaped byte, and what each reads back as. *)
Definition escaped_ok (a : ascii) : bool :=
  match escaped a with
  | String b EmptyString => negb (Ascii.eqb b "%") && Ascii.eqb (if Ascii.eqb b "+" then " " else b)%char a
  | String p (String h (String l EmptyString)) =>
      Ascii.eqb p "%" && match hex_digit h, hex_digit l with Some x, Some y => Ascii.eqb (ascii_of_N (16 * x + y)) a | _, _ => false end
  | _ => false
  end.

Lemma escaped_all a : escaped_ok a = true.
Proof. apply ascii_all_spec. vm_compute. reflexivity. Qed.

Lemma unescape_escaped a s : query_unescape (escaped a +:+ s) = String a <$> query_unescape s.
Proof.
  pose proof (escaped_all a) as H. unfold escaped_ok in H. destruct (escaped a) as [| b [| h [| l []]]]; try done.
  - apply andb_true_iff in H as [Hp Hb%Ascii.eqb_eq]. apply negb_true_iff in Hp.
    change (String b "" +:+ s) with (String b s). cbn [query_unescape]. rewrite Hp. by rewrite Hb.
  - apply andb_true_iff in H as [Hp H]. change (String b (String h (String l "")) +:+ s) with (String b (String h (String l s))).
    cbn [query_unescape]. rewrite Hp. destruct (hex_digit h); [| done]. destruct (hex_digit l); [| done]. by apply Ascii.eqb_eq in H as ->.
Qed.

Lemma unescape_escape s : query_unescape (QueryEscape s) = Some s.
Proof. induction s as [| a s IH]; [done |]. by rewrite QueryEscape_cons, unescape_escaped, IH. Qed.

Lemma contains_app c s t : contains c (s +:+ t) = contains c s || contains c t.
Proof. induction s as [| a s IH]; [done |]. change (String a s +:+ t) with (String a (s +:+ t)). cbn [contains]. by rewrite IH, orb_assoc. Qed.

Lemma cut_at c s t : contains c s = false → cut c (s +:+ String c t) = (s, t, true).
Proof.
  induction s as [| a s IH]; cbn [contains]; intros H.
  - change ("" +:+ String c t) with (String c t). cbn [cut]. by rewrite Ascii.eqb_refl.
  - apply orb_false_iff in H as [Ha Hs]. change (String a s +:+ String c t) with (String a (s +:+ String c t)). cbn [cut]. by rewrite Ha, IH.
Qed.

(** A pair encoded is the only value its query has. *)
Lemma encodePair_read k v : k ≠ ""%string → values_get (parse_query (encodePair k v)) k = v.
Proof.
  intros Hk. unfold encodePair, parse_query. set (m := QueryEscape k +:+ "=" +:+ QueryEscape v).
  assert (Hm : ∀ c, safe_byte c = false → c ≠ "="%char → contains c m = false).
  { intros c Hc Hne. unfold m. rewrite !contains_app, (safe_without c (QueryEscape k)), (safe_without c (QueryEscape v)) by (done || apply QueryEscape_safe). cbn [contains].
    by rewrite (proj2 (Ascii.eqb_neq "=" c)) by congruence. }
  rewrite split_on_none by by apply Hm. cbn [omap list_omap].
  assert (E : query_pair m = Some (k, v)).
  { unfold query_pair. rewrite Hm by done. destruct (m =s "") eqn:Em.
    - apply String.eqb_eq in Em. unfold m in Em. exfalso. apply (f_equal String.length) in Em. rewrite !str_length_app in Em. cbn in Em. lia.
    - unfold m. change ("=" +:+ QueryEscape v) with (String "=" (QueryEscape v)). rewrite cut_at by (apply safe_without; [done | apply QueryEscape_safe]).
      by rewrite !unescape_escape. }
  change (Z.of_nat (length [m]) <=? max_query_params) with true. cbn. rewrite E. cbn. by rewrite String.eqb_refl.
Qed.

(** Base64 with padding reads back. *)
Lemma StdDecode_encode s : StdDecodeString (b64_encode false true s) = Some s.
Proof.
  unfold StdDecodeString. destruct (encode_padding false s) as (p & E & _ & _ & Hp).
  rewrite E, skip_plain, Hp, <- E by apply encode_plain. apply std_decode_encode.
Qed.

(** ** One request, alone *)
Section Served.
Context (ord : MapOrder) (sha512_256 : string → string).
Context (marshal : json → string) (unmarshal : string → result error json).

(** No other caller's section comes between: each finds what the last left. *)
Fixpoint alone (n : Node) (t : list (sigT NResp)) : Prop :=
  match t with
  | [] => True
  | existT a r :: t =>
      match a return NResp a → Prop with
      | NLock f => λ r, r = n ∧ alone (f n) t
      | _ => λ _, alone n t
      end r
  end.

(** The status and the document of an answer. *)
Fixpoint headOf (t : list (sigT NResp)) : option Z :=
  match t with [] => None | existT (NHead code) _ :: _ => Some code | _ :: t => headOf t end.
Fixpoint outOf (t : list (sigT NResp)) : option json :=
  match t with [] => None | existT (NOut v) _ :: _ => Some v | _ :: t => outOf t end.

Definition wrote (t : list (sigT NResp)) (code : Z) (v : json) : Prop := headOf t = Some code ∧ outOf t = Some v.

(** What the server hands its handler for a GET of the URL. *)
Definition received (base url token : string) : Http.Request :=
  let '(path, query, _) := cut "?" (str_drop (String.length base) url) in
  Http.mkRequest "GET" path query "" (Http.hset ∅ "X-Algo-API-Token" token) "" Http.noBody 0 true.

(** A call answered by the node: its document is one JSON carries unchanged
    and fits what the client reads. *)
Definition served (okJ : json → Prop) (base : string) (n : Node) (ev : sigT CResp) : Prop :=
  match ev with
  | existT (CGet url token) a =>
      ∃ turns t code v, runs (handle ord sha512_256 turns (received base url token)) t (Some true) ∧ alone n t ∧
        wrote t code v ∧ a = Answered code (marshal v) ∧ okJ v ∧ Z.of_nat (String.length (marshal v)) <= bodyLimit
  end.

(** A node that answers: not failing, not hanging, no path set to fail. *)
Record idle (n : Node) : Prop := {
  id_hang : fn_hang n = false;
  id_failing : fn_failing n = false;
  id_paths : ∀ p, default 0 (fn_pathStatus n !! p) = 0
}.

Definition hit (path : string) (n : Node) : Node :=
  n <| fn_hits ::= (λ m, <[path := default 0 (m !! path) + 1]> m) |>.

Ltac nrun H :=
  unfold message, writeJSON, readNode, nthen, nask in H; cbn [bind runs] in H;
  repeat (let r := fresh "r" in let t' := fresh "t'" in destruct H as (r & t' & -> & H); cbn [bind runs] in H).

(** The switch of handle is reached with the node as it was, but for the hit. *)
Lemma handle_routes turns rq n t :
  runs (handle ord sha512_256 turns rq) t (Some true) → alone n t → idle n → Http.hget (Http.rq_Header rq) "X-Algo-API-Token" = Token n →
  ∃ t', alone (hit (Http.rq_Path rq) n) t' ∧ headOf t = headOf t' ∧ outOf t = outOf t' ∧
    runs (route ord sha512_256 turns (fn_opts n) (fn_round n) (fn_oldest n) rq (trim_suffix "/" (Http.rq_Path rq))) t' (Some true).
Proof.
  intros H A [Hh Hf Hp] Ht. unfold handle in H. unfold readNode, nthen, nask in H. cbn [bind runs] in H.
  destruct H as (r0 & t0 & -> & H). cbn [alone] in A. destruct A as [-> A]. rewrite Hh, Hf, Ht in H. unfold Token in H. rewrite String.eqb_refl in H.
  destruct H as (r1 & t1 & -> & r2 & t2 & -> & H). cbn [alone] in A. cbn [headOf outOf].
  assert (S : ∃ t3, headOf t2 = headOf t3 ∧ outOf t2 = outOf t3 ∧ alone (hit (Http.rq_Path rq) n) t3 ∧
    runs (let* n1 := readNode in
          let status := default 0 (fn_pathStatus n1 !! trim_suffix "/" (Http.rq_Path rq)) in
          let effort := default ""%string (fn_effort n1 !! trim_suffix "/" (Http.rq_Path rq)) in
          do* (if effort <>s "" then nask (NSet "X-Algod-Effort" effort) else Ret ()) in
          if negb (status =? 0) then do* message status ("fake node answers " +:+ pretty status) in Ret true
          else route ord sha512_256 turns (fn_opts n) (fn_round n) (fn_oldest n) rq (trim_suffix "/" (Http.rq_Path rq))) t3 (Some true)).
  { destruct (Http.hget (Http.rq_Header rq) "Origin" <>s ""); [cbn [bind runs] in H; destruct H as (r3 & t3 & -> & H) |];
      (destruct (0 <? fn_latency n); [cbn [bind runs] in H; destruct H as (r4 & t4 & -> & H) |]); (exists t4 || exists t3 || exists t2); done. }
  destruct S as (t3 & -> & -> & A' & H'). clear H A. unfold readNode, nthen, nask in H'. cbn [bind runs] in H'.
  destruct H' as (r5 & t5 & -> & H'). cbn [alone headOf outOf] in *. destruct A' as [-> A']. cbn [id] in A'.
  change (fn_pathStatus (hit (Http.rq_Path rq) n)) with (fn_pathStatus n) in H'. rewrite Hp in H'. cbn [negb Z.eqb] in H'.
  destruct (_ <>s ""); [cbn [bind runs] in H'; destruct H' as (r6 & t6 & -> & H'); exists t6 | exists t5]; done.
Qed.

(** An answer written and nothing else. *)
Lemma writeJSON_wrote code v t x : runs (writeJSON code v) t x → wrote t code v.
Proof. intros H. nrun H. by split. Qed.

Lemma answered_wrote code v t : runs (do* writeJSON code v in Ret true) t (Some true) → wrote t code v.
Proof. intros H. unfold nthen in H. apply runs_bind in H as [(t1 & t2 & b & -> & H & -> & _) | [_ [=]]]. rewrite app_nil_r. by eapply writeJSON_wrote. Qed.

(** After reading the node. *)
Lemma read_wrote (f : Node → Handler unit) n t code v :
  alone n t → (∀ t, runs (do* f n in Ret true) t (Some true) → wrote t code v) →
  runs (do* (let* n := readNode in f n) in Ret true) t (Some true) → wrote t code v.
Proof.
  intros A Hf H. unfold readNode, nthen, nask in H. cbn [bind runs] in H. destruct H as (r & t' & -> & H).
  cbn [alone] in A. destruct A as [-> _]. by apply Hf in H.
Qed.

Lemma wrote_inj t code v code' v' : wrote t code v → wrote t code' v' → code = code' ∧ v = v'.
Proof. intros [? ?] [? ?]. split; congruence. Qed.

(** ** The switch, path by path *)
Implicit Types (o : Options) (rq : Http.Request).

Lemma prefix_neq s t u : String.eqb (s +:+ t) (s +:+ u) = String.eqb t u.
Proof. induction s as [| a s IH]; [done |]. change (String.eqb (String a (s +:+ t)) (String a (s +:+ u)) = String.eqb t u). cbn [String.eqb]. by rewrite Ascii.eqb_refl. Qed.

Lemma trim_suffix_end c s t : t ≠ ""%string → contains c t = false → trim_suffix c (s +:+ t) = s +:+ t.
Proof.
  intros Hne Hc. assert (Ht : trim_suffix c t = t).
  { clear s. induction t as [| a t IH]; [done |]. cbn [contains] in Hc. apply orb_false_iff in Hc as [Ha Ht]. cbn [trim_suffix].
    destruct t as [| b t]; [by rewrite Ha |]. by rewrite IH. }
  induction s as [| a s IH]; [done |]. change (String a s +:+ t) with (String a (s +:+ t)). cbn [trim_suffix]. rewrite IH.
  destruct (s +:+ t) eqn:E; [| done]. destruct s; [by destruct t | done].
Qed.

(** Where a GET of a plain path arrives. *)
Lemma received_path base path token :
  contains "?" path = false → received base (base +:+ path) token =
  Http.mkRequest "GET" path "" "" (Http.hset ∅ "X-Algo-API-Token" token) "" Http.noBody 0 true.
Proof.
  intros H. unfold received. rewrite str_drop_app. assert (E : cut "?" path = (path, ""%string, false)); [| by rewrite E].
  induction path as [| a path IH]; [done |]. cbn [contains] in H. apply orb_false_iff in H as [Ha Hp]. cbn [cut]. by rewrite Ha, IH.
Qed.

Lemma received_query base path query token :
  contains "?" path = false → received base (base +:+ path +:+ String "?" query) token =
  Http.mkRequest "GET" path query "" (Http.hset ∅ "X-Algo-API-Token" token) "" Http.noBody 0 true.
Proof. intros H. unfold received. rewrite str_drop_app, cut_at by done. done. Qed.

(** What the switch makes of the paths the client asks for. *)
Lemma segments3 a b x : contains "/" a = false → contains "/" b = false → contains "/" x = false →
  split_on "/" (a +:+ String "/" (b +:+ String "/" x)) = [a; b; x].
Proof. intros Ha Hb Hx. by rewrite split_on_app, split_on_none, split_on_app, split_on_none, split_on_none. Qed.
Lemma segments4 a b x y : contains "/" a = false → contains "/" b = false → contains "/" x = false → contains "/" y = false →
  split_on "/" (a +:+ String "/" (b +:+ String "/" (x +:+ String "/" y))) = [a; b; x; y].
Proof. intros Ha Hb Hx Hy. by rewrite split_on_app, split_on_none, split_on_app, split_on_none, split_on_app, split_on_none, split_on_none. Qed.

Lemma digits_slash x : is_u64 x → contains "/" (pretty x) = false ∧ contains "?" (pretty x) = false.
Proof. intros H. destruct (pretty_u64 x H) as [Hd _]. split; by apply digits_without. Qed.

Lemma route_block turns o round oldest rq x :
  is_u64 x →
  route ord sha512_256 turns o round oldest rq ("/v2/blocks/" +:+ pretty x +:+ "/hash") =
  (do* block o round oldest (pretty x) "hash" in Ret true).
Proof.
  intros Hx. destruct (digits_slash x Hx) as [Hs _]. unfold route.
  assert (E : split_on "/" (trim_prefix "/" ("/v2/blocks/" +:+ pretty x +:+ "/hash")) = ["v2"; "blocks"; pretty x; "hash"]%string).
  { change (trim_prefix "/" ("/v2/blocks/" +:+ pretty x +:+ "/hash")) with ("v2" +:+ String "/" ("blocks" +:+ String "/" (pretty x +:+ String "/" "hash"))).
    by apply segments4. }
  rewrite E. reflexivity.
Qed.

Lemma route_wait turns o round oldest rq x :
  is_u64 x → route ord sha512_256 turns o round oldest rq ("/v2/status/wait-for-block-after/" +:+ pretty x) = waitAfter turns o (parseLoop 0 (pretty x)).
Proof.
  intros Hx. destruct (digits_slash x Hx) as [Hs _]. unfold route.
  assert (E : split_on "/" (trim_prefix "/" ("/v2/status/wait-for-block-after/" +:+ pretty x)) = ["v2"; "status"; "wait-for-block-after"; pretty x]%string).
  { change (trim_prefix "/" ("/v2/status/wait-for-block-after/" +:+ pretty x)) with ("v2" +:+ String "/" ("status" +:+ String "/" ("wait-for-block-after" +:+ String "/" (pretty x)))).
    by apply segments4. }
  rewrite E. reflexivity.
Qed.

Lemma route_boxes turns o round oldest rq x :
  is_u64 x → route ord sha512_256 turns o round oldest rq ("/v2/applications/" +:+ pretty x +:+ "/boxes") =
  (do* boxNames ord (parseLoop 0 (pretty x)) in Ret true).
Proof.
  intros Hx. destruct (digits_slash x Hx) as [Hs _]. unfold route.
  assert (E : split_on "/" (trim_prefix "/" ("/v2/applications/" +:+ pretty x +:+ "/boxes")) = ["v2"; "applications"; pretty x; "boxes"]%string).
  { change (trim_prefix "/" ("/v2/applications/" +:+ pretty x +:+ "/boxes")) with ("v2" +:+ String "/" ("applications" +:+ String "/" (pretty x +:+ String "/" "boxes"))).
    by apply segments4. }
  rewrite E. reflexivity.
Qed.

Lemma route_box turns o round oldest rq x :
  is_u64 x → route ord sha512_256 turns o round oldest rq ("/v2/applications/" +:+ pretty x +:+ "/box") =
  (do* box (parseLoop 0 (pretty x)) round (values_get (parse_query (Http.rq_RawQuery rq)) "name") in Ret true).
Proof.
  intros Hx. destruct (digits_slash x Hx) as [Hs _]. unfold route.
  assert (E : split_on "/" (trim_prefix "/" ("/v2/applications/" +:+ pretty x +:+ "/box")) = ["v2"; "applications"; pretty x; "box"]%string).
  { change (trim_prefix "/" ("/v2/applications/" +:+ pretty x +:+ "/box")) with ("v2" +:+ String "/" ("applications" +:+ String "/" (pretty x +:+ String "/" "box"))).
    by apply segments4. }
  rewrite E. reflexivity.
Qed.

Lemma route_limits turns o round oldest rq :
  Http.rq_Method rq = "GET"%string → route ord sha512_256 turns o round oldest rq limitsPath = (do* limitsOf o in Ret true).
Proof. intros H. unfold route. rewrite H. reflexivity. Qed.

End Served.

(** ** What each method reads *)
Section Reads.
Context (ord : MapOrder) (sha512_256 : string → string).
Context (marshal : json → string) (unmarshal : string → result error json) (okJ : json → Prop).
Context (json_law : ∀ v, okJ v → unmarshal (marshal v) = Ok v).
Context (n : Node) (base : string).
Context (Hidle : idle n) (Hround : is_u64 (fn_round n)).

Let c : Client := mkClient base (Token n).
Let served := served ord sha512_256 marshal okJ base n.

Lemma limited_short k s : Z.of_nat (String.length s) <= k → limited k s = s.
Proof.
  revert k. induction s as [| a s IH]; intros k H; [done |]. cbn [limited String.length] in *.
  rewrite (proj2 (Z.leb_gt _ _)) by lia. rewrite IH by lia. done.
Qed.

(** A get answered by the node: what its switch wrote. *)
Lemma get_served path rq t (r : result error (Z * string)) :
  runs (get c path) t (Some r) → Forall served t → received base (base +:+ path) (Token n) = rq →
  Http.hget (Http.rq_Header rq) "X-Algo-API-Token" = Token n → trim_suffix "/" (Http.rq_Path rq) = Http.rq_Path rq →
  ∃ turns t' code v, r = Ok (code, marshal v) ∧ okJ v ∧ wrote t' code v ∧ alone (hit (Http.rq_Path rq) n) t' ∧
    runs (route ord sha512_256 turns (fn_opts n) (fn_round n) (fn_oldest n) rq (Http.rq_Path rq)) t' (Some true).
Proof.
  intros H S Er Ht Hp. cbn [get runs] in H. destruct H as (a & t1 & -> & -> & [= ->]). apply Forall_inv in S. cbn in S.
  destruct S as (turns & t & code & v & Hr & Ha & Hw & -> & Hok & Hfit). rewrite Er in Hr.
  destruct (handle_routes _ _ _ _ _ _ Hr Ha Hidle Ht) as (t' & Ha' & Eh & Eo & Hr'). rewrite Hp in Hr'.
  exists turns, t', code, v. unfold wrote in *. rewrite Eh, Eo in Hw. by rewrite limited_short.
Qed.

(** The same for a path without a query that its last bytes keep as it is. *)
Lemma get_path path s t (r : result error (Z * string)) :
  runs (get c (path +:+ s)) t (Some r) → Forall served t → s ≠ ""%string → contains "/" s = false → contains "?" (path +:+ s) = false →
  ∃ turns t' code v rq, r = Ok (code, marshal v) ∧ okJ v ∧ wrote t' code v ∧ alone (hit (path +:+ s) n) t' ∧ Http.rq_Method rq = "GET"%string ∧
    runs (route ord sha512_256 turns (fn_opts n) (fn_round n) (fn_oldest n) rq (path +:+ s)) t' (Some true).
Proof.
  intros H S Hne Hc Hq. destruct (get_served _ _ _ _ H S (received_path base (path +:+ s) (Token n) Hq)) as (turns & t' & code & v & -> & ? & ? & ? & ?).
  - reflexivity.
  - cbn. by apply trim_suffix_end.
  - exists turns, t', code, v. eexists. split_and!; try done. reflexivity.
Qed.

Lemma u64Field_ok k ms z : member k ms = Some (JNum z) → is_u64 z → u64Field k ms = Ok z.
Proof. intros H Hz. unfold u64Field, fieldOf, u64Of. rewrite H. unfold is_u64 in Hz. rewrite (proj2 (Z.leb_le _ _)), (proj2 (Z.ltb_lt _ _)) by lia. done. Qed.

Lemma strField_ok k ms s : member k ms = Some (JStr s) → strField k ms = Ok s.
Proof. intros H. unfold strField, fieldOf. by rewrite H. Qed.

Lemma decoded_ok {A} (decode : list (string * json) → result error A) ms :
  okJ (JObj ms) → decoded unmarshal decode (marshal (JObj ms)) = decode ms.
Proof. intros H. unfold decoded. by rewrite json_law. Qed.

Definition statusMembers (round : Z) : list (string * json) := match status (fn_opts n) round with JObj ms => ms | _ => [] end.

Lemma status_read round : okJ (status (fn_opts n) round) → is_u64 round →
  decoded unmarshal decodeStatus (marshal (status (fn_opts n) round)) = Ok (mkStatus round 0 1000 false "").
Proof.
  intros Hok Hr. change (status (fn_opts n) round) with (JObj (statusMembers round)) in *. rewrite decoded_ok by done. unfold decodeStatus.
  rewrite (u64Field_ok "last-round" _ round), (u64Field_ok "catchup-time" _ 0), (u64Field_ok "time-since-last-round" _ 1000); done || mlia.
Qed.

(** A pure step after a program. *)
Lemma runs_map {A B} (f : A → B) (m : Calls A) t y : runs (cthen m (λ a, Ret (f a))) t (Some y) → ∃ a, runs m t (Some a) ∧ y = f a.
Proof.
  intros H. unfold cthen in H. apply runs_bind in H as [(t1 & t2 & a & -> & H & -> & [= ->]) | [_ [=]]]. rewrite app_nil_r. by exists a.
Qed.

Lemma Status_reads t r : runs (Client_Status unmarshal c) t (Some r) → Forall served t →
  ∃ raw, r = Ok (mkStatus (fn_round n) 0 1000 false raw).
Proof.
  intros (r1 & (r0 & H & ->)%runs_map & ->)%runs_map S.
  destruct (get_path "/v2/" "status" _ _ H S) as (turns & t' & code & v & rq & -> & Hok & Hw & _ & _ & Hr); [done.. |].
  change (route ord sha512_256 turns (fn_opts n) (fn_round n) (fn_oldest n) rq ("/v2/" +:+ "status")) with
    (do* writeJSON 200 (status (fn_opts n) (fn_round n)) in Ret true) in Hr.
  apply answered_wrote in Hr. destruct (wrote_inj _ _ _ _ _ Hw Hr) as [-> ->]. cbn [negb Z.eqb]. rewrite status_read by done. by eexists.
Qed.

(** One turn of the wait is enough: the round is there already. *)
Lemma WaitForBlockAfter_reads after t r :
  runs (WaitForBlockAfter unmarshal c after) t (Some r) → Forall served t → is_u64 after → after < fn_round n →
  ∃ raw, r = Ok (mkStatus (fn_round n) 0 1000 false raw).
Proof.
  intros (r1 & (r0 & H & ->)%runs_map & ->)%runs_map S Ha Hlt. destruct (digits_slash after Ha) as [Hs Hq]. destruct (pretty_u64 after Ha) as (_ & Hne & _ & Hp).
  destruct (get_path "/v2/status/wait-for-block-after/" (pretty after) _ _ H S) as (turns & t' & code & v & rq & -> & Hok & Hw & Hal & _ & Hr); [done | done | done |].
  rewrite route_wait, Hp in Hr by done. destruct turns as [| turns]; [by destruct Hr as [_ [=]] |].
  cbn [waitAfter] in Hr. unfold readNode, nthen, nask in Hr. cbn [bind runs] in Hr. destruct Hr as (r2 & t2 & -> & Hr).
  cbn [alone] in Hal. destruct Hal as [-> _]. change (fn_round (hit ("/v2/status/wait-for-block-after/" +:+ pretty after) n)) with (fn_round n) in Hr. rewrite (proj2 (Z.ltb_lt _ _)) in Hr by done.
  apply answered_wrote in Hr. destruct (wrote_inj t2 _ _ _ _ Hw Hr) as [-> ->]. cbn [negb Z.eqb]. rewrite status_read by done. by eexists.
Qed.

Lemma HasBlock_reads x t r : runs (HasBlock c x) t (Some r) → Forall served t → is_u64 x →
  r = Ok ((fn_oldest n <=? x) && (x <=? fn_round n)).
Proof.
  intros (r0 & H & ->)%runs_map S Hx. destruct (digits_slash x Hx) as [Hs Hq]. destruct (pretty_u64 x Hx) as (_ & Hne & Hp & _).
  assert (E : "/v2/blocks/" +:+ pretty x +:+ "/hash" = ("/v2/blocks/" +:+ pretty x +:+ "/") +:+ "hash") by by rewrite !str_app_assoc.
  rewrite E in H. destruct (get_path _ "hash" _ _ H S) as (turns & t' & code & v & rq & -> & Hok & Hw & _ & _ & Hr); [done | done | |].
  { rewrite !contains_app, Hq. done. }
  rewrite <- E, route_block in Hr by done. unfold block in Hr. rewrite Hp in Hr.
  destruct ((x <? fn_oldest n) || (fn_round n <? x)) eqn:Eb; apply answered_wrote in Hr; destruct (wrote_inj _ _ _ _ _ Hw Hr) as [-> ->]; cbn [Z.eqb Pos.eqb orb];
    f_equal; lia.
Qed.

Lemma Versions_reads t r : runs (Client_Versions unmarshal c) t (Some r) → Forall served t →
  r = Ok (mkVersions (op_GenesisID (fn_opts n)) "3.99.0-fake").
Proof.
  intros (r1 & (r0 & H & ->)%runs_map & ->)%runs_map S.
  destruct (get_path "/" "versions" _ _ H S) as (turns & t' & code & v & rq & -> & Hok & Hw & _ & _ & Hr); [done.. |].
  unfold route in Hr. cbn [String.append String.eqb Ascii.eqb orb Bool.eqb] in Hr.
  apply answered_wrote in Hr. destruct (wrote_inj _ _ _ _ _ Hw Hr) as [-> ->]. cbn [negb Z.eqb Pos.eqb].
  unfold decoded. rewrite json_law by done. reflexivity.
Qed.

Definition limits_u64 (l : SimulateLimits) : Prop :=
  is_u64 (sl_MaxTxnGroups l) ∧ is_u64 (sl_MaxRounds l) ∧ is_u64 (sl_MaxExtraOpcodeBudget l) ∧ is_u64 (sl_ResourceLimitMultiplier l) ∧
  is_u64 (sl_MaxExecTraceBytes l) ∧ is_u64 (sl_TimeLimitSeconds l).

Lemma SimulateLimits_reads t r : runs (Client_SimulateLimits unmarshal c) t (Some r) → Forall served t →
  (∀ l, op_Simulate (fn_opts n) = Some l → limits_u64 l) → r = Ok (op_Simulate (fn_opts n)).
Proof.
  intros (r0 & H & ->)%runs_map S Hl.
  destruct (get_path "/v2/transactions/simulate/" "limits" _ _ H S) as (turns & t' & code & v & rq & -> & Hok & Hw & _ & Hm & Hr); [done.. |].
  change ("/v2/transactions/simulate/" +:+ "limits") with limitsPath in Hr. rewrite route_limits in Hr by done. unfold limitsOf in Hr.
  destruct (op_Simulate (fn_opts n)) as [l |]; apply answered_wrote in Hr; destruct (wrote_inj _ _ _ _ _ Hw Hr) as [-> ->]; [| done].
  destruct (Hl l eq_refl) as (? & ? & ? & ? & ? & ?). cbn [negb Z.eqb Pos.eqb].
  match type of Hok with okJ ?v => change v with (JObj (match v with JObj ms => ms | _ => [] end)) in * end.
  rewrite decoded_ok by done. unfold decodeLimits.
  rewrite (u64Field_ok "max-txn-groups" _ (sl_MaxTxnGroups l)), (u64Field_ok "max-rounds" _ (sl_MaxRounds l)),
    (u64Field_ok "max-extra-opcode-budget" _ (sl_MaxExtraOpcodeBudget l)), (u64Field_ok "resource-limit-multiplier" _ (sl_ResourceLimitMultiplier l)),
    (u64Field_ok "max-exec-trace-bytes" _ (sl_MaxExecTraceBytes l)), (u64Field_ok "time-limit-seconds" _ (sl_TimeLimitSeconds l)) by done.
  by destruct l.
Qed.

Lemma boxNamesLoop_encoded ks out : boxNamesLoop (map (b64_encode false true) ks) out = Ok (out ++ ks).
Proof.
  revert out. induction ks as [| k ks IH]; intros out; cbn [boxNamesLoop map]; [by rewrite app_nil_r |].
  rewrite StdDecode_encode, IH, <- app_assoc. done.
Qed.

Lemma decodeNames_written (l : list (string * string)) :
  decodeNames (map (λ kv, jmap [("name"%string, JStr (b64_encode false true kv.1))]) l) = Ok (map (b64_encode false true) l.*1).
Proof. induction l as [| [k v] l IH]; [done |]. cbn [map decodeNames]. rewrite IH. reflexivity. Qed.

Lemma BoxNames_reads appID t r : runs (BoxNames unmarshal c appID) t (Some r) → Forall served t → is_u64 appID →
  ∃ names, r = Ok names ∧ NoDup names ∧ ∀ k, k ∈ names ↔ is_Some (boxesOf n appID !! k).
Proof.
  intros (r1 & (r0 & H & ->)%runs_map & ->)%runs_map S Ha. destruct (digits_slash appID Ha) as [_ Hq]. destruct (pretty_u64 appID Ha) as (_ & _ & _ & Hp).
  assert (E : "/v2/applications/" +:+ pretty appID +:+ "/boxes" = ("/v2/applications/" +:+ pretty appID +:+ "/") +:+ "boxes") by by rewrite !str_app_assoc.
  rewrite E in H. destruct (get_path _ "boxes" _ _ H S) as (turns & t' & code & v & rq & -> & Hok & Hw & Hal & _ & Hr); [done | done | |].
  { rewrite !contains_app, Hq. done. }
  rewrite <- E, route_boxes, Hp in Hr by done. eapply (read_wrote _ _ _ _ _ Hal) in Hr; [| intros t0; apply answered_wrote].
  destruct (wrote_inj _ _ _ _ _ Hw Hr) as [-> ->]. cbn [negb Z.eqb Pos.eqb].
  change (boxesOf (hit ("/v2/applications/" +:+ pretty appID +:+ "/boxes") n) appID) with (boxesOf n appID) in *.
  unfold decoded. rewrite json_law by done. cbn [document objOf jmap]. unfold fieldOf.
  match goal with |- context [member "boxes" ?ms] => change (member "boxes" ms) with (Some (JArr (map (λ kv, jmap [("name"%string, JStr (b64_encode false true kv.1))]) (range ord (boxesOf n appID))))) end.
  cbn [arrOf]. unfold andThen. rewrite decodeNames_written, boxNamesLoop_encoded. eexists. split; [done |]. cbn [app].
  split.
  - rewrite (range_perm ord). apply NoDup_fst_map_to_list.
  - intros k. rewrite (range_perm ord), list_elem_of_fmap. split.
    + intros ([k' v] & -> & Hm%elem_of_map_to_list). by eexists.
    + intros [v Hm]. exists (k, v). split; [done |]. by apply elem_of_map_to_list.
Qed.

Lemma decode_b64 name : decodeBoxName ("b64:" +:+ b64_encode false true name) = Ok name.
Proof.
  unfold decodeBoxName. rewrite has_prefix_app.
  rewrite str_length_app. change (String.length "b64:") with 4%nat. rewrite (Nat.add_comm 4), Nat.add_sub.
  change (String.substring 4 (String.length (b64_encode false true name)) ("b64:" +:+ b64_encode false true name)) with
    (String.substring 0 (String.length (b64_encode false true name)) (b64_encode false true name)).
  by rewrite substring_whole, StdDecode_encode.
Qed.

Lemma Box_reads appID name t r : runs (Box unmarshal c appID name) t (Some r) → Forall served t → is_u64 appID →
  r = match boxesOf n appID !! name with Some v => Ok v | None => Err ErrNotFound end.
Proof.
  intros (r0 & H & ->)%runs_map S Ha. destruct (digits_slash appID Ha) as [_ Hq]. destruct (pretty_u64 appID Ha) as (_ & _ & _ & Hp).
  set (q := encodePair "name" ("b64:" +:+ b64_encode false true name)) in *.
  assert (E : "/v2/applications/" +:+ pretty appID +:+ "/box?" +:+ q = ("/v2/applications/" +:+ pretty appID +:+ "/box") +:+ String "?" q) by by rewrite !str_app_assoc.
  rewrite E in H.
  destruct (get_served _ _ _ _ H S (received_query base ("/v2/applications/" +:+ pretty appID +:+ "/box") q (Token n) ltac:(by rewrite !contains_app, Hq)))
    as (turns & t' & code & v & -> & Hok & Hw & Hal & Hr); [done | |].
  { cbn [Http.rq_Path]. change ("/box"%string) with ("/" +:+ "box"). rewrite <- !str_app_assoc. by apply trim_suffix_end. }
  cbn [Http.rq_Path] in Hr, Hal. rewrite route_box, Hp in Hr by done. cbn [Http.rq_RawQuery] in Hr. unfold q in Hr. rewrite encodePair_read in Hr by done.
  unfold box in Hr.
  assert (Ed : decodeBoxName ("b64:" +:+ b64_encode false true name) = Ok name).
  { apply decode_b64. }
  rewrite Ed in Hr. unfold readNode, nthen, nask in Hr. cbn [bind runs] in Hr. destruct Hr as (r2 & t2 & -> & Hr).
  cbn [alone] in Hal. destruct Hal as [-> _].
  change (boxesOf (hit ("/v2/applications/" +:+ pretty appID +:+ "/box") n) appID) with (boxesOf n appID) in Hr.
  destruct (boxesOf n appID !! name) as [value |]; apply answered_wrote in Hr; destruct (wrote_inj t2 _ _ _ _ Hw Hr) as [-> ->]; [| done].
  cbn [negb Z.eqb Pos.eqb]. unfold decoded. rewrite json_law by done. cbn [document objOf jmap].
  rewrite (strField_ok "value" _ (b64_encode false true value)) by reflexivity. by rewrite StdDecode_encode.
Qed.
End Reads.

(** ** The theorems *)

(** Every read is one GET of one path, with the client's token. *)
Definition one_get (c : Client) (path : string) (t : list (sigT CResp)) : Prop :=
  ∃ a, t = [existT (CGet (cl_base c +:+ path) (cl_token c)) a].

Lemma get_one c path t r : runs (AlgodHttp.get c path) t (Some r) → one_get c path t.
Proof. intros (a & t' & -> & [-> _]). by exists a. Qed.

Lemma getJSON_one {A} unmarshal c path (decode : list (string * json) → result error A) t r :
  runs (getJSON unmarshal c path decode) t (Some r) → one_get c path t.
Proof. intros (r0 & H & _)%runs_map. by eapply get_one. Qed.

Lemma statusFrom_one unmarshal c path t r : runs (statusFrom unmarshal c path) t (Some r) → one_get c path t.
Proof. intros (r0 & H & _)%runs_map. by eapply getJSON_one. Qed.

(** C26: a client reads from a fake node what the node holds, over one GET
    each: its last round (also when it waits for a round the node is past),
    whether the node has a block, its genesis, its simulate limits (none for a
    stock node), the names of an application's boxes, each once, and a box's
    bytes or ErrNotFound, for every round, application and box name: numbers
    and names survive the path, the query's escaping, base64 and JSON.  The
    version read is "3.99.0-fake" whatever version the node was given.  That is
    for a node that neither hangs nor fails and whose state no other call
    changes while it answers, and for answers within the client's limit on a
    body. *)
Theorem client_reads_node ord sha512_256 marshal unmarshal okJ n base t :
  (∀ v, okJ v → unmarshal (marshal v) = Ok v) → idle n → is_u64 (fn_round n) → trim_suffix "/" base = base →
  Forall (served ord sha512_256 marshal okJ base n) t →
  let c := AlgodHttp.New base (Token n) in
  (∀ r, runs (Client_Status unmarshal c) t (Some r) → one_get c "/v2/status" t ∧ ∃ raw, r = Ok (mkStatus (fn_round n) 0 1000 false raw)) ∧
  (∀ after r, is_u64 after → after < fn_round n → runs (WaitForBlockAfter unmarshal c after) t (Some r) →
     one_get c ("/v2/status/wait-for-block-after/" +:+ pretty after) t ∧ ∃ raw, r = Ok (mkStatus (fn_round n) 0 1000 false raw)) ∧
  (∀ x r, is_u64 x → runs (HasBlock c x) t (Some r) →
     one_get c ("/v2/blocks/" +:+ pretty x +:+ "/hash") t ∧ r = Ok ((fn_oldest n <=? x) && (x <=? fn_round n))) ∧
  (∀ r, runs (Client_Versions unmarshal c) t (Some r) →
     one_get c "/versions" t ∧ r = Ok (mkVersions (op_GenesisID (fn_opts n)) "3.99.0-fake")) ∧
  (∀ r, (∀ l, op_Simulate (fn_opts n) = Some l → limits_u64 l) → runs (Client_SimulateLimits unmarshal c) t (Some r) →
     one_get c "/v2/transactions/simulate/limits" t ∧ r = Ok (op_Simulate (fn_opts n))) ∧
  (∀ appID r, is_u64 appID → runs (BoxNames unmarshal c appID) t (Some r) →
     one_get c ("/v2/applications/" +:+ pretty appID +:+ "/boxes") t ∧
     ∃ names, r = Ok names ∧ NoDup names ∧ ∀ k, k ∈ names ↔ is_Some (boxesOf n appID !! k)) ∧
  (∀ appID name r, is_u64 appID → runs (Box unmarshal c appID name) t (Some r) →
     (∃ query, one_get c ("/v2/applications/" +:+ pretty appID +:+ "/box?" +:+ query) t) ∧
     r = match boxesOf n appID !! name with Some v => Ok v | None => Err ErrNotFound end).
Proof.
  intros L I R B S. unfold AlgodHttp.New. rewrite B. cbv zeta. split_and!.
  - intros r H. split; [by eapply statusFrom_one | by eapply Status_reads].
  - intros a r Ha Hlt H. split; [by eapply statusFrom_one | by eapply WaitForBlockAfter_reads].
  - intros x r Hx H. split; [| by eapply HasBlock_reads]. apply runs_map in H as (r0 & H & _). by eapply get_one.
  - intros r H. split; [| by eapply Versions_reads]. apply runs_map in H as (r0 & H & _). by eapply getJSON_one.
  - intros r Hl H. split; [| by eapply SimulateLimits_reads]. apply runs_map in H as (r0 & H & _). by eapply get_one.
  - intros a r Ha H. split; [| by eapply BoxNames_reads]. apply runs_map in H as (r0 & H & _). by eapply getJSON_one.
  - intros a name r Ha H. split; [| by eapply Box_reads]. apply runs_map in H as (r0 & H & _).
    exists (encodePair "name" ("b64:" +:+ b64_encode false true name)). by eapply get_one.
Qed.

(** The search asks only about rounds up to the last. *)
Lemma bisect_agree H H' fuel lo hi : (∀ x, lo <= x <= hi → H x = H' x) → bisect H fuel lo hi = bisect H' fuel lo hi.
Proof.
  revert lo hi. induction fuel as [| fuel IH]; intros lo hi E; [done |]. cbn [bisect]. destruct (Z.ltb_spec 1 (hi - lo)); [| done].
  assert (lo < lo + (hi - lo) / 2 < hi).
  { pose proof (Z.div_mod (hi - lo) 2 ltac:(lia)). pose proof (Z.mod_pos_bound (hi - lo) 2 ltac:(lia)). lia. }
  rewrite E by lia. destruct (H' _) as [[] | e]; [| | done]; apply IH; intros x Hx; apply E; lia.
Qed.

Lemma Probe_agree H H' last : 0 <= last → (∀ x, 0 <= x <= last → H x = H' x) → ProbeOldestRound H last = ProbeOldestRound H' last.
Proof.
  intros Hl E. unfold ProbeOldestRound. rewrite !(E 0), !(E last) by lia. destruct (H' 0) as [[] | e]; try done.
  destruct (H' last) as [[] | e]; try done. by apply bisect_agree.
Qed.

(** C27: The monitor's search for the oldest round, run through the client
    against a node, finds the oldest round of the node. *)
Theorem probe_measures_node ord sha512_256 marshal okJ n base HasBlockOf :
  idle n → is_u64 (fn_round n) → 0 <= fn_oldest n <= fn_round n → trim_suffix "/" base = base →
  (∀ x, is_u64 x → ∃ t, runs (HasBlock (AlgodHttp.New base (Token n)) x) t (Some (HasBlockOf x)) ∧
     Forall (served ord sha512_256 marshal okJ base n) t) →
  ProbeOldestRound HasBlockOf (fn_round n) = Some (Ok (fn_oldest n)).
Proof.
  intros I R Ho B H. unfold AlgodHttp.New in H. rewrite B in H. set (H' := λ x, Ok (E := error) ((fn_oldest n <=? x) && (x <=? fn_round n))).
  rewrite (Probe_agree HasBlockOf H'); [| lia |].
  2: { intros x Hx. destruct (H x) as (t & Hr & S); [mlia |]. eapply HasBlock_reads; [exact I | exact Hr | exact S | mlia]. }
  destruct (Probe_ok H' (fn_round n) R) as (r & -> & Hs). destruct r as [m | e]; cbn in Hs.
  - destruct Hs as (Hm & Ht & Hp & _). unfold H' in *. injection Ht as Ht. do 2 f_equal. destruct Hp as [-> | [= Hp]]; lia.
  - destruct Hs as [(x & [=]) | [= Hs]]. lia.
Qed.

(** ** Witnesses *)
Definition exampleNode : Node := SetRound 120 (PutBox 7 "r&d=" "bytes" (FakeAlgod.New (mkOptions "n1" "t" "" 100 40 false false false "" None))).
Definition exampleOrder : MapOrder := mkMapOrder (λ A m, map_to_list m) (λ A m, Permutation_refl _).
Definition exampleBase : string := "http://127.0.0.1:8080".
Definition exampleClient : Client := AlgodHttp.New exampleBase "t".

Lemma exampleNode_idle : idle exampleNode.
Proof. by split. Qed.

(** A connection to the node: nobody else is there. *)
Definition nodeEnv (path : string) : env NResp := λ h a,
  match a with
  | NLock _ => match h with [] => exampleNode | _ => hit path exampleNode end
  | NAfter _ => true
  | NWait _ => Deadline
  | NSleep _ | NGone | NDiscard | NSet _ _ | NAdd _ _ | NDel _ | NHead _ | NOut _ => tt
  end.

Definition nodeRun (path url : string) : list (sigT NResp) * option bool :=
  exec (nodeEnv path) [] (handle exampleOrder id 1 (received exampleBase url "t")).

(** A block answered over it, for any round. *)
Lemma block_served x : is_u64 x → ∃ t, runs (HasBlock exampleClient x) t (Some (Ok ((40 <=? x) && (x <=? 120)))) ∧
  Forall (served exampleOrder id (λ _, "doc"%string) (λ _, True) exampleBase exampleNode) t.
Proof.
  intros Hx. destruct (digits_slash x Hx) as [_ Hq]. destruct (pretty_u64 x Hx) as (_ & _ & Hp & _).
  set (path := "/v2/blocks/" +:+ pretty x +:+ "/hash").
  assert (Hpath : contains "?" path = false) by (unfold path; by rewrite !contains_app, Hq).
  assert (Htrim : trim_suffix "/" path = path).
  { unfold path. change ("/hash"%string) with ("/" +:+ "hash"). rewrite <- !str_app_assoc. by apply trim_suffix_end. }
  assert (S : ∀ code v, runs (block (fn_opts exampleNode) 120 40 (pretty x) "hash") [existT (NSet "Content-Type" "application/json") tt; existT (NHead code) tt; existT (NOut v) tt] (Some tt) →
    served exampleOrder id (λ _, "doc"%string) (λ _, True) exampleBase exampleNode (existT (CGet (exampleBase +:+ path) "t") (Answered code "doc"))).
  { intros code v H. exists 1%nat, ([existT (NLock (hit path)) exampleNode; existT (NSet "X-Fake-Node" "n1") tt; existT (NAdd "Vary" "Origin") tt;
      existT (NLock id) (hit path exampleNode)] ++ [existT (NSet "Content-Type" "application/json") tt; existT (NHead code) tt; existT (NOut v) tt]), code, v.
    rewrite received_path by done. split; [| split; [by repeat split | split; [by split | split; [done | split; [done | by vm_compute]]]]].
    unfold handle. cbn [Http.rq_Path]. rewrite Htrim. unfold path. eexists exampleNode, _. split; [reflexivity |].
    do 2 (eexists tt, _; split; [reflexivity |]). eexists (hit path exampleNode), _. split; [reflexivity |]. cbv zeta.
    change (fn_pathStatus (hit path exampleNode)) with (∅ : gmap string Z). change (fn_effort (hit path exampleNode)) with (∅ : gmap string string).
    rewrite !lookup_empty. cbn [default String.eqb negb Z.eqb]. change (fn_round exampleNode) with 120. change (fn_oldest exampleNode) with 40.
    unfold nthen at 1. cbn [bind]. rewrite route_block by done. apply runs_bind. left. eexists _, [], tt. split; [symmetry; apply app_nil_r | split; [exact H | done]]. }
  unfold block in S. rewrite Hp in S.
  destruct ((x <? 40) || (120 <? x)) eqn:Eb;
    (eexists [_]; split; [eexists _, []; split; [reflexivity |]; split; [reflexivity |] |
       apply Forall_singleton; eapply S; do 3 (eexists _, _; split; [reflexivity |]); done]); cbn [Z.eqb Pos.eqb orb]; do 2 f_equal; lia.
Qed.

Lemma probe_measures_node_witness :
  ProbeOldestRound (λ x, Ok ((40 <=? x) && (x <=? 120))) 120 = Some (Ok 40).
Proof.
  apply (probe_measures_node exampleOrder id (λ _, "doc"%string) (λ _, True) exampleNode exampleBase); [apply exampleNode_idle | by vm_compute | by vm_compute | reflexivity | apply block_served].
Defined.

(** A box read through JSON texts that only carry its own document. *)
Definition boxDoc : json :=
  jmap [("name", JStr (b64_encode false true "r&d=")); ("value", JStr (b64_encode false true "bytes")); ("round", JNum 120)]%string.
Definition boxURL : string := exampleBase +:+ "/v2/applications/7/box?" +:+ encodePair "name" ("b64:" +:+ b64_encode false true "r&d=").

Lemma box_served : served exampleOrder id (λ _, "doc"%string) (λ v, v = boxDoc) exampleBase exampleNode (existT (CGet boxURL "t") (Answered 200 "doc")).
Proof.
  exists 1%nat, (nodeRun "/v2/applications/7/box" boxURL).1, 200, boxDoc. split.
  - assert (E : (nodeRun "/v2/applications/7/box" boxURL).2 = Some true) by (vm_compute; reflexivity). pose proof (exec_runs (nodeEnv "/v2/applications/7/box") (handle exampleOrder id 1 (received exampleBase boxURL "t")) []) as R.
    unfold nodeRun in *. rewrite E in R. exact R.
  - split; [vm_compute; repeat split |]. split; [split; vm_compute; reflexivity |]. split; [done | split; [done | by vm_compute]].
Qed.

Lemma client_reads_node_witness :
  encodePair "name" ("b64:" +:+ b64_encode false true "r&d=") = "name=b64%3AciZkPQ%3D%3D"%string ∧
  ∃ r, runs (Box (λ _, Ok boxDoc) exampleClient 7 "r&d=") [existT (CGet boxURL "t") (Answered 200 "doc")] (Some r) ∧ r = Ok "bytes"%string.
Proof.
  split; [vm_compute; reflexivity |]. eexists. split; [eexists _, []; split; [reflexivity |]; split; reflexivity |].
  destruct (client_reads_node exampleOrder id (λ _, "doc"%string) (λ _, Ok boxDoc) (λ v, v = boxDoc) exampleNode exampleBase
    [existT (CGet boxURL "t") (Answered 200 "doc")] ltac:(by intros v ->) exampleNode_idle ltac:(by vm_compute) eq_refl
    ltac:(apply Forall_singleton, box_served)) as (_ & _ & _ & _ & _ & _ & H).
  apply (H 7 "r&d="%string); [by vm_compute |]. eexists _, []. split; [reflexivity |]. split; reflexivity.
Defined.
