(* ===== verification/LimiterRun.v ===== *)
(** * LimiterRun: the limiter over time, and over restarts

    [Run] (internal/app/ratelimit.go) turn by turn, with the file its
    allowances are saved to and loaded from: [saveFile] and [loadFile] put
    [Limiter.save] and [Limiter.load] on the file system of [Files].  What
    requests do to the limiter between the turns is an event too.
    encoding/json is an argument with its round trip on the states it carries.
    What a restart keeps is stated in any arithmetic, and exactly over the
    rationals. *)
From stdpp Require Import pretty.
From Stdlib Require Import Ascii QArith Lqa.
From S2P Require Import Prelude GoFloat GoStrings GoTime Types Classify Effort Billing Ports Prog RateConfig Config Files Limiter LimiterSound LimiterLaws.
Open Scope Z_scope.

Section Run.
Context {F : Type} `{Num F} (o : LimiterOptions F).
Context (marshal : limiterState F → result error string) (unmarshal : string → result error (limiterState F)).
Context (errText : readError → error).

(** save: the state taken under the mutex, then written. *)
Definition saveFile (l : Limiter F) (now : Time) : Files (Limiter F * option error) :=
  match save o l now with
  | (l, None) => Ret (l, None)
  | (l, Some st) => let* e := saveState (lo_StateFile o) (marshal st) in Ret (l, e)
  end.

Definition loadFile (l : Limiter F) (now : Time) : Files (Limiter F * option error) :=
  if lo_StateFile o =s "" then Ret (l, None)
  else
    let* b := fask (FRead (lo_StateFile o)) in
    Ret match b with
        | Err ErrNotExist => (l, None)
        | Err e => (l, Some (errText e))
        | Ok b => match unmarshal b with Err e => (l, Some e) | Ok st => (load o l now (Some st), None) end
        end.

(** saveLogged, and Save: the error is a log line. *)
Definition saveLogged (l : Limiter F) (now : Time) : Files (Limiter F) :=
  let* r := saveFile l now in Ret r.1.

(** What Run's select answers with and the times its cases read, or what
    the requests have made of the limiter meanwhile. *)
Inductive runEvent :=
  | RunDone (now : Time)
  | RunTick (now : Time)
  | RunSave (swept saved : Time)
  | RunOthers (l : Limiter F).

(** The loop up to the end of the events; true: it returned. *)
Fixpoint runLoop (evs : list runEvent) (l : Limiter F) : Files (Limiter F * bool) :=
  match evs with
  | [] => Ret (l, false)
  | RunDone now :: _ => let* l := saveLogged l now in Ret (l, true)
  | RunTick now :: evs => runLoop evs (tick o l now)
  | RunSave swept saved :: evs => let* l := saveLogged (sweep o l swept) saved in runLoop evs l
  | RunOthers l :: evs => runLoop evs l
  end.

Definition Run (started : Time) (evs : list runEvent) (l : Limiter F) : Files (Limiter F * bool) :=
  let* r := loadFile l started in
  runLoop evs r.1.
End Run.

(** ** The state that is saved *)

Section Saved.
Context {F : Type} `{Num F} (o : LimiterOptions F).
Implicit Types (l : Limiter F).

(** Each key is written as the heap had it, whatever else is in the list. *)
Lemma save_fold now l0 entries : ∀ l st,
  NoDup entries.*1 → NoDup entries.*2 → lm_theap l = lm_theap l0 →
  (∀ id p, (id, p) ∈ entries → is_Some (lm_kheap l !! p) ∧ lm_kheap l !! p = lm_kheap l0 !! p) →
  ∀ id, (foldl (saveStep now) (l, st) entries).2 !! id =
    match list_find (λ e, e.1 = id) entries with
    | Some (_, (_, p)) => match lm_kheap l0 !! p with
                          | Some k => match saveKey (lm_theap l0) (refill k now) with Some b => Some b | None => st !! id end
                          | None => st !! id
                          end
    | None => st !! id
    end.
Proof.
  induction entries as [| [id' p'] entries IH]; intros l st N1 N2 Et Eh id; [done |].
  apply NoDup_cons in N1 as [N1 N1'], N2 as [N2 N2']. cbn [fst snd] in *.
  destruct (Eh id' p') as [[k' Hk'] Ek']; [by left |]. cbn [foldl saveStep fst snd]. rewrite Hk', Et.
  rewrite IH; [| done | done | by destruct l |].
  2: { intros id2 p2 Hin. cbn. rewrite lookup_insert_ne; [apply (Eh id2); by right |]. intros ->. apply N2. by apply (list_elem_of_fmap_2 snd _ (id2, p2)). }
  cbn [list_find fst]. destruct (decide (id' = id)) as [-> | Hne].
  - rewrite <- Ek', Hk'. destruct (list_find (λ e, e.1 = id) entries) as [[i [id2 p2]] |] eqn:Ef.
    { apply list_find_Some in Ef as (Hi & E & _). cbn in E. subst. destruct N1. apply (list_elem_of_fmap_2 fst _ (id, p2)). by eapply list_elem_of_lookup_2. }
    destruct (saveKey _ _); [by rewrite lookup_insert_eq | done].
  - destruct (list_find (λ e, e.1 = id) entries) as [[i [id2 p2]] |]; cbn;
      repeat case_match; try done; rewrite ?lookup_insert_ne by done; done.
Qed.

(** The heap entry a name leads to. *)
Definition namedKey l (id : string) : option (limitKey F) := lm_keys l !! id ≫= λ p, lm_kheap l !! p.

Lemma list_find_keys {A} (m : gmap string A) id :
  match list_find (λ e, e.1 = id) (map_to_list m) with
  | Some (_, (_, p)) => m !! id = Some p
  | None => m !! id = None
  end.
Proof.
  destruct (list_find _ _) as [[i [id' p]] |] eqn:E.
  - apply list_find_Some in E as (Hi & Ei & _). cbn in Ei. subst. apply elem_of_map_to_list. by eapply list_elem_of_lookup_2.
  - apply list_find_None in E. destruct (m !! id) as [p |] eqn:Em; [| done]. rewrite Forall_forall in E.
    apply elem_of_map_to_list in Em. by destruct (E _ Em).
Qed.

Lemma save_keys l now l1 st :
  limiter_wf l → save o l now = (l1, Some st) →
  ls_Saved st = now ∧ ∀ id, ls_Keys st !! id = namedKey l id ≫= λ k, saveKey (lm_theap l) (refill k now).
Proof.
  intros W. unfold save. destruct (lo_StateFile o =s ""); [by intros [= _ ?] |].
  destruct (foldl (saveStep now) (l, ∅) (map_to_list (lm_keys l))) as [l2 m] eqn:E. intros [= <- <-]. split; [done |]. intros id. cbn [ls_Keys].
  assert (Em : m = (foldl (saveStep now) (l, ∅) (map_to_list (lm_keys l))).2) by by rewrite E.
  rewrite Em, (save_fold now l).
  - pose proof (list_find_keys (lm_keys l) id) as Hf. unfold namedKey. destruct (list_find _ _) as [[i [id' p]] |]; rewrite Hf; [| by rewrite lookup_empty].
    cbn. destruct (lm_kheap l !! p); cbn; [| by rewrite lookup_empty]. rewrite lookup_empty. by destruct (saveKey _ _).
  - apply NoDup_fst_map_to_list.
  - apply NoDup_fmap_2_strong; [| apply NoDup_map_to_list]. intros [i p] [j q] Hi%elem_of_map_to_list Hj%elem_of_map_to_list [= <-].
    destruct (wf_keys l W i p Hi) as (k & Hk & <-), (wf_keys l W j p Hj) as (k' & Hk' & <-). congruence.
  - done.
  - intros id' p Hin%elem_of_map_to_list. destruct (wf_keys l W id' p Hin) as (k & -> & _). by split.
Qed.

(** A key as load makes it. *)
Definition loadedKey (id : string) (plan : Plan F) (b : limiterBucket F) (now : Time) : limitKey F :=
  (newLimitKey id plan) <| lk_minute := Refill (pl_Minute plan) (lb_Minute b) now |> <| lk_day := Refill (pl_Day plan) (lb_Day b) now |>.

Definition withLoaded l (id : string) (plan : Plan F) (b : limiterBucket F) (now : Time) : Limiter F :=
  l <| lm_kheap ::= <[lm_next l := loadedKey id plan b now]> |> <| lm_next ::= S |> <| lm_keys ::= <[id := lm_next l]> |>.

Lemma loadStep_new l now id b plan :
  planOf o id = Some plan → lm_keys l !! id = None → loadStep o now l (id, b) = withLoaded l id plan b now.
Proof. intros Hp Hn. unfold loadStep. cbn [fst snd]. by rewrite Hp, Hn. Qed.
Lemma loadStep_none l now id b : planOf o id = None → loadStep o now l (id, b) = l.
Proof. intros Hp. unfold loadStep. cbn [fst snd]. by rewrite Hp. Qed.

Lemma load_fold now entries : ∀ l,
  NoDup entries.*1 → (∀ id p, lm_keys l !! id = Some p → (p < lm_next l)%nat) → (∀ id, id ∈ entries.*1 → lm_keys l !! id = None) →
  let l' := foldl (loadStep o now) l entries in
  (∀ id p, lm_keys l !! id = Some p → lm_keys l' !! id = Some p ∧ lm_kheap l' !! p = lm_kheap l !! p) ∧
  (∀ id b plan, (id, b) ∈ entries → planOf o id = Some plan → namedKey l' id = Some (loadedKey id plan b now)) ∧
  (∀ id, id ∉ entries.*1 → lm_keys l' !! id = lm_keys l !! id).
Proof.
  induction entries as [| [id b] entries IH]; intros l N Hb Hn; cbn [foldl]; [split; [done | split; [by intros ??? ?%elem_of_nil | done]] |].
  apply NoDup_cons in N as [Hni N]. cbn [fst] in *.
  destruct (planOf o id) as [plan |] eqn:Ep.
  - rewrite (loadStep_new l now id b plan) by (done || (apply Hn; by left)). set (l1 := withLoaded l id plan b now).
    destruct (IH l1) as (K1 & K2 & K3); [done | | |].
    { intros id' p. cbn. destruct (decide (id = id')) as [<- |]; [rewrite lookup_insert_eq; intros [= <-]; lia | rewrite lookup_insert_ne by done; intros H'%Hb; lia]. }
    { intros id' Hin. cbn. rewrite lookup_insert_ne; [apply Hn; by right | intros <-; done]. }
    split; [| split].
    + intros id' p Hp. assert (id ≠ id') by (intros <-; by rewrite Hn in Hp by by left).
      destruct (K1 id' p) as [Ha ->]; [cbn; by rewrite lookup_insert_ne |]. split; [done |]. cbn. rewrite lookup_insert_ne; [done | apply Hb in Hp; lia].
    + intros id' b' plan' [[= -> ->] | Hin]%elem_of_cons Hp.
      * rewrite Ep in Hp. injection Hp as <-. destruct (K1 id (lm_next l)) as [Ha Hh]; [cbn; by rewrite lookup_insert_eq |].
        unfold namedKey. rewrite Ha. cbn. rewrite Hh. cbn. rewrite lookup_insert_eq. reflexivity.
      * by apply K2.
    + intros id' Hnin. apply not_elem_of_cons in Hnin as [Hne Hnin]. rewrite K3 by done. cbn. by rewrite lookup_insert_ne.
  - rewrite loadStep_none by done. destruct (IH l) as (K1 & K2 & K3); [done | done | intros id' Hin; apply Hn; by right |].
    split; [done | split].
    + intros id' b' plan' [[= -> ->] | Hin]%elem_of_cons Hp; [congruence | by eapply K2].
    + intros id' Hnin. apply not_elem_of_cons in Hnin as [_ Hnin]. by apply K3.
Qed.

(** A fresh limiter loaded: the names of the file that have a plan. *)
Lemma load_new now st id plan :
  planOf o id = Some plan →
  namedKey (load o NewLimiter now (Some st)) id = (λ b, loadedKey id plan b now) <$> ls_Keys st !! id.
Proof.
  intros Hp. cbn [load]. destruct (load_fold now (map_to_list (ls_Keys st)) NewLimiter) as (_ & K2 & K3).
  { apply NoDup_fst_map_to_list. } { intros id' p. cbn. by rewrite lookup_empty. } { intros id' _. cbn. by rewrite lookup_empty. }
  destruct (ls_Keys st !! id) as [b |] eqn:E; cbn.
  - apply K2; [by apply elem_of_map_to_list | done].
  - unfold namedKey. rewrite K3; [cbn; by rewrite lookup_empty |]. intros ([id' b] & -> & Hin%elem_of_map_to_list)%list_elem_of_fmap. cbn in E. congruence.
Qed.
End Saved.

(** ** A restart, in exact arithmetic *)

(** The clock has not gone back behind the bucket, nor a lifetime past it. *)
Definition timely (b : Bucket Q) (t : Time) : Prop := bu_At b <= t ∧ is_i64 (t - bu_At b).

Lemma Refill_At (w : Window Q) b t : Limited w = true → 0 < t → timely b t → bu_At (Refill w b t) = t.
Proof.
  intros Hl Ht [H1 H2]. destruct (decide (bu_At b = 0)) as [E | Hn]; [unfold Refill; by rewrite Hl, E |].
  by destruct (Refill_Q w b t Hl Hn H1 H2).
Qed.

(** A bucket saved with what is owed taken off, loaded and brought up to date,
    is the bucket brought up to date. *)
Lemma window_restart (w : Window Q) b (ow : Q) t1 t2 :
  Limited w = true → 0 < t1 <= t2 → is_i64 (t2 - t1) → timely b t1 →
  (bu_Level (Refill w (Refill w (bucket_sub (Refill w b t1) ow) t2) t2) == bu_Level (Refill w (mkBucket (bu_Level (Refill w b t1) - ow)%Q t1) t2))%Q.
Proof.
  intros Hl [H1 H2] Hi Hb. assert (E := Refill_At w b t1 Hl H1 Hb). unfold bucket_sub. rewrite E.
  destruct (Refill_steps w (mkBucket (bu_Level (Refill w b t1) - ow)%num t1) t2 t2) as (_ & -> & _); cbn [bu_At]; try lia; done.
Qed.

(** A bucket not saved because it is full starts again full. *)
Lemma window_forgotten (w : Window Q) x t1 t2 :
  Limited w = true → 0 < t1 <= t2 → is_i64 (t2 - t1) → (wi_Capacity w <= x)%Q →
  (bu_Level (Refill w (mkBucket 0%Q zero_time) t2) == bu_Level (Refill w (mkBucket x t1) t2))%Q.
Proof.
  intros Hl [H1 H2] Hi Hx. destruct (Refill_Q w (mkBucket x t1) t2 Hl) as [_ ->]; cbn [bu_At bu_Level]; [lia | lia | done |].
  assert (bu_Level (Refill w (mkBucket 0%Q zero_time) t2) = wi_Capacity w) as -> by (unfold Refill; by rewrite Hl).
  assert (0 <= gained w (t2 - t1))%Q.
  { destruct (Z.eq_dec (t2 - t1) 0) as [-> |]; [unfold gained, Qdiv; rewrite !Qmult_0_l; lra |]. pose proof (gained_pos w (t2 - t1) Hl ltac:(lia)). lra. }
  destruct (nmin_Q_cases (x + gained w (t2 - t1)) (wi_Capacity w)) as [[-> ?] | [-> ?]]; lra.
Qed.

Section Restart.
Context (o : LimiterOptions Q).

(** What a key may still spend at a moment: its buckets brought up to date,
    less what its simulations in flight have run up. *)
Definition keyLeft (ts : gmap nat (@Ticket Q)) (k : limitKey Q) (now : Time) : Q * Q :=
  (bu_Level (Refill (pl_Minute (lk_plan k)) (lk_minute k) now) - owed ts k, bu_Level (Refill (pl_Day (lk_plan k)) (lk_day k) now) - owed ts k)%Q.

(** What the client of a name may: one not seen yet starts full. *)
Definition creditsLeft (l : Limiter Q) (id : string) (plan : Plan Q) (now : Time) : Q * Q :=
  keyLeft (lm_theap l) (default (newLimitKey id plan) (namedKey l id)) now.

(** What a window that held x credits at t1 holds at t2. *)
Definition carriedOver (w : Window Q) (x : Q) (t1 t2 : Time) : Q := bu_Level (Refill w (mkBucket x t1) t2).

Lemma owed_none ts (k : limitKey Q) : lk_flights k = ∅ → owed ts k = 0%Q.
Proof. intros E. unfold owed, flights. by rewrite E, elements_empty. Qed.

Lemma minus_owed_none (x : Q) ts (k : limitKey Q) : lk_flights k = ∅ → (x - owed ts k == x)%Q.
Proof. intros E. rewrite owed_none by done. ring. Qed.

(** The two windows of what is left, after an equation for each. *)
Definition leftIs (plan : Plan Q) (left0 left1 : Q * Q) (t1 t2 : Time) : Prop :=
  (Limited (pl_Minute plan) = true → left1.1 == carriedOver (pl_Minute plan) left0.1 t1 t2)%Q ∧
  (Limited (pl_Day plan) = true → left1.2 == carriedOver (pl_Day plan) left0.2 t1 t2)%Q.

(** A key that is saved and loaded. *)
Lemma kept_left ts ts2 k b id plan t1 t2 :
  lk_plan k = plan → timely (lk_minute k) t1 → timely (lk_day k) t1 → 0 < t1 <= t2 → is_i64 (t2 - t1) →
  saveKey ts (refill k t1) = Some b → leftIs plan (keyLeft ts k t1) (keyLeft ts2 (loadedKey id plan b t2) t2) t1 t2.
Proof.
  intros Ep Hm Hd Ht Hi. unfold saveKey. change (owed ts (refill k t1)) with (owed ts k). set (ow := owed ts k).
  change (lk_plan (refill k t1)) with (lk_plan k). rewrite Ep. destruct (_ || _); [intros [= <-] | done]. subst plan.
  split; intros Hl; unfold keyLeft; cbn [fst snd]; rewrite (minus_owed_none _ ts2) by done;
    cbn [loadedKey newLimitKey lk_plan lk_minute lk_day lb_Minute lb_Day refill]; rewrite Hl; by apply window_restart.
Qed.

(** A key that is not: it was full, or had not been seen. *)
Lemma fresh_left ts id plan k2 t2 (x : Q * Q) t1 :
  k2 = newLimitKey id plan → 0 < t1 <= t2 → is_i64 (t2 - t1) →
  (Limited (pl_Minute plan) = true → (wi_Capacity (pl_Minute plan) <= x.1)%Q) → (Limited (pl_Day plan) = true → (wi_Capacity (pl_Day plan) <= x.2)%Q) →
  leftIs plan x (keyLeft ts k2 t2) t1 t2.
Proof.
  intros -> Ht Hi Hm Hd. split; intros Hl; unfold keyLeft; cbn [fst snd]; rewrite (minus_owed_none _ ts) by done; apply window_forgotten; auto.
Qed.

Lemma full_left ts k plan t1 :
  lk_plan k = plan → saveKey ts (refill k t1) = None →
  (Limited (pl_Minute plan) = true → (wi_Capacity (pl_Minute plan) <= (keyLeft ts k t1).1)%Q) ∧
  (Limited (pl_Day plan) = true → (wi_Capacity (pl_Day plan) <= (keyLeft ts k t1).2)%Q).
Proof.
  intros <-. unfold saveKey. change (owed ts (refill k t1)) with (owed ts k). change (lk_plan (refill k t1)) with (lk_plan k).
  destruct (_ || _) eqn:E; [done | intros _]. apply orb_false_iff in E as [E1%negb_false_iff E2%negb_false_iff].
  split; intros Hl; [rewrite Hl in E1; clear E2 | rewrite Hl in E2; clear E1]; unfold Full in *; rewrite Hl in *; cbn [negb orb] in *.
  - by apply Qle_bool_iff in E1.
  - by apply Qle_bool_iff in E2.
Qed.

(** In exact arithmetic, a restart takes nothing either: what a client may
    spend is what it had left, carried over, as if the process had never
    stopped, whether its key was written or not. *)
Theorem restart_exact l t1 t2 l1 st id plan :
  limiter_wf l → save o l t1 = (l1, Some st) → planOf o id = Some plan →
  (∀ k, namedKey l id = Some k → lk_plan k = plan ∧ timely (lk_minute k) t1 ∧ timely (lk_day k) t1) →
  0 < t1 <= t2 → is_i64 (t2 - t1) →
  leftIs plan (creditsLeft l id plan t1) (creditsLeft (load o NewLimiter t2 (Some st)) id plan t2) t1 t2.
Proof.
  intros W Hs Hp Hk Ht Hi. destruct (save_keys o l t1 l1 st W Hs) as [_ Hst]. specialize (Hst id).
  unfold creditsLeft. rewrite (load_new o t2 st id plan Hp), Hst.
  destruct (namedKey l id) as [k |] eqn:Ek; cbn [mbind option_bind default].
  - destruct (Hk k eq_refl) as (Ep & Hm & Hd). destruct (saveKey _ _) as [b |] eqn:Es; cbn.
    + by apply (kept_left _ _ k b).
    + destruct (full_left _ k plan t1 Ep Es). by eapply fresh_left.
  - apply (fresh_left _ id); try done; intros Hl; unfold keyLeft; cbn [fst snd]; rewrite (minus_owed_none _ (lm_theap l)) by done;
      unfold Refill; cbn; rewrite Hl; cbn; apply Qle_refl.
Qed.
End Restart.

Section Process.
Context {F : Type} `{Num F} (o : LimiterOptions F).
Context (marshal : limiterState F → result error string) (unmarshal : string → result error (limiterState F)).
Context (errText : readError → error).
Implicit Types (l : Limiter F) (fs : gmap string string).

Lemma saveFile_ran l now tr l1 e :
  lo_StateFile o ≠ "" → runs (saveFile o marshal l now) tr (Some (l1, e)) →
  ∃ st, save o l now = (l1, Some st) ∧ runs (saveState (lo_StateFile o) (marshal st)) tr (Some e).
Proof.
  intros Hf. unfold saveFile. assert (is_Some (save o l now).2) as Hs.
  { unfold save. destruct (lo_StateFile o =s "") eqn:E; [by apply String.eqb_eq in E |]. by destruct (foldl _ _ _). }
  destruct (save o l now) as [l' [st |]]; [| by destruct Hs]. unfold fthen. intros Hr. exists st.
  apply runs_bind in Hr as [(t1 & t2 & x & -> & H1 & [-> [= <- <-]]) | [_ [=]]]. by rewrite app_nil_r.
Qed.

Lemma saveFile_written l now tr l1 fs fs1 :
  lo_StateFile o ≠ "" → runs (saveFile o marshal l now) tr (Some (l1, None)) → seen tr fs fs1 →
  ∃ st b, save o l now = (l1, Some st) ∧ marshal st = Ok b ∧ fs1 !! lo_StateFile o = Some b.
Proof.
  intros Hf Hr Hs. destruct (saveFile_ran l now tr l1 None Hf Hr) as (st & Hst & Hw). exists st.
  destruct (marshal st) as [b | e]; [| by destruct Hw as [_ [=]]]. exists b.
  by destruct (writeAtomically_seen _ _ _ _ _ _ Hw Hs).
Qed.

Lemma loadFile_read l now tr l2 fs fs2 b :
  lo_StateFile o ≠ "" → runs (loadFile o unmarshal errText l now) tr (Some (l2, None)) → seen tr fs fs2 →
  fs !! lo_StateFile o = Some b → ∃ st, unmarshal b = Ok st ∧ l2 = load o l now (Some st).
Proof.
  intros Hf. unfold loadFile. destruct (_ =s "") eqn:E; [by apply String.eqb_eq in E |]. unfold fthen, fask. cbn [bind runs].
  intros (ans & t1 & -> & [-> [= He]]) (fs1 & [_ Ha] & _) Hb. destruct ans as [b' | []]; try done; [| congruence].
  rewrite Ha in Hb. injection Hb as <-. destruct (unmarshal b') as [st | e] eqn:Eu; [| congruence].
  exists st. split; [done |]. by injection He as ->.
Qed.

(** What the others made of the limiter kept its invariant. *)
Definition others_keep_wf (ev : runEvent (F := F)) : Prop := if ev is RunOthers l then limiter_wf l else True.

Lemma saveFile_wf l now tr l1 e : limiter_wf l → runs (saveFile o marshal l now) tr (Some (l1, e)) → limiter_wf l1.
Proof.
  intros W Hr. unfold saveFile in Hr. destruct (save o l now) as [l' st] eqn:Es. assert (limiter_wf l') by (by eapply save_wf).
  destruct st; [| by destruct Hr as [_ [= <- _]]]. unfold fthen in Hr. by apply runs_bind in Hr as [(? & ? & ? & _ & _ & [_ [= <- _]]) | [_ [=]]].
Qed.

Lemma loadFile_wf l now tr l1 e : limiter_wf l → runs (loadFile o unmarshal errText l now) tr (Some (l1, e)) → limiter_wf l1.
Proof.
  intros W. unfold loadFile. destruct (_ =s ""); [by intros [_ [= <- _]] |]. unfold fthen, fask. cbn [bind runs].
  intros (ans & t1 & -> & [_ [= He]]). destruct ans as [b | []]; [destruct (unmarshal b) |..]; simplify_eq/=; try done. by apply (load_wf o l now (Some _)).
Qed.

Lemma saveLogged_ran l now tr l1 : runs (saveLogged o marshal l now) tr (Some l1) → ∃ e, runs (saveFile o marshal l now) tr (Some (l1, e)).
Proof. unfold saveLogged, fthen. intros [(t1 & t2 & [l' e] & -> & H1 & [-> [= <-]]) | [_ [=]]]%runs_bind. rewrite app_nil_r. by exists e. Qed.

(** Run that has returned ended with a save. *)
Lemma runLoop_ends t evs : ∀ l tr l1 r,
  limiter_wf l → Forall others_keep_wf evs → (∀ t', RunDone t' ∉ evs) → runs (runLoop o marshal (evs ++ [RunDone t]) l) tr (Some (l1, r)) →
  r = true ∧ ∃ l0 tr0 tr1 e, tr = tr0 ++ tr1 ∧ limiter_wf l0 ∧ runs (saveFile o marshal l0 t) tr1 (Some (l1, e)).
Proof.
  induction evs as [| ev evs IH]; intros l tr l1 r W Ho Hd Hr; cbn [app runLoop] in Hr.
  - apply runs_bind in Hr as [(t1 & t2 & l' & -> & [e H1]%saveLogged_ran & [-> [= <- <-]]) | [_ [=]]].
    split; [done |]. rewrite app_nil_r. by exists l, [], t1, e.
  - apply Forall_cons in Ho as [Hev Ho]. assert (∀ t', RunDone t' ∉ evs) as Hd' by (intros t' ?; apply (Hd t'); by right).
    destruct ev as [t' | t' | sw sv | l']; cbn [app runLoop] in Hr; [by destruct (Hd t'); left | | |].
    + eapply IH; [| done | done | exact Hr]. by apply tick_wf.
    + apply runs_bind in Hr as [(t1 & t2 & l' & -> & [e H1]%saveLogged_ran & H2) | [_ [=]]].
      destruct (IH l' t2 l1 r) as (-> & l0 & tr0 & tr1 & e' & -> & ? & ?); [eapply saveFile_wf; [| exact H1]; by apply sweep_wf | done..|].
      split; [done |]. exists l0, (t1 ++ tr0), tr1, e'. by rewrite app_assoc.
    + by eapply IH.
Qed.

(** What encoding/json does with a state: it reads back what it wrote, when
    the names in it are text JSON carries (valid UTF-8). *)
Context (okKey : string → Prop).
Hypothesis json : ∀ st b, (∀ id, is_Some (ls_Keys st !! id) → okKey id) → marshal st = Ok b → unmarshal b = Ok st.

(** What the client of a key may still spend of a window at a time: what the
    window holds less what its requests in flight have run up. *)
Definition spendable (ts : gmap nat (Ticket F)) (k : limitKey F) (w : Window F) (b : Bucket F) (t : Time) : F :=
  (bu_Level (Refill w b t) - owed ts k)%num.

(** Every window that limits the client is full. *)
Definition all_full (ts : gmap nat (Ticket F)) (k : limitKey F) (t : Time) : Prop :=
  ∀ w b, (w, b) ∈ [(pl_Minute (lk_plan k), lk_minute k); (pl_Day (lk_plan k), lk_day k)] → Limited w = true →
    nleb (wi_Capacity w) (spendable ts k w b t) = true.

(** The key k2 at t2 is the key k as it was at t1, brought up to date. *)
Definition carried (ts : gmap nat (Ticket F)) (k : limitKey F) (t1 : Time) (k2 : limitKey F) (t2 : Time) : Prop :=
  let kept w b := Refill w (mkBucket (spendable ts k w b t1) (bu_At (Refill w b t1))) t2 in
  lk_plan k2 = lk_plan k ∧ lk_flights k2 = ∅ ∧
  (Limited (pl_Minute (lk_plan k)) = true → lk_minute k2 = kept (pl_Minute (lk_plan k)) (lk_minute k)) ∧
  (Limited (pl_Day (lk_plan k)) = true → lk_day k2 = kept (pl_Day (lk_plan k)) (lk_day k)).

Lemma saveKey_spec ts (k : limitKey F) id t1 t2 :
  match saveKey ts (refill k t1) with
  | None => all_full ts k t1
  | Some b => ¬ all_full ts k t1 ∧ carried ts k t1 (loadedKey id (lk_plan k) b t2) t2
  end.
Proof.
  unfold saveKey, all_full, spendable. change (owed ts (refill k t1)) with (owed ts k). change (lk_plan (refill k t1)) with (lk_plan k).
  change (lk_minute (refill k t1)) with (Refill (pl_Minute (lk_plan k)) (lk_minute k) t1).
  change (lk_day (refill k t1)) with (Refill (pl_Day (lk_plan k)) (lk_day k) t1). unfold Full, bucket_sub.
  destruct (negb _ || negb _) eqn:E.
  - split.
    + intros Hf. pose proof (Hf _ _ ltac:(by left)) as Hm. pose proof (Hf _ _ ltac:(by right; left)) as Hd.
      destruct (Limited (pl_Minute (lk_plan k))), (Limited (pl_Day (lk_plan k))); cbn [negb orb bu_Level] in E;
        try rewrite Hm in E by done; try rewrite Hd in E by done; done.
    + unfold carried. cbn. split_and!; [done | done | by intros -> | by intros ->].
  - apply orb_false_iff in E as [Em%negb_false_iff Ed%negb_false_iff].
    intros w b [[= -> ->]|[[= -> ->]|[]%elem_of_nil]%elem_of_cons]%elem_of_cons Hl; [rewrite Hl in Em | rewrite Hl in Ed]; done.
Qed.

Lemma load_overflow entries now : ∀ l, lm_overflow (foldl (loadStep o now) l entries) = lm_overflow l.
Proof.
  induction entries as [| e entries IH]; intros l; [done |]. cbn [foldl]. rewrite IH.
  unfold loadStep. destruct (planOf o e.1); [| done]. destruct (lm_keys l !! e.1) as [q |]; [| done]. by destruct (lm_kheap l !! q).
Qed.

(** C17: a restart forgives nothing.  When the allowances were saved and the
    next process has read the file, a client that a plan still covers has, in
    each window its plan limits, what it had left at the save, what its
    simulations in flight had run up by then taken off, and then what the
    window has given back since (to the rounding of the one subtraction the
    save makes and of the refill).  Only a client that had all of its windows
    full, or was never seen, has no key: it starts with its windows exactly
    full.  The clients of the overflow key are not among those: that key is not
    saved, and after the restart there is none. *)
Theorem restart_forgives_nothing l t1 tr1 l1 fs fs1 t2 tr2 l2 fs2 id plan :
  lo_StateFile o ≠ "" → limiter_wf l → (∀ name, is_Some (lm_keys l !! name) → okKey name) →
  runs (saveFile o marshal l t1) tr1 (Some (l1, None)) → seen tr1 fs fs1 →
  runs (loadFile o unmarshal errText NewLimiter t2) tr2 (Some (l2, None)) → seen tr2 fs1 fs2 →
  planOf o id = Some plan → (∀ k, namedKey l id = Some k → lk_plan k = plan) →
  lm_overflow l2 = None ∧
  match namedKey l2 id with
  | Some k2 => ∃ k, namedKey l id = Some k ∧ ¬ all_full (lm_theap l) k t1 ∧ carried (lm_theap l) k t1 k2 t2
  | None =>
      (∀ k, namedKey l id = Some k → all_full (lm_theap l) k t1) ∧
      ∀ w t, w ∈ [pl_Minute plan; pl_Day plan] → Limited w = true →
        bu_Level (Refill w (lk_minute (newLimitKey id plan)) t) = wi_Capacity w ∧
        bu_Level (Refill w (lk_day (newLimitKey id plan)) t) = wi_Capacity w
  end.
Proof.
  intros Hf W Hok H1 S1 H2 S2 Hp Hk.
  destruct (saveFile_written l t1 tr1 l1 fs fs1 Hf H1 S1) as (st & b & Hs & Hm & Hb).
  destruct (loadFile_read _ t2 tr2 l2 fs1 fs2 b Hf H2 S2 Hb) as (st' & Hu & ->).
  destruct (save_keys o l t1 l1 st W Hs) as [_ Hst].
  rewrite (json st b) in Hu; [| | done].
  2: { intros name [x Hx]. apply Hok. rewrite Hst in Hx. unfold namedKey in Hx. destruct (lm_keys l !! name); [done | discriminate Hx]. }
  injection Hu as <-. split; [cbn [load]; by rewrite load_overflow |].
  rewrite (load_new o t2 st id plan Hp), Hst. destruct (namedKey l id) as [k |]; cbn [mbind option_bind].
  - specialize (Hk k eq_refl). subst plan. pose proof (saveKey_spec (lm_theap l) k id t1 t2) as Hsk.
    destruct (saveKey _ _) as [bk |]; cbn [fmap option_fmap option_map].
    + destruct Hsk as [? ?]. by exists k.
    + split; [by intros ? [= <-] |]. intros w t _ Hl. unfold Refill. cbn. by rewrite Hl.
  - cbn [fmap option_fmap option_map]. split; [done |]. intros w t _ Hl. unfold Refill. cbn. by rewrite Hl.
Qed.

End Process.

(** ** A process that stops with a simulation in flight *)
Definition keptOptions : LimiterOptions float64 :=
  mkLimiterOptions {["free"%string := dailyPlan]} ∅ "free" {["simulate"%string := nofZ 4]} (nofZ 20) DefaultEffortRates 1000 "/var/lib/mesh/limits.json".

(** One simulation in flight, metered for a tenth of a second. *)
Definition heldLimiter : Limiter float64 := tick keptOptions onceAdmitted (11 * Second / 10).
Definition heldState : limiterState float64 :=
  default (mkLimiterState 0 ∅) (save keptOptions heldLimiter (3 * Second)).2.

Lemma heldLimiter_wf : limiter_wf heldLimiter.
Proof. apply tick_wf, onceAdmitted_wf. Qed.

(** A codec that knows this state. *)
Global Instance float64_eq_dec : EqDecision float64.
Proof. unfold float64. solve_decision. Defined.
Global Instance Bucket_eq_dec `{EqDecision F} : EqDecision (Bucket F).
Proof. intros [l a] [l' a']. destruct (decide (l = l')), (decide (a = a')); [left | right..]; congruence. Defined.
Global Instance limiterBucket_eq_dec `{EqDecision F} : EqDecision (limiterBucket F).
Proof. intros [m d] [m' d']. destruct (decide (m = m')), (decide (d = d')); [left | right..]; congruence. Defined.
Global Instance limiterState_eq_dec `{EqDecision F} : EqDecision (limiterState F).
Proof. intros [t k] [t' k']. destruct (decide (t = t')), (decide (k = k')); [left | right..]; congruence. Defined.

Definition heldMarshal (st : limiterState float64) : result error string := if decide (st = heldState) then Ok "{saved}" else Err "unsupported".
Definition heldUnmarshal (b : string) : result error (limiterState float64) := if b =s "{saved}" then Ok heldState else Err "syntax".

(** Its names are ASCII. *)
Definition ascii_text (s : string) : Prop := Forall (λ c, (nat_of_ascii c < 128)%nat) (String.list_ascii_of_string s).

Lemma held_json st b : (∀ id, is_Some (ls_Keys st !! id) → ascii_text id) → heldMarshal st = Ok b → heldUnmarshal b = Ok st.
Proof. intros _. unfold heldMarshal. destruct (decide _) as [-> |]; [intros [= <-]; reflexivity | done]. Qed.

Definition savedTrace : list (sigT FResp) :=
  [existT (FMkdirAll "/var/lib/mesh") None; existT (FWriteFile "/var/lib/mesh/limits.json.tmp" "{saved}") None;
   existT (FRename "/var/lib/mesh/limits.json.tmp" "/var/lib/mesh/limits.json") None].
Definition loadTrace : list (sigT FResp) := [existT (FRead "/var/lib/mesh/limits.json") (Ok "{saved}")].

Lemma held_saved : runs (saveFile keptOptions heldMarshal heldLimiter (3 * Second)) savedTrace (Some ((save keptOptions heldLimiter (3 * Second)).1, None)).
Proof.
  unfold saveFile. destruct (save keptOptions heldLimiter (3 * Second)) as [l [st |]] eqn:E; [| vm_compute in E; discriminate E].
  assert (st = heldState) as -> by (unfold heldState; rewrite E; reflexivity). unfold heldMarshal. rewrite decide_True by done.
  apply runs_bind. left. exists savedTrace, [], None. split; [reflexivity | split; [| split; reflexivity]].
  exists None, (tail savedTrace). split; [reflexivity |]. exists None, (tail (tail savedTrace)). split; [reflexivity |]. exists None, []. split; [reflexivity | split; reflexivity].
Qed.

Lemma held_seen : ∃ fs, seen savedTrace ∅ fs ∧ seen loadTrace fs fs.
Proof.
  set (written := <["/var/lib/mesh/limits.json.tmp" := "{saved}"]> (∅ : gmap string string)).
  exists (<["/var/lib/mesh/limits.json" := "{saved}"]> (delete "/var/lib/mesh/limits.json.tmp" written)). split.
  - exists ∅. split; [reflexivity |]. exists written. split; [reflexivity |]. eexists. split; [| reflexivity]. exists "{saved}". split; reflexivity.
  - eexists. split; [split; [reflexivity |] | reflexivity]. apply lookup_insert_eq.
Qed.

Lemma restart_forgives_nothing_witness :
  ∃ l2 k k2, namedKey heldLimiter "ip:10.0.0.9" = Some k ∧ namedKey l2 "ip:10.0.0.9" = Some k2 ∧
    lm_overflow l2 = None ∧ carried (lm_theap heldLimiter) k (3 * Second) k2 (33 * Second).
Proof.
  set (l2 := load keptOptions NewLimiter (33 * Second) (Some heldState)). exists l2.
  destruct held_seen as (fs & S1 & S2).
  destruct (restart_forgives_nothing keptOptions heldMarshal heldUnmarshal (λ _, "unreadable") ascii_text held_json
    heldLimiter (3 * Second) savedTrace (save keptOptions heldLimiter (3 * Second)).1 ∅ fs
    (33 * Second) loadTrace l2 fs "ip:10.0.0.9" dailyPlan) as [Ho E].
  - vm_compute. discriminate.
  - apply heldLimiter_wf.
  - assert (lm_keys heldLimiter = {["ip:10.0.0.9"%string := 0%nat]}) as -> by (vm_compute; reflexivity).
    intros name [x [<- _]%lookup_singleton_Some]. vm_compute. repeat constructor.
  - apply held_saved.
  - exact S1.
  - by exists (Ok "{saved}"), [].
  - exact S2.
  - vm_compute. reflexivity.
  - intros k Hk. vm_compute in Hk. injection Hk as <-. reflexivity.
  - assert (is_Some (namedKey l2 "ip:10.0.0.9")) as [k2 E2] by (vm_compute; by eexists).
    rewrite E2 in E. destruct E as (k & Hk & _ & Hc). exists k, k2. by split_and!.
Defined.
