(* ===== verification/MonitorRun.v ===== *)
(** * MonitorRun: the monitor's goroutines, and who watches them

    [Run], [configLoop] and [verifyLoop] (internal/app/monitor.go) as programs
    whose critical sections on the monitor are calls, beside those who follow
    it: any number of callers of [WaitForBlockAfter] and the loop of the
    directory that announces every change (Directory.Run,
    internal/app/directory.go).  The state changes are [Monitor]'s; how the
    goroutines interleave, what the node answers and when ticks and
    cancellations come is any. *)
From S2P Require Import Prelude GoTime Types Ports Prog Monitor.
Open Scope Z_scope.

(** ** The calls *)

(** What a select of three answers with. *)
Inductive woken := WDone | WChan | WTick | WNudge.

Inductive goroutine := GConfig | GVerify.

Inductive MAct :=
  | MState                                  (* m.State *)
  | MChanged                                (* m.Changed: the channel, by how many were closed before *)
  | MBoth                                   (* state and channel under one lock *)
  | MUpdate (f : LocalState → LocalState)   (* m.update *)
  | MRequestVerify
  | MGo (g : goroutine)
  | MDone                                   (* ctx.Err() != nil *)
  | MSleep (d : Duration)                   (* true: the context ended *)
  | MReadConfig
  | MStatus
  | MWaitAfter (round : Z)
  | MVersions
  | MLimits
  | MHasBlock (round : Z)
  | MConfigSelect                           (* configLoop's select: done, or a tick *)
  | MVerifySelect                           (* verifyLoop's: done, the request taken, or a tick *)
  | MWaitSelect (ch : nat)                  (* done, or ch was closed *)
  | MAnnounceSelect (ch : nat)              (* done, ch was closed, a keepalive or a nudge *)
  | MLocalChange (st : LocalState)          (* d.onLocalChange *)
  | MHeartbeat (st : LocalState).           (* d.sendHeartbeat *)

Definition MResp (a : MAct) : Type :=
  match a with
  | MState => LocalState
  | MChanged => nat
  | MBoth => LocalState * nat
  | MDone | MSleep _ => bool
  | MReadConfig => result error NodeConfig
  | MStatus | MWaitAfter _ => result error Status
  | MVersions => result error Versions
  | MLimits => result error (option SimulateLimits)
  | MHasBlock _ => result error bool
  | MConfigSelect | MVerifySelect | MWaitSelect _ | MAnnounceSelect _ => woken
  | _ => ()
  end.

Declare Scope monitor_scope.
Definition Loop : Type → Type := prog MResp.
Definition mcall (a : MAct) : Loop (MResp a) := Call a Ret.
Definition mthen {A B} (m : Loop A) (f : A → Loop B) : Loop B := bind f m.
Notation "'let*' x := m 'in' k" := (mthen m (λ x, k)) (at level 10, x binder, m at level 200, k at level 200) : monitor_scope.
Notation "m ;; k" := (mthen m (λ _, k)) (at level 100, right associativity) : monitor_scope.
Open Scope monitor_scope.

(** ** The goroutines *)

Section Goroutines.
Context (ov : option CapabilityOverrides) (absent : bool) (MaxBackoff : Duration).

(** readConfig, with the read. *)
Definition rereadConfig : Loop () := let* r := mcall MReadConfig in mcall (MUpdate (configState ov r)).

(** Loops are given as their first n turns; None: they have not ended yet. *)
Fixpoint configLoop (n : nat) : Loop (option ()) :=
  match n with
  | O => Ret None
  | S n =>
      let* w := mcall MConfigSelect in
      match w with
      | WDone => Ret (Some ())
      | _ =>
          let* r := mcall MReadConfig in
          match r with
          | Err _ => configLoop n
          | Ok cfg =>
              let* st := mcall MState in
              if configMoved st cfg then rereadConfig;; mcall MRequestVerify;; configLoop n else configLoop n
          end
      end
  end.

Fixpoint awaitOnline (n : nat) (b : backoff) : Loop (option bool * backoff) :=
  match n with
  | O => Ret (None, b)
  | S n =>
      let* ended := mcall MDone in
      if ended then Ret (Some false, b)
      else
        let* st := mcall MStatus in
        match st with
        | Ok st =>
            let* ver := mcall MVersions in
            let* lim := mcall MLimits in
            mcall (MUpdate (onlineState ov st ver lim));; Ret (Some true, b)
        | Err e =>
            mcall (MUpdate (offlineState e));;
            let (b, d) := next b in
            let* ended := mcall (MSleep d) in
            if ended then Ret (Some false, b) else awaitOnline n b
        end
  end.

Fixpoint watch (n : nat) : Loop (option ()) :=
  match n with
  | O => Ret None
  | S n =>
      let* ended := mcall MDone in
      if ended then Ret (Some ())
      else
        let* s := mcall MState in
        let* st := mcall (MWaitAfter (ls_LastRound s)) in
        match st with
        | Err e =>
            let* ended := mcall MDone in
            if ended then Ret (Some ()) else mcall (MUpdate (offlineState e));; Ret (Some ())
        | Ok st =>
            let* s := mcall MState in
            let* '(known, lim) := (if ls_LimitsKnown s then Ret (true, None)
                                   else let* r := mcall MLimits in Ret match r with Ok l => (true, l) | Err _ => (false, None) end) in
            mcall (MUpdate (roundState ov st known lim));; watch n
        end
  end.

(** The for loop of Run; each inner loop has n turns too. *)
Fixpoint runTurns (n : nat) (b : backoff) : Loop () :=
  match n with
  | O => Ret ()
  | S n =>
      let* ended := mcall MDone in
      if ended then Ret ()
      else
        let* '(online, b) := awaitOnline n b in
        match online with
        | Some true =>
            mcall MRequestVerify;;
            let* w := watch n in
            match w with
            | None => Ret ()
            | Some _ =>
                let* ended := mcall MDone in
                if ended then Ret ()
                else let (b, d) := next (reset b) in let* _ := mcall (MSleep d) in runTurns n b
            end
        | _ => Ret ()
        end
  end.

Definition Run (n : nat) : Loop () :=
  if absent then Ret ()
  else rereadConfig;; mcall (MGo GConfig);; mcall (MGo GVerify);; runTurns n (newBackoff Second MaxBackoff).

(** The searches of [Monitor], with their requests. *)
Fixpoint searchLoop (fuel : nat) (lo hi : Z) : Loop (result error Z) :=
  match fuel with
  | O => Crash
  | S fuel =>
      if 1 <? hi - lo then
        let mid := lo + (hi - lo) / 2 in
        let* r := mcall (MHasBlock mid) in
        match r with Err e => Ret (Err e) | Ok true => searchLoop fuel lo mid | Ok false => searchLoop fuel mid hi end
      else Ret (Ok hi)
  end.

Definition searchOldest (last : Z) : Loop (result error Z) :=
  let* r := mcall (MHasBlock 0) in
  match r with
  | Err e => Ret (Err e)
  | Ok true => Ret (Ok 0)
  | Ok false =>
      let* r := mcall (MHasBlock last) in
      match r with
      | Err e => Ret (Err e)
      | Ok false => Ret (Err "node cannot serve its own last round")
      | Ok true => searchLoop bisectFuel 0 last
      end
  end.

Definition edgeCheck (expected last : Z) : Loop (result error Z) :=
  let* r := mcall (MHasBlock expected) in
  match r with
  | Err e => Ret (Err e)
  | Ok false => searchOldest last
  | Ok true =>
      if expected =? 0 then Ret (Ok 0)
      else
        let* r := mcall (MHasBlock (expected - 1)) in
        match r with Err e => Ret (Err e) | Ok true => searchOldest last | Ok false => Ret (Ok expected) end
  end.

Definition verify (full : bool) : Loop () :=
  let* st := mcall MState in
  if negb (ls_Online st) || (ls_LastRound st =? 0) then Ret ()
  else if archivalGiven ov then mcall (MUpdate (λ s, s <| ls_Verified := true |>))
  else
    let* measured := (if full || negb (ls_Verified st) then searchOldest (ls_LastRound st)
                      else edgeCheck (cap_OldestRound (ls_Caps st)) (ls_LastRound st)) in
    match measured with Err _ => Ret () | Ok measured => mcall (MUpdate (measuredState measured)) end.

Definition rereadLimits : Loop () :=
  let* st := mcall MState in
  if negb (ls_Online st) then Ret ()
  else
    let* r := mcall MLimits in
    match r with Err _ => Ret () | Ok l => mcall (MUpdate (limitsState ov l)) end.

Fixpoint verifyLoop (n : nat) : Loop (option ()) :=
  match n with
  | O => Ret None
  | S n =>
      let* w := mcall MVerifySelect in
      match w with
      | WDone => Ret (Some ())
      | WChan => verify true;; verifyLoop n
      | _ => verify false;; rereadLimits;; verifyLoop n
      end
  end.

Definition goLoop (n : nat) (g : goroutine) : Loop () :=
  match g with GConfig => configLoop n;; Ret () | GVerify => verifyLoop n;; Ret () end.
End Goroutines.

(** *** Those who follow the monitor *)

(** WaitForBlockAfter: the status, and whether the context ended. *)
Fixpoint waitAfter (n : nat) (round : Z) : Loop (option (option string * bool)) :=
  match n with
  | O => Ret None
  | S n =>
      let* '(st, ch) := mcall MBoth in
      match (if round <? ls_LastRound st then ls_LastStatus st else None) with
      | Some raw => Ret (Some (Some raw, false))
      | None =>
          let* w := mcall (MWaitSelect ch) in
          match w with WDone => Ret (Some (ls_LastStatus st, true)) | _ => waitAfter n round end
      end
  end.

(** The for loop of Directory.Run. *)
Fixpoint announce (n : nat) (sentSeq : Z) : Loop () :=
  match n with
  | O => Ret ()
  | S n =>
      let* ch := mcall MChanged in
      let* st := mcall MState in
      (if negb (ls_Seq st =? sentSeq) then mcall (MLocalChange st);; mcall (MHeartbeat st) else Ret ());;
      let sentSeq := if negb (ls_Seq st =? sentSeq) then ls_Seq st else sentSeq in
      let* w := mcall (MAnnounceSelect ch) in
      match w with
      | WDone => Ret ()
      | WChan => announce n sentSeq
      | _ => let* st := mcall MState in mcall (MHeartbeat st);; announce n sentSeq
      end
  end.

(** ** The goroutines together *)

(** What a goroutine is there for. *)
Inductive role := RRun | RLoop (g : goroutine) | RAnnounce | RWait (round : Z).

Global Instance role_eq_dec : EqDecision role.
Proof. intros x y. unfold Decision. decide equality; [decide equality | apply Z.eq_dec]. Defined.

Definition mevent : Type := nat * sigT MResp.
Definition waited : Type := option (option string * bool).

(** The monitor, the goroutines, and the calls made so far with their answers
    and the goroutine that made them. *)
Record System := mkSystem {
  sy_mon : Monitor;
  sy_threads : list (role * Loop waited);
  sy_hist : list mevent
}.

(** What a call may be answered, and what it does to the monitor. *)
Definition answer (a : MAct) : MResp a → Monitor → Monitor → Prop :=
  match a with
  | MState => λ r m m', r = mo_state m ∧ m' = m
  | MChanged => λ r m m', r = mo_changed m ∧ m' = m
  | MBoth => λ r m m', r = (mo_state m, mo_changed m) ∧ m' = m
  | MUpdate f => λ _ m m', m' = update m f
  | MRequestVerify => λ _ m m', m' = requestVerify m
  | MConfigSelect => λ r m m', (r = WDone ∨ r = WTick) ∧ m' = m
  | MVerifySelect => λ r m m', (r = WChan ∧ mo_verify m = true ∧ m' = m <| mo_verify := false |>) ∨ ((r = WDone ∨ r = WTick) ∧ m' = m)
  | MWaitSelect ch => λ r m m', (r = WDone ∨ (r = WChan ∧ (ch < mo_changed m)%nat)) ∧ m' = m
  | MAnnounceSelect ch => λ r m m', (r = WChan → (ch < mo_changed m)%nat) ∧ m' = m
  | _ => λ _ m m', m' = m
  end.

Section Together.
Context (ov : option CapabilityOverrides) (absent : bool) (network : string) (MaxBackoff : Duration) (turns : nat).

Definition quietly {A} (m : Loop A) : Loop waited := mthen m (λ _, Ret None).

(** The goroutine a call starts. *)
Definition spawned (a : MAct) : list (role * Loop waited) :=
  match a with MGo g => [(RLoop g, quietly (goLoop ov turns g))] | _ => [] end.

Definition started : System :=
  mkSystem (NewMonitor absent network) [(RRun, quietly (Run ov absent MaxBackoff turns)); (RAnnounce, quietly (announce turns 0))] [].

Inductive sstep : System → System → Prop :=
  | goes_on S i ro a k r m' :
      sy_threads S !! i = Some (ro, Call a k) → answer a r (sy_mon S) m' →
      sstep S (mkSystem m' (<[i := (ro, k r)]> (sy_threads S) ++ spawned a) (sy_hist S ++ [(i, existT a r)]))
  | calls S round : sstep S (S <| sy_threads := sy_threads S ++ [(RWait round, waitAfter turns round)] |>).

Definition reachable : System → Prop := rtc sstep started.

(** ** What is known of the state *)

Definition limits_read (H : list mevent) (l : option SimulateLimits) : Prop := ∃ i, (i, existT MLimits (Ok l)) ∈ H.

Definition status_read (H : list mevent) (raw : string) (round : Z) : Prop :=
  ∃ i st, ((i, existT MStatus (Ok st)) ∈ H ∨ ∃ after, (i, existT (MWaitAfter after) (Ok st)) ∈ H) ∧ s_Raw st = raw ∧ s_LastRound st = round.

(** The limits shown: the operator's, or else the node's. *)
Definition shown (l : option SimulateLimits) : option SimulateLimits :=
  match ov with Some o => match ov_Simulate o with Some x => Some x | None => l end | None => l end.

Record truthful (H : list mevent) (s : LocalState) : Prop := {
  tr_limits : ls_LimitsKnown s = true → ∃ l, limits_read H l ∧ cap_Simulate (ls_Caps s) = shown l;
  tr_status : match ls_LastStatus s with Some raw => status_read H raw (ls_LastRound s) | None => ls_LastRound s = 0 end;
  tr_online : ls_Online s = true → ls_LastStatus s ≠ None
}.

Lemma truthful_mono H H' s : H ⊆ H' → truthful H s → truthful H' s.
Proof.
  intros HH [Hl Hs Ho]. split; [| | done].
  - intros (l & (i & Hi) & E)%Hl. exists l. split; [exists i; by apply HH | done].
  - destruct (ls_LastStatus s); [| done]. destruct Hs as (i & st & Hi & E). exists i, st. split; [| done].
    destruct Hi as [Hi | [r Hi]]; [left | right; exists r]; by apply HH.
Qed.

Lemma Apply_simulate c r : cap_Simulate (Apply ov c r) = shown (cap_Simulate c).
Proof. unfold Apply, shown. destruct ov as [[a d f t l] |]; [| done]. cbn. destruct l; [done |]. by destruct a. Qed.
Lemma shown_shown l : shown (shown l) = shown l.
Proof. unfold shown. destruct ov as [[? ? ? ? []] |]; done. Qed.

Lemma atLastRound_state s : ls_LimitsKnown (atLastRound ov s) = ls_LimitsKnown s ∧ ls_LastStatus (atLastRound ov s) = ls_LastStatus s ∧
  ls_LastRound (atLastRound ov s) = ls_LastRound s ∧ ls_Online (atLastRound ov s) = ls_Online s ∧
  cap_Simulate (ls_Caps (atLastRound ov s)) = shown (cap_Simulate (ls_Caps s)).
Proof. repeat split. unfold atLastRound. cbn. by rewrite Apply_simulate. Qed.

Lemma measured_simulate c r m : cap_Simulate (measuredCaps c r m) = cap_Simulate c.
Proof.
  unfold measuredCaps. destruct (_ <? m); [| done].
  set (c' := if ar_Kind (cap_Archival c) =s ArchivalFull then _ else _).
  assert (cap_Simulate c' = cap_Simulate c) as E by (unfold c'; repeat case_match; done).
  cbn. destruct (_ <? m); cbn; by rewrite E.
Qed.
End Together.

(** ** The state is true under any interleaving *)

(** Each change keeps it so, given what its goroutine has seen. *)
Section Truth.
Context (ov : option CapabilityOverrides).
Abbreviation truthful := (truthful ov).

Lemma configState_truthful H s r : truthful H s → truthful H (configState ov r s) ∧ ls_LimitsKnown (configState ov r s) = ls_LimitsKnown s.
Proof.
  intros [Hl Hs Ho]. destruct r as [cfg | e]; [| by split]. split; [| cbn; by destruct (_ || _)].
  assert (E : cap_Simulate (ls_Caps (configState ov (Ok cfg) s)) = shown ov (cap_Simulate (ls_Caps s))).
  { cbn. destruct (_ || _); cbn; unfold capsFromConfig, const; by rewrite Apply_simulate. }
  split; cbn; [| by destruct (_ || _) | by destruct (_ || _)].
  intros Hk. destruct Hl as (l & ? & El); [by destruct (_ || _) in Hk |]. exists l. split; [done |]. etransitivity; [exact E |]. rewrite El. apply shown_shown.
Qed.

Lemma offlineState_truthful H s e : truthful H s → truthful H (offlineState e s).
Proof. intros [Hl Hs Ho]. by split. Qed.

Lemma onlineState_truthful H s i st ver lim :
  (i, existT MStatus (Ok st)) ∈ H → (∀ l, lim = Ok l → limits_read H l) → truthful H (onlineState ov st ver lim s).
Proof.
  intros Hi Hl. unfold onlineState.
  match goal with |- truthful _ (atLastRound _ ?x) => set (s' := x); destruct (atLastRound_state ov s') as (E1 & E2 & E3 & E4 & E5) end.
  assert (ls_LimitsKnown s' = is_ok lim ∧ ls_LastStatus s' = Some (s_Raw st) ∧ ls_LastRound s' = s_LastRound st) as (F1 & F2 & F3)
    by (unfold s'; by destruct ver, lim).
  split; rewrite ?E1, ?E2, ?E3, ?E4, ?E5, ?F1, ?F2, ?F3.
  - destruct lim as [l |]; [| done]. intros _. exists l. split; [by apply Hl |]. unfold s'. by destruct ver.
  - exists i, st. by split; [left |].
  - done.
Qed.

Lemma roundState_truthful H s i after st known lim :
  truthful H s → (i, existT (MWaitAfter after) (Ok st)) ∈ H →
  (known = true → ls_LimitsKnown s = true ∨ limits_read H lim) → truthful H (roundState ov st known lim s).
Proof.
  intros [Hl Hs Ho] Hi Hk. unfold roundState.
  match goal with |- truthful _ (atLastRound _ ?x) => set (s' := x); destruct (atLastRound_state ov s') as (E1 & E2 & E3 & E4 & E5) end.
  split; rewrite ?E1, ?E2, ?E3, ?E4, ?E5; unfold s'; cbn.
  - destruct (known && negb (ls_LimitsKnown s)) eqn:E; cbn.
    + intros _. apply andb_true_iff in E as [-> E%negb_true_iff]. exists lim. split; [| done]. destruct (Hk eq_refl); [congruence | done].
    + intros (l & ? & El)%Hl. exists l. split; [done |]. rewrite El. apply shown_shown.
  - exists i, st. split; [by right; exists after | done].
  - done.
Qed.

Lemma limitsState_truthful H s l : truthful H s → limits_read H l → truthful H (limitsState ov l s).
Proof. intros [Hl Hs Ho] Hr. split; [| done..]. intros _. exists l. split; [done |]. cbn. by rewrite Apply_simulate. Qed.

Lemma verified_truthful H s : truthful H s → truthful H (s <| ls_Verified := true |>).
Proof. intros [Hl Hs Ho]. by split. Qed.

Lemma measuredState_truthful H s m : truthful H s → truthful H (measuredState m s).
Proof. intros [Hl Hs Ho]. split; [| done..]. intros (l & ? & E)%Hl. exists l. split; [done |]. etransitivity; [apply measured_simulate | done]. Qed.

Lemma numbered_truthful H s n : truthful H s → truthful H (s <| ls_Seq := n |>).
Proof. intros [Hl Hs Ho]. by split. Qed.

(** *** Programs that keep it

    K: the limits are known, as far as Run's own goroutine can tell; only it
    forgets them. *)
Definition sees (a : MAct) (H : list mevent) : MResp a → Prop :=
  match a with MState => λ s, truthful H s | MBoth => λ r, truthful H r.1 | _ => λ _, True end.

Definition known_after (main : bool) (a : MAct) (K : bool) : MResp a → bool :=
  match a with MState => λ s, main && ls_LimitsKnown s | MUpdate _ => λ _, false | _ => λ _, K end.

Definition may_update (main : bool) (a : MAct) (H : list mevent) (K : bool) : Prop :=
  match a with
  | MUpdate f => ∀ s, truthful H s → (K = true → ls_LimitsKnown s = true) →
      truthful H (f s) ∧ (main = false → ls_LimitsKnown s = true → ls_LimitsKnown (f s) = true)
  | _ => True
  end.

Fixpoint keeps {A} (main : bool) (Q : A → list mevent → bool → Prop) (p : Loop A) (H : list mevent) (K : bool) : Prop :=
  match p with
  | Ret x => ∀ H', H ⊆ H' → Q x H' K
  | Crash => True
  | Call a k => ∀ H' i, H ⊆ H' → may_update main a H' K ∧
      ∀ r, sees a H' r → keeps main Q (k r) (H' ++ [(i, existT a r)]) (known_after main a K r)
  end.

Lemma keeps_mono {A} main (Q : A → list mevent → bool → Prop) p H H' K : H ⊆ H' → keeps main Q p H K → keeps main Q p H' K.
Proof. intros HH. destruct p; cbn; [| done |]; intros Hk; intros; apply Hk; by etransitivity. Qed.

Lemma keeps_bind {A B} main (Q : B → list mevent → bool → Prop) (f : A → Loop B) p : ∀ H K,
  keeps main (λ x H K, keeps main Q (f x) H K) p H K → keeps main Q (mthen p f) H K.
Proof.
  induction p as [x | | a k IH]; intros H K; cbn; [intros Hk; by apply Hk | done |].
  intros Hk H' i HH. destruct (Hk H' i HH) as [H1 H2]. split; [done |]. intros r Hr. by apply IH, H2.
Qed.

Lemma keeps_weaken {A} main (Q Q' : A → list mevent → bool → Prop) p : (∀ x H K, Q x H K → Q' x H K) → ∀ H K, keeps main Q p H K → keeps main Q' p H K.
Proof.
  intros HQ. induction p as [x | | a k IH]; intros H K; cbn; [intros Hk H' HH; by apply HQ, Hk | done |].
  intros Hk H' i HH. destruct (Hk H' i HH) as [H1 H2]. split; [done |]. intros r Hr. by apply IH, H2.
Qed.

(** A program that needs to know nothing. *)
Definition fine {A} (main : bool) (p : Loop A) : Prop := ∀ H K, keeps main (λ _ _ _, True) p H K.

Lemma fine_ret {A} main (x : A) : fine main (Ret x).
Proof. done. Qed.
Lemma fine_crash {A} main : fine main (Crash : Loop A).
Proof. done. Qed.
Lemma fine_bind {A B} main (p : Loop A) (f : A → Loop B) : fine main p → (∀ x, fine main (f x)) → fine main (mthen p f).
Proof. intros Hp Hf H K. apply keeps_bind. eapply keeps_weaken; [| apply Hp]. intros x H' K' _. apply Hf. Qed.
Lemma fine_call main a : (∀ H K, may_update main a H K) → fine main (mcall a).
Proof. intros Ha H K H' i HH. by split. Qed.
Lemma fine_update main f :
  (∀ H s, truthful H s → truthful H (f s) ∧ (main = false → ls_LimitsKnown s = true → ls_LimitsKnown (f s) = true)) → fine main (mcall (MUpdate f)).
Proof. intros Hf. apply fine_call. intros H K s Hs _. by apply Hf. Qed.
End Truth.

(** *** The goroutines keep it *)
Section Keep.
Context (ov : option CapabilityOverrides).

Ltac fine_step :=
  lazymatch goal with
  | |- fine _ _ (mthen _ _) => apply fine_bind; [| intros ?]
  | |- fine _ _ (Ret _) => apply fine_ret
  | |- fine _ _ Crash => apply fine_crash
  | |- fine _ _ (mcall (MUpdate _)) => apply fine_update; intros ? ? ?
  | |- fine _ _ (mcall _) => apply fine_call; done
  | |- fine _ _ (match ?x with _ => _ end) => destruct x
  | |- fine _ _ (let '_ := ?x in _) => destruct x
  end.
Ltac fine_prog := repeat fine_step.

Lemma rereadConfig_fine main : fine ov main (rereadConfig ov).
Proof. unfold rereadConfig. fine_prog. all: destruct (configState_truthful ov H s x) as [? ->]; [done |]; by split. Qed.

Lemma configLoop_fine n : fine ov false (configLoop ov n).
Proof. induction n as [| n IH]; cbn [configLoop]; fine_prog; first [apply rereadConfig_fine | apply IH]. Qed.

Lemma searchLoop_fine fuel : ∀ lo hi, fine ov false (searchLoop fuel lo hi).
Proof. induction fuel as [| fuel IH]; intros lo hi; cbn [searchLoop]; fine_prog; apply IH. Qed.

Lemma searchOldest_fine last : fine ov false (searchOldest last).
Proof. unfold searchOldest. fine_prog. apply searchLoop_fine. Qed.

Lemma edgeCheck_fine expected last : fine ov false (edgeCheck expected last).
Proof. unfold edgeCheck. fine_prog; apply searchOldest_fine. Qed.

Lemma verify_fine full : fine ov false (verify ov full).
Proof.
  unfold verify. fine_prog; try first [apply searchOldest_fine | apply edgeCheck_fine].
  - split; [by apply verified_truthful | done].
  - split; [by apply measuredState_truthful | done].
Qed.

Lemma rereadLimits_fine : fine ov false (rereadLimits ov).
Proof.
  unfold rereadLimits. apply fine_bind; [fine_prog | intros st]. destruct (negb _); [fine_prog |]. intros H K H1 i1 HH. split; [done |]. intros [l | e] _; cbn [mthen mcall bind]; [| done].
  intros H2 i2 HH2. split; [| done]. intros s Hs _. split; [| done]. apply limitsState_truthful; [done |].
  exists i1. apply HH2. rewrite elem_of_app, list_elem_of_singleton. by right.
Qed.

Lemma goLoop_fine n g : fine ov false (goLoop ov n g).
Proof.
  destruct g; cbn [goLoop]; apply fine_bind; try (intros; apply fine_ret); [apply configLoop_fine |].
  induction n as [| n IH]; cbn [verifyLoop]; fine_prog; first [apply verify_fine | apply rereadLimits_fine | apply IH].
Qed.

(** A call made is in the history after it. *)
Lemma made {H : list mevent} {i e H'} : H ++ [(i, e)] ⊆ H' → (i, e) ∈ H'.
Proof. intros HH. apply HH. rewrite elem_of_app, list_elem_of_singleton. by right. Qed.
Lemma still {H : list mevent} {x H'} : H ++ [x] ⊆ H' → H ⊆ H'.
Proof. intros HH y Hy. apply HH, elem_of_app. by left. Qed.

Lemma awaitOnline_fine n : ∀ b, fine ov true (awaitOnline ov n b).
Proof.
  induction n as [| n IH]; intros b; cbn [awaitOnline]; [done |]. apply fine_bind; [fine_prog |]. intros []; [done |].
  intros H K H1 i1 _. split; [done |]. intros [st | e] _; cbn [mthen mcall bind].
  - intros H2 i2 HH2. split; [done |]. intros ver _. cbn [mthen mcall bind]. intros H3 i3 HH3. split; [done |]. intros lim _. cbn [mthen mcall bind].
    intros H4 i4 HH4. split; [| done]. intros s Hs _. split; [| done]. apply (onlineState_truthful ov H4 s i1).
    + by apply (still HH4), (still HH3), (made HH2).
    + intros l ->. by exists i3; apply (made HH4).
  - intros H2 i2 HH2. split; [intros s Hs _; by split; [apply offlineState_truthful |] |]. intros u _. cbn [mthen mcall bind]. destruct (next b) as [b' d].
    intros H3 i3 HH3. split; [done |]. intros [] _; cbn [mthen mcall bind]; [done | apply IH].
Qed.

Lemma watch_fine n : fine ov true (watch ov n).
Proof.
  induction n as [| n IH]; cbn [watch]; [done |]. apply fine_bind; [fine_prog |]. intros []; [done |]. apply fine_bind; [fine_prog | intros s0].
  intros H K H1 i1 _. split; [done |]. intros [st | e] _; cbn [mthen mcall bind].
  - intros H2 i2 HH2. split; [done |]. intros s Hs. cbn [mthen mcall bind known_after andb]. destruct (ls_LimitsKnown s); cbn [mthen mcall bind].
    + intros H3 i3 HH3. split; [| intros; apply IH]. intros s' Hs' Hk. split; [| done].
      apply (roundState_truthful ov H3 s' i1 (ls_LastRound s0)); [done | by apply (still HH3), (made HH2) | intros _; left; by apply Hk].
    + intros H3 i3 HH3. split; [done |]. intros r _. cbn [mthen mcall bind].
      assert (∀ H4, H3 ++ [(i3, existT MLimits r)] ⊆ H4 → (i1, existT (MWaitAfter (ls_LastRound s0)) (Ok st)) ∈ H4) as Hin
        by (intros H4 HH4; by apply (still HH4), (still HH3), (made HH2)).
      destruct r as [l | e]; cbn [mthen mcall bind]; intros H4 i4 HH4; (split; [| intros; apply IH]); intros s' Hs' _; (split; [| done]);
        (apply (roundState_truthful ov H4 s' i1 (ls_LastRound s0)); [done | by apply Hin |]); [intros _; right; exists i3; by apply (made HH4) | done].
  - intros H2 i2 HH2. split; [done |]. intros [] _; cbn [mthen mcall bind]; [done |].
    intros H3 i3 HH3. split; [intros s Hs _; by split; [apply offlineState_truthful |] | done].
Qed.

Lemma Run_fine absent max n : fine ov true (Run ov absent max n).
Proof.
  unfold Run. destruct absent; [done |]. apply fine_bind; [apply rereadConfig_fine | intros _]. apply fine_bind; [by apply fine_call | intros _].
  apply fine_bind; [by apply fine_call | intros _]. generalize (newBackoff Second max).
  induction n as [| n IH]; intros b; cbn [runTurns]; [done |]. apply fine_bind; [by apply fine_call |]. intros []; [done |].
  apply fine_bind; [apply awaitOnline_fine |]. intros [[[] |] b']; try done. apply fine_bind; [by apply fine_call | intros _].
  apply fine_bind; [apply watch_fine |]. intros [_ |]; [| done]. apply fine_bind; [by apply fine_call |]. intros []; [done |].
  destruct (next (reset b')) as [b'' d]. apply fine_bind; [by apply fine_call | intros _]. apply IH.
Qed.

Lemma announce_fine n : ∀ sent : Z, fine ov false (announce n sent).
Proof. induction n as [| n IH]; intros sent; cbn [announce]; fine_prog; try apply IH. Qed.

(** What WaitForBlockAfter gives without its context's error. *)
Definition block_past (round : Z) (x : waited) (H : list mevent) (K : bool) : Prop :=
  match (x : option (option string * bool)) with Some (Some raw, false) => ∃ r, round < r ∧ status_read H raw r | Some (None, false) => False | _ => True end.

Lemma waitAfter_keeps n round : ∀ H K, keeps ov false (block_past round) (waitAfter n round) H K.
Proof.
  induction n as [| n IH]; intros H K; [done |]. cbn [waitAfter mthen mcall bind]. intros H1 i1 HH1. split; [done |]. intros [s ch] Hs. cbn [mthen mcall bind].
  destruct (if round <? ls_LastRound s then ls_LastStatus s else None) as [raw |] eqn:E.
  - intros H2 HH2. destruct (round <? ls_LastRound s) eqn:El; [| done]. apply Z.ltb_lt in El. exists (ls_LastRound s). split; [done |].
    destruct Hs as [_ Hst _]. cbn in Hst. rewrite E in Hst. destruct Hst as (i & st & Hi & ?). exists i, st. split; [| done].
    destruct Hi as [Hi | [r Hi]]; [left | right; exists r]; by apply (still HH2).
  - intros H2 i2 HH2. split; [done |]. intros [] _; cbn [mthen mcall bind]; [intros H3 HH3 | apply IH..]. cbn. by destruct (ls_LastStatus s).
Qed.
End Keep.

(** A search ends whatever the node answers, and if it answers anew each time:
    the interval is halved, and there is fuel for 64 bits. *)
Lemma searchLoop_returns fuel : ∀ lo hi t, hi - lo <= 2 ^ Z.of_nat fuel → ¬ runs (searchLoop (S fuel) lo hi) t None.
Proof.
  induction fuel as [| fuel IH]; intros lo hi t Hw; cbn [searchLoop].
  - destruct (1 <? hi - lo) eqn:E; [apply Z.ltb_lt in E; change (2 ^ Z.of_nat 0) with 1 in Hw; lia | by intros [_ [=]]].
  - destruct (1 <? hi - lo) eqn:E; [| by intros [_ [=]]]. apply Z.ltb_lt in E.
    replace (2 ^ Z.of_nat (S fuel)) with (2 * 2 ^ Z.of_nat fuel) in Hw by (rewrite Nat2Z.inj_succ, Z.pow_succ_r; lia).
    pose proof (Z.div_mod (hi - lo) 2). pose proof (Z.mod_pos_bound (hi - lo) 2).
    intros (r & t' & _ & Hr). cbn [bind] in Hr. destruct r as [[] |]; [eapply IH, Hr; lia | eapply IH, Hr; lia | by destruct Hr as [_ [=]]].
Qed.

Lemma searchOldest_returns last t : is_u64 last → ¬ runs (searchOldest last) t None.
Proof.
  intros Hl. unfold searchOldest. assert (Hp : ∀ t, ¬ runs (searchLoop bisectFuel 0 last) t None).
  { intros t'. apply (searchLoop_returns 64). unfold is_u64, two64 in Hl. lia. }
  revert Hp. generalize (searchLoop bisectFuel 0 last). intros p Hp.
  intros (r & t1 & _ & Hr). cbn [bind] in Hr. destruct r as [[] |]; [by destruct Hr as [_ [=]] | | by destruct Hr as [_ [=]]].
  destruct Hr as (r & t2 & _ & Hr). cbn [bind] in Hr. destruct r as [[] |]; [by eapply Hp | by destruct Hr as [_ [=]] ..].
Qed.

(** ** Any interleaving *)
Section Reach.
Context (ov : option CapabilityOverrides) (absent : bool) (network : string) (MaxBackoff : Duration) (turns : nat).
Abbreviation sstep := (sstep ov turns).
Abbreviation reachable := (reachable ov absent network MaxBackoff turns).

Definition isRun (ro : role) : bool := match ro with RRun => true | _ => false end.

Definition due (ro : role) : waited → list mevent → bool → Prop :=
  match ro with RWait round => block_past round | _ => λ _ _ _, True end.

(** A goroutine where it stands: what it has still to do keeps the state true,
    given what it knows. *)
Definition stands (H : list mevent) (m : Monitor) (t : role * Loop waited) : Prop :=
  ∃ K, keeps ov (isRun t.1) (due t.1) t.2 H K ∧ (K = true → isRun t.1 = true ∧ ls_LimitsKnown (mo_state m) = true).

Record sound (S : System) : Prop := {
  so_true : truthful ov (sy_hist S) (mo_state (sy_mon S));
  so_threads i t : sy_threads S !! i = Some t → stands (sy_hist S) (sy_mon S) t;
  so_run i t : sy_threads S !! i = Some t → isRun t.1 = true → i = 0%nat
}.

Lemma quietly_keeps {A} (ro : role) (p : Loop A) H K : fine ov (isRun ro) p → keeps ov (isRun ro) (due ro) (quietly p) H K.
Proof.
  intros Hp. apply keeps_bind. eapply keeps_weaken; [| apply Hp]. intros x H' K' _ H'' _. by destruct ro.
Qed.

Lemma stands_new H m ro p : (∀ K, keeps ov (isRun ro) (due ro) p H K) → stands H m (ro, p).
Proof. intros Hp. exists false. by split. Qed.

Lemma started_sound : sound (started ov absent network MaxBackoff turns).
Proof.
  split; cbn.
  - unfold NewMonitor. by destruct absent.
  - intros [| [| i]] t; cbn; [intros [= <-] | intros [= <-] | done]; apply stands_new; intros K; apply quietly_keeps.
    + apply Run_fine.
    + apply announce_fine.
  - intros [| [| i]] t; cbn; [done | by intros [= <-] | done].
Qed.

(** What an answer does to the state. *)
Lemma answer_effect main a r m m' H K :
  answer a r m m' → may_update ov main a H K → truthful ov H (mo_state m) → (K = true → ls_LimitsKnown (mo_state m) = true) →
  truthful ov H (mo_state m') ∧ sees ov a H r ∧ (known_after main a K r = true → ls_LimitsKnown (mo_state m') = true) ∧
  (main = false → ls_LimitsKnown (mo_state m) = true → ls_LimitsKnown (mo_state m') = true).
Proof.
  destruct a; cbn; intros Ha Hu Ht Hk; try (subst; by repeat split; try apply Ht).
  - destruct Ha as [-> ->]. split; [done | split; [done | split; [by intros [_ ?]%andb_true_iff | done]]].
  - destruct Ha as [_ ->]. by repeat split; try apply Ht.
  - destruct Ha as [-> ->]. by repeat split; try apply Ht.
  - subst m'. destruct (Hu (mo_state m) Ht Hk) as [Hf Hl]. split; [by apply numbered_truthful | by repeat split].
  - destruct Ha as [_ ->]. by repeat split; try apply Ht.
  - destruct Ha as [(_ & _ & ->) | [_ ->]]; by repeat split; try apply Ht.
  - destruct Ha as [_ ->]. by repeat split; try apply Ht.
  - destruct Ha as [_ ->]. by repeat split; try apply Ht.
Qed.

Lemma known_after_run main a K r : known_after main a K r = true → (K = true → main = true) → main = true.
Proof. destruct a; cbn; auto; [by intros [-> _]%andb_true_iff | done]. Qed.

(** The others, when one goroutine moved. *)
Lemma stands_still H H' m m' t :
  H ⊆ H' → stands H m t → (isRun t.1 = true → ls_LimitsKnown (mo_state m) = true → ls_LimitsKnown (mo_state m') = true) → stands H' m' t.
Proof. intros HH (K & Hk & Hm) Hl. exists K. split; [by eapply keeps_mono |]. intros E. destruct (Hm E). auto. Qed.

Lemma sstep_sound S S' : sstep S S' → sound S → sound S'.
Proof.
  intros Hs [St Sh Sr]. destruct Hs as [S i ro a k r m' Hi Ha | S round].
  - destruct (Sh i _ Hi) as (K & Hk & Hm). cbn [fst snd] in *. destruct (Hk (sy_hist S) i) as [Hu Hnext]; [done |].
    destruct (answer_effect (isRun ro) a r _ m' _ K Ha Hu St) as (Ht & Hsee & Hkn & Hl); [by intros E; apply Hm |].
    assert (HH : sy_hist S ⊆ sy_hist S ++ [(i, existT a r)]) by (intros x Hx; apply elem_of_app; by left).
    split; cbn.
    + by eapply truthful_mono.
    + intros j t [Hj | [_ Hj]]%lookup_app_Some.
      * apply list_lookup_insert_Some in Hj as [(<- & <- & _) | [Hne Hj]].
        -- exists (known_after (isRun ro) a K r). cbn. split; [by apply Hnext |]. intros E. split; [| by apply Hkn].
           eapply known_after_run; [exact E |]. intros E'. by apply Hm.
        -- eapply stands_still; [exact HH | by apply (Sh j) |]. intros Hrun. apply Hl. destruct (isRun ro) eqn:Er; [| done].
           destruct Hne. rewrite (Sr i (ro, Call a k) Hi Er). by rewrite (Sr j t Hj Hrun).
      * destruct a; cbn in Hj; try done. destruct (j - _)%nat; [| done]. injection Hj as <-. apply stands_new. intros K'.
        apply (quietly_keeps (RLoop g)),  goLoop_fine.
    + intros j t [Hj | [_ Hj]]%lookup_app_Some Hrun.
      * apply list_lookup_insert_Some in Hj as [(<- & <- & _) | [Hne Hj]]; [by apply (Sr i (ro, Call a k)) | by apply (Sr j t)].
      * destruct a; cbn in Hj; try done. destruct (j - _)%nat; [| done]. by injection Hj as <-.
  - split; cbn; [done | |].
    + intros j t [Hj | [_ Hj]]%lookup_app_Some; [by apply (Sh j) |]. destruct (j - _)%nat; [| done]. injection Hj as <-. apply stands_new.
      intros K. apply (waitAfter_keeps ov).
    + intros j t [Hj | [_ Hj]]%lookup_app_Some Hrun; [by apply (Sr j t) |]. destruct (j - _)%nat; [| done]. by injection Hj as <-.
Qed.

(** C15: The monitor says nothing its node did not say, however its goroutines
    (the one that follows the node, the one that reads the configuration, the
    one that verifies the oldest round) and its callers interleave. The round
    it shows and the status body it replays come from one and the same answer
    of the node; an online node has one. The simulate limits it shows as known
    are what the node answered to a request for them (under the operator's
    override): a goroutine that finds them known while another reads them again
    never publishes limits that no one read. And a caller of
    [WaitForBlockAfter] that is answered gets the body of a status of the node
    past the round it asked for. *)
Theorem monitor_says_what_node_said S :
  reachable S →
  truthful ov (sy_hist S) (mo_state (sy_mon S)) ∧
  ∀ i round raw, sy_threads S !! i = Some (RWait round, Ret (Some (raw, false))) →
    ∃ body r, raw = Some body ∧ round < r ∧ status_read (sy_hist S) body r.
Proof.
  intros HR. assert (HS : sound S).
  { revert S HR. apply (rtc_ind_r sound); [apply started_sound | intros S1 S2 _ Hstep IH; by eapply sstep_sound]. }
  destruct HS as [Ht Sh _]. split; [done |]. intros i round raw Hi. destruct (Sh i _ Hi) as (K & Hk & _).
  specialize (Hk (sy_hist S)). cbn in Hk. destruct raw as [body |]; [| by destruct Hk]. destruct Hk as (r & ? & ?); [done |]. by exists body, r.
Qed.
End Reach.

(** ** Nobody sleeps through a change *)

(** The round of changes a goroutine announced last. *)
Definition announced (i : nat) (H : list mevent) : Z :=
  foldl (λ q e, match e with (j, existT (MLocalChange st) _) => if decide (j = i) then ls_Seq st else q | _ => q end) 0 H.

Section Awake.
Context (ov : option CapabilityOverrides) (absent : bool) (network : string) (MaxBackoff : Duration) (turns : nat).
Abbreviation sstep := (sstep ov turns).
Abbreviation reachable := (reachable ov absent network MaxBackoff turns).

(** What a goroutine knows: the channel it holds, the state it has seen since
    it took it, the change it announced last. *)
Record seen := mkSeen { se_ch : option nat; se_state : option (nat * LocalState); se_announced : Z }.

Definition sees_next (a : MAct) (k : seen) : MResp a → seen :=
  match a with
  | MChanged => λ ch, mkSeen (Some ch) None (se_announced k)
  | MState => λ s, k <| se_state := match se_ch k with Some ch => Some (ch, s) | None => se_state k end |>
  | MBoth => λ r, mkSeen (Some r.2) (Some (r.2, r.1)) (se_announced k)
  | MLocalChange st => λ _, k <| se_announced := ls_Seq st |>
  | _ => λ _, k
  end.

(** What makes it wait for: nothing in the state it has seen is for it. *)
Definition idle (ro : role) (s : LocalState) (announced : Z) : Prop :=
  match ro with
  | RAnnounce => announced = ls_Seq s
  | RWait round => (if round <? ls_LastRound s then ls_LastStatus s else None) = None
  | _ => False
  end.

Definition may_wait (ro : role) (a : MAct) (k : seen) : Prop :=
  match a with
  | MWaitSelect ch | MAnnounceSelect ch => ∃ s, se_state k = Some (ch, s) ∧ idle ro s (se_announced k)
  | _ => True
  end.

Fixpoint aware (ro : role) {A} (p : Loop A) (k : seen) : Prop :=
  match p with
  | Ret _ | Crash => True
  | Call a c => may_wait ro a k ∧ ∀ r, aware ro (c r) (sees_next a k r)
  end.

Lemma aware_bind ro {A B} (f : A → Loop B) p : ∀ k,
  aware ro p k → (∀ x k, aware ro (f x) k) → aware ro (mthen p f) k.
Proof.
  induction p as [x | | a c IH]; intros k; cbn; [intros _ Hf; by apply Hf | done |].
  intros [H1 H2] Hf. split; [done |]. intros r. by apply IH.
Qed.

Lemma announce_aware n : ∀ k, aware RAnnounce (announce n (se_announced k)) k.
Proof.
  induction n as [| n IH]; intros k; [done |]. cbn [announce mthen mcall bind aware may_wait sees_next]. split; [done |]. intros ch. split; [done |]. intros st.
  destruct (ls_Seq st =? se_announced k) eqn:E; cbn [negb bind mthen mcall aware may_wait sees_next].
  - apply Z.eqb_eq in E. split; [exists st; by split |]. intros []; cbn [bind mthen mcall aware may_wait sees_next]; [done | apply (IH (mkSeen (Some ch) (Some (ch, st)) (se_announced k))) | |];
      (split; [done |]); intros s; (split; [done |]); intros _; apply (IH (mkSeen (Some ch) (Some (ch, s)) (se_announced k))).
  - split; [done |]. intros _. split; [done |]. intros _. split; [exists st; by split |].
    intros []; cbn [bind mthen mcall aware may_wait sees_next]; [done | apply (IH (mkSeen (Some ch) (Some (ch, st)) (ls_Seq st))) | |];
      (split; [done |]); intros s; (split; [done |]); intros _; apply (IH (mkSeen (Some ch) (Some (ch, s)) (ls_Seq st))).
Qed.

Lemma waitAfter_aware n round : ∀ k, aware (RWait round) (waitAfter n round) k.
Proof.
  induction n as [| n IH]; intros k; [done |]. cbn [waitAfter mthen mcall bind aware may_wait sees_next]. split; [done |]. intros [st ch]. cbn [fst snd bind].
  destruct (if round <? ls_LastRound st then ls_LastStatus st else None) as [raw |] eqn:E; [done |].
  split; [exists st; by split |]. intros []; try apply IH. done.
Qed.

(** What it knows is so. *)
Record knows (S : System) (i : nat) (ro : role) (k : seen) : Prop := {
  kn_ch ch : se_ch k = Some ch → (ch <= mo_changed (sy_mon S))%nat;
  kn_state ch s : se_state k = Some (ch, s) → (ch <= mo_changed (sy_mon S))%nat ∧ (ch = mo_changed (sy_mon S) → s = mo_state (sy_mon S));
  kn_announced : ro = RAnnounce → se_announced k = announced i (sy_hist S)
}.

Definition watcher (ro : role) : bool := match ro with RAnnounce | RWait _ => true | _ => false end.

Definition attentive (S : System) : Prop :=
  ∀ i ro p, sy_threads S !! i = Some (ro, p) → watcher ro = true → ∃ k, aware ro p k ∧ knows S i ro k.

Lemma answer_changes a r m m' :
  answer a r m m' → (mo_changed m <= mo_changed m')%nat ∧ (mo_changed m = mo_changed m' → mo_state m' = mo_state m).
Proof.
  destruct a; cbn; intros Ha; try (subst; by split); try (destruct Ha as [_ ->]; by split).
  - subst. cbn. split; lia.
  - destruct Ha as [(? & ? & ->) | [_ ->]]; by split.
Qed.

Lemma announced_snoc i H j e :
  announced i (H ++ [(j, e)]) = match e with existT (MLocalChange st) _ => if decide (j = i) then ls_Seq st else announced i H | _ => announced i H end.
Proof. unfold announced. rewrite foldl_app. cbn. destruct e as [[] ?]; reflexivity. Qed.

(** The goroutine that was answered. *)
Lemma knows_next S i ro k a r m' ts :
  knows S i ro k → answer a r (sy_mon S) m' → knows (mkSystem m' ts (sy_hist S ++ [(i, existT a r)])) i ro (sees_next a k r).
Proof.
  intros [K1 K2 K3] Ha. destruct (answer_changes a r _ _ Ha) as [Hle Heq].
  assert (Hk : ∀ ch s, se_state k = Some (ch, s) → (ch <= mo_changed m')%nat ∧ (ch = mo_changed m' → s = mo_state m')).
  { intros ch s E. destruct (K2 ch s E) as [Hl He]. split; [lia |]. intros ->. rewrite Heq by lia. apply He. lia. }
  assert (Hc : ∀ ch, se_ch k = Some ch → (ch <= mo_changed m')%nat) by (intros ch E; specialize (K1 ch E); lia).
  split; cbn [sy_mon sy_hist].
  - destruct a; cbn in *; auto; intros ch E; injection E as <-; destruct Ha as [-> ->]; done.
  - destruct a; cbn in *; auto; try done.
    + destruct (se_ch k) as [c |] eqn:Ec; [| done]. intros ch s [= <- <-]. destruct Ha as [-> ->]. auto.
    + intros ch s [= <- <-]. by destruct Ha as [-> ->].
  - intros ->. rewrite announced_snoc, <- (K3 eq_refl). destruct a; cbn; try done. by rewrite decide_True.
Qed.

(** The others. *)
Lemma knows_still S i j ro k a r m' ts :
  i ≠ j → knows S j ro k → answer a r (sy_mon S) m' → knows (mkSystem m' ts (sy_hist S ++ [(i, existT a r)])) j ro k.
Proof.
  intros Hne [K1 K2 K3] Ha. destruct (answer_changes a r _ _ Ha) as [Hle Heq]. split; cbn [sy_mon sy_hist].
  - intros ch E. specialize (K1 ch E). lia.
  - intros ch s E. destruct (K2 ch s E) as [Hl He]. split; [lia |]. intros ->. rewrite Heq by lia. apply He. lia.
  - intros ->. rewrite announced_snoc, (K3 eq_refl). destruct a; try done. by rewrite decide_False.
Qed.

Lemma started_attentive : attentive (started ov absent network MaxBackoff turns).
Proof.
  intros [| [| i]] ro p; cbn; [by intros [= <- <-] | intros [= <- <-] _ | done].
  exists (mkSeen None None 0). split; [| by split].
  apply aware_bind; [apply (announce_aware turns (mkSeen None None 0)) | done].
Qed.

Lemma sstep_attentive S S' : sstep S S' → attentive S → attentive S'.
Proof.
  intros Hs HA. destruct Hs as [S i ro a c r m' Hi Ha | S round]; intros j ro' p; cbn.
  - intros [Hj | [_ Hj]]%lookup_app_Some Hw.
    + apply list_lookup_insert_Some in Hj as [(<- & [= <- <-] & _) | [Hne Hj]].
      * destruct (HA i ro _ Hi Hw) as (k & [_ Hk] & Hkn). exists (sees_next a k r). split; [apply Hk | by apply knows_next].
      * destruct (HA j ro' p Hj Hw) as (k & Hk & Hkn). exists k. split; [done | by apply knows_still].
    + destruct a; cbn in Hj; try done. destruct (j - _)%nat; [| done]. by injection Hj as <- <-.
  - intros [Hj | [_ Hj]]%lookup_app_Some Hw.
    + destruct (HA j ro' p Hj Hw) as (k & Hk & [K1 K2 K3]). exists k. split; [done | by split].
    + destruct (j - _)%nat; [| done]. injection Hj as <- <-. exists (mkSeen None None 0). split; [apply waitAfter_aware | by split].
Qed.

(** C16: Nobody who follows the monitor sleeps through a change, however many
    changes come while it is at work and wherever they fall between its taking
    the channel and its reading the state: whenever the directory's loop is at
    its select, either it can go on at once, the channel it holds being closed,
    or the state it announced last is the monitor's current one; and a caller
    of [WaitForBlockAfter] only waits, on a channel that is open, while the
    monitor has no status past its round. *)
Theorem watchers_awake S :
  reachable S →
  (∀ i ch c, sy_threads S !! i = Some (RAnnounce, Call (MAnnounceSelect ch) c) →
     answer (MAnnounceSelect ch) WChan (sy_mon S) (sy_mon S) ∨ announced i (sy_hist S) = ls_Seq (mo_state (sy_mon S))) ∧
  (∀ i round ch c, sy_threads S !! i = Some (RWait round, Call (MWaitSelect ch) c) →
     answer (MWaitSelect ch) WChan (sy_mon S) (sy_mon S) ∨ blockAfter (sy_mon S) round = None).
Proof.
  intros HR. assert (HA : attentive S).
  { revert S HR. apply (rtc_ind_r attentive); [apply started_attentive | intros S1 S2 _ Hstep IH; by eapply sstep_attentive]. }
  split.
  - intros i ch c Hi. destruct (HA i _ _ Hi eq_refl) as (k & [(s & E & Hs) _] & [_ K2 K3]). destruct (K2 ch s E) as [Hl He].
    destruct (decide (ch = mo_changed (sy_mon S))) as [-> |]; [right | left; cbn; split; [lia | done]].
    by rewrite <- (K3 eq_refl), <- (He eq_refl).
  - intros i round ch c Hi. destruct (HA i _ _ Hi eq_refl) as (k & [(s & E & Hs) _] & [_ K2 K3]). destruct (K2 ch s E) as [Hl He].
    destruct (decide (ch = mo_changed (sy_mon S))) as [-> |]; [right | left; cbn; split; [right; split; [done | lia] | done]].
    unfold blockAfter. by rewrite <- (He eq_refl).
Qed.
End Awake.

(** ** A run *)

(** The answers of one environment; the monitor's own calls answer for
    themselves. *)
Definition oracle : Type := ∀ a : MAct, MResp a.

Definition respond (w : oracle) (a : MAct) (m : Monitor) : option (MResp a * Monitor) :=
  match a with
  | MState => Some (mo_state m, m)
  | MChanged => Some (mo_changed m, m)
  | MBoth => Some ((mo_state m, mo_changed m), m)
  | MUpdate f => Some ((), update m f)
  | MRequestVerify => Some ((), requestVerify m)
  | MConfigSelect => match w MConfigSelect with WDone => Some (WDone, m) | _ => Some (WTick, m) end
  | MVerifySelect =>
      match w MVerifySelect with
      | WDone => Some (WDone, m)
      | WChan => if mo_verify m then Some (WChan, m <| mo_verify := false |>) else None
      | _ => Some (WTick, m)
      end
  | MWaitSelect ch => match w (MWaitSelect ch) with WDone => Some (WDone, m) | _ => if (ch <? mo_changed m)%nat then Some (WChan, m) else None end
  | MAnnounceSelect ch => match w (MAnnounceSelect ch) with WChan => if (ch <? mo_changed m)%nat then Some (WChan, m) else None | r => Some (r, m) end
  | a => Some (w a, m)
  end.

Lemma respond_answer w a m r m' : respond w a m = Some (r, m') → answer a r m m'.
Proof.
  destruct a; cbn; intros E; try (injection E as <- <-; done); repeat case_match; simplify_eq; try done; auto; (split; [| done]); try done;
    try (right; split; [done |]); try (intros _); by apply Nat.ltb_lt.
Qed.

Section Schedule.
Context (ov : option CapabilityOverrides) (absent : bool) (network : string) (MaxBackoff : Duration) (turns : nat).

(** A goroutine's next call, or a new caller. *)
Inductive move := Goes (i : nat) (w : oracle) | Calls (round : Z).

Definition play (S : System) (mv : move) : option System :=
  match mv with
  | Calls round => Some (S <| sy_threads := sy_threads S ++ [(RWait round, waitAfter turns round)] |>)
  | Goes i w =>
      match sy_threads S !! i with
      | Some (ro, Call a k) =>
          '(r, m') ← respond w a (sy_mon S);
          Some (mkSystem m' (<[i := (ro, k r)]> (sy_threads S) ++ spawned ov turns a) (sy_hist S ++ [(i, existT a r)]))
      | _ => None
      end
  end.

Definition plays (mvs : list move) : option System :=
  foldl (λ S mv, S ≫= λ S, play S mv) (Some (started ov absent network MaxBackoff turns)) mvs.

Lemma play_step S mv S' : play S mv = Some S' → sstep ov turns S S'.
Proof.
  destruct mv as [i w | round]; cbn; [| intros [= <-]; constructor].
  destruct (sy_threads S !! i) as [[ro [x | | a k]] |] eqn:Hi; [done | done | | done].
  destruct (respond w a (sy_mon S)) as [[r m'] |] eqn:E; [| done]. cbn. intros [= <-]. eapply goes_on; [done | by eapply respond_answer].
Qed.

Lemma plays_reachable mvs S : plays mvs = Some S → reachable ov absent network MaxBackoff turns S.
Proof.
  unfold plays, reachable. revert S. induction mvs as [| mv mvs IH] using rev_ind; intros S; [intros [= <-]; constructor |].
  rewrite foldl_app. cbn. destruct (foldl _ _ mvs) as [S1 |]; [| done]. cbn. intros Hp. eapply rtc_r; [by apply IH | by eapply play_step].
Qed.

Lemma plays_default d mvs : isNone (plays mvs) = false → reachable ov absent network MaxBackoff turns (default d (plays mvs)).
Proof. destruct (plays mvs) eqn:E; [intros _; by eapply plays_reachable | done]. Qed.
End Schedule.

Definition quiet : oracle := λ a,
  match a with
  | MState => zeroLocal | MChanged => 0%nat | MBoth => (zeroLocal, 0%nat)
  | MDone | MSleep _ => false
  | MReadConfig => Err "no data directory"
  | MStatus | MWaitAfter _ => Err "connection refused"
  | MVersions => Err "404"
  | MLimits => Ok None
  | MHasBlock _ => Ok true
  | MConfigSelect | MVerifySelect | MWaitSelect _ | MAnnounceSelect _ => WChan
  | _ => ()
  end.
Definition atRound (r : Z) (raw : string) : oracle := λ a,
  match a with MStatus | MWaitAfter _ => Ok (mkStatus r 0 0 false raw) | a => quiet a end.

(** The node comes online at round 7 while a caller waits for one past 5. *)
Definition comesOnline : list move :=
  [Calls 5; Goes 2 quiet; Goes 1 quiet; Goes 1 quiet] ++ repeat (Goes 0 quiet) 6 ++ [Goes 0 (atRound 7 "{round 7}")] ++ repeat (Goes 0 quiet) 3.
Definition online : System := default (mkSystem (NewMonitor false "") [] []) (plays None false "" Second 3 comesOnline).
Definition answered : System :=
  default (mkSystem (NewMonitor false "") [] []) (plays None false "" Second 3 (comesOnline ++ [Goes 2 quiet; Goes 2 quiet])).

(** What the caller was told. *)
Definition told (S : System) (i : nat) : option (role * waited) :=
  match sy_threads S !! i with Some (ro, Ret x) => Some (ro, x) | _ => None end.

Lemma told_thread S i ro x : told S i = Some (ro, x) → sy_threads S !! i = Some (ro, Ret x).
Proof. unfold told. destruct (sy_threads S !! i) as [[ro' []] |]; [by intros [= -> ->] | done..]. Qed.

(** Where a goroutine waits. *)
Definition waitsOn (S : System) (i : nat) : option (role * nat) :=
  match sy_threads S !! i with Some (ro, Call (MWaitSelect ch) _) => Some (ro, ch) | _ => None end.
Definition announcesOn (S : System) (i : nat) : option (role * nat) :=
  match sy_threads S !! i with Some (ro, Call (MAnnounceSelect ch) _) => Some (ro, ch) | _ => None end.

Lemma waitsOn_thread S i ro ch : waitsOn S i = Some (ro, ch) → ∃ c, sy_threads S !! i = Some (ro, Call (MWaitSelect ch) c).
Proof. unfold waitsOn. destruct (sy_threads S !! i) as [[ro' [| | [] c]] |]; try done. intros [= -> ->]. by exists c. Qed.
Lemma announcesOn_thread S i ro ch : announcesOn S i = Some (ro, ch) → ∃ c, sy_threads S !! i = Some (ro, Call (MAnnounceSelect ch) c).
Proof. unfold announcesOn. destruct (sy_threads S !! i) as [[ro' [| | [] c]] |]; try done. intros [= -> ->]. by exists c. Qed.

Lemma watchers_awake_witness :
  waitsOn online 2 = Some (RWait 5, 0%nat) ∧ announcesOn online 1 = Some (RAnnounce, 0%nat) ∧
  blockAfter (sy_mon online) 5 = Some "{round 7}"%string ∧ answer (MWaitSelect 0) WChan (sy_mon online) (sy_mon online) ∧
  answer (MAnnounceSelect 0) WChan (sy_mon online) (sy_mon online).
Proof.
  assert (R : reachable None false "" Second 3 online) by (apply plays_default; vm_compute; reflexivity).
  destruct (watchers_awake None false "" Second 3 online R) as [Ha Hw].
  assert (W : waitsOn online 2 = Some (RWait 5, 0%nat)) by (vm_compute; reflexivity).
  assert (A : announcesOn online 1 = Some (RAnnounce, 0%nat)) by (vm_compute; reflexivity).
  assert (B : blockAfter (sy_mon online) 5 = Some "{round 7}"%string) by (vm_compute; reflexivity).
  split; [exact W | split; [exact A | split; [exact B | split]]].
  - destruct (waitsOn_thread _ _ _ _ W) as [c Hc]. destruct (Hw _ _ _ _ Hc) as [H | H]; [exact H | congruence].
  - destruct (announcesOn_thread _ _ _ _ A) as [c Hc]. destruct (Ha _ _ _ Hc) as [H | H]; [exact H | vm_compute in H; discriminate H].
Defined.

Lemma monitor_says_what_node_said_witness :
  ls_LimitsKnown (mo_state (sy_mon answered)) = true ∧ told answered 2 = Some (RWait 5, Some (Some "{round 7}", false)) ∧
  (∃ l, limits_read (sy_hist answered) l) ∧ ∃ r, 5 < r ∧ status_read (sy_hist answered) "{round 7}" r.
Proof.
  assert (R : reachable None false "" Second 3 answered) by (apply plays_default; vm_compute; reflexivity).
  destruct (monitor_says_what_node_said None false "" Second 3 answered R) as [[Hl _ _] Ht].
  assert (Hk : ls_LimitsKnown (mo_state (sy_mon answered)) = true) by (vm_compute; reflexivity).
  assert (Ha : told answered 2 = Some (RWait 5, Some (Some "{round 7}", false))) by (vm_compute; reflexivity).
  split; [exact Hk | split; [exact Ha | split]].
  - destruct (Hl Hk) as (l & H & _). by exists l.
  - destruct (Ht 2%nat 5 (Some "{round 7}"%string) (told_thread _ _ _ _ Ha)) as (body & r & [= <-] & H). by exists r.
Defined.
