(* ===== verification/Wire.v ===== *)
(** * Wire: what an agent is built from, and its life
    (FromConfig and loopback of internal/agent/wire.go; Serve, Run, passthrough,
    listenAll and closeAll of internal/agent/agent.go)

    [FromConfig] chooses the adapters by the configuration.  [Serve] is a
    program over the calls that bind, start, stop and close; which of them
    fail, and what ends the agent, is the environment's.  The limiter's
    goroutine saves on its own: a run of the agent ([agentRun]) is any merge of
    its turns with Serve's calls. *)
From S2P Require Import Prelude GoFloat GoStrings GoTime GoNet Types Classify Codec Ports Prog Limiter Http Auth Addrs RateConfig Config ConfigLaws Bundle Passthrough Agent Select.
Open Scope Z_scope.

(** ** FromConfig *)

(** The adapter behind the registry port. *)
Inductive RegistryPort :=
  | RegChain (appID : Z) (seed : option string) (syncAddress url token : string) (throughRouter : bool)
  | RegFile (path : string)
  | RegMemory
  | RegStatic (records : list NodeRecord).

Record Deps := mkDeps {
  dp_Config : Config;
  dp_node : option (string * string);       (* the local client's endpoint and token; None: no node *)
  dp_Registry : RegistryPort;
  dp_Cache : option string;
  dp_AgentKey : string;
  dp_Timeout : Duration;                    (* of HTTPClient *)
  dp_loopback : bool;
  dp_warnings : list Warning
}.

Section FromConfig.
Context (cr : Crypto) (NewKeyFromSeed sha256 : string → string) (ToPrivateKey : string → option string).

(** What the data directory, the registry client and the gossip socket give. *)
Context (readDataDir : result error NodeConfig) (newRegistry : option error) (listenGossip : Addrs → option error).

(** A record of registry.static: one without a key gets its agent's. *)
Definition keyed (material : string) (r : NodeRecord) : result error NodeRecord :=
  if (String.length (ai_PubKey (nr_Agent r)) =? 0)%nat then
    k ← AgentKey cr NewKeyFromSeed material (nr_ID r);
    Ok (r <| nr_Agent ::= λ a, a <| ai_PubKey := Codec.Public cr k |> |>)
  else Ok r.

Fixpoint staticRecords (material : string) (rs : list NodeRecord) : result error (list NodeRecord) :=
  match rs with
  | [] => Ok []
  | r :: rs => r ← keyed material r; rs ← staticRecords material rs; Ok (r :: rs)
  end.

Definition registryOf (c : Config) (material : string) : result error (RegistryPort * option string * bool) :=
  let r := cf_Registry c in
  if rg_Type r =s "algorand" then
    seed ← SyncSeed ToPrivateKey c;
    let lb := rg_AlgodURL r =s "" in
    let '(url, token) := if lb then ("http://loopback"%string, cf_ClientToken c) else (rg_AlgodURL r, rg_AlgodToken r) in
    match newRegistry with
    | Some e => Err e
    | None => Ok (RegChain (rg_AppID r) seed (rg_SyncAddress r) url token lb, if rg_Cache r <>s "" then Some (rg_Cache r) else None, lb)
    end
  else if rg_Type r =s "file" then Ok (RegFile (rg_File r), None, false)
  else if rg_Type r =s "memory" then Ok (RegMemory, None, false)
  else rs ← staticRecords material (rg_Static r); Ok (RegStatic rs, None, false).

(** FromConfig, of a configuration already finished. *)
Definition FromConfig (c : Config) : result error Deps :=
  node ← (if Balancer c then Ok None else nc ← readDataDir; Ok (Some (nc_Endpoint nc, nc_Token nc)));
  material ← KeyMaterial ToPrivateKey sha256 c;
  key ← AgentKey cr NewKeyFromSeed material (lc_ID (cf_Local c));
  r ← registryOf c material;
  match listenGossip (ms_Listen (cf_Mesh c)) with
  | Some e => Err ("mesh.listen: " +:+ e)%string
  | None =>
      Ok (mkDeps c node r.1.1 r.1.2 key (wi64 (cr_UpstreamTimeout (cf_Routing c) + Second)) r.2 (Warnings c))
  end.
End FromConfig.

(** loopback.RoundTrip: the request as the router is given it. *)
Definition loopbackRequest (req : Request) : Request := req <| rq_RemoteAddr := "loopback" |>.

(** The router's authorization, of a configuration. *)
Definition routerAuth (c : Config) : AuthOptions := authOf (cf_RateLimit c) (cf_ClientToken c) (cf_AdminToken c).

(** ** The agent's life *)

(** Listeners and pass-through servers are numbers. *)
Inductive LAct :=
  | LListen (addr : string)
  | LClose (h : nat)
  | LReadConfig
  | LPassListen (addrs : Addrs)
  | LPassthrough (addrs skipped : Addrs)      (* Router.SetPassthrough *)
  | LRun                                       (* go a.Run *)
  | LServeOn (h : nat)                         (* go srv.Serve *)
  | LServePass (p : nat)                       (* go ps.Serve *)
  | LWait                                      (* the select: None when the context is done, else what errc gave *)
  | LPassClose (p : nat)
  | LDraining
  | LShutdown
  | LSave
  | LPassShutdown (p : nat)
  | LGossipClose.

Definition LResp (a : LAct) : Type :=
  match a with
  | LListen _ | LPassListen _ => result error nat
  | LReadConfig => result error NodeConfig
  | LWait => option (option error)
  | LShutdown => option error
  | _ => ()
  end.

Declare Scope life_scope.
Definition Life : Type → Type := prog LResp.
Definition lcall (a : LAct) : Life (LResp a) := Call a Ret.
Definition lthen {A B} (m : Life A) (f : A → Life B) : Life B := bind f m.
Notation "'let*' x := m 'in' k" := (lthen m (λ x, k)) (at level 10, x binder, m at level 200, k at level 200) : life_scope.
Notation "m ;; k" := (lthen m (λ _, k)) (at level 100, right associativity) : life_scope.
Open Scope life_scope.

Fixpoint closeAll (lns : list nat) : Life () :=
  match lns with [] => Ret () | h :: lns => lcall (LClose h);; closeAll lns end.

(** listenAll; opened: the listeners so far. *)
Fixpoint listenAll (addrs : Addrs) (opened : list nat) : Life (result error (list nat)) :=
  match addrs with
  | [] => Ret (Ok opened)
  | addr :: addrs =>
      let* ln := lcall (LListen addr) in
      match ln with
      | Err e => closeAll opened;; Ret (Err ("listen " +:+ addr +:+ ": " +:+ e)%string)
      | Ok h => listenAll addrs (opened ++ [h])
      end
  end.

Section Life.
Context (c : Config) (limited : bool).

(** passthrough: None when nothing is to be bound. *)
Definition passthrough : Life (result error (option nat)) :=
  let pt := lc_Passthrough (cf_Local c) in
  match pt with
  | [] => Ret (Ok None)
  | _ =>
      let* nc := lcall LReadConfig in
      match nc with
      | Err e => Ret (Err e)
      | Ok nc =>
          let '(keep, skipped) := filterPassthrough pt (nc_NetAddr nc) in
          let* ps := match keep with [] => Ret (Ok None) | _ => let* p := lcall (LPassListen keep) in Ret match p with Ok p => Ok (Some p) | Err e => Err e end end in
          match ps with
          | Err e => Ret (Err e)
          | Ok ps => lcall (LPassthrough keep skipped);; Ret (Ok ps)
          end
      end
  end.

Fixpoint serveOn (lns : list nat) : Life () :=
  match lns with [] => Ret () | h :: lns => lcall (LServeOn h);; serveOn lns end.

Definition forPass (ps : option nat) (a : nat → LAct) : Life () :=
  match ps with Some p => lcall (a p);; Ret () | None => Ret () end.

(** The drain, once the context is done. *)
Definition drain (ps : option nat) : Life (option error) :=
  lcall LDraining;;
  let* err := lcall LShutdown in
  (if limited then lcall LSave;; Ret () else Ret ());;
  forPass ps LPassShutdown;;
  lcall LGossipClose;;
  Ret err.

(** Serve; None: no error. *)
Definition Serve : Life (option error) :=
  let* lns := listenAll (cf_Listen c) [] in
  match lns with
  | Err e => Ret (Some e)
  | Ok lns =>
      finally
        (let* ps := passthrough in
         match ps with
         | Err e => Ret (Some e)
         | Ok ps =>
             lcall LRun;;
             serveOn lns;;
             forPass ps LServePass;;
             let* ended := lcall LWait in
             match ended with
             | Some (Some e) => forPass ps LPassClose;; Ret (Some e)
             | _ => drain ps
             end
         end)
        (closeAll lns)
  end.
End Life.

(** Run: every service started, the first result, then the others'. *)
Inductive RAct := RGo (service : string) | RFirst | RCancel | ROther.
Definition RResp (a : RAct) : Type := match a with RFirst | ROther => option error | _ => () end.

Fixpoint goAll (services : list string) : prog RResp () :=
  match services with [] => Ret () | s :: services => Call (RGo s) (λ _, goAll services) end.
Fixpoint awaitOthers (services : list string) : prog RResp () :=
  match services with [] => Ret () | _ :: services => Call ROther (λ _, awaitOthers services) end.

Definition servicesOf (limited : bool) : list string := ["monitor"; "directory"; "registry"] ++ (if limited then ["limiter"] else []).

Definition canceled : error := "context canceled".

Definition Run (limited : bool) : prog RResp (option error) :=
  let services := servicesOf limited in
  bind (λ _, Call RFirst (λ err, Call RCancel (λ _,
    bind (λ _, Ret (if bool_decide (err = Some canceled) then None else err)) (awaitOthers (tail services))))) (goAll services).

(** *** The limiter's goroutine, beside Serve's

    Limiter.Run (internal/app/ratelimit.go; its program is [LimiterRun.Run]) as
    far as the files see it: it loads once, then takes turns, and saves once
    more when its context is done.  It is cut off anywhere when the process
    exits. *)
Inductive limiterTurn := TurnLoad | TurnTick | TurnSave | TurnEnd.

Definition limiterTurns (limited : bool) (ts : list limiterTurn) : Prop :=
  ts = [] ∨ limited = true ∧ ∃ loop, Forall (λ u, u = TurnTick ∨ u = TurnSave) loop ∧
    (ts = TurnLoad :: loop ∨ ts = TurnLoad :: loop ++ [TurnEnd]).

(** Any interleaving of two sequences. *)
Inductive merged {A B} : list A → list B → list (A + B) → Prop :=
  | merged_nil : merged [] [] []
  | merged_left a l1 l2 l : merged l1 l2 l → merged (a :: l1) l2 (inl a :: l)
  | merged_right b l1 l2 l : merged l1 l2 l → merged l1 (b :: l2) (inr b :: l).

(** A run of the agent: Serve's calls with the limiter's turns among and after
    them, the first of those after Serve started the services. *)
Definition agentRun (c : Config) (limited : bool) (tr : list (sigT LResp + limiterTurn)) (x : option (option error)) : Prop :=
  ∃ t ts, runs (Serve c limited) t x ∧ merged t ts tr ∧ limiterTurns limited ts ∧
    ∀ tr1 u tr2, tr = tr1 ++ inr u :: tr2 → inl (existT LRun ()) ∈ tr1.

(** ** What an agent does in its life *)
Abbreviation LTrace := (list (sigT LResp)).

Definition opens (addrs : Addrs) (hs : list nat) : LTrace := zip_with (λ a h, existT (LListen a) (Ok h)) addrs hs.
Definition closes (hs : list nat) : LTrace := (λ h, existT (LClose h) ()) <$> hs.
Definition serves (hs : list nat) : LTrace := (λ h, existT (LServeOn h) ()) <$> hs.
Definition passing (ps : option nat) (f : nat → sigT LResp) : LTrace := match ps with Some p => [f p] | None => [] end.
Definition saves (limited : bool) : LTrace := if limited then [existT LSave ()] else [].

(** Serve's ends: an address that does not bind, a pass-through that does not,
    a service or a listener that fails, and the drain. *)
Inductive life (c : Config) (limited : bool) : LTrace → option error → Prop :=
  | life_unbound pre a post hs e :
      cf_Listen c = pre ++ a :: post → length hs = length pre →
      life c limited (opens pre hs ++ existT (LListen a) (Err e) :: closes hs) (Some ("listen " +:+ a +:+ ": " +:+ e)%string)
  | life_unpassed hs tp e :
      length hs = length (cf_Listen c) → runs (passthrough c) tp (Some (Err e)) →
      life c limited (opens (cf_Listen c) hs ++ tp ++ closes hs) (Some e)
  | life_failed hs tp ps e :
      length hs = length (cf_Listen c) → runs (passthrough c) tp (Some (Ok ps)) →
      life c limited
        (opens (cf_Listen c) hs ++ tp ++ existT LRun () :: serves hs ++ passing ps (λ p, existT (LServePass p) ()) ++
         existT LWait (Some (Some e)) :: passing ps (λ p, existT (LPassClose p) ()) ++ closes hs) (Some e)
  | life_drained hs tp ps w err :
      length hs = length (cf_Listen c) → runs (passthrough c) tp (Some (Ok ps)) → w = None ∨ w = Some None →
      life c limited
        (opens (cf_Listen c) hs ++ tp ++ existT LRun () :: serves hs ++ passing ps (λ p, existT (LServePass p) ()) ++
         existT LWait w :: existT LDraining () :: existT LShutdown err :: saves limited ++
         passing ps (λ p, existT (LPassShutdown p) ()) ++ existT LGossipClose () :: closes hs) err.

Lemma closeAll_runs lns : ∀ t x, runs (closeAll lns) t x ↔ t = closes lns ∧ x = Some ().
Proof.
  induction lns as [| h lns IH]; intros t x; [done |]. cbn [closeAll lthen lcall bind runs closes fmap list_fmap]. split.
  - intros ([] & t' & -> & [-> ->]%IH). done.
  - intros [-> ->]. eexists (), _. split; [done |]. by apply IH.
Qed.

Lemma serveOn_runs lns : ∀ t x, runs (serveOn lns) t x ↔ t = serves lns ∧ x = Some ().
Proof.
  induction lns as [| h lns IH]; intros t x; [done |]. cbn [serveOn lthen lcall bind runs serves fmap list_fmap]. split.
  - intros ([] & t' & -> & [-> ->]%IH). done.
  - intros [-> ->]. eexists (), _. split; [done |]. by apply IH.
Qed.

Lemma listenAll_runs addrs : ∀ opened t x, runs (listenAll addrs opened) t x →
  (∃ hs, length hs = length addrs ∧ t = opens addrs hs ∧ x = Some (Ok (opened ++ hs))) ∨
  (∃ pre a post hs e, addrs = pre ++ a :: post ∧ length hs = length pre ∧
     t = opens pre hs ++ existT (LListen a) (Err e) :: closes (opened ++ hs) ∧ x = Some (Err ("listen " +:+ a +:+ ": " +:+ e)%string)).
Proof.
  induction addrs as [| addr addrs IH]; intros opened t x; cbn [listenAll].
  - intros [-> ->]. left. exists []. by rewrite app_nil_r.
  - intros ([h | e] & t' & -> & Hr); cbn [lthen lcall bind] in Hr.
    + apply IH in Hr as [(hs & El & -> & ->) | (pre & a & post & hs & e & -> & El & -> & ->)].
      * left. exists (h :: hs). rewrite <- app_assoc. split; [by cbn; rewrite El | done].
      * right. exists (addr :: pre), a, post, (h :: hs), e. rewrite <- app_assoc. split; [done | split; [by cbn; rewrite El | done]].
    + right. apply runs_bind in Hr as [(t1 & t2 & [] & -> & [-> _]%closeAll_runs & [-> ->]) | [[_ [=]]%closeAll_runs _]].
      exists [], addr, addrs, [], e. by rewrite !app_nil_r.
Qed.

Lemma lthen_runs {A B} (f : A → Life B) (m : Life A) t x : runs (lthen m f) t x → (∃ t1 t2 a, t = t1 ++ t2 ∧ runs m t1 (Some a) ∧ runs (f a) t2 x) ∨ runs m t None.
Proof. intros [H | [H _]]%runs_bind; auto. Qed.

(** Inverting a run call by call. *)
Ltac lrun H := repeat (cbn [lthen lcall bind forPass runs] in H; lazymatch type of H with ex _ => let r := fresh in destruct H as (r & ? & -> & H); try (destruct r; []) | _ ∧ _ => destruct H as [-> ->] end).

Lemma passthrough_returns c t : ¬ runs (passthrough c) t None.
Proof.
  unfold passthrough. destruct (lc_Passthrough (cf_Local c)) as [| a pt]; [by intros [_ [=]] |].
  intros ([nc | e] & t' & _ & Hr); cbn [lthen lcall bind] in Hr; [| by destruct Hr as [_ [=]]].
  destruct (filterPassthrough _ _) as [keep skipped]. destruct keep as [| k keep]; cbn [lthen lcall bind] in Hr.
  - destruct Hr as ([] & t2 & _ & [_ [=]]).
  - destruct Hr as ([p | e] & t2 & _ & Hr); cbn [lthen lcall bind] in Hr; [by destruct Hr as ([] & t3 & _ & [_ [=]]) | by destruct Hr as [_ [=]]].
Qed.

Section Shape.
Context (c : Config) (limited : bool).

Lemma drain_runs ps t x : runs (drain limited ps) t x →
  ∃ err, t = existT LDraining () :: existT LShutdown err :: saves limited ++ passing ps (λ p, existT (LPassShutdown p) ()) ++ [existT LGossipClose ()] ∧ x = Some err.
Proof.
  unfold drain. intros H. cbn [lthen lcall bind] in H. destruct H as ([] & t1 & -> & err & t2 & -> & H). exists err.
  destruct limited, ps; lrun H; done.
Qed.

Lemma Serve_life t x : runs (Serve c limited) t x → ∃ r, x = Some r ∧ life c limited t r.
Proof.
  intros [(t1 & t2 & lns & -> & H1 & H2) | H]%lthen_runs.
  2: { apply listenAll_runs in H as [(hs & _ & _ & [=]) | (? & ? & ? & ? & ? & _ & _ & _ & [=])]. }
  apply listenAll_runs in H1 as [(hs & El & -> & [= ->]) | (pre & a & post & hs & e & El & Eh & -> & [= ->])].
  2: { destruct H2 as [-> ->]. eexists. split; [done |]. rewrite app_nil_r. by eapply life_unbound. }
  cbn [app] in H2. apply runs_finally in H2 as (ta & tc & y & z & -> & Ha & [-> ->]%closeAll_runs & ->).
  apply lthen_runs in Ha as [(tp & tb & ps & -> & Hp & Hb) | Hp]; [| by apply passthrough_returns in Hp].
  destruct ps as [ps | e]; [| destruct Hb as [-> ->]; eexists; split; [done |]; rewrite app_nil_r; by eapply life_unpassed].
  destruct Hb as ([] & tb' & -> & Hb). cbn [lthen lcall bind] in Hb.
  apply lthen_runs in Hb as [(ts & tb'' & [] & -> & [-> _]%serveOn_runs & Hb) | [_ [=]]%serveOn_runs].
  assert (Hw : ∃ w te, tb'' = passing ps (λ p, existT (LServePass p) ()) ++ existT LWait w :: te ∧
    runs (match w with Some (Some e) => forPass ps LPassClose;; Ret (Some e) | _ => drain limited ps end) te y).
  { destruct ps; cbn [forPass lthen lcall bind] in Hb; [destruct Hb as ([] & te & -> & Hb); cbn [lthen lcall bind] in Hb |];
      destruct Hb as (w & te' & -> & Hb); by exists w, te'. }
  destruct Hw as (w & te & -> & Hw). rewrite <- !app_assoc. cbn [app]. rewrite <- !app_assoc. cbn [app].
  assert (Hd : runs (drain limited ps) te y → w = None ∨ w = Some None → ∃ r, y = Some r ∧ life c limited
    (opens (cf_Listen c) hs ++ tp ++ existT LRun () :: serves hs ++ passing ps (λ p, existT (LServePass p) ()) ++ existT LWait w :: te ++ closes hs) r).
  { intros (err & -> & ->)%drain_runs Hn. exists err. split; [done |]. cbn [app]. rewrite <- !app_assoc. by apply life_drained. }
  destruct w as [[e |] |]; [| by apply Hd; [| right] | by apply Hd; [| left]].
  exists (Some e). destruct ps; lrun Hw; (split; [done |]).
  - apply (life_failed c limited hs tp (Some n)); done.
  - apply (life_failed c limited hs tp None); done.
Qed.
End Shape.

(** *** What can be read off it *)
Definition boundAt (e : sigT LResp) : option (string * nat) := match e with existT (LListen a) (Ok h) => Some (a, h) | _ => None end.
Definition closedIn (e : sigT LResp) : option nat := match e with existT (LClose h) _ => Some h | _ => None end.
Definition passOpened (e : sigT LResp) : option nat := match e with existT (LPassListen _) (Ok p) => Some p | _ => None end.
Definition passEnded (e : sigT LResp) : option nat := match e with existT (LPassClose p) _ | existT (LPassShutdown p) _ => Some p | _ => None end.
Definition isStart (e : sigT LResp) : bool := match projT1 e with LRun | LServeOn _ | LServePass _ => true | _ => false end.
Definition isDraining (e : sigT LResp) : bool := match projT1 e with LDraining => true | _ => false end.
Definition isSave (e : sigT LResp) : bool := match projT1 e with LSave => true | _ => false end.

Lemma opens_bound addrs : ∀ hs, length hs = length addrs →
  omap boundAt (opens addrs hs) = zip addrs hs ∧ omap closedIn (opens addrs hs) = [] ∧ omap passOpened (opens addrs hs) = [] ∧
  existsb isStart (opens addrs hs) = false ∧ existsb isDraining (opens addrs hs) = false ∧ existsb isSave (opens addrs hs) = false.
Proof.
  unfold opens. induction addrs as [| a addrs IH]; intros [| h hs]; try done. intros [= E]. destruct (IH hs E) as (E1 & E2 & E3 & E4 & E5 & E6).
  cbn. rewrite E1, E2, E3, E4, E5, E6. done.
Qed.

Lemma closes_bound hs : omap boundAt (closes hs) = [] ∧ omap closedIn (closes hs) = hs ∧ omap passOpened (closes hs) = [] ∧
  existsb isStart (closes hs) = false ∧ existsb isDraining (closes hs) = false ∧ existsb isSave (closes hs) = false.
Proof. unfold closes. induction hs as [| h hs (E1 & E2 & E3 & E4 & E5 & E6)]; [done |]. cbn. by rewrite E1, E2, E3, E4, E5, E6. Qed.

Lemma serves_bound hs : omap boundAt (serves hs) = [] ∧ omap passOpened (serves hs) = [] ∧ existsb isDraining (serves hs) = false ∧ existsb isSave (serves hs) = false.
Proof. unfold serves. induction hs as [| h hs (E1 & E2 & E3 & E4)]; [done |]. cbn. by rewrite E1, E2, E3, E4. Qed.

Lemma passthrough_bound c t r : runs (passthrough c) t (Some r) →
  omap boundAt t = [] ∧ omap passOpened t = match r with Ok (Some p) => [p] | _ => [] end ∧
  existsb isStart t = false ∧ existsb isDraining t = false ∧ existsb isSave t = false.
Proof.
  unfold passthrough. destruct (lc_Passthrough (cf_Local c)) as [| a pt]; [by intros [-> [= ->]] |].
  intros ([nc | e] & t' & -> & Hr); cbn [lthen lcall bind] in Hr; [| by destruct Hr as [-> [= ->]]].
  destruct (filterPassthrough _ _) as [keep skipped]. destruct keep as [| k keep]; cbn [lthen lcall bind] in Hr.
  - by destruct Hr as ([] & t2 & -> & [-> [= ->]]).
  - destruct Hr as ([p | e] & t2 & -> & Hr); cbn [lthen lcall bind] in Hr; [by destruct Hr as ([] & t3 & -> & [-> [= ->]]) | by destruct Hr as [-> [= ->]]].
Qed.

(** What was bound when something first starts. *)
Lemma bound_before (p q t1 t2 : LTrace) e :
  existsb isStart p = false → omap boundAt q = [] → p ++ q = t1 ++ e :: t2 → isStart e = true → omap boundAt t1 = omap boundAt p.
Proof.
  intros Hp Hq. revert t1. induction p as [| x p IH]; intros t1 E He.
  - cbn in E. subst q. rewrite omap_app in Hq. by apply app_eq_nil in Hq as [-> _].
  - cbn in Hp. apply orb_false_iff in Hp as [Hx Hp]. destruct t1 as [| y t1]; injection E as -> E; [congruence |].
    cbn. by rewrite (IH Hp t1 E He).
Qed.

Lemma zip_fst {A B} (l : list A) : ∀ k : list B, length k = length l → (zip l k).*1 = l.
Proof. induction l as [| a l IH]; intros [| b k]; try done. intros [= E]. cbn. by rewrite IH. Qed.
Lemma zip_snd {A B} (l : list A) : ∀ k : list B, length k = length l → (zip l k).*2 = k.
Proof. induction l as [| a l IH]; intros [| b k]; try done. intros [= E]. cbn. by rewrite IH. Qed.

Section Lifecycle.
Context (c : Config) (limited : bool).

Local Definition well_lived (t : LTrace) (r : option error) : Prop :=
  (∀ a h, (a, h) ∈ omap boundAt t → h ∈ omap closedIn t) ∧
  (∀ p, p ∈ omap passOpened t → p ∈ omap passEnded t) ∧
  (∀ t1 e t2, t = t1 ++ e :: t2 → isStart e = true → (omap boundAt t1).*1 = cf_Listen c) ∧
  (r = None → existsb isDraining t = true) ∧
  (existsb isDraining t = true → ∃ t1 err ps hs,
     t = t1 ++ existT LDraining () :: existT LShutdown err :: saves limited ++ passing ps (λ p, existT (LPassShutdown p) ()) ++ existT LGossipClose () :: closes hs ∧
     existsb isSave t1 = false ∧ r = err).

(** An end before anything started. *)
Lemma unstarted_well (t : LTrace) (e : error) (addrs : Addrs) hs :
  length hs = length addrs → omap boundAt t = zip addrs hs → (∀ h, h ∈ hs → h ∈ omap closedIn t) → omap passOpened t = [] →
  existsb isStart t = false → existsb isDraining t = false → well_lived t (Some e).
Proof.
  intros El Hb Hc Hp Hs Hd. unfold well_lived. rewrite Hb, Hp, Hd. split; [| split; [| split; [| done]]].
  - intros a h Hin. apply Hc. rewrite <- (zip_snd addrs hs El). by apply (list_elem_of_fmap_2 snd _ (a, h)).
  - by intros p ?%elem_of_nil.
  - intros t1 e' t2 -> He. rewrite existsb_app in Hs. cbn in Hs. rewrite He in Hs. by rewrite orb_true_r in Hs.
Qed.

(** An end after the start: what was bound is bound before it. *)
Lemma started_well (tp q : LTrace) hs ps r :
  length hs = length (cf_Listen c) → runs (passthrough c) tp (Some (Ok ps)) →
  omap boundAt q = [] → omap passOpened q = [] → (∀ h, h ∈ hs → h ∈ omap closedIn q) → (∀ p, ps = Some p → p ∈ omap passEnded q) →
  (r = None → existsb isDraining q = true) →
  (existsb isDraining q = true → ∃ t1 err ps hs,
     q = t1 ++ existT LDraining () :: existT LShutdown err :: saves limited ++ passing ps (λ p, existT (LPassShutdown p) ()) ++ existT LGossipClose () :: closes hs ∧
     existsb isSave t1 = false ∧ r = err) →
  well_lived (opens (cf_Listen c) hs ++ tp ++ q) r.
Proof.
  intros El Hp Qb Qp Qc Qe Qn Qd. destruct (opens_bound _ hs El) as (O1 & O2 & O3 & O4 & O5 & O6), (passthrough_bound _ _ _ Hp) as (P1 & P2 & P3 & P4 & P5).
  split; [| split; [| split; [| split]]].
  - intros a h Hin. rewrite !omap_app, O1, P1, Qb, !app_nil_r in Hin. rewrite !omap_app, !elem_of_app. right; right. apply Qc.
    rewrite <- (zip_snd (cf_Listen c) hs El). by apply (list_elem_of_fmap_2 snd _ (a, h)).
  - intros p Hin. rewrite !omap_app, O3, P2, Qp, app_nil_r in Hin. destruct ps as [p' |]; [| by apply elem_of_nil in Hin].
    apply list_elem_of_singleton in Hin as ->. rewrite !omap_app, !elem_of_app. right; right. by apply Qe.
  - intros t1 e t2 E He. rewrite app_assoc in E. erewrite (bound_before (opens (cf_Listen c) hs ++ tp) q t1 t2 e); [| | done | done | done].
    + rewrite omap_app, O1, P1, app_nil_r. by apply zip_fst.
    + by rewrite existsb_app, O4, P3.
  - intros E. rewrite !existsb_app, (Qn E), !orb_true_r. done.
  - intros E. rewrite !existsb_app, O5, P4 in E. destruct (Qd E) as (t1 & err & ps' & hs' & -> & Hs & ->).
    exists (opens (cf_Listen c) hs ++ tp ++ t1), err, ps', hs'. rewrite <- !app_assoc. split; [done | split; [| done]].
    by rewrite !existsb_app, O6, P5, Hs.
Qed.

Lemma life_well t r : life c limited t r → well_lived t r.
Proof.
  intros [pre a post hs e E El | hs tp e El Hp | hs tp ps e El Hp | hs tp ps w err El Hp Hw].
  - destruct (opens_bound pre hs El) as (O1 & O2 & O3 & O4 & O5 & O6), (closes_bound hs) as (C1 & C2 & C3 & C4 & C5 & C6).
    apply (unstarted_well _ _ pre hs El); rewrite ?omap_app, ?existsb_app; cbn; rewrite ?O1, ?O2, ?O3, ?O4, ?O5, ?C1, ?C2, ?C3, ?C4, ?C5, ?app_nil_r; done.
  - destruct (opens_bound _ hs El) as (O1 & O2 & O3 & O4 & O5 & O6), (closes_bound hs) as (C1 & C2 & C3 & C4 & C5 & C6), (passthrough_bound _ _ _ Hp) as (P1 & P2 & P3 & P4 & P5).
    apply (unstarted_well _ _ (cf_Listen c) hs El); rewrite ?omap_app, ?existsb_app, ?O1, ?O3, ?O4, ?O5, ?P1, ?P2, ?P3, ?P4, ?C1, ?C2, ?C3, ?C4, ?C5, ?app_nil_r; try done.
    intros h Hh. rewrite !elem_of_app. by right; right.
  - destruct (serves_bound hs) as (S1 & S2 & S3 & S4), (closes_bound hs) as (C1 & C2 & C3 & C4 & C5 & C6). apply (started_well tp _ hs ps); try done.
    + destruct ps; cbn; rewrite !omap_app; cbn; by rewrite S1, C1.
    + destruct ps; cbn; rewrite !omap_app; cbn; by rewrite S2, C3.
    + intros h Hh. cbn. rewrite omap_app, elem_of_app. right. destruct ps; cbn; by rewrite C2.
    + intros p ->. cbn. rewrite omap_app, elem_of_app. right. cbn. by left.
    + destruct ps; cbn; rewrite !existsb_app; cbn; rewrite S3, C5; done.
  - destruct (serves_bound hs) as (S1 & S2 & S3 & S4), (closes_bound hs) as (C1 & C2 & C3 & C4 & C5 & C6). apply (started_well tp _ hs ps); try done.
    + destruct ps, limited; cbn; rewrite !omap_app; cbn; by rewrite S1, C1.
    + destruct ps, limited; cbn; rewrite !omap_app; cbn; by rewrite S2, C3.
    + intros h Hh. cbn. rewrite omap_app, elem_of_app. right. destruct ps, limited; cbn; by rewrite C2.
    + intros p ->. cbn. rewrite omap_app, elem_of_app. right. destruct limited; cbn; by left.
    + intros _. destruct ps; cbn; rewrite !existsb_app; cbn; by rewrite orb_true_r.
    + intros _. exists (existT LRun () :: serves hs ++ passing ps (λ p, existT (LServePass p) ()) ++ [existT LWait w]), err, ps, hs.
      split; [cbn; by rewrite <- !app_assoc | split; [| done]]. cbn. rewrite !existsb_app, S4. by destruct ps.
Qed.

(** *** With the limiter's own goroutine *)

(** What is seen of the agent: calls of Serve, and turns of Limiter.Run. *)
Definition of_serve (e : sigT LResp + limiterTurn) : option (sigT LResp) := match e with inl e => Some e | inr _ => None end.
Definition saves_now (e : sigT LResp + limiterTurn) : bool :=
  match e with inl e => isSave e | inr u => match u with TurnSave | TurnEnd => true | _ => false end end.

Lemma merged_serve {t ts tr} : merged t ts tr → omap of_serve tr = t.
Proof. induction 1 as [| e t ts tr _ IH | u t ts tr _ IH]; cbn; by rewrite ?IH. Qed.

(** Where a call of Serve stands, what Serve called before it is before it. *)
Lemma split_serve tr e t1 t2 :
  omap of_serve tr = t1 ++ e :: t2 → ∃ tr1 tr2, tr = tr1 ++ inl e :: tr2 ∧ omap of_serve tr1 = t1 ∧ omap of_serve tr2 = t2.
Proof.
  revert t1. induction tr as [| [e' | u] tr IH]; intros t1 E; cbn in E; [by destruct t1 | |].
  - destruct t1 as [| e1 t1]; [injection E as -> <-; by exists [], tr |]. injection E as -> E.
    destruct (IH t1 E) as (tr1 & tr2 & -> & <- & <-). by exists (inl e1 :: tr1), tr2.
  - destruct (IH t1 E) as (tr1 & tr2 & -> & <- & <-). by exists (inr u :: tr1), tr2.
Qed.

Lemma last_after {A} (s : A) tr1 tr2 l1 x l2 :
  tr1 ++ s :: tr2 = l1 ++ x :: l2 → x ∉ tr2 → ∃ l, tr1 = l1 ++ l.
Proof.
  revert l1. induction tr1 as [| y tr1 IH]; intros [| z l1] E Hx; cbn in E; [by exists [] | | by exists (y :: tr1) |].
  - injection E as -> E. destruct Hx. rewrite E. apply elem_of_app. right. by left.
  - injection E as -> E. destruct (IH l1 E Hx) as [l ->]. by exists l.
Qed.

(** C23: however an agent's life ends (an address taken, a pass-through that
    does not bind, a service or a listener that fails, or its context): every
    listener it opened is closed, and a pass-through it opened is closed or
    shut down; no service and no listener starts before every client address
    is bound, each once and in order; and when it drains, which it does
    whenever it ends without an error, it first tells the mesh, then shuts the
    HTTP server down, and only then saves the limiter's allowances, once, and
    lets go of the pass-through and the gossip socket; what it returns then is
    the shutdown's error.  The limiter's Run saves too, in a goroutine Serve
    does not wait for, at any time from its start on: but whichever save is
    the last, it begins after the HTTP server was shut down, so the requests
    that drained are in it. *)
Theorem serve_lifecycle tr x :
  agentRun c limited tr x →
  let t := omap of_serve tr in
  ∃ r, x = Some r ∧
    (∀ a h, (a, h) ∈ omap boundAt t → h ∈ omap closedIn t) ∧
    (∀ p, p ∈ omap passOpened t → p ∈ omap passEnded t) ∧
    (∀ t1 e t2, t = t1 ++ e :: t2 → isStart e = true → (omap boundAt t1).*1 = cf_Listen c) ∧
    (r = None → existsb isDraining t = true) ∧
    (existsb isDraining t = true → ∃ t1 err ps hs,
       t = t1 ++ existT LDraining () :: existT LShutdown err :: saves limited ++ passing ps (λ p, existT (LPassShutdown p) ()) ++ existT LGossipClose () :: closes hs ∧
       existsb isSave t1 = false ∧ r = err) ∧
    (existsb isDraining t = true → limited = true →
       ∃ tr1 s tr2 err, tr = tr1 ++ s :: tr2 ∧ saves_now s = true ∧ existsb saves_now tr2 = false ∧ inl (existT LShutdown err) ∈ tr1).
Proof.
  intros (t & ts & H & Hm & Hts & Ht). cbn zeta. rewrite (merged_serve Hm).
  destruct (Serve_life c limited t x H) as (r & -> & Hl). exists r. destruct (life_well t r Hl) as (W1 & W2 & W3 & W4 & W5).
  split_and!; [done.. |]. intros Hd Hlim. destruct (W5 Hd) as (t1 & err & ps & hs & Et & Hs1 & _). rewrite Hlim in Et. cbn [saves app] in Et.
  assert (E : omap of_serve tr = (t1 ++ [existT LDraining (); existT LShutdown err]) ++ existT LSave () ::
    passing ps (λ p, existT (LPassShutdown p) ()) ++ existT LGossipClose () :: closes hs) by (rewrite (merged_serve Hm), Et, <- app_assoc; done).
  destruct (split_serve _ _ _ _ E) as (l1 & l2 & El & E1 & _).
  assert (Hsd : inl (existT LShutdown err) ∈ l1).
  { assert (existT LShutdown err ∈ omap of_serve l1) as ([e | u] & Hin & [= ->])%list_elem_of_omap; [| done].
    rewrite E1. apply elem_of_app. right. right. by left. }
  assert (∃ tr1 s tr2, tr = tr1 ++ s :: tr2 ∧ saves_now s = true ∧ existsb saves_now tr2 = false) as (tr1 & s & tr2 & Etr & Hs & Hno).
  { assert (existsb saves_now tr = true) as Hex by (rewrite El, existsb_app; cbn; apply orb_true_r). clear -Hex.
    induction tr as [| e tr IH]; [done |]. cbn in Hex. destruct (existsb saves_now tr) eqn:Et.
    - destruct (IH eq_refl) as (tr1 & s & tr2 & -> & ? & ?). by exists (e :: tr1), s, tr2.
    - rewrite orb_false_r in Hex. by exists [], e, tr. }
  exists tr1, s, tr2, err. split_and!; try done.
  destruct (last_after s tr1 tr2 l1 (inl (existT LSave ())) l2) as [l ->]; [by rewrite <- Etr, <- El | | apply elem_of_app; by left].
  intros Hin%list_elem_of_In. apply not_true_iff_false in Hno. apply Hno, existsb_exists. eexists. by split; [exact Hin |].
Qed.
End Lifecycle.

(** ** Run waits for every service *)
Lemma goAll_runs services : ∀ t x, runs (goAll services) t x ↔ t = (λ s, existT (RGo s) ()) <$> services ∧ x = Some ().
Proof.
  induction services as [| s services IH]; intros t x; [done |]. cbn [goAll runs fmap list_fmap]. split.
  - intros ([] & t' & -> & [-> ->]%IH). done.
  - intros [-> ->]. eexists (), _. split; [done |]. by apply IH.
Qed.

Lemma awaitOthers_runs services : ∀ t x, runs (awaitOthers services) t x ↔
  ∃ errs : list (option error), length errs = length services ∧ t = (λ e, existT ROther e) <$> errs ∧ x = Some ().
Proof.
  induction services as [| s services IH]; intros t x; cbn [awaitOthers runs].
  - split; [intros [-> ->]; by exists [] | by intros ([|] & El & -> & ->)].
  - split.
    + intros (e & t' & -> & (errs & El & -> & ->)%IH). exists (e :: errs). split; [cbn; by rewrite El | done].
    + intros ([| e errs] & El & -> & ->); [done |]. eexists e, _. split; [done |]. apply IH. exists errs. by injection El.
Qed.

(** Run starts every service, and returns once each of them has returned: what
    the first returned, a cancellation being no error. *)
Theorem Run_waits limited t x :
  runs (Run limited) t x → ∃ first others,
    length others = length (tail (servicesOf limited)) ∧
    t = ((λ s, existT (RGo s) ()) <$> servicesOf limited) ++ existT RFirst first :: existT RCancel () :: ((λ e, existT ROther e) <$> others) ∧
    x = Some (if bool_decide (first = Some canceled) then None else first).
Proof.
  unfold Run. intros [(t1 & t2 & [] & -> & [-> _]%goAll_runs & H) | [[_ [=]]%goAll_runs _]]%runs_bind.
  destruct H as (first & t3 & -> & [] & t4 & -> & H).
  apply runs_bind in H as [(t5 & t6 & [] & -> & (errs & El & -> & _)%awaitOthers_runs & [-> ->]) | [(errs & _ & _ & [=])%awaitOthers_runs _]].
  exists first, errs. by rewrite app_nil_r.
Qed.

(** ** The agent's own registry reads *)
Section Deps.
Context (cr : Crypto) (NewKeyFromSeed sha256 : string → string) (ToPrivateKey : string → option string).
Abbreviation FromConfig := (FromConfig cr NewKeyFromSeed sha256 ToPrivateKey).

Lemma FromConfig_registry readDir newReg gossip c d :
  FromConfig readDir newReg gossip c = Ok d →
  ∃ material, KeyMaterial ToPrivateKey sha256 c = Ok material ∧ AgentKey cr NewKeyFromSeed material (lc_ID (cf_Local c)) = Ok (dp_AgentKey d) ∧
    registryOf cr NewKeyFromSeed ToPrivateKey newReg c material = Ok (dp_Registry d, dp_Cache d, dp_loopback d).
Proof.
  unfold FromConfig, Wire.FromConfig. destruct (if Balancer c then _ else _) as [node | e]; [| done]. cbn.
  destruct (KeyMaterial _ _ _) as [material | e]; [| done]. cbn. destruct (AgentKey _ _ _ _) as [key | e] eqn:Ek; [| done]. cbn.
  destruct (registryOf _ _ _ _ _ _) as [[[reg cache] lb] | e] eqn:Er; [| done]. cbn.
  destruct (gossip _); [done |]. intros [= <-]. by exists material.
Qed.

(** Registry reads that go through the agent's own router are let in and
    billed to nobody, whatever its tokens and limits are. *)
Theorem own_reads_exempt readDir newReg gossip c d appID seed addr url token req class :
  FromConfig readDir newReg gossip c = Ok d → dp_Registry d = RegChain appID seed addr url token true →
  hget (rq_Header req) "X-Algo-API-Token" = token → rc_Agent class = false →
  authorize sha256 (routerAuth c) (loopbackRequest req) class = Allowed exempt.
Proof.
  intros (material & _ & _ & Hr)%FromConfig_registry Hreg Htok Ha. rewrite Hreg in Hr. unfold registryOf in Hr.
  assert (token = cf_ClientToken c) as ->.
  { destruct (rg_Type _ =s "algorand"); [| repeat case_match; try done; by destruct (staticRecords _ _ _ _)].
    destruct (SyncSeed _ _) as [s |]; [| done]. cbn in Hr. destruct (rg_AlgodURL _ =s ""); [destruct newReg | by destruct newReg]; [done |]. by injection Hr. }
  unfold authorize, routerAuth, authOf, isHealth. cbn [au_AdminToken au_ClientToken au_limiter]. rewrite Ha.
  change (rq_Header (loopbackRequest req)) with (rq_Header req). rewrite Htok. cbn [andb orb].
  destruct (_ && tokenEqual _ _); [done |]. cbn [orb]. destruct (limiterOptions _); cbn [fmap option_fmap option_map]; [done |].
  unfold tokenEqual. by rewrite seqb_refl, orb_true_r.
Qed.
End Deps.

(** ** A static mesh *)
Section Static.
Context (cr : Crypto) (NewKeyFromSeed sha256 : string → string) (ToPrivateKey : string → option string).
Abbreviation FromConfig := (FromConfig cr NewKeyFromSeed sha256 ToPrivateKey).

Lemma staticRecords_key material rs : ∀ rs' r,
  staticRecords cr NewKeyFromSeed material rs = Ok rs' → r ∈ rs → ai_PubKey (nr_Agent r) = ""%string →
  ∃ k r', AgentKey cr NewKeyFromSeed material (nr_ID r) = Ok k ∧ r' ∈ rs' ∧ nr_ID r' = nr_ID r ∧ ai_PubKey (nr_Agent r') = Codec.Public cr k.
Proof.
  induction rs as [| r0 rs IH]; intros rs' r; cbn [staticRecords]; [by intros _ ?%elem_of_nil |].
  destruct (keyed _ _ _ r0) as [r1 | e] eqn:E1; [| done]. cbn. destruct (staticRecords _ _ _ rs) as [rs1 | e] eqn:E2; [| done]. cbn. intros [= <-].
  intros [-> | Hin]%elem_of_cons Hk.
  - unfold keyed in E1. rewrite Hk in E1. cbn in E1. destruct (AgentKey _ _ _ _) as [k | e]; [| done]. injection E1 as <-.
    exists k, (r0 <| nr_Agent ::= λ a, a <| ai_PubKey := Codec.Public cr k |> |>). split; [done | split; [by left | done]].
  - destruct (IH rs1 r eq_refl Hin Hk) as (k & r' & Ek & Hr' & ?). exists k, r'. split; [done | split; [by right | done]].
Qed.

Lemma KeyMaterial_shared c1 c2 :
  rg_SyncKey (cf_Registry c1) = rg_SyncKey (cf_Registry c2) → ms_SharedSecret (cf_Mesh c1) = ms_SharedSecret (cf_Mesh c2) →
  KeyMaterial ToPrivateKey sha256 c1 = KeyMaterial ToPrivateKey sha256 c2.
Proof. intros E1 E2. unfold KeyMaterial, SyncSeed. by rewrite E1, E2. Qed.

(** C24: In a mesh without a registry, agents that share a secret know each
    other's keys without exchanging them. Two agents are configured with the
    same secret, and the second lists the first, by its id, in its static
    registry, without a key: then the second's registry holds a record of that
    id whose key is the one the first signs with, and a heartbeat the first
    sends decodes at the second to what was sent, under that very key. *)
Theorem static_peers_verify j okR okH okP read1 reg1 gossip1 c1 d1 read2 reg2 gossip2 c2 d2 r hb wire :
  CryptoLaws cr → JsonLaws j okR okH okP →
  FromConfig read1 reg1 gossip1 c1 = Ok d1 → FromConfig read2 reg2 gossip2 c2 = Ok d2 →
  rg_SyncKey (cf_Registry c1) = rg_SyncKey (cf_Registry c2) → ms_SharedSecret (cf_Mesh c1) = ms_SharedSecret (cf_Mesh c2) →
  rg_Type (cf_Registry c2) = "static"%string → r ∈ rg_Static (cf_Registry c2) →
  nr_ID r = lc_ID (cf_Local c1) → ai_PubKey (nr_Agent r) = ""%string →
  okH hb → hb_NodeID hb ≠ ""%string → EncodeHeartbeat cr j (dp_AgentKey d1) hb = Ok wire →
  ∃ records r', dp_Registry d2 = RegStatic records ∧ r' ∈ records ∧ nr_ID r' = lc_ID (cf_Local c1) ∧
    DecodeHeartbeat cr j wire = Ok (hb, ai_PubKey (nr_Agent r')).
Proof.
  intros L J (m1 & Hm1 & Hk1 & _)%FromConfig_registry (m2 & Hm2 & _ & Hr2)%FromConfig_registry Esync Esecret Et Hin Hid Hkey Hok Hnode Hw.
  rewrite (KeyMaterial_shared c1 c2 Esync Esecret), Hm2 in Hm1. injection Hm1 as <-.
  unfold registryOf in Hr2. rewrite Et in Hr2. cbn in Hr2.
  destruct (staticRecords _ _ _ _) as [rs |] eqn:Es; [| done]. injection Hr2 as Hreg _ _.
  destruct (staticRecords_key m2 _ rs r Es Hin Hkey) as (k & r' & Ek & Hr' & Eid & Epub).
  exists rs, r'. rewrite Eid, Hid. split; [done | split; [done | split; [done |]]].
  rewrite Hid, Hk1 in Ek. injection Ek as <-. rewrite Epub. by eapply heartbeat_decodes.
Qed.
End Static.

(** ** Examples *)

(** An agent on two addresses, with a pass-through. *)
Definition twoAddresses : Config := (sampleConfig 0 noLimits) <| cf_Listen := ["10.0.0.1:4000"; "10.0.0.2:4000"]%string |>.

(** Everything binds, and the context ends. *)
Definition binds : @env LAct LResp := λ h a,
  match a with
  | LListen _ | LPassListen _ => Ok (length h)
  | LReadConfig => Ok (zeroConfig <| nc_NetAddr := "127.0.0.1:8081" |>)
  | LWait => None
  | LShutdown => None
  | _ => ()
  end.

Definition drainedLife : LTrace * option (option error) := exec binds [] (Serve twoAddresses true).

(** The same, with the limiter loading at once, and saving last. *)
Definition drainedRun : list (sigT LResp + limiterTurn) :=
  (inl <$> take 6 drainedLife.1) ++ inr TurnLoad :: (inl <$> drop 6 drainedLife.1) ++ [inr TurnTick; inr TurnEnd].

Lemma merged_lefts {A B} (l : list A) (l1 : list A) (l2 : list B) tr : merged l1 l2 tr → merged (l ++ l1) l2 ((inl <$> l) ++ tr).
Proof. intros H. induction l as [| x l IH]; [done |]. by constructor. Qed.

Lemma drainedRun_runs : agentRun twoAddresses true drainedRun drainedLife.2.
Proof.
  exists drainedLife.1, [TurnLoad; TurnTick; TurnEnd]. split; [apply exec_runs | split; [| split]].
  - rewrite <- (take_drop 6 drainedLife.1) at 1. apply merged_lefts. constructor.
    rewrite <- (app_nil_r (drop 6 drainedLife.1)) at 1. apply merged_lefts. repeat constructor.
  - right. split; [done |]. exists [TurnTick]. split; [repeat constructor; by left | by right].
  - intros tr1 u tr2 E. assert (Hin : ∃ l, take 7 drainedRun = l ++ [inr TurnLoad] ∧ inl (existT LRun ()) ∈ l ∧ Forall (λ e, ∃ x, e = inl x) l).
    { exists (inl <$> take 6 drainedLife.1). split; [vm_compute; reflexivity | split].
      - vm_compute. do 5 right. by left.
      - vm_compute. repeat constructor; by eexists. }
    destruct Hin as (l & El & Hrun & Hl). rewrite <- (take_drop 7 drainedRun), El, <- app_assoc in E.
    clear El. revert l E Hrun Hl. induction tr1 as [| y tr1 IH]; intros [| z l] E Hrun Hl; cbn in E.
    + by apply elem_of_nil in Hrun.
    + injection E as -> _. apply Forall_cons in Hl as [[x [=]] _].
    + by apply elem_of_nil in Hrun.
    + injection E as -> E. apply Forall_cons in Hl as [_ Hl]. apply elem_of_cons in Hrun as [<- | Hrun]; [by left |]. right. by eapply IH.
Qed.

Lemma serve_lifecycle_witness :
  omap boundAt drainedLife.1 = [("10.0.0.1:4000"%string, 0%nat); ("10.0.0.2:4000"%string, 1%nat)] ∧ omap passOpened drainedLife.1 = [3%nat] ∧
  0%nat ∈ omap closedIn drainedLife.1 ∧ 3%nat ∈ omap passEnded drainedLife.1 ∧ existsb isDraining drainedLife.1 = true ∧
  ∃ tr1 s tr2 err, drainedRun = tr1 ++ s :: tr2 ∧ saves_now s = true ∧ existsb saves_now tr2 = false ∧ inl (existT LShutdown err) ∈ tr1.
Proof.
  assert (B : omap boundAt drainedLife.1 = [("10.0.0.1:4000"%string, 0%nat); ("10.0.0.2:4000"%string, 1%nat)]) by (vm_compute; reflexivity).
  assert (P : omap passOpened drainedLife.1 = [3%nat]) by (vm_compute; reflexivity).
  assert (T : omap of_serve drainedRun = drainedLife.1) by (vm_compute; reflexivity).
  destruct (serve_lifecycle twoAddresses true drainedRun drainedLife.2 drainedRun_runs) as (r & E & H). rewrite T in H.
  destruct H as (H1 & H2 & _ & H4 & _ & H6).
  assert (D : existsb isDraining drainedLife.1 = true) by (apply H4; vm_compute in E; by injection E).
  split; [exact B | split; [exact P | split; [| split; [| split; [exact D | by apply H6]]]]].
  - apply (H1 "10.0.0.1:4000"%string). rewrite B. by left.
  - apply H2. rewrite P. by left.
Defined.

Lemma Run_waits_witness :
  ∃ t, runs (Run true) t (Some (Some "boom"%string)) ∧ ∃ others : list (option error), length others = 3%nat ∧
    t = ((λ s, existT (RGo s) ()) <$> servicesOf true) ++ existT RFirst (Some "boom"%string) :: existT RCancel () :: ((λ e, existT ROther e) <$> others).
Proof.
  set (e := (λ _ a, match a with RFirst => Some "boom" | ROther => Some canceled | _ => () end) : @env RAct RResp).
  exists (exec e [] (Run true)).1. assert (R : runs (Run true) (exec e [] (Run true)).1 (Some (Some "boom"%string))) by apply (exec_runs e (Run true) []).
  split; [exact R |]. destruct (Run_waits true _ _ R) as (first & others & El & Et & Ex). exists others. split; [exact El |].
  rewrite Et. assert (first = Some "boom"%string) as -> by (destruct (bool_decide_reflect (first = Some canceled)); [done | by injection Ex as <-]). reflexivity.
Defined.

(** Two agents of a static mesh, n1 and n2, with one secret. *)
Definition staticConfig (id : string) : Config :=
  (sampleConfig 0 noLimits) <| cf_Local ::= λ l, l <| lc_ID := id |> |>
    <| cf_Mesh ::= λ m, m <| ms_SharedSecret := "sesame" |> |>
    <| cf_Registry ::= λ r, r <| rg_Type := "static" |> <| rg_Static := [sampleRecord <| nr_Agent ::= λ a, a <| ai_PubKey := "" |> |>] |> |>.

Definition wired (c : Config) : result error Deps :=
  FromConfig toyCrypto (λ s, s) (λ s, s) (λ _, None) (Ok zeroConfig) None (λ _, None) c.

Lemma static_peers_verify_witness :
  ∃ d1 d2 wire records r', wired (staticConfig "n1") = Ok d1 ∧ wired (staticConfig "n2") = Ok d2 ∧
    EncodeHeartbeat toyCrypto toyJson (dp_AgentKey d1) sampleHeartbeat = Ok wire ∧
    dp_Registry d2 = RegStatic records ∧ r' ∈ records ∧ nr_ID r' = "n1"%string ∧
    DecodeHeartbeat toyCrypto toyJson wire = Ok (sampleHeartbeat, ai_PubKey (nr_Agent r')).
Proof.
  destruct (wired (staticConfig "n1")) as [d1 |] eqn:E1; [| vm_compute in E1; discriminate E1].
  destruct (wired (staticConfig "n2")) as [d2 |] eqn:E2; [| vm_compute in E2; discriminate E2].
  destruct (EncodeHeartbeat toyCrypto toyJson (dp_AgentKey d1) sampleHeartbeat) as [wire |] eqn:Ew; [| discriminate Ew].
  destruct (static_peers_verify toyCrypto (λ s, s) (λ s, s) (λ _, None) toyJson _ _ _ (Ok zeroConfig) None (λ _, None) (staticConfig "n1") d1
    (Ok zeroConfig) None (λ _, None) (staticConfig "n2") d2 (sampleRecord <| nr_Agent ::= λ a, a <| ai_PubKey := "" |> |>) sampleHeartbeat wire
    toyCrypto_laws toyJson_laws E1 E2) as (records & r' & Hreg & Hin & Hid & Hd); try reflexivity; [by left | discriminate | exact Ew |].
  exists d1, d2, wire, records, r'. by split_and!.
Defined.

(** An agent that reads the chain through itself, with limits and no anonymous
    plan. *)
Definition routedConfig : Config :=
  closedConfig <| cf_Registry ::= λ r, r <| rg_Type := "algorand" |> <| rg_AppID := 7 |> |>.

Lemma own_reads_exempt_witness :
  ∃ d, wired routedConfig = Ok d ∧ authorize (λ s, s) (routerAuth routedConfig) (aliceRequest "") stateRead = Refused 401 invalidToken ∧
    authorize (λ s, s) (routerAuth routedConfig) (loopbackRequest (aliceRequest "")) stateRead = Allowed exempt.
Proof.
  destruct (wired routedConfig) as [d |] eqn:E; [| vm_compute in E; discriminate E]. exists d. split; [done | split; [reflexivity |]].
  apply (own_reads_exempt toyCrypto (λ s, s) (λ s, s) (λ _, None) (Ok zeroConfig) None (λ _, None) routedConfig d 7 None "" "http://loopback" "");
    [exact E | vm_compute in E; by injection E as <- | reflexivity | reflexivity].
Defined.
