(* ===== verification/Cli.v ===== *)
(** * Cli: the registry commands
    (registryCmd and its helpers, checkSummary; cmd/algod-mesh/main.go)

    A registry command as a program over the ledger's calls: what is checked
    before anything is asked, which call of [RegistryAlgo] it makes, what it
    prints.  Flags are a record; the printed text is a value. *)
From S2P Require Import Prelude GoFloat GoStrings GoTime GoNet Types Endpoint Codec Ports Prog RateConfig Addrs Config ConfigLaws Bundle Monitor Agent RegistryAlgo RegistryAlgoLaws.
From stdpp Require Import pretty.
From Stdlib Require Import Ascii.
Open Scope Z_scope.

(** ** Texts *)

(** splitAddrs: a comma-separated flag, blanks dropped. *)
Definition splitAddrs (s : string) : list string := List.filter (λ a, a <>s "") (trim_space <$> split_on "," s).

(** mask: the two ends of a long secret. *)
Definition mask (s : string) : string :=
  if (String.length s <=? 8)%nat then "****" else upto 4 s +:+ "…" +:+ from (String.length s - 4) s.

Definition orNone (a : Addrs) : string := match a with [] => "none" | _ => Addrs_String a end.

(** The registry as checkSummary names it. *)
Definition registrySummary (c : Config) : string :=
  let r := cf_Registry c in
  if rg_Type r =s "algorand" then (rg_Type r +:+ " app " +:+ pretty (rg_AppID r))%string else rg_Type r.

Definition checkSummary (c : Config) : string :=
  let nl := String "010" "" in
  let l := cf_Local c in
  let m := cf_Mesh c in
  (if Balancer c then
     "id " +:+ lc_ID l +:+ ", role balancer, mode " +:+ cf_Mode c +:+ ", network " +:+ lc_Network l +:+ nl +:+
     "listen " +:+ Addrs_String (cf_Listen c) +:+ nl +:+
     "gossip on " +:+ Addrs_String (ms_Listen m) +:+ ", heartbeats to " +:+ orNone (ms_Advertise m) +:+ nl +:+
     "registry " +:+ registrySummary c +:+ " via " +:+ rg_AlgodURL (cf_Registry c) +:+ ", " +:+ tokenSummary c +:+ nl
   else
     "id " +:+ lc_ID l +:+ ", mode " +:+ cf_Mode c +:+ ", data dir " +:+ lc_DataDir l +:+ nl +:+
     "listen " +:+ Addrs_String (cf_Listen c) +:+ ", advertising " +:+ GoStrings.join ", " (lc_AdvertiseEndpoints l) +:+ nl +:+
     "passthrough " +:+ orNone (lc_Passthrough l) +:+ nl +:+
     "gossip on " +:+ Addrs_String (ms_Listen m) +:+ ", heartbeats to " +:+ orNone (ms_Advertise m) +:+ nl +:+
     "registry " +:+ registrySummary c +:+ ", " +:+ tokenSummary c +:+ nl)%string.

(** ** registry *)
Record RegistryFlags := mkFlags {
  fl_id : string;
  fl_network : string;
  fl_endpoint : string;
  fl_token : string;
  fl_agent : string;
  fl_tier : Z;
  fl_role : string;
  fl_showTokens : bool;
  fl_appID : Z
}.

(** What a command prints. *)
Inductive Output :=
  | OutCreated (app : Z) (account : string)
  | OutRecords (round : Z) (records : list NodeRecord)
  | OutBundle (text : string)
  | OutAdded (id : string)
  | OutState (st : AppState)
  | OutDeleted (st : AppState)
  | OutRemoved (id : string).

(** What `add` refuses. *)
Definition addChecked (f : RegistryFlags) (role : string) : result error () :=
  if (role =s RoleBalancer) && ((fl_id f =s "") || (fl_network f =s "") || (fl_agent f =s "")) then Err "-id, -network and -agent are required for a balancer"
  else if (role =s RoleBalancer) && ((fl_endpoint f <>s "") || (fl_token f <>s "")) then Err "a balancer has no algod: drop -endpoint and -token"
  else if (role =s RoleNode) && ((fl_id f =s "") || (fl_network f =s "") || (fl_endpoint f =s "")) then Err "-id, -network and -endpoint are required"
  else Ok tt.

(** The record `add` writes. *)
Definition addedRecord (f : RegistryFlags) (role pub : string) : NodeRecord :=
  let agent := mkAgentInfo (splitAddrs (fl_agent f)) "" pub in
  if role =s RoleBalancer then mkNodeRecord (fl_id f) RoleBalancer (fl_network f) [] (fl_token f) agent 0 [] None 1 0
  else mkNodeRecord (fl_id f) "" (fl_network f) (split_on "," (fl_endpoint f)) (fl_token f) agent (fl_tier f) [] None 1 0.

Definition masked (show : bool) (rec : NodeRecord) : NodeRecord := if show then rec else rec <| nr_Token ::= mask |>.

Section Commands.
Context (c : Crypto) (j : Json)
        (Encode : string → abiValue → result error string) (PutMethod RemoveMethod : Method)
        (AppAddress : Z → string) (makeFee : Z → string → txBody → result error Z) (SignTransaction : Txn → option error)
        (ApprovalTEAL ClearTEAL ApprovalProgram ClearProgram : string)
        (NewKeyFromSeed sha256 ownAddress : string → string) (ToPrivateKey DecodeAddress : string → option string).
Context (sub : string) (f : RegistryFlags) (cfg : Config).

(** The application `status` and `update` are about. *)
Definition targetApp : Z := if fl_appID f =? 0 then rg_AppID (cf_Registry cfg) else fl_appID f.

Definition inspectApp (appID : Z) : Ledger (result error AppState) := Inspect AppAddress ApprovalProgram appID.

Definition initCmd (r : Registry) : Ledger (result error Output) :=
  let* '(app, r) := Create AppAddress makeFee SignTransaction ApprovalTEAL ClearTEAL ApprovalProgram ClearProgram r in
  Ret match app with
      | Ok app => Ok (OutCreated app (if ra_Signer r <>s ra_Sender r then ra_Sender r +:+ ", rekeyed to " +:+ ra_Signer r else ra_Sender r)%string)
      | Err e => Err e
      end.

Definition listCmd (r : Registry) : Ledger (result error Output) :=
  try* l := RegistryAlgo.List c j r in Ret (Ok (OutRecords l.2 (masked (fl_showTokens f) <$> l.1))).

Definition addCmd (r : Registry) : Ledger (result error Output) :=
  match ParseRole (fl_role f) with
  | Err e => Ret (Err e)
  | Ok role =>
      match addChecked f role with
      | Err e => Ret (Err e)
      | Ok _ =>
          match AgentKey c NewKeyFromSeed match KeyMaterial ToPrivateKey sha256 cfg with Ok m => m | Err _ => "" end (fl_id f) with
          | Err e => Ret (Err e)
          | Ok key =>
              try* _ := RegistryAlgo.Put c j Encode PutMethod AppAddress makeFee SignTransaction r (addedRecord f role (Codec.Public c key)) in
              Ret (Ok (OutAdded (fl_id f)))
          end
      end
  end.

Definition statusCmd (update : bool) (r : Registry) : Ledger (result error Output) :=
  if targetApp =? 0 then Ret (Err "-app-id or registry.app_id is required"%string)
  else
    try* _ := (if update then Update AppAddress makeFee SignTransaction ApprovalTEAL ClearTEAL ApprovalProgram ClearProgram r targetApp else Ret (Ok tt)) in
    try* st := inspectApp targetApp in
    Ret (Ok (OutState st)).

Definition deleteCmd (r : Registry) : Ledger (result error Output) :=
  if fl_appID f =? 0 then Ret (Err "-app-id is required"%string)
  else if fl_appID f =? rg_AppID (cf_Registry cfg) then Ret (Err "app is registry.app_id; point the config elsewhere before deleting it"%string)
  else
    try* st := inspectApp (fl_appID f) in
    try* _ := DeleteApp AppAddress makeFee SignTransaction ApprovalProgram r (fl_appID f) in
    Ret (Ok (OutDeleted st)).

Definition rmCmd (r : Registry) : Ledger (result error Output) :=
  if fl_id f =s "" then Ret (Err "-id is required"%string)
  else try* _ := RegistryAlgo.Delete c Encode RemoveMethod makeFee SignTransaction r (fl_id f) in Ret (Ok (OutRemoved (fl_id f))).

Definition command (r : Registry) : Ledger (result error Output) :=
  if sub =s "init" then initCmd r
  else if sub =s "list" then listCmd r
  else if sub =s "add" then addCmd r
  else if sub =s "status" then statusCmd false r
  else if sub =s "update" then statusCmd true r
  else if sub =s "delete-app" then deleteCmd r
  else if sub =s "rm" then rmCmd r
  else Ret (Err "registry: unknown subcommand"%string).

(** registryCmd, gen-key apart: registry is what registryalgo.New gives. *)
Definition registryCmd (registry : result error Registry) : Ledger (result error Output) :=
  match SyncSeed ToPrivateKey cfg with
  | Err e => Ret (Err e)
  | Ok None => Ret (Err "registry.sync_key is required"%string)
  | Ok (Some _) =>
      if sub =s "bundle" then Ret match bundleOf ToPrivateKey cfg with Ok b => Ok (OutBundle (Bundle_String DecodeAddress ownAddress b)) | Err e => Err e end
      else match registry with
           | Err e => Ret (Err e)
           | Ok r =>
               if (sub <>s "list") && (sub <>s "status") then try* _ := CheckAuth r in command r
               else command r
           end
  end.
End Commands.

(** ** What a command may send *)
Section Guards.
Context (c : Crypto) (j : Json)
        (Encode : string → abiValue → result error string) (PutMethod RemoveMethod : Method)
        (AppAddress : Z → string) (makeFee : Z → string → txBody → result error Z) (SignTransaction : Txn → option error)
        (ApprovalTEAL ClearTEAL ApprovalProgram ClearProgram : string)
        (NewKeyFromSeed sha256 ownAddress : string → string) (ToPrivateKey DecodeAddress : string → option string).
Context (sub : string) (f : RegistryFlags) (cfg : Config).
Abbreviation registryCmd := (registryCmd c j Encode PutMethod RemoveMethod AppAddress makeFee SignTransaction ApprovalTEAL ClearTEAL ApprovalProgram ClearProgram
  NewKeyFromSeed sha256 ownAddress ToPrivateKey DecodeAddress sub f cfg).
Abbreviation command := (command c j Encode PutMethod RemoveMethod AppAddress makeFee SignTransaction ApprovalTEAL ClearTEAL ApprovalProgram ClearProgram
  NewKeyFromSeed sha256 ToPrivateKey sub f cfg).

(** A program that sends nothing. *)
Fixpoint mute {A} (m : Ledger A) : Prop :=
  match m with Call a k => (∀ tx, a ≠ NSend tx) ∧ ∀ r, mute (k r) | _ => True end.

Lemma mute_bind {A B} (m : Ledger A) (g : A → Ledger B) : mute m → (∀ a, mute (g a)) → mute (bind g m).
Proof. intros Hm Hg. induction m as [a | | a k IH]; cbn in *; [apply Hg | done |]. destruct Hm as [H1 H2]. split; [done |]. intros r. by apply IH. Qed.

Lemma mute_try {A B} (m : Ledger (result error A)) (g : A → Ledger (result error B)) : mute m → (∀ a, mute (g a)) → mute (ntry m g).
Proof. intros Hm Hg. apply mute_bind; [done |]. by intros []. Qed.

Lemma mute_wrap {A} w (m : Ledger (result error A)) : mute m → mute (nwrap w m).
Proof. intros Hm. by apply mute_bind. Qed.

Lemma mute_runs {A} (m : Ledger A) : mute m → ∀ t x, runs m t x → ∀ tx e, existT (NSend tx) e ∉ t.
Proof.
  induction m as [a | | a k IH]; cbn; [intros _ t x [-> _] tx e; apply not_elem_of_nil | intros _ t x [-> _] tx e; apply not_elem_of_nil |].
  intros [H1 H2] t x (r & t' & -> & Hr) tx e [E | Hin]%elem_of_cons; [| by eapply IH].
  apply (f_equal (@projT1 _ _)) in E. cbn in E. by apply (H1 tx).
Qed.

Lemma unsent_ok ok (t : RegistryAlgoLaws.trace) : (∀ tx e, existT (NSend tx) e ∉ t) → sendsOk ok t.
Proof. intros Hn t1 tx e t2 ->. destruct (Hn tx e). apply elem_of_app. right. by left. Qed.

Lemma mute_after {A} ok (m : Ledger A) : mute m → after ok [] m.
Proof. intros Hm t x Hr. by eapply unsent_ok, mute_runs. Qed.

Lemma CheckAuth_mute r : mute (CheckAuth r).
Proof. apply mute_try; [by apply mute_wrap | done]. Qed.

Lemma inspect_mute appID : mute (inspectApp AppAddress ApprovalProgram appID).
Proof. repeat (apply mute_try; [by apply mute_wrap | intros ?]). done. Qed.

Lemma listLoop_mute r names : ∀ i recs, mute (listLoop c j r i names recs).
Proof.
  induction names as [| name names IH]; intros i recs; cbn [listLoop]; [done |].
  destruct (_ <=? _)%nat; [done |]. destruct (negb _); [apply IH |]. cbn. split; [done |]. intros [blob | []]; [| apply IH | done].
  destruct (OpenRecord _ _ _ _ _) as [[] |]; [apply IH | apply IH | done].
Qed.

Lemma list_mute r : mute (listCmd c j f r).
Proof.
  apply mute_try; [| done]. unfold RegistryAlgo.List. destruct (_ =? 0); [done |].
  apply mute_try; [done |]. intros names. apply mute_try; [done |]. intros st. apply mute_try; [apply listLoop_mute | done].
Qed.

Lemma status_mute r : mute (statusCmd AppAddress makeFee SignTransaction ApprovalTEAL ClearTEAL ApprovalProgram ClearProgram f cfg false r).
Proof. unfold statusCmd. destruct (_ =? 0); [done |]. apply mute_try; [done |]. intros _. by apply mute_try; [apply inspect_mute |]. Qed.

(** The check of the account comes first, and without it nothing else does. *)
Lemma authorized_first {A} r (m : Ledger (result error A)) t x :
  runs (try* _ := CheckAuth r in m) t x →
  (∀ tx e, existT (NSend tx) e ∉ t) ∨
  ∃ info t', t = existT (NAccount (ra_Sender r)) (Ok info) :: t' ∧ (if ac_AuthAddr info <>s "" then ac_AuthAddr info else ra_Sender r) = ra_Signer r ∧ runs m t' x.
Proof.
  unfold CheckAuth, nwrap, ntry, nthen, nask. cbn [bind runs]. intros ([info | e] & t' & -> & H); cbn [bind] in H.
  - destruct ((if ac_AuthAddr info <>s "" then _ else _) <>s _) eqn:E.
    + destruct H as [-> _]. left. intros tx e [E' | Hin]%elem_of_cons; [by apply (f_equal (@projT1 _ _)) in E' | by apply elem_of_nil in Hin].
    + right. exists info, t'. split; [done | split; [by apply negb_false_iff, String.eqb_eq in E | done]].
  - destruct H as [-> _]. left. intros tx e' [E' | Hin]%elem_of_cons; [by apply (f_equal (@projT1 _ _)) in E' | by apply elem_of_nil in Hin].
Qed.

Definition writes : list string := ["init"; "add"; "update"; "delete-app"; "rm"]%string.

(** A subcommand that is none of those sends nothing. *)
Lemma command_reads r : sub ∉ writes → mute (command r).
Proof.
  unfold writes. rewrite !not_elem_of_cons. intros (H1 & H2 & H3 & H4 & H5 & _). unfold Cli.command.
  rewrite (proj2 (String.eqb_neq _ _) H1), (proj2 (String.eqb_neq _ _) H2), (proj2 (String.eqb_neq _ _) H3), (proj2 (String.eqb_neq _ _) H4), (proj2 (String.eqb_neq _ _) H5).
  destruct (_ =s _); [apply list_mute |]. by destruct (_ =s _); [apply status_mute |].
Qed.

(** What the two commands on an application send, after the account's check. *)
Lemma update_after r ok :
  after ok [] (Update AppAddress makeFee SignTransaction ApprovalTEAL ClearTEAL ApprovalProgram ClearProgram r (targetApp f cfg)) →
  sub = "update"%string → after ok [] (try* _ := CheckAuth r in command r).
Proof.
  intros Hu ->. apply after_try; [apply mute_after, CheckAuth_mute |]. intros _. change (Cli.command _ _ _ _ _ _ _ _ _ _ _ _ _ _ _ _ _ _ r)
    with (statusCmd AppAddress makeFee SignTransaction ApprovalTEAL ClearTEAL ApprovalProgram ClearProgram f cfg true r).
  unfold statusCmd. destruct (_ =? 0); [by apply mute_after |]. apply after_try; [exact Hu |]. intros _. apply mute_after. by apply mute_try; [apply inspect_mute |].
Qed.

Lemma delete_after r ok :
  (fl_appID f ≠ rg_AppID (cf_Registry cfg) → after ok [] (DeleteApp AppAddress makeFee SignTransaction ApprovalProgram r (fl_appID f))) →
  sub = "delete-app"%string → after ok [] (try* _ := CheckAuth r in command r).
Proof.
  intros Hd ->. apply after_try; [apply mute_after, CheckAuth_mute |]. intros _. change (Cli.command _ _ _ _ _ _ _ _ _ _ _ _ _ _ _ _ _ _ r)
    with (deleteCmd AppAddress makeFee SignTransaction ApprovalProgram f cfg r).
  unfold deleteCmd. destruct (fl_appID f =? 0); [by apply mute_after |]. destruct (fl_appID f =? _) eqn:E; [by apply mute_after |]. apply Z.eqb_neq in E.
  apply after_try; [apply mute_after, inspect_mute |]. intros st. apply after_try; [by apply Hd | intros _; by apply mute_after].
Qed.

(** C25: The registry commands do to the chain what they were asked, and only
    with the right key. `list`, `status`, `bundle` and an unknown command send
    no transaction; the others send one only when the node has answered that
    the sync account is authorized by the configured key. `update` replaces the
    programs of the application it was given (the configured one by default),
    and only if the sync account created it and every box it holds is a record.
    `delete-app` deletes the application its flag names, never the one the
    configuration uses, and only if the sync account created it and it holds
    nothing. *)
Theorem commands_guarded r t x :
  runs (registryCmd (Ok r)) t x →
  (∀ tx e, existT (NSend tx) e ∈ t → sub ∈ writes ∧
     ∃ info t', t = existT (NAccount (ra_Sender r)) (Ok info) :: t' ∧
       (if ac_AuthAddr info <>s "" then ac_AuthAddr info else ra_Sender r) = ra_Signer r) ∧
  (sub = "update"%string →
     sendsOk (checkedFirst r (targetApp f cfg) (Forall (λ b, IsRecordBox b = true)) (λ b, ∃ approval clear, b = AppUpdate (targetApp f cfg) approval clear)) t) ∧
  (sub = "delete-app"%string →
     sendsOk (λ pre tx, fl_appID f ≠ rg_AppID (cf_Registry cfg) ∧
       checkedFirst r (fl_appID f) (λ boxes, boxes = []) (λ b, b = AppDelete (fl_appID f)) pre tx) t).
Proof.
  intros H. unfold Cli.registryCmd in H.
  destruct (SyncSeed _ _) as [[seed |] | e]; [| destruct H as [-> _]; by split_and!; [intros ? ? ?%elem_of_nil | intros _; apply splits_nil ..] ..].
  destruct (sub =s "bundle"); [destruct H as [-> _]; by split_and!; [intros ? ? ?%elem_of_nil | intros _; apply splits_nil ..] |].
  destruct ((sub <>s "list") && (sub <>s "status")) eqn:Es.
  - split; [| split].
    + intros tx e Hin. destruct (authorized_first r _ _ _ H) as [Hn | (info & t' & -> & Ha & Hr)]; [by destruct (Hn tx e) |].
      split; [| by exists info, t']. destruct (decide (sub ∈ writes)) as [| Hw]; [done |].
      apply elem_of_cons in Hin as [E | Hin]; [by apply (f_equal (@projT1 _ _)) in E |]. by destruct (mute_runs _ (command_reads r Hw) _ _ Hr tx e).
    + intros Hsub. refine (update_after r _ _ Hsub t x H). intros t1 x1 H1. by eapply maintenance_guarded.
    + intros Hsub. refine (delete_after r _ _ Hsub t x H). intros Hne t1 x1 H1 ta tx e tb E.
      assert (Hg := proj2 (maintenance_guarded AppAddress makeFee SignTransaction "" "" ApprovalProgram "" r (fl_appID f) t1 x1) H1).
      destruct (Hg ta tx e tb E) as (t0 & t1' & -> & Hok). by exists t0, t1'.
  - assert (Hw : sub ∉ writes).
    { unfold writes. apply andb_false_iff in Es as [E%negb_false_iff%String.eqb_eq | E%negb_false_iff%String.eqb_eq]; subst; rewrite !not_elem_of_cons; split_and!; try done; apply not_elem_of_nil. }
    assert (Hn := mute_runs _ (command_reads r Hw) t x H). split_and!; [by intros tx e ?%Hn | intros _; by apply unsent_ok ..].
Qed.
End Guards.

(** ** A blank in -endpoint *)

(** `registry add` trims the addresses of -agent and not those of -endpoint: an
    endpoint after a comma and a blank is kept with the blank, does not parse,
    and is never chosen; while the node's current path is its second address,
    requests still go to the first. Trimmed as -agent is, it would be. *)
Theorem add_keeps_blanks f pub :
  fl_endpoint f = "http://10.0.0.1:4000, http://10.0.0.2:4000"%string →
  let kept := nr_Endpoints (addedRecord f RoleNode pub) in
  let trimmed := splitAddrs (fl_endpoint f) in
  kept = ["http://10.0.0.1:4000"; " http://10.0.0.2:4000"]%string ∧
  EndpointFor kept (EndpointHosts kept) "10.0.0.2:4190" = "http://10.0.0.1:4000"%string ∧
  EndpointFor trimmed (EndpointHosts trimmed) "10.0.0.2:4190" = "http://10.0.0.2:4000"%string.
Proof. unfold addedRecord. intros ->. vm_compute. done. Qed.

(** ** Examples *)
Definition sampleFlags (app : Z) : RegistryFlags :=
  mkFlags "n1" "net-v1" "http://10.0.0.1:4000, http://10.0.0.2:4000" "tok" "10.0.0.1:4190" 0 "node" false app.

Lemma add_keeps_blanks_witness :
  EndpointFor (nr_Endpoints (addedRecord (sampleFlags 0) RoleNode "")) (EndpointHosts (nr_Endpoints (addedRecord (sampleFlags 0) RoleNode ""))) "10.0.0.2:4190" =
    "http://10.0.0.1:4000"%string.
Proof. exact (proj1 (proj2 (add_keeps_blanks (sampleFlags 0) "" eq_refl))). Defined.

Example splitAddrs_ex : splitAddrs " a:1,, b:2 ," = ["a:1"; "b:2"]%string.
Proof. reflexivity. Qed.

(** A host with the sync key, and the registry app 7; a node whose account is
    the sync account's own, with an application that holds nothing. *)
Definition cliConfig : Config :=
  (sampleConfig 0 noLimits) <| cf_Registry := mkReg "algorand" 7 "MDEyMzQ1Njc4OWFiY2RlZjAxMjM0NTY3ODlBQkNERUY=" "" "" "" "" 0 None "" "" [] |>.

Definition emptyNode : env NResp := λ h a,
  match a return NResp a with
  | NAppBoxes _ => Ok []
  | a => sampleNode h a
  end.

Definition runCmd (sub : string) (f : RegistryFlags) : Ledger (result error Output) :=
  registryCmd toyCrypto toyJson toyEncode toyPut toyRemove toyAddress toyFee noSignError "teal" "clear" "approval" "bin"
    (λ s, s) (λ s, s) (λ s, s) (λ _, None) (λ _, None) sub f cliConfig (Ok sampleRegistry).

(** `delete-app -app-id 9` deletes application 9; 7 is in use. *)
Definition deleted : list (sigT NResp) * option (result error Output) := exec emptyNode [] (runCmd "delete-app" (sampleFlags 9)).
Definition theDeletion : Txn := mkTxn "SYNC" (AppDelete 9) 1000.

Lemma commands_guarded_witness :
  existT (NSend theDeletion) None ∈ deleted.1 ∧ is_Some deleted.2 ∧
  sendsOk (checkedFirst sampleRegistry 9 (λ boxes, boxes = []) (λ b, b = AppDelete 9)) deleted.1 ∧
  (exec emptyNode [] (runCmd "delete-app" (sampleFlags 7))).2 = Some (Err "app is registry.app_id; point the config elsewhere before deleting it"%string).
Proof.
  assert (Hin : existT (NSend theDeletion) None ∈ deleted.1) by (vm_compute; do 8 right; left).
  split; [exact Hin | split; [vm_compute; by eexists | split; [| vm_compute; reflexivity]]].
  destruct (commands_guarded toyCrypto toyJson toyEncode toyPut toyRemove toyAddress toyFee noSignError "teal" "clear" "approval" "bin"
    (λ s, s) (λ s, s) (λ s, s) (λ _, None) (λ _, None) "delete-app" (sampleFlags 9) cliConfig sampleRegistry deleted.1 deleted.2
    (exec_runs emptyNode (runCmd "delete-app" (sampleFlags 9)) [])) as (_ & _ & H).
  intros t1 tx e t2 E. destruct (H eq_refl t1 tx e t2 E) as (t0 & t1' & -> & _ & Hok). by exists t0, t1'.
Defined.

(** ** check-node *)

(** What check-node prints; absent fields are None. *)
Record NodeReport := mkReport {
  rp_Config : NodeConfig;
  rp_LastRound : Z;
  rp_ConfiguredOldest : Z;
  rp_Version : option string;
  rp_SimulateLimits : option SimulateLimits;
  rp_MeasuredOldest : option Z
}.

Definition reportArchival (nc : NodeConfig) : Archival :=
  if nc_Archival nc then mkArchival ArchivalFull 0
  else if 0 <? nc_MaxBlockHistoryLookback nc then mkArchival ArchivalTrailing (nc_MaxBlockHistoryLookback nc)
  else mkArchival ArchivalNone 0.

(** The command, of what the data directory and the node answer; probe is
    whether to search, measured what the search gives. *)
Definition checkNode (read : result error NodeConfig) (st : result error Status) (ver : result error Versions)
    (lim : result error (option SimulateLimits)) (probe : bool) (measured : Z → result error Z) : result error NodeReport :=
  nc ← read;
  match st with
  | Err e => Err ("node not reachable at " +:+ nc_Endpoint nc +:+ ": " +:+ e)%string
  | Ok st =>
      let report m := mkReport nc (s_LastRound st) (OldestRoundFor (reportArchival nc) (s_LastRound st))
        match ver with Ok v => Some (v_Build v) | Err _ => None end match lim with Ok l => l | Err _ => None end m in
      if probe then m ← measured (s_LastRound st); Ok (report (Some m)) else Ok (report None)
  end.

(** What check-node reports is what the monitor goes by: the oldest round it
    calls configured is the one the monitor derives from the same
    configuration and round, when the operator overrides nothing, and the
    limits it prints are those the monitor comes online with. *)
Theorem check_node_reports_monitor nc st ver lim probe measured report m :
  checkNode (Ok nc) (Ok st) ver lim probe measured = Ok report →
  let online := mo_state (Monitor.tryOnline None (Monitor.readConfig None m (Ok nc)) (Ok st) ver lim).1 in
  rp_LastRound report = ls_LastRound online ∧ rp_ConfiguredOldest report = cap_OldestRound (ls_Caps online) ∧
  (∀ l, lim = Ok l → rp_SimulateLimits report = cap_Simulate (ls_Caps online)) ∧
  (∀ v, ver = Ok v → rp_Version report = Some (cap_AlgodVersion (ls_Caps online))).
Proof.
  intros H online. assert (E : ∃ x, report = mkReport nc (s_LastRound st) (OldestRoundFor (reportArchival nc) (s_LastRound st))
    match ver with Ok v => Some (v_Build v) | Err _ => None end match lim with Ok l => l | Err _ => None end x).
  { unfold checkNode in H. cbn in H. destruct probe; [destruct (measured _) as [x |]; [| done]; injection H as <-; by eexists | injection H as <-; by eexists]. }
  destruct E as (x & ->). unfold online. cbn. destruct ver, lim; cbn; unfold const; destruct (_ || _); cbn; split_and!; try done; intros ? [= ->]; done.
Qed.
