(* ===== verification/DevFleet.v ===== *)
(** * DevFleet: a fleet in one process
    (internal/devfleet/devfleet.go; the specs of `dev`, cmd/algod-mesh/main.go)

    What [Start] builds for each node and balancer: its configuration, its key,
    its gossip addresses and its fake node.  Running them is the agents' own.
    The theorems are what keeps the agents of one process apart. *)
From S2P Require Import Prelude GoFloat GoStrings GoTime Types Codec Addrs RateConfig Config ConfigLaws Agent FakeAlgod AlgodLaws.
From stdpp Require Import pretty.
From Stdlib Require Import Ascii.
Open Scope Z_scope.

Record NodeSpec := mkSpec {
  sp_ID : string;
  sp_StartRound : Z;
  sp_Archival : bool;
  sp_Lookback : Z;
  sp_OldestRound : Z;
  sp_DeveloperAPI : bool;
  sp_FollowMode : bool;
  sp_TimeTravel : bool;
  sp_Tier : Z;
  sp_Nets : option (list Z)
}.

Record FleetOptions := mkFleet {
  fo_Nodes : list NodeSpec;
  fo_Balancers : list string;
  fo_GenesisID : string;
  fo_Mode : string;
  fo_ClientToken : string;
  fo_AdminToken : string;
  fo_SyncTolerance : Z;
  fo_ReturnHysteresis : Z;
  fo_LagGrace : Duration;
  fo_Externals : list External;
  fo_KeepAlive : Duration;
  fo_SuspectAfter : Duration;
  fo_ProbeInterval : Duration;
  fo_PathProbeInterval : Duration;
  fo_PathTimeout : Duration;
  fo_Nets : Z;
  fo_RegistryRefresh : Duration;
  fo_RateLimit : RateLimit;
  fo_WaitTimeout : Duration
}.

(** The defaults at the head of Start. *)
Definition fleetDefaults (o : FleetOptions) : FleetOptions :=
  o <| fo_GenesisID ::= λ g, if g =s "" then "devnet-v1"%string else g |>
    <| fo_KeepAlive ::= λ d, or_dur d (300 * Millisecond) |> <| fo_SuspectAfter ::= λ d, or_dur d Second |>
    <| fo_ProbeInterval ::= λ d, or_dur d (500 * Millisecond) |> <| fo_PathProbeInterval ::= λ d, or_dur d (2 * Second) |>
    <| fo_PathTimeout ::= λ d, or_dur d (200 * Millisecond) |> <| fo_Nets ::= λ n, or_dur n 1 |>
    <| fo_RegistryRefresh ::= λ d, or_dur d Second |> <| fo_LagGrace ::= λ d, or_dur d (400 * Millisecond) |>.

(** The agent's address on a net. *)
Definition netAddr (id : string) (i : nat) : string :=
  if (i =? 0)%nat then "mem:" +:+ id else "mem" +:+ pretty (Z.of_nat i) +:+ ":" +:+ id.

(** NetAddrs: one per net, "" where it is not on the net.  None: a panic, for
    fewer than no nets. *)
Definition NetAddrs (id : string) (nets : Z) (on : option (list Z)) : option (list string) :=
  if nets <? 0 then None
  else Some ((λ i, match on with
                   | Some on => if existsb (Z.eqb (Z.of_nat i)) on then netAddr id i else ""%string
                   | None => netAddr id i
                   end) <$> seq 0 (Z.to_nat nets)).

Definition specsOf (o : FleetOptions) : list NodeSpec :=
  fo_Nodes o ++ ((λ id, mkSpec id 0 false 0 0 false false false 0 None) <$> fo_Balancers o).

Definition specID (i : nat) (spec : NodeSpec) : string := if sp_ID spec =s "" then "n" +:+ pretty (Z.of_nat i + 1) else sp_ID spec.

Definition material : string := "devfleet-shared-secret-material-32b".

(** How Start ends without a fleet. *)
Inductive Stop :=
  | Failed (e : string)
  | Panicked.

Definition failed {A} (r : result string A) : result Stop A := match r with Ok a => Ok a | Err e => Err (Failed e) end.

(** One agent as Start makes it; its configuration as agent.New has it. *)
Record FleetAgent := mkFleetAgent {
  fa_ID : string;
  fa_Config : Config;
  fa_Key : string;
  fa_Addrs : list string;
  fa_Node : option (Node * ConfigReader)      (* the fake algod, and the reader of its configuration *)
}.

Section Fleet.
Context (cr : Crypto) (NewKeyFromSeed : string → string) (finish : Config → result string Config).
(** The address the i-th fake node listens on. *)
Context (nodeURL : nat → string).

Definition fakeOptions (o : FleetOptions) (id : string) (spec : NodeSpec) : Options :=
  mkOptions id "" (fo_GenesisID o) (sp_StartRound spec) (sp_OldestRound spec) (sp_DeveloperAPI spec) (sp_FollowMode spec) (sp_TimeTravel spec) "" None.

(** Its state file: one per agent when there are several. *)
Definition stateFile (o : FleetOptions) (id : string) : string :=
  let f := rl_StateFile (fo_RateLimit o) in
  if (f <>s "") && (1 <? Z.of_nat (length (specsOf o))) then (f +:+ "." +:+ id)%string else f.

(** The configuration before Finish; o has its defaults. *)
Definition agentConfig (o : FleetOptions) (i : nat) (id : string) (spec : NodeSpec) (addrs : list string) : Config :=
  let balancer := (length (fo_Nodes o) <=? i)%nat in
  mkConfig (if balancer then RoleBalancer else "") (fo_Mode o) ["127.0.0.1:0"%string] (fo_ClientToken o) "" (fo_AdminToken o) "" (mkLog "" false)
    (mkLocal id (if balancer then "" else "/dev/null") (if balancer then fo_GenesisID o else "") (if balancer then [] else [nodeURL i]) []
       (if balancer then 0 else sp_Tier spec) [] None (fo_WaitTimeout o) 0)
    (mkReg "memory" 0 "" "" "" "" "" (fo_RegistryRefresh o) None "" "" [])
    (mkMesh [] (List.filter (λ a, a <>s "") addrs) "" (fo_SuspectAfter o) (wi64 (3 * fo_SuspectAfter o)) (fo_ProbeInterval o)
       (fo_KeepAlive o) (fo_PathProbeInterval o) (fo_PathTimeout o) ∅)
    (fo_Externals o)
    (mkRouting (fo_SyncTolerance o) (fo_LagGrace o) (fo_ReturnHysteresis o) false None (10 * Second) 0 0 0 (mkBreaker 0 (2 * Second)) [])
    ((fo_RateLimit o) <| rl_StateFile := stateFile o id |>).

Definition startAgent (o : FleetOptions) (i : nat) (spec : NodeSpec) : result Stop FleetAgent :=
  let id := specID i spec in
  key ← failed (AgentKey cr NewKeyFromSeed material id);
  addrs ← (match NetAddrs id (fo_Nets o) (sp_Nets spec) with Some l => Ok l | None => Err Panicked end);
  cfg ← failed (finish (agentConfig o i id spec addrs));
  cfg ← failed (finish cfg);                             (* agent.New's *)
  Ok (mkFleetAgent id cfg key addrs
        (if (length (fo_Nodes o) <=? i)%nat then None
         else Some (New (fakeOptions o id spec),
                    mkConfigReader (sp_Archival spec) (sp_Lookback spec) (sp_DeveloperAPI spec) (sp_FollowMode spec) (sp_TimeTravel spec)))).

(** The loop of Start: the first error ends it. *)
Fixpoint startAll (o : FleetOptions) (i : nat) (specs : list NodeSpec) : result Stop (list FleetAgent) :=
  match specs with
  | [] => Ok []
  | spec :: specs => a ← startAgent o i spec; rest ← startAll o (S i) specs; Ok (a :: rest)
  end.

Definition Start (o : FleetOptions) : result Stop (list FleetAgent) := let o := fleetDefaults o in startAll o 0 (specsOf o).

(** Advance: every fake node by k rounds. *)
Definition AdvanceAll (k : Z) (agents : list FleetAgent) : list FleetAgent :=
  (λ a, a <| fa_Node ::= fmap (λ n, (Advance k n.1 n.1, n.2)) |>) <$> agents.

(** AgentPubKey: None is the panic of an empty key. *)
Definition AgentPubKey (Public : string → string) (id : string) : option string :=
  match AgentKey cr NewKeyFromSeed material id with Ok k => Some (Public k) | Err _ => None end.
End Fleet.

(** The fleet of `dev`: the first node archival, the last with the developer
    API and time travel, the others keeping the last 1000 rounds. *)
Definition devSpecs (n : nat) : list NodeSpec :=
  (λ i, mkSpec ("dev" +:+ pretty (Z.of_nat i + 1)) 5000 (i =? 0)%nat 0 (if (0 <? i)%nat then 4000 else 0) (i =? n - 1)%nat false (i =? n - 1)%nat 1 None) <$> seq 0 n.
Definition devBalancers (n : nat) : list string := (λ i, "lb" +:+ pretty (Z.of_nat i + 1)) <$> seq 0 n.

(** ** The agents of one process are apart *)

(** An address says its net and its agent. *)
Definition netName (i : nat) : string := if (i =? 0)%nat then "mem" else "mem" +:+ pretty (Z.of_nat i).

Lemma netAddr_cut id i : Z.of_nat i < two64 → cut ":" (netAddr id i) = (netName i, id, true).
Proof.
  intros Hi. assert (E : netAddr id i = netName i +:+ String ":" id) by (unfold netAddr, netName; destruct (i =? 0)%nat; reflexivity).
  rewrite E. apply cut_at. unfold netName. destruct (i =? 0)%nat; [done |].
  destruct (pretty_u64 (Z.of_nat i)) as [Hd _]; [unfold is_u64; lia |]. exact (digits_without ":" _ eq_refl Hd).
Qed.

Lemma NetAddrs_id id nets on l x : nets < two64 → NetAddrs id nets on = Some l → x ∈ l → x ≠ ""%string → ∃ name, cut ":" x = (name, id, true).
Proof.
  unfold NetAddrs. intros Hn. destruct (nets <? 0) eqn:E0; [done |]. intros [= <-] (i & -> & Hi%elem_of_seq)%list_elem_of_fmap Hx. exists (netName i).
  destruct on as [on |]; [destruct (existsb _ _); [| done] |]; apply netAddr_cut; lia.
Qed.

Section Apart.
Context (cr : Crypto) (NewKeyFromSeed : string → string) (finish : Config → result string Config) (nodeURL : nat → string).

Lemma startAll_nth o specs : ∀ i agents k a,
  startAll cr NewKeyFromSeed finish nodeURL o i specs = Ok agents → agents !! k = Some a →
  ∃ spec, specs !! k = Some spec ∧ startAgent cr NewKeyFromSeed finish nodeURL o (i + k) spec = Ok a.
Proof.
  induction specs as [| spec specs IH]; intros i agents k a; cbn [startAll]; [by intros [= <-] |].
  destruct (startAgent _ _ _ _ o i spec) as [a0 |] eqn:Ea; [| done]. cbn. destruct (startAll _ _ _ _ o (S i) specs) as [rest |] eqn:Er; [| done].
  cbn. intros [= <-]. destruct k as [| k]; cbn; [intros [= <-]; exists spec; by rewrite Nat.add_0_r | intros Hk].
  destruct (IH (S i) rest k a Er Hk) as (s & Hs & Hst). exists s. by rewrite Nat.add_succ_r.
Qed.

Lemma startAll_length o specs : ∀ i agents, startAll cr NewKeyFromSeed finish nodeURL o i specs = Ok agents → length agents = length specs.
Proof.
  induction specs as [| spec specs IH]; intros i agents; cbn [startAll]; [by intros [= <-] |].
  destruct (startAgent _ _ _ _ o i spec); [| done]. cbn. destruct (startAll _ _ _ _ o (S i) specs) eqn:Er; [| done]. cbn. intros [= <-]. cbn. by rewrite (IH _ _ Er).
Qed.

(** A fleet that starts has an agent for every node and every balancer, in that
    order, the nodes' with a fake node and the balancers' without; each signs
    with the key whose public half [AgentPubKey] gives for its id; and two agents with
    different ids share no gossip address, so neither takes the other's place
    on the hub. *)
Theorem fleet_apart o agents :
  Start cr NewKeyFromSeed finish nodeURL o = Ok agents → fo_Nets (fleetDefaults o) < two64 →
  length agents = (length (fo_Nodes o) + length (fo_Balancers o))%nat ∧
  (∀ Public i a, agents !! i = Some a → AgentPubKey cr NewKeyFromSeed Public (fa_ID a) = Some (Public (fa_Key a)) ∧ (fa_Node a = None ↔ (length (fo_Nodes o) <= i)%nat)) ∧
  (∀ i k a b x, agents !! i = Some a → agents !! k = Some b → x ∈ fa_Addrs a → x ∈ fa_Addrs b → x ≠ ""%string → fa_ID a = fa_ID b).
Proof.
  unfold Start. intros HS Hn. set (o' := fleetDefaults o) in *.
  assert (Ha : ∀ i a, agents !! i = Some a → ∃ spec, AgentKey cr NewKeyFromSeed material (fa_ID a) = Ok (fa_Key a) ∧
    (fa_Node a = None ↔ (length (fo_Nodes o) <= i)%nat) ∧ NetAddrs (fa_ID a) (fo_Nets o') (sp_Nets spec) = Some (fa_Addrs a)).
  { intros i a Hi. destruct (startAll_nth o' _ 0 agents i a HS Hi) as (spec & _ & E). exists spec. unfold startAgent in E. cbn [Nat.add] in E.
    destruct (AgentKey _ _ _ _) as [key |] eqn:Ek; [| done]. cbn in E. destruct (NetAddrs _ _ _) as [addrs |] eqn:En; [| done]. cbn in E.
    destruct (finish _) as [cfg |]; [| done]. cbn in E. destruct (finish cfg) as [cfg2 |]; [| done]. cbn in E. injection E as <-. cbn.
    split; [done | split; [| done]]. change (length (fo_Nodes o')) with (length (fo_Nodes o)).
    destruct (Nat.leb_spec (length (fo_Nodes o)) i); split; intros ?; first [done | lia]. }
  split; [| split].
  - rewrite (startAll_length _ _ _ _ HS). unfold specsOf. by rewrite length_app, length_fmap.
  - intros Public i a Hi. destruct (Ha i a Hi) as (_ & E & ? & _). split; [unfold AgentPubKey; by rewrite E | done].
  - intros i k a b x Hi Hk Hxa Hxb Hx. destruct (Ha i a Hi) as (s1 & _ & _ & E1), (Ha k b Hk) as (s2 & _ & _ & E2).
    destruct (NetAddrs_id _ _ _ _ _ Hn E1 Hxa Hx) as (n1 & C1), (NetAddrs_id _ _ _ _ _ Hn E2 Hxb Hx) as (n2 & C2). congruence.
Qed.
End Apart.

(** The fleet of `dev -nodes 2 -balancers 1`, but for its timings. *)
Definition devFleet : FleetOptions :=
  mkFleet (devSpecs 2) (devBalancers 1) "" "fallback" "" "" 0 3 0 [] 0 0 0 0 0 2 0 noLimits 0.

Definition devAgents : list FleetAgent :=
  match Start toyCrypto (λ s, s) runFinish (λ i, "http://127.0.0.1:900" +:+ pretty (Z.of_nat i)) devFleet with Ok l => l | Err _ => [] end.

Lemma fleet_apart_witness :
  (fa_ID <$> devAgents) = ["dev1"; "dev2"; "lb1"]%string ∧ (fa_Addrs <$> devAgents) = [["mem:dev1"; "mem1:dev1"]; ["mem:dev2"; "mem1:dev2"]; ["mem:lb1"; "mem1:lb1"]]%string ∧
  length devAgents = 3%nat.
Proof.
  split; [vm_compute; reflexivity | split; [vm_compute; reflexivity |]].
  destruct (Start toyCrypto (λ s, s) runFinish (λ i, "http://127.0.0.1:900" +:+ pretty (Z.of_nat i)) devFleet) as [l | e] eqn:E; [| vm_compute in E; discriminate E].
  unfold devAgents. rewrite E. apply (fleet_apart toyCrypto (λ s, s) runFinish _ devFleet l E). vm_compute. reflexivity.
Defined.
